(* ===== verification/_CoqProject ===== *)
-Q . S2P
Prelude.v
Utf8.v
Crypto.v
Access.v
Outbox.v
StataCode.v
StataOutput.v
PyText.v
Json.v
Wire.v
Registration.v
Channels.v
Client.v
Frames.v
Process.v
WinProcess.v
Launch.v
DynLib.v
RHeap.v
RJson.v
RDebugger.v
Interpreter.v
Comm.v
RComms.v
Kernel.v
Facade.v
Carpo.v
CarpoFacts.v
RConsole.v
RStart.v
Elara.v
Callisto.v
CallistoFacts.v
Server.v
History.v
Session.v
Registry.v
Shutdown.v
Creation.v
