(* ===== verification/Prelude.v ===== *)
(** * Jovian, verified: the root of the development

    Jovian runs Jupyter kernels for R, Stata and Python.  The repository's C++
    code, under src/native, has these parts:
    - _adrastea_ (src/adrastea): the kernel base, a static library: the
      transport (ZeroMQ sockets, threads, signatures), the kernel's request
      handlers, comms, the history, and the base class of every interpreter;
    - _elara_, _callisto_ and _carpo_: the R, Stata and Python interpreters,
      which implement adrastea's interpreter interface on top of the C interface
      of their language;
    - _themisto_ (src/themisto): the supervisor, a server process with an HTTP
      API to start, list, restart and stop kernels, and a WebSocket per session
      that relays the Jupyter messages of its kernel.

    A kernel starts: [Creation] (the supervisor's side, from the request for a
    session to its client) - [Process] or [WinProcess] (the process) - [Launch]
    (the command line, the environment) - [DynLib] (the language's library is
    found) - [RStart] (R and the kernel's R code), or [Carpo] - [Facade] (the
    five sockets are bound, the parts put together) - [Registration] (the ports,
    registered with the supervisor or written to a file) - [Client] (the
    supervisor dials them).

    A request travels: a client's WebSocket text - [Access] (the handshake's
    token) - [Registry] (which request types go to which channel) -
    [Client] (its sockets) - [Wire] (serialised and signed) - [Server] (three threads and
    their queues) - [Kernel] (the handler) - a language: [Callisto] (Stata),
    [Carpo] (Python) or [RStart], [RConsole] and [Elara] (R) - [Interpreter] (what it prints) - [Wire] -
    [Channels] (the publisher's and the supervisor's IOPub threads, the
    heartbeat) - [Session] (the poll loop of the supervisor) and
    [Frames] (what it makes of a message) - [Registry] (the connection that is its client now) - [Outbox] (the frames
    of the WebSocket).  Every station of this path is a file here.

    ** Files

    Each file opens with what it models.  Sources are relative to
    src/native/src.

    - [Prelude] (this file): [str] (a [std::string] as its bytes), the functions
      of [std::string] and [<algorithm>] the code uses, bounds of machine
      integers, [Result] (a value, an exception, or undefined behaviour), and
      the tactics and lemmas that the components share.
    - [Utf8]: the three hand-written treatments of UTF-8.  Section Spec is
      the specification (Unicode's well-formed sequences); [OneLine] is
      isOneLineOfUtf8 of adrastea/transport/common/zmq_serializer.cpp;
      [LoggerUtf8] the automaton of adrastea/utils/logger_impl.cpp;
      [Utf8Decoder] the repair of Stata's output (callisto/stata/stata_text.cpp).
    - [Crypto]: the interface of OpenSSL.
    - [Access]: themisto/access.cpp.
    - [Outbox]: themisto/outbox.hpp, the queue between the producers of a
      WebSocket's messages and the thread that sends them.
    - [StataCode], [StataOutput]: callisto/stata/stata_text.cpp, the functions
      that read the user's code and those that read what Stata printed.
    - [PyText]: text in carpo/interpreter_py.cpp: Python's code points and the
      kernel's UTF-8, the text functions of the bootstrap.
    - [Json]: the interface of nlohmann::json and what the program builds on it.
    - [Wire]: adrastea/transport/common/authentication.cpp and
      zmq_serializer.cpp, adrastea/core/messaging/message.cpp: messages, their
      frames and signatures, the deferred content.
    - [Registration]: adrastea/core/kernel/kernel_configuration.cpp (the
      connection file), transport/server/handshaking.cpp and
      transport/client/client_handshake_zmq.cpp: both halves of the registration.
    - [Channels]: transport/server/publisher.cpp, transport/client/client_iopub.cpp
      and client_heartbeat.cpp.
    - [Client]: transport/client/client_zmq_impl.cpp, dealer_channel.cpp and
      client_messenger.cpp: the supervisor's three sockets to a kernel.
    - [Frames]: a turn of the poll loop of themisto/session_registry.cpp, and the
      grammar of JSON in which its frames are read.
    - [Process]: themisto/kernel_process.cpp, on POSIX: arguments, environment,
      what the child prints, its life and its end; [WinProcess]: on Windows, with
      the handles it opens and closes.
    - [Launch]: the main programs elara/elara.cpp, carpo/carpo.cpp,
      callisto/callisto.cpp and their bridge/engine.cpp; themisto/main.cpp and
      activity.hpp.
    - [DynLib]: elara/r/r_dynlib.cpp and carpo/py/py_dynlib.cpp: where R's and
      Python's libraries are looked for, and their symbols.
    - [RHeap]: R's heap and its collector, and the calls of elara/r/rtools.hpp on
      it; [RStart]: the constructor and configureImpl of elara/r/interpreter_r.cpp,
      the parsing of a cell, elara/log.hpp.
    - [RJson]: elara/r/routine.cpp, R values as JSON and back.
    - [RDebugger]: elara/r/debugger_r.cpp: the debug requests and R stopped at a
      prompt, on two threads.
    - [Interpreter]: adrastea/core/execution/interpreter.cpp: what an interpreter
      publishes, and the coalescing of text output.
    - [Comm]: adrastea/core/messaging/comm.cpp: comm objects in a heap, their
      registry, and messages to them; [RComms]: elara/r/comm_r.cpp, the comms of
      R code on top of it.
    - [Kernel]: adrastea/core/kernel/kernel_core.cpp and the replies of
      adrastea/utils/helper.cpp: the dispatch and the handlers.
    - [Facade]: adrastea/core/kernel/kernel.cpp, the constructor of
      transport/server/server_zmq_impl.cpp, transport/common/middleware.cpp,
      transport/server.cpp, utils/logger_impl.cpp: a kernel put together, its
      sockets, callbacks and logger, and the programs around it.
    - [Carpo]: carpo/interpreter_py.cpp, the Python interpreter as a
      [Kernel.Language]; [CarpoFacts]: its theorems.
    - [RConsole]: elara/r/interpreter_r.cpp: R's console loop, the cells it runs,
      input and output, errors and interrupts, and the routines of routine.cpp
      that R code calls meanwhile; [Elara]: its other requests, and the whole as
      a [Kernel.Language].
    - [Callisto]: callisto/interpreter_stata.cpp, stata/stata_dynlib.cpp and
      plugin/callisto_plugin.cpp, the Stata interpreter as a [Kernel.Language];
      [CallistoFacts]: its theorems.
    - [Server]: adrastea/transport/server (server_zmq_impl.cpp, server_zmq.cpp,
      server_zmq_default.cpp) and transport/server.cpp: the threads, the polls,
      requests during an execution, the abort of a queue, the stop.
    - [History]: adrastea/core/history.
    - [Session]: the poll loop, the heartbeat's listener and the stop of a
      session (themisto/session_registry.cpp).
    - [Registry]: the rest of themisto/session_registry.cpp, http_api.cpp and
      ws_relay.cpp: sessions, HTTP routes, connections; [Creation]: the creation
      of a session, from its options to its client, with every failure;
      [Shutdown]: the end of the supervisor.

    ** How code is modelled

    A pure function of the source is a function of the same name.  A method
    that changes its object takes the object's state (a record with the
    members) and returns the new one.  What an object asks of another one
    (messages published, sent, logged) is recorded in a trace, in order, and
    the theorems are about these traces.  A handler of the kernel is a
    computation of the monad [Kernel.M] (state, trace, exceptions).  Undefined
    behaviour is a value ([Undefined]), so that its absence is part of a
    theorem.  Threads are steps: a step is what one thread does while it holds
    the lock, or between two points where another thread can come in; a
    theorem quantifies over all sequences of steps, which are all the
    interleavings.  Integers of the code are [Z]; where their width matters,
    the wrap-around is written ([Utf8], [Outbox]).  Loops that are not
    structural have fuel, and the fuel is a bound computed from the input:
    the number of bytes left (queryParameter, isOneLineOfUtf8, the matching of
    a glob), the number of waiting messages (the queues of [Server]), or a
    constant of the code (the 120 turns of the stop of a session, twelve
    seconds in steps of 100 ms).  A theorem that depends on fuel says
    that the result is reached with it.

    Code that is not in the repository is a class of operations, and what the
    program relies on a class of laws, with an instance of both so that every
    definition can be evaluated and every law is known to be satisfiable:
    [Crypto.OpenSSL] (RAND_bytes, CRYPTO_memcmp, HMAC), [Json.JsonLib]
    (nlohmann::json), [Callisto.StataLib] and [Callisto.System] (Stata's library
    and the disk they share), [Carpo.Python] (the functions of the kernel's own
    Python code), [RHeap.RRuntime] (what R's calls may allocate and collect),
    [Facade.Network] (which end points can be bound), [Frames.JsonText] (the text
    the JSON library writes), [Comm.CommUser] (a target's callback and a comm's
    handlers).  Between components: [Kernel.Language] (an interpreter, discharged
    by [Callisto.callisto], [Carpo.carpo] and [Elara.elara]), [Comm.CommUser]
    (discharged by [RComms]) and [Kernel.HistoryManager] (discharged by History).
    A DEALER or ROUTER socket is the frames it passes on and the identities it
    puts before them.  R is a coroutine of the program, which owns the
    main thread: what it does is a sequence of events, over which the theorems
    of [RConsole] quantify, and what it and hera answer is an argument.  [History.other_regex] is std::regex on
    the patterns that no glob gives.  Behaviour of the operating system and of
    the network (the clock, which sockets have messages, whether a process is
    alive, whether a write works) is an argument of the operation or a step.

    ** What the theorems show

    - The execution of a cell: [Kernel.execute_cell] gives the whole sequence
      that a client sees, also when the language throws;
      [Kernel.execute_cell_late] does for a language that replies later;
      [Kernel.dispatch_bracket] brackets every other request between busy and
      idle with at most one reply; [Kernel.malformed_requests] has the requests
      for which this fails.  [Interpreter.streams_conserve],
      [Interpreter.output_in_order] and [Interpreter.execution_reply_last]: no
      text is lost, and the order of output, results and reply.
    - The R kernel: [Elara.r_kernel_cell] is the whole of a cell, from the
      request through R's console loop to idle; [RConsole.r_cell] is the loop's
      part, for any cell whose expressions end, fail or break;
      [RConsole.cells_answered], [RConsole.interrupt_ends_cell] and
      [RConsole.lines_fit] hold whatever R does.  [RStart.cell_parsed],
      [RStart.kernel_code_loaded] and [RHeap.invokeHeraFn_called]: no object that
      the collector may have freed is used.  [RComms.r_comms_safe] and
      [RComms.r_handlers_called]: the comms of R code.  [RDebugger.jobs_answered] and
      [RDebugger.stopped_resumes]: no debug request is answered twice or left,
      and R goes on.  [RJson.conversions_typed], [RJson.json_roundtrip].
    - The Stata kernel: [CallistoFacts.stata_cell] (a cell, end to end),
      [CallistoFacts.cell_output], [CallistoFacts.data_request_commands],
      [CallistoFacts.plugin_rows], [CallistoFacts.command_names].
    - The Python kernel: [CarpoFacts.py_kernel_cell] (a cell, end to end),
      [CarpoFacts.python_cell], [CarpoFacts.interpreter_life],
      [CarpoFacts.table_page], [CarpoFacts.completion].
    - The start: [Creation.creation] (a session's creation over every failure),
      [DynLib.Py.py_api_complete], [Facade.kernel_reachable] (what is reported is
      what is bound, and what the client dials), [Launch.launch_registers] (from the command line to the
      registration), [Registration.registration_wait] and
      [Registration.registration_agreement], [Process.start_correct],
      [Process.process_life], [WinProcess.windows_process],
      [Launch.idle_shutdown].
    - The channels: [Client.client_conversation] (a request and what is answered
      to it), [Client.stop_bounded], [Facade.logging_transparent],
      [Channels.output_reaches_client],
      [Channels.iopub_delivery], [Channels.heartbeat_verdict].
    - The server: [Server.requests_conserved] (no request is lost, handled twice
      or overtaken, under every interleaving), [Server.polls_drain],
      [Server.queued_behind], [Server.stop_final], [Server.serve_until_stopped].
    - The protocol: [Wire.deserialize_authentic] (what is accepted is signed)
      and [Wire.serialize_roundtrip].
    - Text: [Utf8.OneLine.isOneLineOfUtf8_correct],
      [Utf8.LoggerUtf8.isUtf8Valid_correct], [Utf8.Utf8Decoder.decode_correct]
      against one specification, and the theorems of [StataCode] and
      [StataOutput], with round trips against a model of what Stata prints.
    - The supervisor: [Access.check_correct], [Access.newToken_correct] and
      [Access.queryParameter_encode] (who may use it);
      [Registry.requests_allowed] (what can reach a kernel);
      [Registry.http_sessions] and [Registry.newest_connection];
      [Shutdown.no_kernel_left];
      [Session.session_relays] and [Session.stop_orderly];
      [Frames.turn_relays] and [Frames.large_frame] (a frame of every message,
      and what a frame says); the delivery of the
      messages in [Outbox.execute_correct] and [Outbox.stopped_drains].
    - Comms and history: [Comm.comm_registry_sound] (memory safety of the
      registry), [Comm.comm_lifecycle]; [History.history_search],
      [History.history_slices].

    Some inputs on which the code does not do what it means to are recorded as
    lemmas beside the definitions, for example
    [Wire.verify_reads_past_the_end], [Comm.uninitialised_flag_dangles],
    [Server.answered_out_of_order], [Session.last_messages_lost],
    [History.backslash_is_not_escaped], [Registration.deadline_restarts],
    [Channels.signal_lost], [Process.stopped_child_survives_kill],
    [Process.trailing_backslash], [Launch.minutes_not_a_number],
    [CallistoFacts.far_page_overflows], [RJson.nested_data_frame_reads_past_the_end],
    [RDebugger.malformed_job_unwinds_R], [RDebugger.output_taken_for_a_location],
    [RConsole.readline_with_the_top_prompt], [RConsole.readline_twice_frees_the_cell],
    [RConsole.error_in_print_is_lost], [Client.dead_heartbeat],
    [Facade.FacadeToy.ipc_unreachable], [Frames.FramesToy.topic_ends_supervisor],
    [RHeap.Toy.first_call_dangles], [RStart.Start.profile_prints],
    [WinProcess.Toy.still_active].

    ** What is not modelled

    ZeroMQ's and Beast's own code, sockets, threads and files as such; what the
    code only asks of R, Stata, Python and hera (their answers are arguments);
    the code the kernels carry in other languages (Mata, hera, and Python's
    bootstrap but for what [PyText] and [Carpo] translate); paths, process ids and time zones of the operating system
    (platform/system.cpp); what a listener of the client does; code in other
    languages (the TypeScript library, the R package).  Time is modelled only
    where the code compares it.  Memory is modelled where an object is shared
    ([Comm]'s heap, [RHeap]'s, [Registry]'s store of sessions, the cells of
    [RConsole] by identity).  Of the parts modelled, what is left is glue:
    virtual functions that only call their implementation, registrations of a
    callback, tables of function pointers. *)

From Stdlib Require Import Ascii String ZArith Lia.
From stdpp Require Export base list gmap strings.
From stdpp Require Import pretty.

(** ** Bytes and std::string

    A C++ [std::string] is a sequence of bytes: [str].  A byte is Rocq's
    [ascii]; [code] is its value as an [unsigned char] and [chr] the narrowing
    conversion back ([static_cast<char>]). *)

Declare Scope jovian_scope.
Delimit Scope jovian_scope with jovian.
Global Open Scope jovian_scope.

Abbreviation byte := ascii.
Abbreviation str := (list ascii).

Coercion String.list_ascii_of_string : String.string >-> list.

Definition code (c : byte) : Z := Z.of_N (N_of_ascii c).
Definition chr (z : Z) : byte := ascii_of_N (Z.to_N (z mod 256)).

Lemma code_range c : (0 <= code c < 256)%Z.
Proof.
  unfold code. pose proof (N_ascii_bounded c) as H. lia.
Qed.

Lemma code_inj c d : code c = code d -> c = d.
Proof.
  unfold code. intros H. apply N2Z.inj in H.
  rewrite <- (ascii_N_embedding c), <- (ascii_N_embedding d). congruence.
Qed.

Lemma code_chr z : code (chr z) = (z mod 256)%Z.
Proof.
  unfold code, chr. pose proof (Z.mod_pos_bound z 256 ltac:(lia)) as H.
  rewrite N_ascii_embedding by lia. lia.
Qed.

Lemma chr_code c : chr (code c) = c.
Proof.
  apply code_inj. rewrite code_chr. pose proof (code_range c).
  rewrite Z.mod_small; lia.
Qed.

(** All 256 bytes, for the facts about one byte that are checked by
    evaluation. *)
Definition all_bytes : list byte := List.map ascii_of_nat (List.seq 0 256).

Lemma all_bytes_complete c : In c all_bytes.
Proof.
  unfold all_bytes. apply in_map_iff. exists (nat_of_ascii c).
  split; [apply ascii_nat_embedding |].
  apply in_seq. pose proof (nat_ascii_bounded c). lia.
Qed.

Lemma forall_bytes (P : byte -> bool) :
  List.forallb P all_bytes = true -> forall c, P c = true.
Proof.
  intros H c. rewrite List.forallb_forall in H. apply H, all_bytes_complete.
Qed.

(** [by_bytes c]: proves a decidable boolean fact about the byte [c] by
    evaluating it on all of them. *)
Ltac by_bytes c :=
  revert c; apply forall_bytes; vm_compute; reflexivity.

(** ** Results of code that may throw

    [Undefined] is what C++ leaves undefined (a read past the end of a buffer,
    a missing key of a const json) or what ends the process (an assertion). *)

Inductive result (A : Type) : Type :=
| Ok (a : A)
| Throw (what : str)
| Undefined.
Arguments Ok {A} a.
Arguments Throw {A} what.
Arguments Undefined {A}.

Notation "'let?' x ':=' e1 'in' e2" :=
  (match e1 with Ok x => e2 | Throw w => Throw w | Undefined => Undefined end)
  (at level 10, x pattern, e1 at level 200, e2 at level 200) : jovian_scope.

Definition is_ok {A} (r : result A) : bool :=
  match r with Ok _ => true | _ => false end.

(** ** Machine integers *)

(** [int] (32 bits, two's complement) and [uint32_t] / [uint64_t]. *)
Definition wrap_int (z : Z) : Z := ((z + 2 ^ 31) mod 2 ^ 32 - 2 ^ 31)%Z.
Definition wrap_u32 (z : Z) : Z := (z mod 2 ^ 32)%Z.
Definition wrap_u64 (z : Z) : Z := (z mod 2 ^ 64)%Z.

Lemma wrap_int_small z : (- 2 ^ 31 <= z < 2 ^ 31)%Z -> wrap_int z = z.
Proof. intros H. unfold wrap_int. rewrite Z.mod_small; lia. Qed.

(** [std::clamp] *)
Definition clamp (v lo hi : Z) : Z :=
  if (v <? lo)%Z then lo else if (hi <? v)%Z then hi else v.

Lemma clamp_range v lo hi : (lo <= hi)%Z -> (lo <= clamp v lo hi <= hi)%Z.
Proof.
  intros H. unfold clamp.
  destruct (Z.ltb_spec v lo), (Z.ltb_spec hi v); lia.
Qed.

(** [std::to_string] *)
Definition to_string (z : Z) : str := String.list_ascii_of_string (pretty z).

Lemma pretty_N_go_Forall (P : ascii -> Prop) x : (forall m, P (pretty_N_char m)) ->
  forall s : String.string, Forall P s -> Forall P (pretty_N_go x s).
Proof.
  intros HP. induction (N.lt_wf_0 x) as [x _ IH]. intros s Hs. destruct (decide (x = 0%N)) as [-> | Hx]; [by rewrite pretty_N_go_0 |].
  rewrite pretty_N_go_step by lia. apply IH; [apply N.div_lt; lia |]. constructor; [apply HP | exact Hs].
Qed.

(** The text of a number: its digits, after a sign when it is negative. *)
Lemma to_string_Forall (P : ascii -> Prop) z : (forall m, P (pretty_N_char m)) -> (0 <= z \/ P "-"%char)%Z -> Forall P (to_string z).
Proof.
  intros HP Hz. assert (forall n : N, Forall P (pretty n : String.string)) as Hn.
  { intros n. unfold pretty, pretty_N. destruct (decide _); [constructor; [exact (HP 0%N) | constructor] |].
    apply pretty_N_go_Forall; [exact HP | constructor]. }
  unfold to_string. destruct z as [|p|p]; [exact (Hn 0%N) | apply Hn |]. constructor; [| apply Hn]. destruct Hz as [Hz | Hz]; [lia | exact Hz].
Qed.

(** [std::format("{:02x}", b)] *)
Definition format_02x (b : byte) : str :=
  let digit n := nth n (String.list_ascii_of_string "0123456789abcdef"%string) "0"%char in
  [digit (Z.to_nat (code b / 16)); digit (Z.to_nat (code b mod 16))].

Lemma format_02x_length b : length (format_02x b) = 2%nat.
Proof. done. Qed.

(** ** Strings as the code uses them *)

Definition str_eqb (a b : str) : bool := bool_decide (a = b).

Lemma str_eqb_eq a b : str_eqb a b = true <-> a = b.
Proof. apply bool_decide_eq_true. Qed.

Lemma str_eqb_refl a : str_eqb a a = true.
Proof. by apply str_eqb_eq. Qed.

Definition char_eqb (a b : byte) : bool := Ascii.eqb a b.

Lemma char_eqb_eq a b : char_eqb a b = true <-> a = b.
Proof. apply Ascii.eqb_eq. Qed.

Lemma char_eqb_neq a b : char_eqb a b = false <-> a <> b.
Proof. apply Ascii.eqb_neq. Qed.

Lemma char_eqb_refl a : char_eqb a a = true.
Proof. apply Ascii.eqb_refl. Qed.

(** [a < b] on strings: as [char_traits<char>] compares, by unsigned bytes. *)
Fixpoint str_lt (a b : str) : bool :=
  match a, b with
  | _, [] => false
  | [], _ :: _ => true
  | x :: a, y :: b => (code x <? code y)%Z || ((code x =? code y)%Z && str_lt a b)
  end.

Lemma str_lt_irrefl a : str_lt a a = false.
Proof. induction a as [|c a IH]; cbn; [done |]. by rewrite Z.ltb_irrefl, Z.eqb_refl, IH. Qed.

Lemma str_lt_trans a b c : str_lt a b = true -> str_lt b c = true -> str_lt a c = true.
Proof.
  revert b c. induction a as [|x a IH]; intros [|y b] [|z c]; cbn; try done.
  rewrite !orb_true_iff, !andb_true_iff, !Z.ltb_lt, !Z.eqb_eq. intros [H1 | [H1 H1']] [H2 | [H2 H2']]; try (left; lia).
  right. split; [lia | by eapply IH].
Qed.

Lemma str_lt_total a b : str_eqb a b = false -> str_lt a b = false -> str_lt b a = true.
Proof.
  unfold str_eqb. rewrite bool_decide_eq_false. revert b. induction a as [|x a IH]; intros [|y b] Hne; cbn; try done.
  rewrite orb_false_iff, Z.ltb_ge, orb_true_iff, andb_true_iff, Z.ltb_lt, Z.eqb_eq. intros [H1 H2].
  destruct (decide (code x = code y)) as [E | E]; [| left; lia]. right. split; [done |].
  rewrite E, Z.eqb_refl in H2. apply IH; [| done]. intros ->. apply Hne. f_equal. by apply code_inj.
Qed.

(** ** [std::map<std::string, V>]

    Its entries, in the order of their keys. *)
Section StringMap.
Context {V : Type}.
Implicit Types (m : list (str * V)) (nv : str * V).

(** [m[name] = value] *)
Fixpoint map_set (name : str) (value : V) m : list (str * V) :=
  match m with
  | [] => [(name, value)]
  | (n, v) :: rest =>
      if str_eqb name n then (name, value) :: rest
      else if str_lt name n then (name, value) :: m
      else (n, v) :: map_set name value rest
  end.

(** [m.find(name)] *)
Definition map_get (name : str) m : option V := snd <$> List.find (fun nv => str_eqb nv.1 name) m.

(** [m.erase(name)] *)
Definition map_erase (name : str) m : list (str * V) := List.filter (fun nv => negb (str_eqb nv.1 name)) m.

Lemma map_get_set name name' value m :
  map_get name (map_set name' value m) = if str_eqb name' name then Some value else map_get name m.
Proof.
  unfold map_get. induction m as [|[n v] m IH]; cbn; [by destruct (str_eqb name' name) |].
  destruct (str_eqb name' n) eqn:E; [apply str_eqb_eq in E as -> | destruct (str_lt name' n)]; cbn.
  - by destruct (str_eqb n name).
  - by destruct (str_eqb name' name).
  - destruct (str_eqb n name) eqn:En; [apply str_eqb_eq in En as -> | done]. by rewrite E.
Qed.

Lemma map_get_erase name name' m : map_get name (map_erase name' m) = if str_eqb name' name then None else map_get name m.
Proof.
  unfold map_get, map_erase. induction m as [|[n v] m IH]; cbn; [by destruct (str_eqb name' name) |].
  destruct (str_eqb n name') eqn:E; cbn; [apply str_eqb_eq in E as -> |].
  - rewrite IH. by destruct (str_eqb name' name).
  - destruct (str_eqb n name) eqn:En; [apply str_eqb_eq in En as -> | exact IH].
    destruct (str_eqb name' name) eqn:E'; [| done]. apply str_eqb_eq in E' as ->. by rewrite str_eqb_refl in E.
Qed.

(** The keys of a [std::map]: in order, each once. *)
Fixpoint sorted m : Prop :=
  match m with
  | [] => True
  | (n, _) :: rest => Forall (fun nv => str_lt n nv.1 = true) rest /\ sorted rest
  end.

Lemma map_set_in name value m nv : nv ∈ map_set name value m -> nv = (name, value) \/ (nv.1 <> name /\ nv ∈ m) \/ nv ∈ m.
Proof.
  induction m as [|[n v] m IH]; cbn; [rewrite list_elem_of_singleton; auto |].
  destruct (str_eqb name n), (str_lt name n); rewrite ?elem_of_cons; tauto.
Qed.

Lemma map_set_sorted name value m : sorted m -> sorted (map_set name value m).
Proof.
  induction m as [|[n v] m IH]; cbn; [by split; [constructor |] |]. intros [Hn Hs].
  destruct (str_eqb name n) eqn:E; [apply str_eqb_eq in E as ->; by split |].
  destruct (str_lt name n) eqn:Hlt.
  - split; [| by split]. constructor; [done |]. eapply Forall_impl; [exact Hn |]. intros nv. by apply str_lt_trans.
  - split; [| by apply IH]. rewrite Forall_forall in *. intros nv Hnv.
    destruct (map_set_in _ _ _ _ Hnv) as [-> | [[_ Hm] | Hm]]; [by apply str_lt_total | by apply Hn | by apply Hn].
Qed.

Lemma map_set_spec name value m nv : sorted m ->
  nv ∈ map_set name value m <-> nv = (name, value) \/ (nv.1 <> name /\ nv ∈ m).
Proof.
  induction m as [|[n v] m IH]; cbn; [intros _; rewrite list_elem_of_singleton, elem_of_nil; tauto |]. intros [Hn Hs].
  rewrite Forall_forall in Hn.
  destruct (str_eqb name n) eqn:E; [apply str_eqb_eq in E as -> | destruct (str_lt name n) eqn:Hlt]; rewrite !elem_of_cons.
  - split; [intros [-> | Hm]; [by left | right] | intros [-> | [Hne [-> | Hm]]]; [by left | done | by right]].
    split; [| by right]. intros Heq. specialize (Hn _ Hm). by rewrite Heq, str_lt_irrefl in Hn.
  - split; [intros [-> | [-> | Hm]]; [by left | right | right] | intros [-> | [Hne Hm]]; [by left | by right]].
    + split; [| by left]. cbn. intros ->. by rewrite str_eqb_refl in E.
    + split; [| by right]. intros Heq. specialize (Hn _ Hm). rewrite Heq in Hn.
      pose proof (str_lt_trans _ _ _ Hlt Hn) as H. by rewrite str_lt_irrefl in H.
  - rewrite (IH Hs). split.
    + intros [-> | [-> | [Hne Hm]]]; [right; split; [| by left] | by left | right; split; [done | by right]].
      cbn. intros ->. by rewrite str_eqb_refl in E.
    + intros [-> | [Hne [-> | Hm]]]; [by right; left | by left | by right; right].
Qed.

Lemma map_sets_spec l : forall m, sorted m ->
  let m' := fold_left (fun m nv => map_set nv.1 nv.2 m) l m in
  sorted m' /\ forall nv, nv ∈ m' <-> (exists before after, l = before ++ nv :: after /\ nv.1 ∉ after.*1) \/ (nv.1 ∉ l.*1 /\ nv ∈ m).
Proof.
  induction l as [|[n v] l IH]; intros m Hm; cbn.
  - split; [done |]. intros nv. split; [intros H; right; split; [apply not_elem_of_nil | done] |].
    intros [(before & after & H & _) | [_ H]]; [by destruct before | done].
  - destruct (IH _ (map_set_sorted n v m Hm)) as [Hs Hin]. split; [done |]. intros nv. rewrite Hin, map_set_spec by done.
    rewrite not_elem_of_cons. split.
    + intros [(before & after & -> & Hn) | [Hl [-> | [Hne Hnv]]]].
      * left. by exists ((n, v) :: before), after.
      * left. by exists [], l.
      * right. done.
    + intros [(before & after & Heq & Hn) | [[Hne Hl] Hnv]]; [| right; auto].
      destruct before as [|b before]; cbn in Heq; injection Heq as -> ->; [right; auto | left; by exists before, after].
Qed.

End StringMap.

Definition nul : byte := "000"%char.
Definition newline : byte := "010"%char.
Definition carriage_return : byte := "013"%char.

(** [s.rfind(p, 0) == 0]: [s] starts with [p]. *)
Fixpoint starts_with (p s : str) : bool :=
  match p, s with
  | [], _ => true
  | a :: p', b :: s' => char_eqb a b && starts_with p' s'
  | _ :: _, [] => false
  end.

Lemma starts_with_spec p s : starts_with p s = true <-> exists t, s = p ++ t.
Proof.
  revert s. induction p as [|a p IH]; intros s; simpl.
  - split; [eauto | done].
  - destruct s as [|b s].
    + split; [done | intros [t Ht]; done].
    + rewrite andb_true_iff, char_eqb_eq, IH. split.
      * intros [-> [t ->]]. by exists t.
      * intros [t Ht]. simplify_eq. eauto.
Qed.

Lemma starts_with_app p t : starts_with p (p ++ t) = true.
Proof. apply starts_with_spec. eauto. Qed.

(** [s.find(c)], as the text before and after the first [c]. *)
Fixpoint split_at (c : byte) (s : str) : option (str * str) :=
  match s with
  | [] => None
  | a :: s' =>
      if char_eqb a c then Some ([], s')
      else match split_at c s' with
           | Some (before, after) => Some (a :: before, after)
           | None => None
           end
  end.

Lemma split_at_Some c s a b :
  split_at c s = Some (a, b) -> s = a ++ c :: b /\ c ∉ a.
Proof.
  revert a b. induction s as [|x s IH]; intros a b; simpl; [done |].
  destruct (char_eqb x c) eqn:Hx.
  - intros [= <- <-]. apply char_eqb_eq in Hx as ->. split; [done | apply not_elem_of_nil].
  - destruct (split_at c s) as [[u v]|] eqn:Hs; [| done].
    intros [= <- <-]. destruct (IH u v eq_refl) as [-> Hu].
    apply char_eqb_neq in Hx. split; [done |].
    rewrite not_elem_of_cons. auto.
Qed.

Lemma split_at_None c s : split_at c s = None <-> c ∉ s.
Proof.
  induction s as [|x s IH]; simpl.
  - split; [intros _; apply not_elem_of_nil | done].
  - rewrite not_elem_of_cons. destruct (char_eqb x c) eqn:Hx.
    + apply char_eqb_eq in Hx as ->. split; [done | tauto].
    + apply char_eqb_neq in Hx.
      destruct (split_at c s) as [[u v]|] eqn:Hs.
      * split; [done |]. intros [_ H]. by apply IH in H.
      * split; [intros _; split; [congruence | by apply IH] | done].
Qed.

Lemma split_at_app c a b : c ∉ a -> split_at c (a ++ c :: b) = Some (a, b).
Proof.
  induction a as [|x a IH]; simpl; intros H.
  - by rewrite char_eqb_refl.
  - apply not_elem_of_cons in H as [Hx Ha].
    rewrite (proj2 (char_eqb_neq x c)) by congruence. by rewrite IH.
Qed.

(** The frames, lines or chunks [parts] joined with the separator [sep]. *)
Fixpoint join (sep : str) (parts : list str) : str :=
  match parts with
  | [] => []
  | [p] => p
  | p :: rest => p ++ sep ++ join sep rest
  end.

(** [s] cut at every [c]. *)
Fixpoint split_all (c : byte) (s : str) : list str :=
  match s with
  | [] => [[]]
  | a :: s' =>
      if char_eqb a c then [] :: split_all c s'
      else match split_all c s' with
           | p :: rest => (a :: p) :: rest
           | [] => [[a]]
           end
  end.

Lemma split_all_one c p : c ∉ p -> split_all c p = [p].
Proof.
  induction p as [|a p IH]; simpl; intros H; [done |].
  apply not_elem_of_cons in H as [Ha Hp].
  rewrite (proj2 (char_eqb_neq a c)) by congruence. by rewrite IH.
Qed.

Lemma split_all_app c p s :
  c ∉ p -> split_all c (p ++ c :: s) = p :: split_all c s.
Proof.
  induction p as [|a p IH]; simpl; intros H.
  - by rewrite char_eqb_refl.
  - apply not_elem_of_cons in H as [Ha Hp].
    rewrite (proj2 (char_eqb_neq a c)) by congruence. by rewrite IH.
Qed.

Lemma split_all_not_nil c s : split_all c s <> [].
Proof. destruct s as [|a s]; simpl; [done |]. destruct (char_eqb a c); [done |]. by destruct (split_all c s). Qed.

Lemma split_all_sep c a b : split_all c (a ++ c :: b) = split_all c a ++ split_all c b.
Proof.
  induction a as [|x a IH]; simpl.
  - by rewrite char_eqb_refl.
  - rewrite IH. destruct (char_eqb x c); [done |].
    pose proof (split_all_not_nil c a). by destruct (split_all c a).
Qed.

Lemma split_all_join c parts :
  parts <> [] -> Forall (fun p => c ∉ p) parts ->
  split_all c (join [c] parts) = parts.
Proof.
  intros Hne H. induction H as [|p parts Hp Hps IH]; [done |].
  destruct parts as [|q parts]; simpl.
  - by apply split_all_one.
  - rewrite split_all_app by done. f_equal. by apply IH.
Qed.

(** The longest start of [s], and its longest end, whose characters satisfy [f]. *)
Fixpoint take_while (f : byte -> bool) (s : str) : str :=
  match s with c :: rest => if f c then c :: take_while f rest else [] | [] => [] end.

Definition take_while_end (f : byte -> bool) (s : str) : str := rev (take_while f (rev s)).

(** A C string ends at its first zero byte ([c_str()]). *)
Definition c_str (s : str) : str := take_while (fun c => negb (char_eqb c nul)) s.

(** Induction for a loop that advances by one character or by two. *)
Lemma list_two_ind {A} (P : list A -> Prop) :
  P [] -> (forall c rest, P rest -> (forall n rest', rest = n :: rest' -> P rest') -> P (c :: rest)) ->
  forall l, P l.
Proof.
  intros H0 Hs l. enough (H : P l /\ forall x r, l = x :: r -> P r) by apply H.
  induction l as [|c rest [IH1 IH2]]; split; [done | done | | ].
  - by apply Hs.
  - intros x r [= <- <-]. done.
Qed.

(** ** Automation shared by the components *)

Create HintDb jovian.
#[export] Hint Resolve code_range str_eqb_refl char_eqb_refl starts_with_app : jovian.

(** Case analysis on the [if]s and [match]es of the goal. *)
Ltac cases :=
  repeat (case_match; simplify_eq/=).

Lemma and_iff_under (P Q R : Prop) : (P -> (Q <-> R)) -> (P /\ Q <-> P /\ R).
Proof. tauto. Qed.

(** Decides by [lia] the comparisons of the goal whose outcome the hypotheses
    fix. *)
Ltac cmp :=
  repeat match goal with
  | |- context [Z.ltb ?a ?b] =>
      first [rewrite (proj2 (Z.ltb_lt a b)) by lia | rewrite (proj2 (Z.ltb_ge a b)) by lia]
  | |- context [Z.leb ?a ?b] =>
      first [rewrite (proj2 (Z.leb_le a b)) by lia | rewrite (proj2 (Z.leb_gt a b)) by lia]
  | |- context [Z.eqb ?a ?b] =>
      first [rewrite (proj2 (Z.eqb_eq a b)) by lia | rewrite (proj2 (Z.eqb_neq a b)) by lia]
  end; cbn [andb orb negb].
