(* ===== verification/Utf8.v ===== *)
(** * UTF-8 in the kernels and the supervisor

    Three pieces of the program judge or repair UTF-8, each written by hand:
    - [isOneLineOfUtf8] (adrastea/transport/common/zmq_serializer.cpp) decides,
      eight bytes at a time, whether a message's content may be passed on as
      the text it is;
    - [decodeUtf8] / [isUtf8Valid] (adrastea/utils/logger_impl.cpp) is a table
      driven automaton;
    - [Utf8Decoder] (callisto/stata/stata_text.cpp) turns Stata's output, which
      comes in arbitrary chunks, into valid UTF-8.
    All three are proved against one specification, [utf8] (Unicode, table 3-7:
    well-formed byte sequences). *)

From Stdlib Require Import Ascii ZArith Lia.
From S2P Require Import Prelude.
Local Open Scope Z_scope.

(** ** The specification *)
Section Spec.

Definition is_cont (c : byte) : bool := (128 <=? code c) && (code c <=? 191).

(** The bounds the second byte has after a given lead byte. *)
Definition second_ok (a b : byte) : bool :=
  is_cont b
  && (negb (code a =? 0xE0) || (0xA0 <=? code b))
  && (negb (code a =? 0xED) || (code b <? 0xA0))
  && (negb (code a =? 0xF0) || (0x90 <=? code b))
  && (negb (code a =? 0xF4) || (code b <? 0x90)).

(** One well-formed character. *)
Inductive utf8_char : str -> Prop :=
| utf8_1 a : code a < 0x80 -> utf8_char [a]
| utf8_2 a b : 0xC2 <= code a <= 0xDF -> is_cont b = true -> utf8_char [a; b]
| utf8_3 a b c : 0xE0 <= code a <= 0xEF -> second_ok a b = true ->
    is_cont c = true -> utf8_char [a; b; c]
| utf8_4 a b c d : 0xF0 <= code a <= 0xF4 -> second_ok a b = true ->
    is_cont c = true -> is_cont d = true -> utf8_char [a; b; c; d].

(** Well-formed text: a sequence of characters. *)
Inductive utf8 : str -> Prop :=
| utf8_nil : utf8 []
| utf8_cons u s : utf8_char u -> utf8 s -> utf8 (u ++ s).

Lemma utf8_app s t : utf8 s -> utf8 t -> utf8 (s ++ t).
Proof.
  induction 1 as [|u s Hu Hs IH]; intros Ht; [done |].
  rewrite <- app_assoc. constructor; auto.
Qed.

Lemma utf8_one u : utf8_char u -> utf8 u.
Proof. intros H. rewrite <- (app_nil_r u). constructor; [done | constructor]. Qed.

(** How long the well-formed character at the front of a text is, if there
    is one: a character's first byte gives its length. *)
Definition char_length (s : str) : option nat :=
  match s with
  | [] => None
  | a :: s' =>
      if code a <? 0x80 then Some 1%nat
      else if (0xC2 <=? code a) && (code a <=? 0xDF) then
        match s' with
        | b :: _ => if is_cont b then Some 2%nat else None
        | _ => None
        end
      else if (0xE0 <=? code a) && (code a <=? 0xEF) then
        match s' with
        | b :: c :: _ => if second_ok a b && is_cont c then Some 3%nat else None
        | _ => None
        end
      else if (0xF0 <=? code a) && (code a <=? 0xF4) then
        match s' with
        | b :: c :: d :: _ =>
            if second_ok a b && is_cont c && is_cont d then Some 4%nat else None
        | _ => None
        end
      else None
  end.

Ltac bools :=
  repeat match goal with
  | H : (_ && _) = true |- _ => apply andb_true_iff in H as [? ?]
  | H : (_ <? _) = true |- _ => apply Z.ltb_lt in H
  | H : (_ <? _) = false |- _ => apply Z.ltb_ge in H
  | H : (_ <=? _) = true |- _ => apply Z.leb_le in H
  | H : (_ <=? _) = false |- _ => apply Z.leb_gt in H
  | H : (_ && _) = false |- _ => apply andb_false_iff in H as [H | H]
  end.

Local Ltac solve_char :=
  eexists; split; [reflexivity | split; [constructor; auto; lia | reflexivity]].

Lemma char_length_sound s n :
  char_length s = Some n -> exists u t, s = u ++ t /\ utf8_char u /\ length u = n.
Proof.
  unfold char_length. intros H. repeat case_match; simplify_eq; bools; try lia;
  solve [ eexists [_]; solve_char | eexists [_; _]; solve_char
        | eexists [_; _; _]; solve_char | eexists [_; _; _; _]; solve_char ].
Qed.

Lemma char_length_char u t : utf8_char u -> char_length (u ++ t) = Some (length u).
Proof.
  intros H. destruct H as [a Ha|a b Ha Hb|a b c Ha Hb Hc|a b c d Ha Hb Hc Hd]; simpl.
  - by rewrite (proj2 (Z.ltb_lt _ _)).
  - rewrite (proj2 (Z.ltb_ge _ _)) by lia.
    rewrite (proj2 (Z.leb_le 0xC2 _)), (proj2 (Z.leb_le _ 0xDF)) by lia.
    by rewrite Hb.
  - rewrite (proj2 (Z.ltb_ge _ _)) by lia.
    rewrite (proj2 (Z.leb_gt (code a) 0xDF)) by lia. rewrite andb_false_r.
    rewrite (proj2 (Z.leb_le 0xE0 _)), (proj2 (Z.leb_le _ 0xEF)) by lia.
    by rewrite Hb, Hc.
  - rewrite (proj2 (Z.ltb_ge _ _)) by lia.
    rewrite (proj2 (Z.leb_gt (code a) 0xDF)), andb_false_r by lia.
    rewrite (proj2 (Z.leb_gt (code a) 0xEF)), andb_false_r by lia.
    rewrite (proj2 (Z.leb_le 0xF0 _)), (proj2 (Z.leb_le _ 0xF4)) by lia.
    by rewrite Hb, Hc, Hd.
Qed.

Lemma utf8_char_nonempty u : utf8_char u -> u <> [].
Proof. by destruct 1. Qed.

(** The well-formed texts, read from the front. *)
Lemma utf8_unfold s :
  utf8 s <-> s = [] \/ exists n, char_length s = Some n /\ utf8 (drop n s).
Proof.
  split.
  - destruct 1 as [|u s Hu Hs]; [by left | right].
    exists (length u). split; [by apply char_length_char |].
    by rewrite drop_app_length.
  - intros [-> | (n & Hn & Hs)]; [constructor |].
    apply char_length_sound in Hn as (u & t & -> & Hu & <-).
    rewrite drop_app_length in Hs. by constructor.
Qed.

End Spec.

#[export] Hint Resolve utf8_nil utf8_app utf8_one : jovian.

(** ** [isOneLineOfUtf8]: one line of valid UTF-8, eight bytes at a time

    The position [i] of the source is the front of the remaining text [s]. *)
Module OneLine.

(** The 64-bit value [memcpy] reads from the next eight bytes (little
    endian, as every platform the program is built for is). *)
Definition word8 (s : str) : Z :=
  foldr (fun c acc => code c + 256 * acc) 0 (take 8 s).

(** native/src/adrastea/transport/common/zmq_serializer.cpp:103-106 *)
Definition block_breaks (v : Z) : bool :=
  negb (Z.land v 0x8080808080808080 =? 0)
  || negb (Z.land (Z.land (wrap_u64 (v - 0x2020202020202020)) (wrap_u64 (Z.lnot v)))
                  0x8080808080808080 =? 0).

(** native/src/adrastea/transport/common/zmq_serializer.cpp:98-108 *)
Fixpoint skip_ascii (fuel : nat) (s : str) : str :=
  match fuel with
  | O => s
  | S f =>
      if (8 <=? Z.of_nat (length s)) then
        if block_breaks (word8 s) then s else skip_ascii f (drop 8 s)
      else s
  end.

(** The length, the bits of the lead byte, and the smallest code point that
    needs the length (zmq_serializer.cpp:123-128). *)
Definition lead (c : Z) : option (nat * Z * Z) :=
  if Z.land c 0xE0 =? 0xC0 then Some (2%nat, Z.land c 0x1F, 0x80)
  else if Z.land c 0xF0 =? 0xE0 then Some (3%nat, Z.land c 0x0F, 0x800)
  else if Z.land c 0xF8 =? 0xF0 then Some (4%nat, Z.land c 0x07, 0x10000)
  else None.

(** The continuation bytes, added to the code point (:133-141). *)
Fixpoint continuation (acc : Z) (nexts : str) : option Z :=
  match nexts with
  | [] => Some acc
  | next :: rest =>
      if negb (Z.land (code next) 0xC0 =? 0x80) then None
      else continuation (Z.lor (wrap_u32 (Z.shiftl acc 6)) (Z.land (code next) 0x3F)) rest
  end.

(** One character that is not ASCII: how long it is, or [None] where the
    source returns false (:123-147). *)
Definition multibyte (c : byte) (rest : str) : option nat :=
  match lead (code c) with
  | None => None
  | Some (length, bits, smallest) =>
      if (Z.of_nat (S (List.length rest)) <? Z.of_nat length) then None
      else match continuation bits (take (length - 1) rest) with
           | None => None
           | Some cp =>
               if (cp <? smallest) || (0x10FFFF <? cp) || ((0xD800 <=? cp) && (cp <=? 0xDFFF))
               then None else Some length
           end
  end.

(** The loop; [None] only when [fuel] runs out. *)
Fixpoint loop (fuel : nat) (s : str) : option bool :=
  match fuel with
  | O => None
  | S f =>
      match skip_ascii (length s) s with
      | [] => Some true
      | c :: rest =>
          if code c <? 0x20 then Some false
          else if code c <? 0x80 then loop f rest
          else match multibyte c rest with
               | None => Some false
               | Some len => loop f (drop (len - 1) rest)
               end
      end
  end.

Definition isOneLineOfUtf8 (s : str) : option bool := loop (S (length s)) s.

(** What it decides. *)
Definition printable (c : byte) : Prop := 0x20 <= code c.
#[export] Instance printable_dec c : Decision (printable c) := Z_le_dec _ _.
Definition one_line (s : str) : Prop := utf8 s /\ Forall printable s.

(** *** The eight-byte test *)

Definition mask (n : nat) (b : Z) : Z := foldr (fun _ acc => b + 256 * acc) 0 (seq 0 n).

Lemma mask_S n b : mask (S n) b = b + 256 * mask n b.
Proof.
  unfold mask. simpl. f_equal. f_equal. generalize 0%nat at 2. generalize 1%nat.
  induction n as [|n IH]; intros i j; simpl; [done |]. by rewrite (IH (S i) (S j)).
Qed.

Definition word (s : str) : Z := foldr (fun c acc => code c + 256 * acc) 0 s.

Lemma word_range s : 0 <= word s < 256 ^ Z.of_nat (length s).
Proof.
  induction s as [|c s IH]; [done |].
  change (word (c :: s)) with (code c + 256 * word s).
  change (length (c :: s)) with (S (length s)).
  rewrite Nat2Z.inj_succ, Z.pow_succ_r by lia. pose proof (code_range c). lia.
Qed.

(** Bit 7 of byte [k] of the mask, of the word, and of the difference. *)
Lemma byte_bit k x y : 0 <= x < 256 -> 0 <= k ->
  Z.testbit (x + 256 * y) (8 * (k + 1) + 7) = Z.testbit y (8 * k + 7).
Proof.
  intros Hx Hk.
  replace (8 * (k + 1) + 7) with ((8 * k + 7) + 8) by lia.
  rewrite <- Z.shiftr_spec by lia. f_equal.
  rewrite Z.shiftr_div_pow2 by lia. change (2 ^ 8) with 256.
  symmetry. apply (Z.div_unique _ _ _ x); lia.
Qed.

Lemma byte_bit_0 x y : Z.testbit (x + 256 * y) 7 = (128 <=? x mod 256).
Proof.
  rewrite Z.testbit_eqb by lia. change (2 ^ 7) with 128.
  pose proof (Z.mod_pos_bound x 256 ltac:(lia)).
  replace (x + 256 * y) with ((x mod 256) + (2 * (x / 256 + y)) * 128)
    by (pose proof (Z.div_mod x 256 ltac:(lia)); lia).
  rewrite Z.div_add, Z.mul_comm, Z.mod_add by lia.
  destruct (Z.leb_spec 128 (x mod 256)).
  - replace (x mod 256 / 128) with 1; [done |].
    apply (Z.div_unique _ _ _ (x mod 256 - 128)); lia.
  - by rewrite Z.div_small by lia.
Qed.

Definition high (c : byte) : Prop := 0x80 <= code c.

Lemma word_bits s k : (k < length s)%nat ->
  Z.testbit (word s) (8 * Z.of_nat k + 7) = match s !! k with Some c => 128 <=? code c | None => false end.
Proof.
  revert k. induction s as [|c s IH]; intros k Hk; simpl in Hk; [lia |].
  change (word (c :: s)) with (code c + 256 * word s). pose proof (code_range c).
  destruct k as [|k].
  - change (8 * Z.of_nat 0 + 7) with 7. rewrite byte_bit_0. simpl. by rewrite Z.mod_small.
  - rewrite Nat2Z.inj_succ, <- Z.add_1_r, byte_bit by lia. by rewrite IH by lia.
Qed.

(** The borrow of the subtraction sets bit 7 of the lowest byte below 0x20;
    above a byte of at least 0x20 nothing is borrowed. *)
Lemma difference_bits s :
  Forall (fun c => code c < 128) s ->
  (exists k, (k < length s)%nat /\
     Z.testbit (word s - mask (length s) 0x20) (8 * Z.of_nat k + 7) = true)
  <-> ~ Forall printable s.
Proof.
  induction 1 as [|c s Hc Hs IH].
  - simpl. split; [intros (k & Hk & _); lia | intros H; destruct H; constructor].
  - change (word (c :: s)) with (code c + 256 * word s).
    change (length (c :: s)) with (S (length s)). rewrite mask_S.
    replace (code c + 256 * word s - (32 + 256 * mask (length s) 32))
      with ((code c - 32) + 256 * (word s - mask (length s) 32)) by lia.
    pose proof (code_range c). rewrite Forall_cons. unfold printable at 1.
    destruct (Z.ltb_spec (code c) 32) as [Hlow | Hge].
    + split; [intros _ [? _]; lia | intros _].
      exists 0%nat. split; [lia |]. change (8 * Z.of_nat 0 + 7) with 7.
      rewrite byte_bit_0.
      replace (code c - 32) with (code c + 224 + (-1) * 256) by lia.
      rewrite Z.mod_add, Z.mod_small by lia. apply Z.leb_le. lia.
    + split.
      * intros ([|k] & Hk & Hbit) [_ Hall].
        -- change (8 * Z.of_nat 0 + 7) with 7 in Hbit. rewrite byte_bit_0 in Hbit.
           rewrite Z.mod_small in Hbit by lia. apply Z.leb_le in Hbit. lia.
        -- rewrite Nat2Z.inj_succ, <- Z.add_1_r, byte_bit in Hbit by lia.
           apply IH; [exists k; split; [lia | done] | done].
      * intros Hnot. destruct (proj2 IH) as (k & Hk & Hbit); [tauto |].
        exists (S k). split; [lia |].
        by rewrite Nat2Z.inj_succ, <- Z.add_1_r, byte_bit by lia.
Qed.

Lemma high_mask_bits j : Z.testbit 0x8080808080808080 j = true <->
  exists k, (k < 8)%nat /\ j = 8 * Z.of_nat k + 7.
Proof.
  split.
  - intros H. destruct (Z.ltb_spec j 0) as [Hneg | Hpos].
    { by rewrite Z.testbit_neg_r in H. }
    destruct (Z.ltb_spec j 64) as [Hj | Hj].
    + assert (Hall : forallb (fun i => implb (Z.testbit 0x8080808080808080 (Z.of_nat i))
               (Z.of_nat i mod 8 =? 7)) (seq 0 64) = true) by (vm_compute; reflexivity).
      rewrite forallb_forall in Hall.
      assert (Hin : In (Z.to_nat j) (seq 0 64)) by (apply in_seq; lia).
      specialize (Hall _ Hin).
      rewrite Z2Nat.id, H in Hall by lia. cbn [implb] in Hall. apply Z.eqb_eq in Hall.
      exists (Z.to_nat (j / 8)).
      pose proof (Z.div_mod j 8 ltac:(lia)). pose proof (Z.div_pos j 8 Hpos ltac:(lia)). lia.
    + rewrite Z.bits_above_log2 in H; [done | lia |].
      change (Z.log2 0x8080808080808080) with 63. lia.
  - intros (k & Hk & ->). do 8 (destruct k as [|k]; [reflexivity |]). lia.
Qed.

Lemma land_mask_zero x :
  Z.land x 0x8080808080808080 = 0 <->
  forall k, (k < 8)%nat -> Z.testbit x (8 * Z.of_nat k + 7) = false.
Proof.
  split.
  - intros H k Hk. assert (Hb : Z.testbit (Z.land x 0x8080808080808080) (8 * Z.of_nat k + 7) = false)
      by (rewrite H; apply Z.bits_0).
    rewrite Z.land_spec, (proj2 (high_mask_bits _)), andb_true_r in Hb by eauto. done.
  - intros H. apply Z.bits_inj'. intros j _. rewrite Z.land_spec, Z.bits_0.
    destruct (Z.testbit 0x8080808080808080 j) eqn:Hj; [| apply andb_false_r].
    apply high_mask_bits in Hj as (k & Hk & ->). by rewrite H.
Qed.

Lemma wrap_u64_bit x k : (k < 8)%nat ->
  Z.testbit (wrap_u64 x) (8 * Z.of_nat k + 7) = Z.testbit x (8 * Z.of_nat k + 7).
Proof. intros Hk. unfold wrap_u64. apply Z.mod_pow2_bits_low. lia. Qed.

(** The eight-byte test is exact: it lets a block pass when each of its bytes
    is ASCII and none is a control character, and only then. *)
Lemma block_breaks_exact s : length s = 8%nat ->
  block_breaks (word s) = false <-> Forall (fun c => 0x20 <= code c < 0x80) s.
Proof.
  intros Hlen. unfold block_breaks.
  rewrite orb_false_iff, !negb_false_iff, !Z.eqb_eq, !land_mask_zero.
  assert (Hhigh : (forall k, (k < 8)%nat -> Z.testbit (word s) (8 * Z.of_nat k + 7) = false)
                  <-> Forall (fun c => code c < 128) s).
  { rewrite Forall_lookup. split.
    - intros H k c Hc. pose proof (lookup_lt_Some _ _ _ Hc) as Hk.
      specialize (H k ltac:(lia)). rewrite word_bits, Hc in H by done.
      by apply Z.leb_gt in H.
    - intros H k Hk. rewrite word_bits by lia. destruct (s !! k) eqn:Hc; [| done].
      apply Z.leb_gt. by eapply H. }
  rewrite Hhigh.
  assert (Hsplit : Forall (fun c => 32 <= code c < 128) s <->
                   Forall (fun c => code c < 128) s /\ Forall printable s).
  { rewrite !Forall_forall. unfold printable. firstorder lia. }
  rewrite Hsplit. apply and_iff_under. intros Hlow.
  pose proof (difference_bits s Hlow) as Hdiff. rewrite Hlen in Hdiff.
  change (mask 8 32) with 0x2020202020202020 in Hdiff.
  split.
  - intros H. destruct (decide (Forall printable s)) as [|Hnot]; [done |].
    apply Hdiff in Hnot as (k & Hk & Hbit). specialize (H k Hk).
    rewrite Z.land_spec, !wrap_u64_bit, Hbit, Z.lnot_spec, (proj2 Hhigh Hlow k Hk) in H by lia.
    done.
  - intros H k Hk. rewrite Z.land_spec, !wrap_u64_bit by done.
    destruct (Z.testbit (word s - 0x2020202020202020) (8 * Z.of_nat k + 7)) eqn:Hbit; [| done].
    exfalso. apply Hdiff; [by exists k | done].
Qed.

(** *** One character *)

(** The masks of the source as ranges of the lead byte and as remainders,
    checked on all 256 bytes. *)
Lemma lead_spec c :
  lead (code c) =
    if (0xC0 <=? code c) && (code c <=? 0xDF) then Some (2%nat, code c - 0xC0, 0x80)
    else if (0xE0 <=? code c) && (code c <=? 0xEF) then Some (3%nat, code c - 0xE0, 0x800)
    else if (0xF0 <=? code c) && (code c <=? 0xF7) then Some (4%nat, code c - 0xF0, 0x10000)
    else None.
Proof.
  apply (bool_decide_eq_true_1 _). by_bytes c.
Qed.

Lemma cont_spec c : (Z.land (code c) 0xC0 =? 0x80) = is_cont c.
Proof. apply (bool_decide_eq_true_1 _). by_bytes c. Qed.

Lemma cont_bits c : is_cont c = true -> Z.land (code c) 0x3F = code c - 0x80.
Proof.
  intros H. assert (Hall : implb (is_cont c) (Z.land (code c) 0x3F =? code c - 0x80) = true)
    by (clear H; by_bytes c).
  rewrite H in Hall. by apply Z.eqb_eq in Hall.
Qed.

Lemma is_cont_range c : is_cont c = true <-> 0x80 <= code c <= 0xBF.
Proof. unfold is_cont. rewrite andb_true_iff, !Z.leb_le. lia. Qed.

Lemma lor_shift x y : 0 <= x < 2 ^ 26 -> 0 <= y < 64 ->
  Z.lor (wrap_u32 (Z.shiftl x 6)) y = x * 64 + y.
Proof.
  intros Hx Hy. rewrite Z.shiftl_mul_pow2 by lia. change (2 ^ 6) with 64.
  unfold wrap_u32. rewrite Z.mod_small by lia.
  symmetry. apply Z.add_nocarry_lor, Z.bits_inj'. intros j Hj.
  rewrite Z.land_spec, Z.bits_0. change 64 with (2 ^ 6).
  destruct (Z.ltb_spec j 6).
  - by rewrite Z.mul_pow2_bits_low.
  - rewrite andb_comm. destruct (Z.eq_dec y 0) as [-> | Hy0]; [by rewrite Z.bits_0 |].
    rewrite (Z.bits_above_log2 y); [done | lia |].
    apply Z.log2_lt_pow2; [lia |]. apply Z.lt_le_trans with (2 ^ 6); [lia |].
    apply Z.pow_le_mono_r; lia.
Qed.

Lemma continuation_cons acc c rest : 0 <= acc < 2 ^ 26 ->
  continuation acc (c :: rest) =
    if is_cont c then continuation (acc * 64 + (code c - 0x80)) rest else None.
Proof.
  intros Hacc. simpl. rewrite cont_spec. destruct (is_cont c) eqn:Hc; simpl; [| done].
  rewrite cont_bits by done. apply is_cont_range in Hc. by rewrite lor_shift by lia.
Qed.

Lemma continuation_nil acc : continuation acc [] = Some acc.
Proof. done. Qed.
#[local] Arguments continuation : simpl never.

Local Ltac ranges :=
  rewrite ?continuation_nil;
  repeat match goal with
  | |- context [?a <? ?b] => destruct (Z.ltb_spec a b)
  | |- context [?a <=? ?b] => destruct (Z.leb_spec a b)
  | |- context [?a =? ?b] => destruct (Z.eqb_spec a b)
  end; simpl; try reflexivity; try lia.

Lemma second_ok_range a b :
  second_ok a b = true <->
  0x80 <= code b <= 0xBF /\ (code a = 0xE0 -> 0xA0 <= code b) /\ (code a = 0xED -> code b < 0xA0)
  /\ (code a = 0xF0 -> 0x90 <= code b) /\ (code a = 0xF4 -> code b < 0x90).
Proof.
  unfold second_ok. rewrite !andb_true_iff, is_cont_range, !orb_true_iff, !negb_true_iff,
    !Z.eqb_neq, !Z.leb_le, !Z.ltb_lt. lia.
Qed.

(** The code's arithmetic on the code point (overlong forms, surrogates,
    beyond Unicode) accepts exactly the second bytes of the specification. *)
Lemma code_point_3 a b c :
  0xE0 <= code a <= 0xEF -> is_cont b = true -> is_cont c = true ->
  let cp := ((code a - 0xE0) * 64 + (code b - 0x80)) * 64 + (code c - 0x80) in
  (cp <? 0x800) || (0x10FFFF <? cp) || ((0xD800 <=? cp) && (cp <=? 0xDFFF))
  = negb (second_ok a b).
Proof.
  rewrite !is_cont_range. intros Ha Hb Hc cp.
  destruct (second_ok a b) eqn:H2; simpl.
  - apply second_ok_range in H2. subst cp. ranges.
  - apply not_true_iff_false in H2. rewrite second_ok_range in H2. subst cp. ranges.
Qed.

Lemma code_point_4 a b c d :
  0xF0 <= code a <= 0xF7 -> is_cont b = true -> is_cont c = true -> is_cont d = true ->
  let cp := (((code a - 0xF0) * 64 + (code b - 0x80)) * 64 + (code c - 0x80)) * 64 + (code d - 0x80) in
  (cp <? 0x10000) || (0x10FFFF <? cp) || ((0xD800 <=? cp) && (cp <=? 0xDFFF))
  = negb ((code a <=? 0xF4) && second_ok a b).
Proof.
  rewrite !is_cont_range. intros Ha Hb Hc Hd cp.
  destruct (second_ok a b) eqn:H2; simpl.
  - apply second_ok_range in H2. subst cp. rewrite andb_true_r. ranges.
  - apply not_true_iff_false in H2. rewrite second_ok_range in H2. subst cp.
    rewrite andb_false_r. ranges.
Qed.

Lemma second_ok_cont a b : second_ok a b = true -> is_cont b = true.
Proof. unfold second_ok. rewrite !andb_true_iff. tauto. Qed.

Lemma second_bad a b : is_cont b = false -> second_ok a b = false.
Proof. unfold second_ok. by intros ->. Qed.

Lemma multibyte_spec a rest : 0x80 <= code a ->
  multibyte a rest = char_length (a :: rest).
Proof.
  intros Ha. pose proof (code_range a) as Hr. unfold multibyte, char_length.
  rewrite lead_spec.
  assert (code a <= 0xBF \/ 0xC0 <= code a <= 0xDF \/ 0xE0 <= code a <= 0xEF
          \/ 0xF0 <= code a <= 0xF7 \/ 0xF8 <= code a) as [H|[H|[H|[H|H]]]] by lia; cmp;
    [done | | | | done].
  - destruct rest as [|b rest]; simpl; [by ranges |]. cmp.
    rewrite continuation_cons by lia.
    destruct (is_cont b) eqn:Hb; [| by ranges].
    apply is_cont_range in Hb. simpl. ranges.
  - destruct rest as [|b [|c rest]]; simpl; [done | done |]. cmp.
    rewrite continuation_cons by lia.
    destruct (is_cont b) eqn:Hb; [| by rewrite (second_bad a b)].
    pose proof (proj1 (is_cont_range b) Hb). rewrite continuation_cons by lia.
    destruct (is_cont c) eqn:Hc; [| by rewrite andb_false_r].
    rewrite continuation_nil; simpl. rewrite code_point_3 by (done || lia). by destruct (second_ok a b).
  - destruct rest as [|b [|c [|d rest]]]; simpl; [by ranges | by ranges | by ranges |]. cmp.
    rewrite continuation_cons by lia.
    destruct (is_cont b) eqn:Hb; [| by rewrite (second_bad a b); ranges].
    pose proof (proj1 (is_cont_range b) Hb). rewrite continuation_cons by lia.
    destruct (is_cont c) eqn:Hc; [| rewrite andb_false_r; by ranges].
    pose proof (proj1 (is_cont_range c) Hc). rewrite continuation_cons by lia.
    destruct (is_cont d) eqn:Hd; [| rewrite andb_false_r; by ranges].
    rewrite continuation_nil; simpl. rewrite code_point_4 by (done || lia).
    destruct (second_ok a b); ranges.
Qed.

(** *** The loop *)

Lemma utf8_step n s : char_length s = Some n -> (utf8 s <-> utf8 (drop n s)).
Proof.
  intros Hn. rewrite (utf8_unfold s). split.
  - intros [-> | (m & Hm & Hs)]; [done | congruence].
  - intros H. right. eauto.
Qed.

Lemma char_length_high a rest n :
  0x80 <= code a -> char_length (a :: rest) = Some n ->
  (1 <= n)%nat /\ Forall printable (take n (a :: rest)).
Proof.
  intros Ha Hn. apply char_length_sound in Hn as (u & t & Heq & Hu & <-).
  rewrite Heq, take_app_length. unfold printable.
  destruct Hu as [x Hx|x b Hx Hb|x b c Hx Hb Hc|x b c d Hx Hb Hc Hd];
    simplify_eq/=; [lia | | | ];
    repeat match goal with H : second_ok _ _ = true |- _ => apply second_ok_cont in H end;
    rewrite is_cont_range in *; (split; [lia |]); repeat constructor; lia.
Qed.

Lemma one_line_ascii c rest : 0x20 <= code c < 0x80 -> one_line (c :: rest) <-> one_line rest.
Proof.
  intros Hc. unfold one_line. rewrite Forall_cons. unfold printable at 1.
  rewrite (utf8_step 1 (c :: rest)); [simpl; intuition lia |].
  unfold char_length. by cmp.
Qed.

Lemma one_line_high c rest : 0x80 <= code c ->
  one_line (c :: rest) <->
  exists n, char_length (c :: rest) = Some n /\ one_line (drop (n - 1) rest).
Proof.
  intros Hc. unfold one_line. rewrite (utf8_unfold (c :: rest)). split.
  - intros [[Heq | (n & Hn & Hs)] Hall]; [done |].
    pose proof (char_length_high c rest n Hc Hn) as [Hpos _].
    exists n. destruct n as [|n]; [lia |]. simpl. rewrite Nat.sub_0_r.
    split; [done | split; [done |]].
    apply Forall_cons in Hall as [_ Hall]. by apply Forall_drop.
  - intros (n & Hn & Hs & Hall).
    pose proof (char_length_high c rest n Hc Hn) as [Hpos Htake].
    destruct n as [|n]; [lia |]. simpl in Hs, Hall. rewrite Nat.sub_0_r in Hs, Hall.
    split; [eauto |]. rewrite <- (take_drop (S n) (c :: rest)).
    apply Forall_app. auto.
Qed.

Lemma one_line_app_ascii p s :
  Forall (fun c => 0x20 <= code c < 0x80) p -> one_line (p ++ s) <-> one_line s.
Proof. induction 1 as [|c p Hc Hp IH]; simpl; [done |]. by rewrite one_line_ascii. Qed.

Lemma skip_ascii_spec fuel s :
  (one_line (skip_ascii fuel s) <-> one_line s) /\ (length (skip_ascii fuel s) <= length s)%nat.
Proof.
  revert s. induction fuel as [|f IH]; intros s; simpl; [done |].
  destruct (Z.leb_spec 8 (Z.of_nat (length s))) as [Hlen|]; [| done].
  destruct (block_breaks (word8 s)) eqn:Hb; [done |].
  destruct (IH (drop 8 s)) as [IH1 IH2]. rewrite IH1. rewrite length_drop in IH2.
  split; [| lia]. change (word8 s) with (word (take 8 s)) in Hb.
  apply block_breaks_exact in Hb; [| rewrite length_take; lia].
  rewrite <- (take_drop 8 s) at 2. by rewrite one_line_app_ascii.
Qed.

Lemma loop_spec fuel s : (length s < fuel)%nat ->
  exists b, loop fuel s = Some b /\ (b = true <-> one_line s).
Proof.
  revert s. induction fuel as [|f IH]; intros s Hf; [lia |]. cbn [loop].
  destruct (skip_ascii_spec (length s) s) as [Hskip Hlen].
  destruct (skip_ascii (length s) s) as [|c rest].
  { exists true. split; [done |]. rewrite <- Hskip. split; [| done].
    intros _. split; constructor. }
  setoid_rewrite <- Hskip. simpl in Hlen.
  destruct (Z.ltb_spec (code c) 32).
  { exists false. split; [done |]. split; [done |].
    intros [_ Hall]. apply Forall_cons in Hall as [Hc _]. unfold printable in Hc. lia. }
  destruct (Z.ltb_spec (code c) 128).
  { setoid_rewrite one_line_ascii; [| lia]. apply IH. lia. }
  rewrite multibyte_spec by lia. setoid_rewrite one_line_high; [| lia].
  destruct (char_length (c :: rest)) as [n|].
  - destruct (IH (drop (n - 1) rest)) as (b & Hb & Hiff); [rewrite length_drop; lia |].
    exists b. split; [done |]. rewrite Hiff. split; [eauto |]. intros (m & [= <-] & Hm). done.
  - exists false. split; [done |]. split; [done |]. by intros (n & ? & _).
Qed.

(** [isOneLineOfUtf8] returns on every text, and returns true exactly for
    the texts that are well-formed UTF-8 (Unicode's table 3-7: no overlong
    form, no surrogate, nothing beyond U+10FFFF) with no control character in
    them -- whatever the eight-byte steps skip. *)
Theorem isOneLineOfUtf8_correct s :
  exists b, isOneLineOfUtf8 s = Some b /\ (b = true <-> utf8 s /\ Forall printable s).
Proof. apply loop_spec. lia. Qed.

End OneLine.

(** ** The automaton of the logger: [decodeUtf8] and [isUtf8Valid] *)
Module LoggerUtf8.

Definition UTF8_ACCEPT : Z := 0.

(** native/src/adrastea/utils/logger_impl.cpp:52-70: the class of each byte,
    then sixteen transitions per state. *)
Definition utf8d : list Z :=
  repeat 0 128 (* 00..7F *)
  ++ repeat 1 16 ++ repeat 9 16 (* 80..9F *)
  ++ repeat 7 32 (* A0..BF *)
  ++ [8; 8] ++ repeat 2 30 (* C0..DF *)
  ++ [0xA; 0x3; 0x3; 0x3; 0x3; 0x3; 0x3; 0x3; 0x3; 0x3; 0x3; 0x3; 0x3; 0x4; 0x3; 0x3] (* E0..EF *)
  ++ [0xB; 0x6; 0x6; 0x6; 0x5; 0x8; 0x8; 0x8; 0x8; 0x8; 0x8; 0x8; 0x8; 0x8; 0x8; 0x8] (* F0..FF *)
  ++ [0x0; 0x1; 0x2; 0x3; 0x5; 0x8; 0x7; 0x1; 0x1; 0x1; 0x4; 0x6; 0x1; 0x1; 0x1; 0x1] (* s0..s0 *)
  ++ [1; 1; 1; 1; 1; 1; 1; 1; 1; 1; 1; 1; 1; 1; 1; 1; 1; 0; 1; 1; 1; 1; 1; 0; 1; 0; 1; 1; 1; 1; 1; 1] (* s1..s2 *)
  ++ [1; 2; 1; 1; 1; 1; 1; 2; 1; 2; 1; 1; 1; 1; 1; 1; 1; 1; 1; 1; 1; 1; 1; 2; 1; 1; 1; 1; 1; 1; 1; 1] (* s3..s4 *)
  ++ [1; 2; 1; 1; 1; 1; 1; 1; 1; 2; 1; 1; 1; 1; 1; 1; 1; 1; 1; 1; 1; 1; 1; 3; 1; 3; 1; 1; 1; 1; 1; 1] (* s5..s6 *)
  ++ [1; 3; 1; 1; 1; 1; 1; 3; 1; 3; 1; 1; 1; 1; 1; 1; 1; 3; 1; 1; 1; 1; 1; 1; 1; 1; 1; 1; 1; 1; 1; 1]. (* s7..s8 *)

(** Reading the array; an index outside it would be undefined behaviour. *)
Definition utf8d_at (i : Z) : option Z := utf8d !! Z.to_nat i.

(** native/src/adrastea/utils/logger_impl.cpp:49-80 *)
Definition decodeUtf8 (state codep : Z) (b : byte) : option (Z * Z) :=
  match utf8d_at (code b) with
  | None => None
  | Some type =>
      let codep' :=
        if negb (state =? UTF8_ACCEPT)
        then Z.lor (Z.land (code b) 0x3f) (wrap_u32 (Z.shiftl codep 6))
        else Z.land (Z.shiftr 0xFF type) (code b) in
      match utf8d_at (256 + state * 16 + type) with
      | None => None
      | Some state' => Some (state', codep')
      end
  end.

(** native/src/adrastea/utils/logger_impl.cpp:82-93 *)
Fixpoint decode_all (state codepoint : Z) (s : str) : option Z :=
  match s with
  | [] => Some state
  | b :: rest =>
      match decodeUtf8 state codepoint b with
      | None => None
      | Some (state', codepoint') => decode_all state' codepoint' rest
      end
  end.

Definition isUtf8Valid (s : str) : option bool :=
  match decode_all 0 0 s with
  | None => None
  | Some state => Some (state =? 0)
  end.

(** *** What each state waits for *)

Definition between (lo hi : Z) (c : byte) : bool := (lo <=? code c) && (code c <=? hi).

(** The state after a byte, as ranges. *)
Definition next (state : Z) (c : byte) : Z :=
  match state with
  | 0 => if code c <? 0x80 then 0 else if between 0xC2 0xDF c then 2
         else if code c =? 0xE0 then 4 else if code c =? 0xED then 5
         else if between 0xE1 0xEF c then 3
         else if code c =? 0xF0 then 6 else if code c =? 0xF4 then 8
         else if between 0xF1 0xF3 c then 7 else 1
  | 2 => if is_cont c then 0 else 1
  | 3 => if is_cont c then 2 else 1
  | 4 => if between 0xA0 0xBF c then 2 else 1
  | 5 => if between 0x80 0x9F c then 2 else 1
  | 6 => if between 0x90 0xBF c then 3 else 1
  | 7 => if is_cont c then 3 else 1
  | 8 => if between 0x80 0x8F c then 3 else 1
  | _ => 1
  end.

Definition states : list Z := [0; 1; 2; 3; 4; 5; 6; 7; 8].

(** The table is the automaton of the ranges: checked on the 9 states and
    256 bytes. *)
Lemma table_spec state codep c : state ∈ states ->
  exists codep', decodeUtf8 state codep c = Some (next state c, codep') /\ next state c ∈ states.
Proof.
  intros Hs.
  assert (Hall : forallb (fun q =>
      match utf8d_at (code c) with
      | Some type => bool_decide (utf8d_at (256 + q * 16 + type) = Some (next q c))
                     && bool_decide (next q c ∈ states)
      | None => false
      end) states = true) by (clear Hs; by_bytes c).
  rewrite forallb_forall in Hall. apply list_elem_of_In in Hs. specialize (Hall _ Hs).
  unfold decodeUtf8. destruct (utf8d_at (code c)) as [type|]; [| done].
  apply andb_true_iff in Hall as [Hn Hin]. apply bool_decide_eq_true in Hn, Hin.
  rewrite Hn. eauto.
Qed.

(** [wait p K]: a byte in [p] comes next, then [K]. *)
Definition wait (p : byte -> bool) (K : str -> Prop) (s : str) : Prop :=
  match s with
  | c :: t => p c = true /\ K t
  | [] => False
  end.

(** The texts accepted from each state. *)
Definition accepts (state : Z) : str -> Prop :=
  match state with
  | 0 => utf8
  | 2 => wait is_cont utf8
  | 3 => wait is_cont (wait is_cont utf8)
  | 4 => wait (between 0xA0 0xBF) (wait is_cont utf8)
  | 5 => wait (between 0x80 0x9F) (wait is_cont utf8)
  | 6 => wait (between 0x90 0xBF) (wait is_cont (wait is_cont utf8))
  | 7 => wait is_cont (wait is_cont (wait is_cont utf8))
  | 8 => wait (between 0x80 0x8F) (wait is_cont (wait is_cont utf8))
  | _ => fun _ => False
  end.

Lemma between_spec lo hi c : between lo hi c = true <-> lo <= code c <= hi.
Proof. unfold between. by rewrite andb_true_iff, !Z.leb_le. Qed.
Lemma utf8_cons_iff c s :
  utf8 (c :: s) <-> exists n, char_length (c :: s) = Some n /\ utf8 (drop n (c :: s)).
Proof. rewrite utf8_unfold. split; [by intros [|] | by right]. Qed.

Lemma utf8_lead_2 c s : 0xC2 <= code c <= 0xDF -> utf8 (c :: s) <-> wait is_cont utf8 s.
Proof.
  intros Hc. rewrite utf8_cons_iff. unfold char_length. cmp.
  split.
  - intros (n & Hn & Hs). destruct s as [|b s]; [done |]. simpl.
    destruct (is_cont b); [| done]. injection Hn as <-. auto.
  - destruct s as [|b s]; simpl; [done |]. intros [Hb Hs]. exists 2%nat. by rewrite Hb.
Qed.

Lemma utf8_lead_3 c s p : 0xE0 <= code c <= 0xEF -> (forall b, second_ok c b = p b) ->
  utf8 (c :: s) <-> wait p (wait is_cont utf8) s.
Proof.
  intros Hc Hp. rewrite utf8_cons_iff. unfold char_length. cmp. split.
  - intros (n & Hn & Hs). destruct s as [|b [|d s]]; [done | done |]. simpl.
    rewrite Hp in Hn. destruct (p b), (is_cont d); simpl in Hn; try done.
    injection Hn as <-. auto.
  - destruct s as [|b [|d s]]; simpl; [done | tauto |]. intros (Hb & Hd & Hs).
    exists 3%nat. by rewrite Hp, Hb, Hd.
Qed.

Lemma utf8_lead_4 c s p : 0xF0 <= code c <= 0xF4 -> (forall b, second_ok c b = p b) ->
  utf8 (c :: s) <-> wait p (wait is_cont (wait is_cont utf8)) s.
Proof.
  intros Hc Hp. rewrite utf8_cons_iff. unfold char_length. cmp. split.
  - intros (n & Hn & Hs). destruct s as [|b [|d [|e s]]]; [done | done | done |]. simpl.
    rewrite Hp in Hn. destruct (p b), (is_cont d), (is_cont e); simpl in Hn; try done.
    injection Hn as <-. auto.
  - destruct s as [|b [|d [|e s]]]; simpl; [done | tauto | tauto |]. intros (Hb & Hd & He & Hs).
    exists 4%nat. by rewrite Hp, Hb, Hd, He.
Qed.

Lemma utf8_other c s : 0x80 <= code c < 0xC2 \/ 0xF4 < code c -> ~ utf8 (c :: s).
Proof.
  intros Hc. rewrite utf8_cons_iff. unfold char_length. intros (n & Hn & _).
  destruct Hc; revert Hn; cmp; done.
Qed.

(** The second byte each lead byte allows. *)
Ltac second b :=
  intros b; unfold second_ok, between, is_cont; cmp; rewrite ?andb_true_r;
  repeat match goal with
  | |- context [?x <? ?y] => destruct (Z.ltb_spec x y)
  | |- context [?x <=? ?y] => destruct (Z.leb_spec x y)
  end; simpl; done || lia.

Lemma accepts_0_cons c s : accepts 0 (c :: s) <-> accepts (next 0 c) s.
Proof.
  cbn [accepts]. unfold next, between. pose proof (code_range c).
  assert (code c < 0x80 \/ 0x80 <= code c < 0xC2 \/ 0xC2 <= code c <= 0xDF \/ code c = 0xE0
    \/ 0xE1 <= code c <= 0xEC \/ code c = 0xED \/ 0xEE <= code c <= 0xEF \/ code c = 0xF0
    \/ 0xF1 <= code c <= 0xF3 \/ code c = 0xF4 \/ 0xF4 < code c)
    as [Hc|[Hc|[Hc|[Hc|[Hc|[Hc|[Hc|[Hc|[Hc|[Hc|Hc]]]]]]]]]] by lia; cmp; cbn [accepts].
  - rewrite utf8_cons_iff. unfold char_length. cmp. split; [| by exists 1%nat].
    by intros (n & [= <-] & Hs).
  - split; [apply utf8_other; lia | done].
  - by apply utf8_lead_2.
  - apply utf8_lead_3; [lia | second b].
  - apply utf8_lead_3; [lia | second b].
  - apply utf8_lead_3; [lia | second b].
  - apply utf8_lead_3; [lia | second b].
  - apply utf8_lead_4; [lia | second b].
  - apply utf8_lead_4; [lia | second b].
  - apply utf8_lead_4; [lia | second b].
  - split; [apply utf8_other; lia | done].
Qed.

Lemma accepts_cons q c s : q ∈ states -> accepts q (c :: s) <-> accepts (next q c) s.
Proof.
  unfold states. rewrite !elem_of_cons, elem_of_nil.
  intros [->|[->|[->|[->|[->|[->|[->|[->|[->|[]]]]]]]]]]; [apply accepts_0_cons | done |..];
    cbn [accepts next wait];
    match goal with |- context [if ?b then _ else _] => destruct b end; cbn [accepts]; tauto || (split; [by intros [? _] | done]).
Qed.

Lemma accepts_nil q : q ∈ states -> accepts q [] <-> q = 0.
Proof.
  unfold states. rewrite !elem_of_cons, elem_of_nil.
  intros [->|[->|[->|[->|[->|[->|[->|[->|[->|[]]]]]]]]]]; simpl; (split; done || constructor).
Qed.

Lemma decode_all_spec q cp s : q ∈ states ->
  exists q', decode_all q cp s = Some q' /\ (q' = 0 <-> accepts q s).
Proof.
  revert q cp. induction s as [|c s IH]; intros q cp Hq; simpl.
  - exists q. split; [done |]. by rewrite accepts_nil.
  - destruct (table_spec q cp c Hq) as (cp' & -> & Hq').
    destruct (IH (next q c) cp' Hq') as (q' & -> & Hiff).
    exists q'. split; [done |]. by rewrite Hiff, accepts_cons.
Qed.

(** The table-driven automaton of the logger never reads outside its
    400-entry table, and [isUtf8Valid] returns true exactly for well-formed
    UTF-8 -- the same texts [isOneLineOfUtf8] accepts when no control
    character is in them. *)
Theorem isUtf8Valid_correct s :
  exists b, isUtf8Valid s = Some b /\ (b = true <-> utf8 s).
Proof.
  destruct (decode_all_spec 0 0 s) as (q & Hq & Hiff); [by left |].
  unfold isUtf8Valid. rewrite Hq. exists (q =? 0). split; [done |].
  by rewrite Z.eqb_eq, Hiff.
Qed.

End LoggerUtf8.

(** ** Stata's output, chunk by chunk: [text::Utf8Decoder] *)
Module Utf8Decoder.

(** The object: [m_pending], the bytes of a character not complete yet. *)
Record t := { m_pending : str }.

(** native/src/callisto/stata/stata_text.cpp:269-276 *)
Definition utf8Length (lead : Z) : Z :=
  if lead <? 0x80 then 1
  else if (0xC2 <=? lead) && (lead <=? 0xDF) then 2
  else if (0xE0 <=? lead) && (lead <=? 0xEF) then 3
  else if (0xF0 <=? lead) && (lead <=? 0xF4) then 4
  else 0.

Definition isContinuation (c : byte) : bool := Z.land (code c) 0xC0 =? 0x80.

(** native/src/callisto/stata/stata_text.cpp:283-287 *)
Definition appendLatin1 (out : str) (c : byte) : str :=
  out ++ [chr (Z.lor 0xC0 (Z.shiftr (code c) 6)); chr (Z.lor 0x80 (Z.land (code c) 0x3F))].

(** Whether the [length] bytes at the front of [c :: tail] are the character
    (:323-335); the source reads [in[i + 1]] only when it is there. *)
Definition valid_sequence (length : Z) (c : byte) (tail : str) : bool :=
  let valid := (length <=? Z.of_nat (S (List.length tail)))
               && forallb isContinuation (take (Z.to_nat length - 1) tail) in
  let valid :=
    if valid && (length =? 3) then
      match tail with
      | c1 :: _ => negb ((code c =? 0xE0) && (code c1 <? 0xA0))
                   && negb ((code c =? 0xED) && (0xA0 <=? code c1))
      | [] => valid
      end
    else valid in
  if valid && (length =? 4) then
    match tail with
    | c1 :: _ => negb ((code c =? 0xF0) && (code c1 <? 0x90))
                 && negb ((code c =? 0xF4) && (0x90 <=? code c1))
    | [] => valid
    end
  else valid.

(** The loop over the text not read yet: what is added to [out], and the
    [m_pending] it ends with. *)
Fixpoint push_loop (fuel : nat) (out in_ : str) : option (str * str) :=
  match fuel with
  | O => None
  | S f =>
      match in_ with
      | [] => Some (out, [])
      | c :: tail =>
          let length := utf8Length (code c) in
          if length =? 1 then push_loop f (out ++ [c]) tail
          else if length =? 0 then push_loop f (appendLatin1 out c) tail
          else if (Z.of_nat (List.length in_) <? length) && forallb isContinuation tail
          then Some (out, in_)
          else if valid_sequence length c tail
          then push_loop f (out ++ take (Z.to_nat length) in_) (drop (Z.to_nat length) in_)
          else push_loop f (appendLatin1 out c) tail
      end
  end.

(** native/src/callisto/stata/stata_text.cpp:290-348 *)
Definition push (d : t) (bytes : str) : option (str * t) :=
  let in_ := m_pending d ++ bytes in
  match push_loop (S (length in_)) [] in_ with
  | Some (out, pending) => Some (out, {| m_pending := pending |})
  | None => None
  end.

(** native/src/callisto/stata/stata_text.cpp:350-356 *)
Definition finish (d : t) : str * t :=
  (fold_left appendLatin1 (m_pending d) [], {| m_pending := [] |}).

(** A whole output: the chunks as they come, then the end. *)
Fixpoint decode_from (d : t) (chunks : list str) : option str :=
  match chunks with
  | [] => Some (fst (finish d))
  | b :: rest =>
      match push d b with
      | None => None
      | Some (out, d') =>
          match decode_from d' rest with
          | None => None
          | Some out' => Some (out ++ out')
          end
      end
  end.

Definition decode (chunks : list str) : option str := decode_from {| m_pending := [] |} chunks.

(** *** The specification: what is not UTF-8 is read as Latin-1 *)

Definition latin1 (c : byte) : str := appendLatin1 [] c.

Inductive repairs : str -> str -> Prop :=
| repairs_nil : repairs [] []
| repairs_char u s o : utf8_char u -> repairs s o -> repairs (u ++ s) (u ++ o)
| repairs_byte c s o : char_length (c :: s) = None -> repairs s o ->
    repairs (c :: s) (latin1 c ++ o).

Lemma repairs_deterministic s o1 o2 : repairs s o1 -> repairs s o2 -> o1 = o2.
Proof.
  intros H. revert o2. induction H as [|u s o Hu H IH|c s o Hc H IH]; intros o2 H2.
  - inversion H2 as [|u s o Hu Hs Heq|]; [done |].
    apply app_eq_nil in Heq as [-> _]. by apply utf8_char_nonempty in Hu.
  - inversion H2 as [Heq|u' s' o' Hu' Hs Heq|c s' o' Hc Hs Heq]; subst.
    + symmetry in Heq. apply app_eq_nil in Heq as [-> _]. by apply utf8_char_nonempty in Hu.
    + pose proof (char_length_char u s Hu) as H1.
      rewrite <- Heq, (char_length_char u' s' Hu') in H1. injection H1 as Hlen.
      apply app_inj_1 in Heq as [-> ->]; [| done]. f_equal. by apply IH.
    + rewrite Heq in Hc. by rewrite char_length_char in Hc.
  - inversion H2 as [|u' s' o' Hu' Hs Heq|]; subst.
    + by rewrite <- Heq, char_length_char in Hc.
    + f_equal. by apply IH.
Qed.

(** A Latin-1 byte is two bytes of UTF-8. *)
Lemma latin1_utf8 c : 0x80 <= code c -> utf8_char (latin1 c).
Proof.
  intros Hc. unfold latin1, appendLatin1. simpl.
  assert (Hall : (code c <? 0x80) ||
    ((0xC2 <=? code (chr (Z.lor 0xC0 (Z.shiftr (code c) 6))))
     && (code (chr (Z.lor 0xC0 (Z.shiftr (code c) 6))) <=? 0xDF)
     && is_cont (chr (Z.lor 0x80 (Z.land (code c) 0x3F)))) = true) by (clear Hc; by_bytes c).
  rewrite (proj2 (Z.ltb_ge _ _)) in Hall by done. simpl in Hall.
  rewrite !andb_true_iff, !Z.leb_le in Hall. constructor; tauto.
Qed.

Lemma char_length_none_high c s : char_length (c :: s) = None -> 0x80 <= code c.
Proof. unfold char_length. destruct (Z.ltb_spec (code c) 0x80); [done | lia]. Qed.

Lemma repairs_utf8 s o : repairs s o -> utf8 o.
Proof.
  induction 1 as [|u s o Hu H IH|c s o Hc H IH]; constructor; auto.
  by eapply latin1_utf8, char_length_none_high.
Qed.

Lemma repairs_id s : utf8 s -> repairs s s.
Proof. induction 1; by constructor. Qed.

(** *** The loop against the specification *)

Lemma isContinuation_spec c : isContinuation c = is_cont c.
Proof. apply OneLine.cont_spec. Qed.

Lemma utf8Length_cases c :
  (utf8Length (code c) = 1 /\ code c < 0x80)
  \/ (utf8Length (code c) = 0 /\ forall s, char_length (c :: s) = None)
  \/ (utf8Length (code c) = 2 /\ 0xC2 <= code c <= 0xDF)
  \/ (utf8Length (code c) = 3 /\ 0xE0 <= code c <= 0xEF)
  \/ (utf8Length (code c) = 4 /\ 0xF0 <= code c <= 0xF4).
Proof.
  unfold utf8Length, char_length.
  assert (code c < 0x80 \/ 0x80 <= code c < 0xC2 \/ 0xC2 <= code c <= 0xDF \/ 0xE0 <= code c <= 0xEF
    \/ 0xF0 <= code c <= 0xF4 \/ 0xF4 < code c) as [H|[H|[H|[H|[H|H]]]]] by lia; cmp; tauto.
Qed.

(** The second byte of a three- or four-byte character, as the decoder
    judges it. *)
Lemma second_3 a b : 0xE0 <= code a <= 0xEF ->
  is_cont b && (negb ((code a =? 0xE0) && (code b <? 0xA0))
                && negb ((code a =? 0xED) && (0xA0 <=? code b))) = second_ok a b.
Proof.
  intros Ha. unfold second_ok. destruct (is_cont b); [simpl | done].
  destruct (Z.eqb_spec (code a) 0xE0), (Z.eqb_spec (code a) 0xED); cmp; try lia;
    rewrite ?andb_true_r; try reflexivity;
    (destruct (Z.ltb_spec (code b) 0xA0); cmp; reflexivity || lia).
Qed.

Lemma second_4 a b : 0xF0 <= code a <= 0xF4 ->
  is_cont b && (negb ((code a =? 0xF0) && (code b <? 0x90))
                && negb ((code a =? 0xF4) && (0x90 <=? code b))) = second_ok a b.
Proof.
  intros Ha. unfold second_ok. destruct (is_cont b); [simpl | done].
  destruct (Z.eqb_spec (code a) 0xF0), (Z.eqb_spec (code a) 0xF4); cmp; try lia;
    rewrite ?andb_true_r; try reflexivity;
    (destruct (Z.ltb_spec (code b) 0x90); cmp; reflexivity || lia).
Qed.

(** What the decoder does with a lead byte that needs more bytes: it waits
    only when what there is could still become a character; otherwise the
    verdict is the specification's, whatever comes later. *)
Lemma multibyte_step c tail n : utf8Length (code c) = n -> 2 <= n ->
  (Z.of_nat (length (c :: tail)) <? n) && forallb isContinuation tail = false ->
  if valid_sequence n c tail
  then char_length (c :: tail) = Some (Z.to_nat n)
  else forall t, char_length (c :: tail ++ t) = None.
Proof.
  intros Hn H2. destruct (utf8Length_cases c) as [[H ?]|[[H ?]|[[H Hc]|[[H Hc]|[H Hc]]]]];
    rewrite H in Hn; subst n; try lia; unfold valid_sequence, char_length; cmp.
  - destruct tail as [|b tail]; simpl; rewrite ?isContinuation_spec; [done |]. cmp.
    intros _. rewrite !andb_true_r. by destruct (is_cont b).
  - destruct tail as [|b [|d tail]]; simpl; rewrite ?isContinuation_spec, ?andb_true_r; [done | |].
    + cmp. intros Hb. intros [|e t]; [done |]. by rewrite OneLine.second_bad.
    + cmp. intros _. rewrite <- (second_3 c b) by done.
      destruct (is_cont b), (is_cont d); simpl; try done.
      * by destruct (negb _ && negb _).
      * intros. by rewrite andb_false_r.
  - destruct tail as [|b [|d [|e tail]]]; simpl; rewrite ?isContinuation_spec, ?andb_true_r;
      [done | | |].
    + cmp. intros Hb. intros [|e [|g t]]; [done | done |]. by rewrite OneLine.second_bad.
    + cmp. intros Hbd. intros [|e t]; [done |].
      apply andb_false_iff in Hbd as [Hb | Hd]; [by rewrite OneLine.second_bad |].
      rewrite Hd. by rewrite andb_false_r.
    + cmp. intros _. rewrite <- (second_4 c b) by done.
      destruct (is_cont b), (is_cont d), (is_cont e); simpl; rewrite ?andb_false_r; try done.
      by destruct (negb _ && negb _).
Qed.

(** What may be held between two chunks. *)
Definition held (p : str) : Prop :=
  match p with
  | [] => True
  | c :: tail => Z.of_nat (length (c :: tail)) < utf8Length (code c)
                 /\ forallb isContinuation tail = true
  end.

Lemma push_loop_spec fuel out s : (length s < fuel)%nat ->
  exists o p, push_loop fuel out s = Some (out ++ o, p) /\ held p
    /\ forall t o', repairs (p ++ t) o' -> repairs (s ++ t) (o ++ o').
Proof.
  revert out s. induction fuel as [|f IH]; intros out s Hf; [lia |]. cbn [push_loop].
  destruct s as [|c tail]; [exists [], []; by rewrite app_nil_r |].
  simpl in Hf.
  assert (Hbyte : (forall t, char_length (c :: tail ++ t) = None) ->
    exists o p, push_loop f (appendLatin1 out c) tail = Some (out ++ o, p) /\ held p
      /\ forall t o', repairs (p ++ t) o' -> repairs ((c :: tail) ++ t) (o ++ o')).
  { intros Hnone. destruct (IH (appendLatin1 out c) tail) as (o & p & Heq & Hp & Hr); [lia |].
    exists (latin1 c ++ o), p. rewrite Heq. unfold latin1, appendLatin1. rewrite <- app_assoc.
    split; [done | split; [done |]]. intros t o' Ho. rewrite <- app_assoc.
    apply repairs_byte; auto. }
  destruct (utf8Length_cases c) as [[H Hc]|[[H Hc]|Hlead]].
  - rewrite H. cbn [Z.eqb Pos.eqb].
    destruct (IH (out ++ [c]) tail) as (o & p & Heq & Hp & Hr); [lia |].
    exists (c :: o), p. rewrite Heq, <- app_assoc. split; [done | split; [done |]].
    intros t o' Ho. apply (repairs_char [c]); [by constructor | auto].
  - rewrite H. cbn [Z.eqb]. apply Hbyte. auto.
  - assert (Hn : 2 <= utf8Length (code c)) by lia. cmp.
    destruct ((Z.of_nat (length (c :: tail)) <? utf8Length (code c))
              && forallb isContinuation tail) eqn:Hhold.
    + exists [], (c :: tail). rewrite app_nil_r. apply andb_true_iff in Hhold as [Hlt Hcont].
      apply Z.ltb_lt in Hlt. done.
    + pose proof (multibyte_step c tail _ eq_refl Hn Hhold) as Hstep.
      destruct (valid_sequence _ c tail); [| by apply Hbyte].
      apply char_length_sound in Hstep as (u & t & Heq & Hu & Hlen). rewrite <- Hlen, Heq.
      rewrite take_app_length, drop_app_length.
      destruct (IH (out ++ u) t) as (o & p & Heq' & Hp & Hr).
      { apply (f_equal length) in Heq. rewrite length_app in Heq. simpl in Heq.
        apply utf8_char_nonempty in Hu. destruct u; [done |]. simpl in Heq. lia. }
      exists (u ++ o), p. rewrite Heq', <- app_assoc. split; [done | split; [done |]].
      intros t' o' Ho. rewrite <- !app_assoc. apply repairs_char; auto.
Qed.

Lemma repairs_continuations s : forallb isContinuation s = true ->
  repairs s (fold_left appendLatin1 s []).
Proof.
  intros H. cut (forall o, exists o', fold_left appendLatin1 s o = o ++ o' /\ repairs s o').
  { intros Hcut. by destruct (Hcut []) as (o' & -> & Hr). }
  induction s as [|c s IH]; intros o; simpl; [exists []; split; [by rewrite app_nil_r | constructor] |].
  simpl in H. apply andb_true_iff in H as [Hc Hs].
  destruct (IH Hs (appendLatin1 o c)) as (o' & -> & Hr).
  exists (latin1 c ++ o'). unfold latin1, appendLatin1. rewrite <- app_assoc. split; [done |].
  apply (repairs_byte c); [| done]. rewrite isContinuation_spec in Hc.
  apply OneLine.is_cont_range in Hc. unfold char_length. by cmp.
Qed.

Lemma held_finish p : held p -> repairs p (fold_left appendLatin1 p []).
Proof.
  destruct p as [|c tail]; [constructor |]. intros [Hlt Hcont]. simpl.
  assert (Hr := repairs_continuations tail Hcont).
  assert (Happ : forall l o, fold_left appendLatin1 l o = o ++ fold_left appendLatin1 l []).
  { induction l as [|x l IH]; intros o; simpl; [by rewrite app_nil_r |].
    rewrite IH, (IH (appendLatin1 [] x)). unfold appendLatin1. by rewrite <- !app_assoc. }
  rewrite Happ. apply (repairs_byte c); [| done].
  destruct (utf8Length_cases c) as [[H ?]|[[H ?]|[[H Hc]|[[H Hc]|[H Hc]]]]];
    rewrite H in Hlt; simpl in Hlt; try lia; unfold char_length; cmp;
    destruct tail as [|b [|d [|e tail]]]; simpl in Hlt; try done; lia.
Qed.

Lemma decode_from_spec d chunks : held (m_pending d) ->
  exists out, decode_from d chunks = Some out
    /\ repairs (m_pending d ++ concat chunks) out.
Proof.
  revert d. induction chunks as [|b rest IH]; intros d Hd; simpl.
  - eexists. split; [done |]. rewrite app_nil_r. by apply held_finish.
  - unfold push.
    destruct (push_loop_spec (S (length (m_pending d ++ b))) [] (m_pending d ++ b))
      as (o & p & -> & Hp & Hr); [lia |]. simpl.
    destruct (IH {| m_pending := p |} Hp) as (out & -> & Hout).
    exists (o ++ out). split; [done |]. simpl in Hout. rewrite app_assoc. by apply Hr.
Qed.

(** C33: however Stata's output is cut into chunks, the decoder's output is
    well-formed UTF-8, it is the specified repair of the whole (each byte that
    is not part of a character read as Latin-1), it does not depend on where
    the chunks were cut, and output that was UTF-8 already is unchanged. *)
Theorem decode_correct chunks :
  exists out, decode chunks = Some out
    /\ utf8 out
    /\ repairs (concat chunks) out
    /\ (forall chunks', concat chunks' = concat chunks -> decode chunks' = Some out)
    /\ (utf8 (concat chunks) -> out = concat chunks).
Proof.
  destruct (decode_from_spec {| m_pending := [] |} chunks I) as (out & Hd & Hr).
  exists out. split; [done |]. split; [by eapply repairs_utf8 |]. split; [done |]. split.
  - intros chunks' Heq.
    destruct (decode_from_spec {| m_pending := [] |} chunks' I) as (out' & Hd' & Hr').
    unfold decode. rewrite Hd'. f_equal. simpl in Hr, Hr'. rewrite Heq in Hr'.
    by eapply repairs_deterministic.
  - intros Hutf8. eapply repairs_deterministic; [done | by apply repairs_id].
Qed.

End Utf8Decoder.
