(* ===== verification/Crypto.v ===== *)
(** * OpenSSL, as the program relies on it

    The program calls OpenSSL for three things: random bytes, a comparison
    whose time does not depend on the data, and HMACs.  OpenSSL is not part of
    the repository: its functions are the fields of [OpenSSL], and what the
    program relies on (their documented behaviour) the fields of [OpenSSLLaws].
    The theorems of the components hold for every implementation of the
    interface; [Stub] is a concrete one, for evaluating the definitions. *)

From Stdlib Require Import Ascii ZArith Lia.
From S2P Require Import Prelude.
Local Open Scope Z_scope.

Class OpenSSL := {
  (** [RAND_bytes(buf, n)]: n bytes, or a failure (a result other than 1). *)
  RAND_bytes : nat -> option str;
  (** [CRYPTO_memcmp(a, b, len)] reads [len] bytes of each. *)
  CRYPTO_memcmp : str -> str -> nat -> Z;
  (** [hmac digest key data]: the raw bytes of the MAC; a call of update per
      part adds the part to [data]. *)
  hmac : str -> str -> str -> str;
  (** [EVP_MAC_fetch("hmac")] and [EVP_MAC_CTX_new] give an object *)
  EVP_MAC_fetch : bool;
  EVP_MAC_CTX_new : bool
}.

Class OpenSSLLaws (Ossl : OpenSSL) := {
  RAND_bytes_length n bytes : RAND_bytes n = Some bytes -> length bytes = n;
  CRYPTO_memcmp_zero a b n : (n <= length a)%nat -> (n <= length b)%nat ->
    CRYPTO_memcmp a b n = 0 <-> take n a = take n b
}.

Lemma CRYPTO_memcmp_same `{OpenSSLLaws} a b : length a = length b ->
  (CRYPTO_memcmp a b (length b) =? 0) = bool_decide (a = b).
Proof.
  intros Hlen. apply eq_true_iff_eq. rewrite Z.eqb_eq, bool_decide_eq_true.
  rewrite CRYPTO_memcmp_zero by lia. rewrite (take_ge b) by done. by rewrite take_ge by lia.
Qed.

(** A concrete implementation: a checksum for the MAC. *)
Module Stub.

#[global] Instance stub : OpenSSL := {|
  RAND_bytes n := Some (repeat "000"%char n);
  CRYPTO_memcmp a b n := if bool_decide (take n a = take n b) then 0 else 1;
  hmac digest key data :=
    [chr (foldr (fun c acc => code c + 3 * acc) 7 (key ++ data));
     chr (foldr (fun c acc => code c + 5 * acc) 11 (data ++ key))];
  EVP_MAC_fetch := true;
  EVP_MAC_CTX_new := true
|}.

#[global] Instance stub_laws : OpenSSLLaws stub.
Proof.
  split.
  - intros n bytes [= <-]. apply repeat_length.
  - intros a b n _ _. simpl. case_bool_decide; split; done || lia.
Qed.

End Stub.
