(* ===== verification/Access.v ===== *)
(** * Who may use the supervisor: themisto/access.cpp

    The token every request must carry, the ways a request may carry it (a
    bearer header, a [?token=] query parameter), and the decision
    [check].  A byte string is a [str]; a search in a string is the text
    before and after what is found. *)

From Stdlib Require Import Ascii ZArith Lia.
From S2P Require Import Prelude Crypto.
Local Open Scope Z_scope.

Definition space : byte := " "%char.

(** [std::tolower] in the "C" locale. *)
Definition tolower (c : byte) : byte :=
  if (65 <=? code c) && (code c <=? 90) then chr (code c + 32) else c.

Section Tokens.
Context `{Ossl : OpenSSL}.

(** [hex[b >> 4]], [hex[b & 0x0f]] *)
Definition hex : str := "0123456789abcdef"%string.

Definition hex_byte (b : byte) : str :=
  [nth (Z.to_nat (Z.shiftr (code b) 4)) hex space; nth (Z.to_nat (Z.land (code b) 15)) hex space].

Definition newToken : result str :=
  match RAND_bytes 32 with
  | None => Throw "could not generate the supervisor's access token (RAND_bytes failed)"%string
  | Some bytes => Ok (fold_left (fun token b => token ++ hex_byte b) bytes [])
  end.

Definition tokenMatches (presented token : str) : bool :=
  if bool_decide (token = []) || negb (length presented =? length token)%nat then false
  else CRYPTO_memcmp presented token (length token) =? 0.

(** The two loops that drop blanks at the front and at the back. *)
Fixpoint drop_front (value : str) : str :=
  match value with
  | c :: rest => if char_eqb c space then drop_front rest else value
  | [] => []
  end.

Definition drop_back (value : str) : str := rev (drop_front (rev value)).

Definition scheme : str := "bearer "%string.

Definition bearerToken (authorization : str) : option str :=
  if (length authorization <=? length scheme)%nat then None
  else if negb (bool_decide (tolower <$> take (length scheme) authorization = scheme)) then None
  else
    let value := drop_back (drop_front (drop (length scheme) authorization)) in
    if bool_decide (value = []) then None else Some value.

Definition hexValue (c : byte) : Z :=
  if (48 <=? code c) && (code c <=? 57) then code c - 48
  else if (97 <=? code c) && (code c <=? 102) then code c - 97 + 10
  else if (65 <=? code c) && (code c <=? 70) then code c - 65 + 10
  else -1.

Definition percent : byte := "%"%char.
Definition plus_sign : byte := "+"%char.

Fixpoint percentDecode (text : str) : str :=
  match text with
  | [] => []
  | c :: rest =>
      match rest with
      | a :: b :: rest' =>
          if char_eqb c percent && (0 <=? hexValue a) && (0 <=? hexValue b)
          then chr (hexValue a * 16 + hexValue b) :: percentDecode rest'
          else (if char_eqb c plus_sign then space else c) :: percentDecode rest
      | _ => (if char_eqb c plus_sign then space else c) :: percentDecode rest
      end
  end.

(** One [key=value] pair, decoded: the key, and the value when there is an
    [=] (access.cpp:105-111). *)
Definition decode_pair (item : str) : str * str :=
  match split_at "="%char item with
  | Some (key, value) => (percentDecode key, percentDecode value)
  | None => (percentDecode item, [])
  end.

(** The loop over the pairs: [query] is the text from [start] on. *)
Fixpoint find_parameter (fuel : nat) (query name : str) : option str :=
  match fuel with
  | O => None
  | S f =>
      match split_at "&"%char query with
      | Some (item, rest) =>
          let (key, value) := decode_pair item in
          if bool_decide (key = name) then Some value else find_parameter f rest name
      | None =>
          let (key, value) := decode_pair query in
          if bool_decide (key = name) then Some value else None
      end
  end.

Definition queryParameter (uri name : str) : option str :=
  match split_at "?"%char uri with
  | None => None
  | Some (_, query) =>
      let query := match split_at "#"%char query with Some (before, _) => before | None => query end in
      find_parameter (S (length query)) query name
  end.

(** The text before the first [?] or [#]. *)
Fixpoint pathOf (uri : str) : str :=
  match uri with
  | [] => []
  | c :: rest => if char_eqb c "?"%char || char_eqb c "#"%char then [] else c :: pathOf rest
  end.

Definition fromBrowser (origin : str) : bool := negb (bool_decide (origin = [])).

Inductive Verdict := Allowed | FromBrowser | BadToken.

#[global] Instance Verdict_eq_dec : EqDecision Verdict.
Proof. solve_decision. Defined.

Definition matches (presented : option str) (token : str) : bool :=
  match presented with Some p => tokenMatches p token | None => false end.

Definition check (origin authorization uri token : str) : Verdict :=
  if fromBrowser origin then FromBrowser
  else if bool_decide (token = []) then Allowed
  else if matches (bearerToken authorization) token then Allowed
  else if matches (queryParameter uri "token"%string) token then Allowed
  else BadToken.

End Tokens.

(** ** The decision *)
Section Decision.
Context `{L : OpenSSLLaws}.

Lemma tokenMatches_spec p token :
  tokenMatches p token = bool_decide (token <> [] /\ p = token).
Proof.
  unfold tokenMatches. apply eq_true_iff_eq. rewrite bool_decide_eq_true.
  destruct (bool_decide_reflect (token = [])) as [-> | Hne]; simpl; [split; [done | by intros [? _]] |].
  destruct (Nat.eqb_spec (length p) (length token)) as [Hlen | Hlen]; simpl.
  - rewrite CRYPTO_memcmp_same by done. rewrite bool_decide_eq_true. tauto.
  - split; [done |]. by intros [_ ->].
Qed.

Lemma matches_spec o token :
  matches o token = true <-> token <> [] /\ o = Some token.
Proof.
  destruct o as [p|]; simpl; [| split; [done | by intros [_ ?]]].
  rewrite tokenMatches_spec, bool_decide_eq_true. split; intros [? ?]; split; congruence.
Qed.

(** C6: a request is let in exactly when it carries no Origin header and either
    the check is off (an empty token) or it presents the supervisor's token, in
    a bearer header or in its query; a request with an Origin is refused as a
    browser's whatever it presents, and every other refusal is for the token. *)
Theorem check_correct origin authorization uri token :
  (check origin authorization uri token = FromBrowser <-> origin <> [])
  /\ (check origin authorization uri token = Allowed <->
       origin = [] /\ (token = [] \/ bearerToken authorization = Some token
                       \/ queryParameter uri "token"%string = Some token)).
Proof.
  unfold check, fromBrowser.
  destruct (bool_decide_reflect (origin = [])) as [-> | Ho]; simpl; [| intuition congruence].
  destruct (bool_decide_reflect (token = [])) as [-> | Ht]; [intuition congruence |].
  pose proof (matches_spec (bearerToken authorization) token) as Hb.
  pose proof (matches_spec (queryParameter uri "token"%string) token) as Hq.
  destruct (matches (bearerToken authorization) token);
    [| destruct (matches (queryParameter uri _) token)];
    split; split; try done; intuition congruence.
Qed.

End Decision.

(** ** A query string the client built is read back *)
Section Query.

(** [encodeURIComponent], byte by byte: what must not appear raw in a query
    (and, here, everything but letters and digits) becomes [%XX]. *)
Definition unreserved (c : byte) : bool :=
  ((48 <=? code c) && (code c <=? 57)) || ((65 <=? code c) && (code c <=? 90))
  || ((97 <=? code c) && (code c <=? 122)).

Definition encode_byte (c : byte) : str :=
  if unreserved c then [c] else percent :: hex_byte c.

Definition encode (s : str) : str := s ≫= encode_byte.

Definition encode_query (params : list (str * str)) : str :=
  join ["&"%char] ((fun p => encode p.1 ++ "="%char :: encode p.2) <$> params).

(** The first parameter of that name. *)
Fixpoint first_value (params : list (str * str)) (name : str) : option str :=
  match params with
  | [] => None
  | (k, v) :: rest => if bool_decide (k = name) then Some v else first_value rest name
  end.

Lemma unreserved_plain c : unreserved c = true ->
  c <> percent /\ c <> plus_sign /\ c <> "="%char /\ c <> "&"%char /\ c <> "#"%char /\ c <> "?"%char.
Proof. intros H. repeat split; intros ->; by vm_compute in H. Qed.

Lemma hex_byte_spec c : exists a b, hex_byte c = [a; b]
  /\ unreserved a = true /\ unreserved b = true
  /\ 0 <= hexValue a /\ 0 <= hexValue b /\ chr (hexValue a * 16 + hexValue b) = c.
Proof.
  unfold hex_byte. do 2 eexists. split; [reflexivity |].
  rewrite <- !Z.leb_le, <- char_eqb_eq, <- !andb_true_iff. by_bytes c.
Qed.

Lemma encode_plain s x : x ∈ encode s -> x = percent \/ unreserved x = true.
Proof.
  unfold encode. rewrite list_elem_of_bind. intros (c & Hx & _).
  unfold encode_byte in Hx. destruct (unreserved c) eqn:Hc.
  - apply list_elem_of_singleton in Hx as ->. by right.
  - destruct (hex_byte_spec c) as (a & b & Heq & Ha & Hb & _).
    rewrite Heq, !elem_of_cons, elem_of_nil in Hx. naive_solver.
Qed.

Lemma encode_without c s : unreserved c = false -> c <> percent -> c ∉ encode s.
Proof. intros Hc Hp Hin. apply encode_plain in Hin as [-> | Hu]; congruence. Qed.

Lemma percentDecode_plain c s : c <> percent -> c <> plus_sign ->
  percentDecode (c :: s) = c :: percentDecode s.
Proof.
  intros Hp Hq. simpl. rewrite !(proj2 (char_eqb_neq c _)) by done. simpl.
  by destruct s as [|a [|b s]].
Qed.

Lemma percentDecode_hex a b s : 0 <= hexValue a -> 0 <= hexValue b ->
  percentDecode (percent :: a :: b :: s) = chr (hexValue a * 16 + hexValue b) :: percentDecode s.
Proof. intros Ha Hb. simpl. by rewrite !(proj2 (Z.leb_le 0 _)). Qed.

Lemma percentDecode_encode s : percentDecode (encode s) = s.
Proof.
  induction s as [|c s IH]; [done |]. unfold encode. rewrite bind_cons. fold (encode s).
  unfold encode_byte. destruct (unreserved c) eqn:Hc.
  - apply unreserved_plain in Hc as (Hp & Hq & _). simpl app.
    rewrite percentDecode_plain by done. by rewrite IH.
  - destruct (hex_byte_spec c) as (a & b & -> & _ & _ & Ha & Hb & Hab). simpl app.
    rewrite percentDecode_hex by done. by rewrite IH, Hab.
Qed.

Lemma decode_pair_encode k v :
  decode_pair (encode k ++ "="%char :: encode v) = (k, v).
Proof.
  unfold decode_pair.
  rewrite split_at_app by (by apply encode_without). by rewrite !percentDecode_encode.
Qed.

Lemma item_without c k v : unreserved c = false -> c <> percent -> c <> "="%char ->
  c ∉ encode k ++ "="%char :: encode v.
Proof.
  intros Hc Hp He. rewrite not_elem_of_app, not_elem_of_cons.
  repeat split; [by apply encode_without | done | by apply encode_without].
Qed.

Lemma encode_query_cons k v r rest :
  encode_query ((k, v) :: r :: rest)
  = (encode k ++ "="%char :: encode v) ++ "&"%char :: encode_query (r :: rest).
Proof. done. Qed.

Lemma find_parameter_encode fuel params name : (length params <= fuel)%nat -> params <> [] ->
  find_parameter fuel (encode_query params) name = first_value params name.
Proof.
  revert fuel. induction params as [|[k v] rest IH]; intros fuel Hf Hne; [done |].
  destruct fuel as [|f]; simpl in Hf; [lia |].
  assert (Hamp : "&"%char ∉ encode k ++ "="%char :: encode v) by (by apply item_without).
  destruct rest as [|r rest].
  - unfold encode_query. simpl. rewrite (proj2 (split_at_None _ _)) by done.
    rewrite decode_pair_encode. done.
  - rewrite encode_query_cons. cbn [find_parameter first_value].
    rewrite (split_at_app _ _ _ Hamp).
    rewrite decode_pair_encode. case_bool_decide; [done |]. apply IH; [lia | done].
Qed.

Lemma encode_query_without c params : unreserved c = false -> c <> percent -> c <> "="%char ->
  c <> "&"%char -> c ∉ encode_query params.
Proof.
  intros Hc Hp He Ha. unfold encode_query.
  induction params as [|[k v] rest IH]; [apply not_elem_of_nil |].
  destruct rest as [|r rest]; [by apply item_without |].
  change (c ∉ encode_query ((k, v) :: r :: rest)). rewrite encode_query_cons.
  rewrite not_elem_of_app, not_elem_of_cons.
  split; [by apply item_without | split; [done | exact IH]].
Qed.

Lemma encode_query_length params : (length params <= S (length (encode_query params)))%nat.
Proof.
  unfold encode_query. induction params as [|[k v] rest IH]; [simpl; lia |].
  destruct rest as [|r rest]; [simpl; lia |].
  rewrite fmap_cons. cbn [join fmap list_fmap] in IH |- *. rewrite !length_app in *. simpl in *. lia.
Qed.

(** A query string built from any parameters, each name and value
    percent-encoded, is read back by [queryParameter]: it returns the value of
    the first parameter of the name asked for, and nothing when there is none,
    whatever bytes the names and values hold. *)
Theorem queryParameter_encode path params name fragment :
  "?"%char ∉ path -> params <> [] ->
  queryParameter (path ++ "?"%char :: encode_query params ++ "#"%char :: fragment) name
    = first_value params name
  /\ queryParameter (path ++ "?"%char :: encode_query params) name = first_value params name.
Proof.
  intros Hpath Hne. unfold queryParameter.
  assert (Hhash : "#"%char ∉ encode_query params) by (by apply encode_query_without).
  split; rewrite (split_at_app _ _ _ Hpath); cbv beta iota zeta;
    [rewrite (split_at_app _ _ _ Hhash) | rewrite (proj2 (split_at_None _ _) Hhash)];
    (apply find_parameter_encode; [apply encode_query_length | done]).
Qed.

Lemma queryParameter_encode_witness :
  queryParameter ("/sessions/1"%string ++ "?"%char ::
      encode_query [("a b"%string : str, "&=#"%string : str); ("token"%string : str, "x%y+z"%string : str)])
    "token"%string = Some ("x%y+z"%string : str).
Proof.
  apply (queryParameter_encode "/sessions/1"%string
           [("a b"%string : str, "&=#"%string : str); ("token"%string : str, "x%y+z"%string : str)]
           "token"%string []); [| done].
  apply (proj1 (split_at_None _ _)). vm_compute. reflexivity.
Defined.

End Query.

(** ** The token of a new supervisor *)
Section NewToken.
Context `{L : OpenSSLLaws}.

Definition lower_hex (c : byte) : bool :=
  ((48 <=? code c) && (code c <=? 57)) || ((97 <=? code c) && (code c <=? 102)).

(** What two characters of a token say: the inverse of [hex_byte]. *)
Fixpoint unhex (token : str) : str :=
  match token with
  | a :: b :: rest => chr (hexValue a * 16 + hexValue b) :: unhex rest
  | _ => []
  end.

Lemma hex_byte_lower c : forallb lower_hex (hex_byte c) = true.
Proof. by_bytes c. Qed.

Lemma newToken_bytes bytes acc :
  fold_left (fun token b => token ++ hex_byte b) bytes acc = acc ++ (bytes ≫= hex_byte).
Proof.
  revert acc. induction bytes as [|b bytes IH]; intros acc; [by rewrite app_nil_r |].
  cbn [fold_left]. rewrite IH, bind_cons. by rewrite app_assoc.
Qed.

Lemma hex_bytes_length bytes : length (bytes ≫= hex_byte) = (2 * length bytes)%nat.
Proof. induction bytes as [|b bytes IH]; [done |]. rewrite bind_cons. simpl. lia. Qed.

Lemma hex_bytes_lower bytes : Forall (fun c => lower_hex c = true) (bytes ≫= hex_byte).
Proof.
  induction bytes as [|b bytes IH]; [constructor |]. rewrite bind_cons. apply Forall_app.
  split; [| done]. apply Forall_forall. intros x Hx.
  pose proof (hex_byte_lower b) as H. rewrite forallb_forall in H. apply H. by apply list_elem_of_In.
Qed.

Lemma unhex_hex bytes : unhex (bytes ≫= hex_byte) = bytes.
Proof.
  induction bytes as [|b bytes IH]; [done |]. rewrite bind_cons.
  destruct (hex_byte_spec b) as (x & y & -> & _ & _ & _ & _ & Hxy).
  cbn [app unhex]. by rewrite IH, Hxy.
Qed.

Lemma drop_front_id c s : c <> space -> drop_front (c :: s) = c :: s.
Proof. intros Hc. simpl. by rewrite (proj2 (char_eqb_neq c space)). Qed.

Lemma drop_front_no_space s : Forall (fun c => lower_hex c = true) s -> drop_front s = s.
Proof.
  intros H. destruct H as [|c s Hc _]; [done |]. apply drop_front_id. by intros ->.
Qed.

Lemma bearerToken_of token : token <> [] -> Forall (fun c => lower_hex c = true) token ->
  bearerToken ("Bearer "%string ++ token) = Some token.
Proof.
  intros Hne Hhex. unfold bearerToken.
  assert (Hlen : (1 <= length token)%nat) by (destruct token; simpl; [done | lia]).
  rewrite (proj2 (Nat.leb_gt _ _)) by (rewrite length_app; simpl; lia).
  change (length scheme) with (length ("Bearer "%string : str)).
  rewrite take_app_length, drop_app_length.
  rewrite bool_decide_true by (by vm_compute). cbn [negb].
  rewrite (drop_front_no_space token) by done. unfold drop_back.
  rewrite drop_front_no_space by (by apply Forall_rev). rewrite rev_involutive.
  by rewrite bool_decide_false.
Qed.

(** A new token is the 32 random bytes written as 64 lower-case hexadecimal
    digits, from which the bytes can be read back (so distinct bytes give
    distinct tokens); a request that carries it as a bearer token is allowed;
    and when no random bytes are to be had, newToken throws rather than
    returning an empty token (which would switch the check off). *)
Theorem newToken_correct :
  match RAND_bytes 32 with
  | None => exists w, newToken = Throw w
  | Some bytes => exists token, newToken = Ok token
      /\ length token = 64%nat /\ Forall (fun c => lower_hex c = true) token
      /\ unhex token = bytes
      /\ forall uri, check [] ("Bearer "%string ++ token) uri token = Allowed
  end.
Proof.
  unfold newToken. destruct (RAND_bytes 32) as [bytes|] eqn:Hr; [| eauto].
  rewrite newToken_bytes. exists (bytes ≫= hex_byte). cbn [app].
  pose proof (RAND_bytes_length 32 bytes Hr) as Hlen.
  assert (H64 : length (bytes ≫= hex_byte) = 64%nat) by (rewrite hex_bytes_length; lia).
  pose proof (hex_bytes_lower bytes) as Hhex.
  split; [done |]. split; [done |]. split; [done |]. split; [apply unhex_hex |].
  intros uri. assert (Hne : (bytes ≫= hex_byte) <> []) by (intros E; by rewrite E in H64).
  unfold check. simpl fromBrowser. cbv iota. rewrite bool_decide_false by done.
  rewrite bearerToken_of by done.
  by rewrite (proj2 (matches_spec (Some (bytes ≫= hex_byte)) (bytes ≫= hex_byte))).
Qed.

End NewToken.

Lemma newToken_correct_witness : exists token, newToken (Ossl := Stub.stub) = Ok token
  /\ length token = 64%nat /\ check [] ("Bearer "%string ++ token) [] token = Allowed.
Proof.
  pose proof (newToken_correct (L := Stub.stub_laws)) as H. simpl in H.
  destruct H as (token & Heq & Hlen & _ & _ & Hc). by exists token.
Defined.

Lemma check_correct_witness :
  check (Ossl := Stub.stub) [] "Bearer abc"%string [] "abc"%string = Allowed.
Proof. apply (check_correct (L := Stub.stub_laws)). vm_compute. auto. Defined.
