(* ===== verification/Outbox.v ===== *)
(** * What the supervisor sends to one client: themisto/outbox.hpp

    An [Outbox] is shared by producers ([push], [stop], [abandon]) and a sender
    thread ([run]).  Each critical section of the code is one step: [step] is
    the whole system, a list of [Event]s one interleaving of it.  The sender's
    program counter is [Sender]; [sent] records the calls of [m_send]. *)

From Stdlib Require Import Ascii ZArith Lia.
From S2P Require Import Prelude.
Local Open Scope Z_scope.

Definition kFrameBytes : Z := Z.shiftl 1 20.
Definition kMaxBuffered : Z := Z.shiftl 1 20.

(** Where the thread is in [run]: waiting on the condition variable, at the
    head of the loop over the batch, in the back-off loop that follows a send
    (with the text that made the frame overflow, or after the last flush), or
    returned. *)
Inductive Sender :=
| Waiting
| Looping (frame : str) (batch : list str)
| BackingOff (next : option str) (batch : list str)
| Returned.

Record Outbox := {
  m_queue : list str;
  m_stopping : bool;
  m_abandoned : bool;
  sender : Sender;
  sent : list str
}.

Definition start : Outbox :=
  {| m_queue := []; m_stopping := false; m_abandoned := false; sender := Waiting; sent := [] |}.

Definition push (text : str) (o : Outbox) : Outbox :=
  if m_stopping o then o
  else {| m_queue := m_queue o ++ [text]; m_stopping := false; m_abandoned := m_abandoned o;
          sender := sender o; sent := sent o |}.

Definition stop (o : Outbox) : Outbox :=
  {| m_queue := m_queue o; m_stopping := true; m_abandoned := m_abandoned o;
     sender := sender o; sent := sent o |}.

Definition abandon (o : Outbox) : Outbox :=
  {| m_queue := []; m_stopping := true; m_abandoned := true; sender := sender o; sent := sent o |}.

Definition at_pc (s : Sender) (o : Outbox) : Outbox :=
  {| m_queue := m_queue o; m_stopping := m_stopping o; m_abandoned := m_abandoned o;
     sender := s; sent := sent o |}.

(** [m_send(frame)], then the back-off loop *)
Definition flush (frame : str) (next : option str) (batch : list str) (o : Outbox) : Outbox :=
  {| m_queue := m_queue o; m_stopping := m_stopping o; m_abandoned := m_abandoned o;
     sender := BackingOff next batch; sent := sent o ++ [frame] |}.

(** One step of the thread; [buffered] is what [m_buffered()] returns, if it is
    called.  A step of a thread that waits, or has returned, changes nothing. *)
Definition run_step (buffered : Z) (o : Outbox) : Outbox :=
  match sender o with
  | Waiting =>
      match m_queue o with
      | [] => if m_stopping o then at_pc Returned o else o
      | q => {| m_queue := []; m_stopping := m_stopping o; m_abandoned := m_abandoned o;
                sender := Looping [] q; sent := sent o |}
      end
  | Looping frame (text :: batch) =>
      if m_abandoned o then at_pc Returned o
      else if negb (bool_decide (frame = []))
              && (kFrameBytes <? Z.of_nat (length frame) + Z.of_nat (length text) + 1)
      then flush frame (Some text) batch o
      else at_pc (Looping (if bool_decide (frame = []) then text else frame ++ newline :: text) batch) o
  | Looping frame [] =>
      if bool_decide (frame = []) then at_pc Waiting o else flush frame None [] o
  | BackingOff next batch =>
      if (kMaxBuffered <? buffered) && negb (m_abandoned o) then o
      else at_pc (match next with Some text => Looping text batch | None => Waiting end) o
  | Returned => o
  end.

Inductive Event :=
| Push (text : str)
| Stop
| Abandon
| Run (buffered : Z).

Definition step (o : Outbox) (e : Event) : Outbox :=
  match e with
  | Push text => push text o
  | Stop => stop o
  | Abandon => abandon o
  | Run buffered => run_step buffered o
  end.

Definition execute (events : list Event) (o : Outbox) : Outbox := fold_left step events o.

(** ** What it promises

    The texts pushed before the first [stop] or [abandon] are [accepted]. *)
Fixpoint accepted (events : list Event) : list str :=
  match events with
  | Push text :: rest => text :: accepted rest
  | Run _ :: rest => accepted rest
  | _ => []
  end.

(** The JSON the relay sends: not empty, no raw newline. *)
Definition message (text : str) : Prop := text <> [] /\ newline ∉ text.

Definition messages_only (e : Event) : Prop :=
  match e with Push text => message text | _ => True end.

(** What the client reads: the frames cut at the newlines. *)
Definition received (frames : list str) : list str := frames ≫= split_all newline.

(** What the thread still holds, as texts. *)
Definition holding (s : Sender) : list str :=
  match s with
  | Waiting => []
  | Looping frame batch => (if bool_decide (frame = []) then [] else split_all newline frame) ++ batch
  | BackingOff (Some text) batch => text :: batch
  | BackingOff None batch => batch
  | Returned => []
  end.

(** A frame: the messages it carries, within the limit unless it is one. *)
Definition good_frame (frame : str) : Prop :=
  frame <> [] /\ Forall message (split_all newline frame)
  /\ (Z.of_nat (length frame) <= kFrameBytes \/ newline ∉ frame).

Record invariant (acc : list str) (o : Outbox) : Prop := {
  inv_frames : Forall good_frame (sent o);
  inv_frame : match sender o with
              | Looping frame _ => frame = [] \/ good_frame frame
              | BackingOff None batch => batch = []
              | _ => True
              end;
  inv_messages : Forall message (holding (sender o) ++ m_queue o);
  inv_order : if m_abandoned o then received (sent o) ++ holding (sender o) `prefix_of` acc
              else received (sent o) ++ holding (sender o) ++ m_queue o = acc;
  inv_abandoned : m_abandoned o = true -> m_stopping o = true /\ m_queue o = [];
  inv_returned : sender o = Returned -> m_stopping o = true /\ m_queue o = []
}.

(** ** The invariant *)
Lemma message_frame text : message text -> split_all newline text = [text].
Proof. intros [_ H]. by apply split_all_one. Qed.

Lemma message_good text : message text -> good_frame text.
Proof.
  intros Hm. pose proof Hm as [Hne Hnl]. split; [done |]. split; [| by right].
  rewrite message_frame by done. by constructor.
Qed.

Lemma good_frame_append frame text : good_frame frame -> message text ->
  Z.of_nat (length frame) + Z.of_nat (length text) + 1 <= kFrameBytes ->
  good_frame (frame ++ newline :: text).
Proof.
  intros (Hne & Hall & _) Hm Hlen. split; [by destruct frame |]. split.
  - rewrite split_all_sep, (message_frame text) by done. apply Forall_app. split; [done |].
    by constructor.
  - left. rewrite length_app. simpl length. lia.
Qed.

Lemma received_snoc frames frame : received (frames ++ [frame]) = received frames ++ split_all newline frame.
Proof. unfold received. rewrite bind_app, bind_singleton. done. Qed.

Lemma start_invariant : invariant [] start.
Proof. split; simpl; auto; done. Qed.

(** Only the order and the frame of the thread change when the thread moves. *)
Lemma at_pc_invariant acc o s :
  invariant acc o -> holding s = holding (sender o) ->
  match s with
  | Looping frame _ => frame = [] \/ good_frame frame
  | BackingOff None batch => batch = []
  | Returned => m_stopping o = true /\ m_queue o = []
  | _ => True
  end ->
  invariant acc (at_pc s o).
Proof.
  intros [Hf _ Hm Ho Ha _] Hh Hs. split; cbn [at_pc sent sender m_queue m_abandoned m_stopping];
    rewrite ?Hh; try done.
  - destruct s as [|? ?|[?|] ?|]; auto.
  - by intros ->.
Qed.

Lemma flush_invariant acc o frame next batch :
  invariant acc o -> sender o = Looping frame (match next with Some t => t :: batch | None => [] end) ->
  frame <> [] -> (next = None -> batch = []) ->
  invariant acc (flush frame next batch o).
Proof.
  intros [Hf Hfr Hm Ho Ha _] Hs Hne Hnext. rewrite Hs in *.
  destruct Hfr as [? | Hgood]; [done |]. cbn [holding] in *. rewrite bool_decide_false in * by done.
  rewrite <- app_assoc in Hm. apply Forall_app in Hm as [_ Hm].
  assert (Hh : holding (BackingOff next batch) = match next with Some t => t :: batch | None => [] end).
  { destruct next; cbn; [done | by apply Hnext]. }
  split; cbn [flush sent sender m_queue m_abandoned m_stopping]; rewrite ?Hh; try done.
  - apply Forall_app. split; [done | by constructor].
  - destruct next; [done | by apply Hnext].
  - rewrite received_snoc. destruct (m_abandoned o); rewrite <- ?app_assoc in *; done.
Qed.

Lemma run_step_invariant acc o buffered : invariant acc o -> invariant acc (run_step buffered o).
Proof.
  intros I. pose proof I as [Hf Hfr Hm Ho Ha Hr]. unfold run_step.
  destruct (sender o) as [|frame [|text batch]|next batch|] eqn:Hs; [| | | | done].
  - destruct (m_queue o) as [|x q] eqn:Hq.
    + destruct (m_stopping o) eqn:Hst; [| done]. apply at_pc_invariant; [done | by rewrite Hs | done].
    + split; cbn [sent sender m_queue m_abandoned m_stopping holding]; try done.
      * by left.
      * by rewrite app_nil_r.
      * destruct (m_abandoned o); [by destruct (Ha eq_refl) | by rewrite app_nil_r].
      * intros E. by destruct (Ha E).
  - case_bool_decide as Hfe; [| by apply flush_invariant].
    apply at_pc_invariant; [done | | done]. rewrite Hs. simpl. by rewrite bool_decide_true.
  - destruct (m_abandoned o) eqn:Hab.
    + destruct (Ha eq_refl) as [Hst Hq]. split; cbn [at_pc sent sender m_queue m_abandoned m_stopping holding];
        rewrite ?Hq, ?Hab; try done.
      rewrite app_nil_r. etrans; [| exact Ho]. by apply prefix_app_r.
    + destruct (negb _ && _) eqn:Hover.
      { apply andb_true_iff in Hover as [Hne _]. apply flush_invariant; try done.
        intros ->. by rewrite bool_decide_true in Hne. }
      assert (Hmsg : message text).
      { cbn [holding] in Hm. rewrite <- app_assoc in Hm. apply Forall_app in Hm as [_ Hm].
        by apply Forall_app in Hm as [[? _]%Forall_cons _]. }
      case_bool_decide as Hfe.
      * apply at_pc_invariant; [done | | right; by apply message_good].
        rewrite Hs. cbn [holding]. destruct Hmsg as [Hne Hnl].
        rewrite bool_decide_false, bool_decide_true by done. by rewrite split_all_one.
      * destruct Hfr as [? | Hgood]; [done |]. cbn [negb andb] in Hover. apply Z.ltb_ge in Hover.
        apply at_pc_invariant; [done | | right; by apply good_frame_append].
        rewrite Hs. cbn [holding]. rewrite !bool_decide_false by (by destruct frame).
        rewrite split_all_sep, (message_frame text) by done. by rewrite <- app_assoc.
  - destruct (_ && _); [done |]. destruct next as [text|].
    + apply at_pc_invariant; [done | |].
      * rewrite Hs. cbn [holding]. cbn [holding] in Hm. apply Forall_app in Hm as [Hm _].
        apply Forall_cons in Hm as [[Hne Hnl] _]. rewrite bool_decide_false by done. by rewrite split_all_one.
      * cbn [holding] in Hm. apply Forall_app in Hm as [Hm _].
        apply Forall_cons in Hm as [Hm _]. right. by apply message_good.
    + apply at_pc_invariant; [done | | done]. by rewrite Hs, Hfr.
Qed.

Lemma step_invariant acc o e : invariant acc o -> messages_only e ->
  invariant (acc ++ (if m_stopping o then [] else match e with Push text => [text] | _ => [] end)) (step o e).
Proof.
  intros I He. pose proof I as [Hf Hfr Hm Ho Ha Hr]. destruct e as [text| | |buffered]; cbn [step].
  - unfold push. destruct (m_stopping o) eqn:Hst; [by rewrite app_nil_r |].
    destruct (m_abandoned o) eqn:Hab; [by destruct (Ha eq_refl) |].
    split; cbn [sent sender m_queue m_abandoned m_stopping]; rewrite ?Hab; try done.
    + rewrite app_assoc. apply Forall_app. split; [done | by constructor].
    + rewrite <- Ho. by rewrite !app_assoc.
    + intros E. by destruct (Hr E).
  - replace (if m_stopping o then [] else []) with (@nil str) by (by destruct (m_stopping o)).
    rewrite app_nil_r. split; cbn [stop sent sender m_queue m_abandoned m_stopping]; try done.
    + intros E. by destruct (Ha E).
    + intros E. by destruct (Hr E).
  - replace (if m_stopping o then [] else []) with (@nil str) by (by destruct (m_stopping o)).
    rewrite app_nil_r. split; cbn [abandon sent sender m_queue m_abandoned m_stopping]; try done.
    + apply Forall_app in Hm as [Hm _]. by rewrite app_nil_r.
    + destruct (m_abandoned o); [done |]. rewrite <- Ho, app_assoc. by apply prefix_app_r.
  - replace (if m_stopping o then [] else []) with (@nil str) by (by destruct (m_stopping o)).
    rewrite app_nil_r. by apply run_step_invariant.
Qed.

Lemma step_stopping o e : m_stopping (step o e)
  = m_stopping o || match e with Stop | Abandon => true | _ => false end.
Proof.
  destruct e as [text| | |buffered]; cbn [step].
  - unfold push. by destruct (m_stopping o) eqn:E; rewrite ?E.
  - by rewrite orb_true_r.
  - by rewrite orb_true_r.
  - rewrite orb_false_r. unfold run_step, at_pc, flush. by cases.
Qed.

Lemma execute_invariant events acc o : Forall messages_only events -> invariant acc o ->
  invariant (acc ++ (if m_stopping o then [] else accepted events)) (execute events o).
Proof.
  intros Hall. revert acc o. induction Hall as [|e events He _ IH]; intros acc o I.
  - simpl. destruct (m_stopping o); by rewrite app_nil_r.
  - pose proof (step_invariant acc o e I He) as I'. specialize (IH _ _ I').
    cbn [execute fold_left]. unfold execute in IH.
    rewrite step_stopping in IH. rewrite <- app_assoc in IH.
    destruct (m_stopping o); [done |]. by destruct e.
Qed.

(** ** Every send is over some day

    [remaining] bounds the steps the thread still takes when the network
    drains: three per text, and the passages through the wait. *)
Definition remaining (o : Outbox) : nat :=
  (4 * length (m_queue o) + (if decide (m_queue o = []) then 0 else 2) +
  match sender o with
  | Waiting => 1
  | Looping frame batch => 4 * length batch + (if decide (frame = []) then 2 else 4)
  | BackingOff next batch => 4 * length batch + match next with Some _ => 5 | None => 2 end
  | Returned => 0
  end)%nat.

Lemma run_step_remaining o buffered : m_stopping o = true -> buffered <= kMaxBuffered ->
  sender o <> Returned ->
  m_stopping (run_step buffered o) = true /\
  (sender (run_step buffered o) = Returned \/ remaining (run_step buffered o) < remaining o)%nat.
Proof.
  intros Hst Hb Hr. split.
  { pose proof (step_stopping o (Run buffered)) as H. cbn [step] in H. by rewrite H, Hst. }
  unfold run_step, remaining. destruct (sender o) as [|frame [|text batch]|next batch|] eqn:Hs; [| | | | done].
  - destruct (m_queue o) as [|x q] eqn:Hq; [rewrite Hst; by left |].
    right. cbn [m_queue sender]. simpl. lia.
  - right. case_bool_decide as Hf; cbn [at_pc flush m_queue sender length].
    + rewrite (decide_True (P := frame = [])) by done. lia.
    + rewrite (decide_False (P := frame = [])) by done. lia.
  - destruct (m_abandoned o); [by left | right].
    destruct (negb _ && _) eqn:Hover; cbn [at_pc flush m_queue sender length].
    + apply andb_true_iff in Hover as [Hf _].
      rewrite (decide_False (P := frame = [])) by (intros ->; done). lia.
    + repeat case_decide; lia.
  - right. rewrite (proj2 (Z.ltb_ge _ _)) by done. cbn [andb].
    destruct next as [text|]; cbn [at_pc m_queue sender]; repeat case_decide; lia.
Qed.

Lemma drain_returns n o buffered : m_stopping o = true -> buffered <= kMaxBuffered ->
  (remaining o <= n)%nat -> sender (execute (repeat (Run buffered) n) o) = Returned.
Proof.
  intros Hst Hb. revert o Hst. induction n as [|n IH]; intros o Hst Hn.
  - unfold remaining in Hn. destruct (sender o) eqn:Hs; [lia | | | done];
      [destruct (decide (frame = [])); lia | destruct next; lia].
  - cbn [repeat execute fold_left step]. fold (execute (repeat (Run buffered) n) (run_step buffered o)).
    destruct (sender o) eqn:Hs.
    4: { assert (run_step buffered o = o) as -> by (unfold run_step; by rewrite Hs).
         clear -Hs. induction n as [|n IH]; [done |]. cbn [repeat execute fold_left step].
         unfold run_step at 1. by rewrite Hs. }
    all: destruct (run_step_remaining o buffered Hst Hb) as [Hst' [Hd | Hlt]];
      [by rewrite Hs | | apply IH; [done | lia]].
    all: generalize dependent (run_step buffered o); intros o' _ Hd; clear -Hd;
      induction n as [|n IH]; [done |]; cbn [repeat execute fold_left step];
      unfold run_step at 1; by rewrite Hd.
Qed.

(** C9: whatever the interleaving of producers, stop, abandon and the sender
    thread, when the texts pushed are messages (JSON without a raw newline) the
    client receives, cutting each frame at its newlines, the messages accepted
    before the first stop or abandon, in order, each at most once; every frame
    is at most kFrameBytes long or a single message; a thread that returned
    without abandon has sent every one of them. *)
Theorem execute_correct events : Forall messages_only events ->
  let o := execute events start in
  Forall good_frame (sent o)
  /\ received (sent o) `prefix_of` accepted events
  /\ (sender o = Returned -> m_abandoned o = false -> received (sent o) = accepted events).
Proof.
  intros Hall o. destruct (execute_invariant events [] start Hall start_invariant) as [Hf _ _ Ho Ha Hr].
  simpl in Ho. fold o in Hf, Ho, Ha, Hr. split; [done |]. split.
  - destruct (m_abandoned o).
    + etrans; [| exact Ho]. by apply prefix_app_r.
    + rewrite <- Ho. by apply prefix_app_r.
  - intros Hret Hab. destruct (Hr Hret) as [_ Hq]. rewrite Hab, Hret, Hq in Ho.
    simpl in Ho. by rewrite app_nil_r in Ho.
Qed.

(** How many frames an abandoned thread may still send. *)
Definition last_words (s : Sender) : nat :=
  match s with Looping _ _ | BackingOff (Some _) _ => 1 | _ => 0 end.

Lemma abandoned_step o e : m_abandoned o = true -> m_stopping o = true -> m_queue o = [] ->
  m_abandoned (step o e) = true /\ m_stopping (step o e) = true /\ m_queue (step o e) = []
  /\ (length (sent (step o e)) + last_words (sender (step o e)) <= length (sent o) + last_words (sender o))%nat.
Proof.
  intros Hab Hst Hq. destruct e as [text| | |buffered]; cbn [step]; [| by repeat split.. |].
  - unfold push. by rewrite Hst.
  - unfold run_step. rewrite Hab, Hst, Hq, andb_false_r.
    destruct (sender o) as [|frame [|text batch]|[text|] batch|] eqn:Hs;
      try case_bool_decide; cbn [at_pc flush m_abandoned m_stopping m_queue sent sender last_words];
      rewrite ?Hs, ?length_app; cbn [last_words length]; repeat split; try done; lia.
Qed.

Lemma abandoned_execute events o : m_abandoned o = true -> m_stopping o = true -> m_queue o = [] ->
  (length (sent (execute events o)) <= length (sent o) + last_words (sender o))%nat.
Proof.
  revert o. induction events as [|e events IH]; intros o Hab Hst Hq; [cbn; lia |].
  destruct (abandoned_step o e Hab Hst Hq) as (Hab' & Hst' & Hq' & Hle).
  cbn [execute fold_left]. etrans; [by apply IH | lia].
Qed.

Lemma execute_app before after o : execute (before ++ after) o = execute after (execute before o).
Proof. apply fold_left_app. Qed.

Lemma drain_abandoned n o buffered :
  m_abandoned (execute (repeat (Run buffered) n) o) = m_abandoned o.
Proof.
  revert o. induction n as [|n IH]; intros o; [done |]. cbn [repeat execute fold_left step].
  unfold execute in IH. rewrite IH. unfold run_step, at_pc, flush. by cases.
Qed.

Lemma accepted_drain events n buffered :
  accepted (events ++ repeat (Run buffered) n) = accepted events.
Proof.
  induction events as [|[text| | |b] events IH]; simpl; try done; [| by rewrite IH].
  induction n as [|n IH]; [done | exact IH].
Qed.

(** Once stopped, the thread ends: when ixwebsocket drains (every
    bufferedAmount within kMaxBuffered) it returns after finitely many steps,
    and, unless it was abandoned, the client has received every message
    accepted before the stop.  An abandoned outbox sends at most one more frame. *)
Theorem stopped_drains events buffered : Forall messages_only events -> buffered <= kMaxBuffered ->
  (m_stopping (execute events start) = true -> exists n,
     let o := execute (events ++ repeat (Run buffered) n) start in
     sender o = Returned /\
     (m_abandoned (execute events start) = false -> received (sent o) = accepted events))
  /\ forall later, (length (sent (execute (events ++ Abandon :: later) start))
                    <= S (length (sent (execute events start))))%nat.
Proof.
  intros Hall Hb. split.
  - intros Hst. exists (remaining (execute events start)). intros o.
    assert (Hret : sender o = Returned) by (subst o; rewrite execute_app; by apply drain_returns).
    split; [done |]. intros Hab.
    assert (Hall' : Forall messages_only (events ++ repeat (Run buffered) (remaining (execute events start)))).
    { apply Forall_app. split; [done |]. apply Forall_forall. intros e He.
      apply list_elem_of_In, repeat_spec in He as ->. done. }
    assert (Hab' : m_abandoned o = false) by (subst o; by rewrite execute_app, drain_abandoned).
    pose proof (execute_invariant _ [] start Hall' start_invariant) as I.
    destruct I as [_ _ _ Ho _ Hr]. fold o in Ho, Hr. destruct (Hr Hret) as [_ Hq].
    rewrite Hab', Hret, Hq in Ho. cbn [holding] in Ho. rewrite !app_nil_r in Ho. rewrite Ho.
    apply accepted_drain.
  - intros later. rewrite execute_app. cbn [execute fold_left step]. fold (execute later (abandon (execute events start))).
    etrans; [by apply abandoned_execute |]. cbn [abandon sent sender].
    destruct (sender (execute events start)) as [| |[?|] ?|]; cbn [last_words]; lia.
Qed.

Definition example_events : list Event :=
  [Push "{1}"%string; Run 0; Push "{2}"%string; Run 0; Push "{3}"%string; Run 0; Run 0; Stop; Push "late"%string].

Lemma example_messages : Forall messages_only example_events.
Proof.
  assert (Hm : forall text : str, text <> [] -> forallb (fun c => negb (char_eqb c newline)) text = true -> message text).
  { intros text Hne Hf. split; [done |]. intros Hin. rewrite forallb_forall in Hf.
    apply list_elem_of_In, Hf in Hin. by rewrite char_eqb_refl in Hin. }
  unfold example_events. repeat constructor; by apply Hm.
Qed.

Lemma execute_correct_witness :
  received (sent (execute (example_events ++ repeat (Run 0) 8) start))
    = (["{1}"%string : str; "{2}"%string : str; "{3}"%string : str]).
Proof.
  assert (Hall : Forall messages_only (example_events ++ repeat (Run 0) 8)).
  { apply Forall_app. split; [apply example_messages | repeat constructor]. }
  destruct (execute_correct _ Hall) as (_ & _ & H).
  rewrite H; vm_compute; reflexivity.
Defined.

Lemma stopped_drains_witness : exists n,
  sender (execute (example_events ++ repeat (Run 0) n) start) = Returned.
Proof.
  destruct (stopped_drains example_events 0 example_messages ltac:(vm_compute; discriminate)) as [H _].
  destruct H as (n & Hn & _); [vm_compute; reflexivity |]. by exists n.
Defined.
