(* ===== verification/StataCode.v ===== *)
(** * Stata code as text: the first half of callisto/stata/stata_text.cpp

    Whether a cell is complete, what is being completed at the cursor, the
    names that match, the word under the cursor: the functions of stata_text.cpp
    that read the user's code.  An index that walks a string is a list and, for
    a character looked back at, the text before it. *)

From Stdlib Require Import Ascii ZArith Lia.
From S2P Require Import Prelude.
Local Open Scope Z_scope.

(** ** Characters (the "C" locale) *)
Definition isspace (c : byte) : bool := (code c =? 32) || ((9 <=? code c) && (code c <=? 13)).
Definition isdigit (c : byte) : bool := (48 <=? code c) && (code c <=? 57).
Definition isalnum (c : byte) : bool :=
  isdigit c || ((65 <=? code c) && (code c <=? 90)) || ((97 <=? code c) && (code c <=? 122)).

Definition isSpace (c : byte) : bool := isspace c.
Definition isNameChar (c : byte) : bool := (128 <=? code c) || isalnum c || char_eqb c "_"%char.

(** ** Lines, words, trimming *)

(** [std::getline] until it fails: no line follows a final newline. *)
Definition getlines (text : str) : list str :=
  match split_all newline text with
  | lines => match last lines with Some [] => removelast lines | _ => lines end
  end.

Definition strip_cr (line : str) : str :=
  match last line with
  | Some c => if char_eqb c carriage_return then removelast line else line
  | None => line
  end.

Definition splitLines (text : str) : list str := strip_cr <$> getlines text.

Fixpoint skip_space (s : str) : str :=
  match s with
  | c :: rest => if isSpace c then skip_space rest else s
  | [] => []
  end.

Definition trim (text : str) : str := rev (skip_space (rev (skip_space text))).

(** [stream >> word] until it fails. [word] is the word being read. *)
Fixpoint words_from (word s : str) : list str :=
  match s with
  | [] => if bool_decide (word = []) then [] else [word]
  | c :: rest =>
      if isspace c then (if bool_decide (word = []) then [] else [word]) ++ words_from [] rest
      else words_from (word ++ [c]) rest
  end.

Definition splitNames (text : str) : list str := words_from [] text.

(** ** isComplete *)
Record Scan := {
  commentDepth : Z;
  braces : Z;
  continued : bool;
  inString : bool;
  compound : Z;
  sawCode : bool
}.

Definition set_comment d (s : Scan) : Scan := Build_Scan d (braces s) (continued s) (inString s) (compound s) (sawCode s).
Definition set_braces b (s : Scan) : Scan := Build_Scan (commentDepth s) b (continued s) (inString s) (compound s) (sawCode s).
Definition set_continued k (s : Scan) : Scan := Build_Scan (commentDepth s) (braces s) k (inString s) (compound s) (sawCode s).
Definition set_string i (s : Scan) : Scan := Build_Scan (commentDepth s) (braces s) (continued s) i (compound s) (sawCode s).
Definition set_compound c (s : Scan) : Scan := Build_Scan (commentDepth s) (braces s) (continued s) (inString s) c (sawCode s).
Definition saw_code (s : Scan) : Scan := Build_Scan (commentDepth s) (braces s) (continued s) (inString s) (compound s) true.

Definition dquote : byte := "034"%char.
Definition backtick : byte := "`"%char.
Definition squote : byte := "'"%char.
Definition slash : byte := "/"%char.
Definition star : byte := "*"%char.

Definition blank_before (prev : option byte) : bool :=
  match prev with None => true | Some p => isSpace p end.

(** The loop over one line: [prev] is [line[j - 1]], the list the line from [j]
    on; [None] is the early return of "invalid". *)
Fixpoint scan_line (line : str) (prev : option byte) (s : Scan) : option Scan :=
  match line with
  | [] => Some s
  | c :: rest =>
      let next := match rest with n :: _ => n | [] => nul end in
      let one s' := scan_line rest (Some c) s' in
      let two s' := match rest with n :: rest' => scan_line rest' (Some n) s' | [] => Some s' end in
      if 0 <? commentDepth s then
        if char_eqb c star && char_eqb next slash then two (set_comment (commentDepth s - 1) s)
        else if char_eqb c slash && char_eqb next star then two (set_comment (commentDepth s + 1) s)
        else one s
      else if inString s then one (if char_eqb c dquote then set_string false s else s)
      else if 0 <? compound s then
        if char_eqb c backtick && char_eqb next dquote then two (set_compound (compound s + 1) s)
        else if char_eqb c dquote && char_eqb next squote then two (set_compound (compound s - 1) s)
        else one s
      else if isSpace c then one s
      else if negb (sawCode s) && char_eqb c star then Some s
      else if char_eqb c slash && char_eqb next star then two (set_comment (commentDepth s + 1) s)
      else if char_eqb c slash && char_eqb next slash && blank_before prev then
        Some (match rest with
              | _ :: third :: _ => if char_eqb third slash then set_continued true s else s
              | _ => s
              end)
      else
        let s := saw_code s in
        if char_eqb c backtick && char_eqb next dquote then two (set_compound 1 s)
        else if char_eqb c dquote then one (set_string true s)
        else if char_eqb c "{"%char then one (set_braces (braces s + 1) s)
        else if char_eqb c "}"%char then
          if braces s - 1 <? 0 then None else one (set_braces (braces s - 1) s)
        else one s
  end.

(** The variables that outlive a line; the others start afresh on each. *)
Definition end_line (s : Scan) : Scan :=
  Build_Scan (commentDepth s) (braces s) (continued s) false 0 false.

Definition scan_one (s : Scan) (line : str) : option Scan :=
  if (commentDepth s =? 0) && bool_decide (trim line = []) then Some s
  else end_line <$> scan_line line None (end_line (set_continued false s)).

Fixpoint scan_lines (lines : list str) (s : Scan) : option Scan :=
  match lines with
  | [] => Some s
  | line :: rest => match scan_one s line with Some s' => scan_lines rest s' | None => None end
  end.

Definition scan_start : Scan := Build_Scan 0 0 false false 0 false.

Definition isComplete (code : str) : str :=
  match scan_lines (splitLines code) scan_start with
  | None => "invalid"%string
  | Some s => if (0 <? commentDepth s) || (0 <? braces s) || continued s then "incomplete"%string
              else "complete"%string
  end.

(** ** Completion *)
Definition commandPrefixes : list str :=
  String.list_ascii_of_string <$> ["quietly"; "qui"; "quietl"; "noisily"; "noi"; "capture";
    "cap"; "captur"; "capt"; "captu"; "bysort"; "bys"; "by"; "xi"; "svy"; "mi"; "statsby"; "rolling";
    "bootstrap"; "jackknife"; "permute"; "simulate"; "nestreg"; "stepwise"; "eststo"; "version"; "frame";
    "timer"; "python"; "mata"; "collect"; "table"]%string.

Definition isCommandPrefix (word : str) : bool := bool_decide (word ∈ commandPrefixes).

(** [before.rfind(':')]: what follows the last colon. *)
Definition after_last (c : byte) (s : str) : str := take_while_end (fun x => negb (char_eqb x c)) s.

(** [line] is the text of the code before [start]. *)
Definition startsCommand (code : str) (start : nat) : bool :=
  let before := take_while_end (fun c => negb (char_eqb c newline) && negb (char_eqb c ";"%char)) (take start code) in
  forallb isCommandPrefix (splitNames (after_last ":"%char before)).

Inductive CompletionKind := KindNone | Variable_ | Global_ | Local_ | Command | Result.

Record CompletionToken := {
  kind : CompletionKind;
  token_prefix : str;
  token_start : Z;
  resultClass : byte
}.

(** [code[start - k]], or NUL before the start. *)
Definition char_before (code : str) (start k : nat) : byte :=
  if (k <=? start)%nat then nth (start - k) code nul else nul.

Definition cursor (code : str) (cursorPos : Z) : nat :=
  Z.to_nat (clamp cursorPos 0 (Z.of_nat (length code))).

Definition completionToken (code : str) (cursorPos : Z) : CompletionToken :=
  let pos := cursor code cursorPos in
  let prefix := take_while_end isNameChar (take pos code) in
  let start := (pos - length prefix)%nat in
  let before := char_before code start 1 in
  let beforeThat := char_before code start 2 in
  let third := char_before code start 3 in
  let token k r := {| kind := k; token_prefix := prefix; token_start := Z.of_nat start; resultClass := r |} in
  if char_eqb before backtick then token Local_ nul
  else if char_eqb before "$"%char || (char_eqb before "{"%char && char_eqb beforeThat "$"%char) then token Global_ nul
  else if char_eqb before "("%char
          && (char_eqb beforeThat "r"%char || char_eqb beforeThat "e"%char || char_eqb beforeThat "s"%char)
          && negb (isNameChar third)
  then token Result beforeThat
  else match prefix with
       | c :: _ => if negb (isdigit c)
                   then token (if startsCommand code start then Command else Variable_) nul
                   else token KindNone nul
       | [] => token KindNone nul
       end.

Definition tokenAt (code : str) (cursorPos : Z) : str :=
  let pos := cursor code cursorPos in
  take_while_end isNameChar (take pos code) ++ take_while isNameChar (drop pos code).

(** The loop over the candidates, with the names seen. *)
Fixpoint match_names (candidates : list str) (prefix : str) (seen : list str) : list str :=
  match candidates with
  | [] => []
  | name :: rest =>
      if starts_with prefix name && negb (bool_decide (name ∈ seen))
      then name :: match_names rest prefix (name :: seen)
      else match_names rest prefix seen
  end.

Definition matchingNames (candidates : list str) (prefix : str) : list str := match_names candidates prefix [].

Fixpoint contains (p s : str) : bool :=
  starts_with p s || match s with [] => false | _ :: s' => contains p s' end.

Definition isSingleCommand (code : str) : bool :=
  let line := trim code in
  if bool_decide (line = []) || contains [newline] line || contains [carriage_return] line then false
  else if negb (str_eqb (isComplete line) "complete"%string) then false
  else if char_eqb (nth 0 line nul) star || char_eqb (nth 0 line nul) "#"%char
          || contains [slash; slash] line || contains [slash; star] line
  then false
  else negb (str_eqb (hd [] (splitNames line)) "exit"%string).

(** ** Lines and trimming *)
Lemma getlines_app a b : getlines (a ++ newline :: b) = split_all newline a ++ getlines b.
Proof.
  unfold getlines. rewrite split_all_sep, last_app.
  destruct (exists_last (split_all_not_nil newline b)) as (l & x & Hb).
  rewrite Hb, last_snoc. destruct x; [| done].
  by rewrite app_assoc, !removelast_last.
Qed.

Lemma getlines_split a : split_all newline a = getlines a \/ split_all newline a = getlines a ++ [[]].
Proof.
  unfold getlines. destruct (exists_last (split_all_not_nil newline a)) as (l & x & Ha).
  rewrite Ha, last_snoc. destruct x; [right; by rewrite removelast_last | by left].
Qed.

Lemma getlines_one a : a <> [] -> newline ∉ a -> getlines a = [a].
Proof. intros Hne Hn. unfold getlines. rewrite split_all_one by done. by destruct a. Qed.

Lemma strip_cr_id line : carriage_return ∉ line -> strip_cr line = line.
Proof.
  intros H. unfold strip_cr. destruct (last line) as [c|] eqn:Hl; [| done].
  destruct (char_eqb c carriage_return) eqn:Hc; [| done]. apply char_eqb_eq in Hc as ->.
  apply last_Some_elem_of in Hl. done.
Qed.

Lemma skip_space_nil s : skip_space s = [] <-> forallb isSpace s = true.
Proof.
  induction s as [|c s IH]; simpl; [done |]. destruct (isSpace c); [done |]. simpl. done.
Qed.

Lemma skip_space_decomp s : exists b, s = b ++ skip_space s /\ forallb isSpace b = true
  /\ match skip_space s with c :: _ => isSpace c = false | [] => True end.
Proof.
  induction s as [|c s IH]; simpl; [by exists [] |].
  destruct (isSpace c) eqn:Hc.
  - destruct IH as (b & Hs & Hb & Hh). exists (c :: b). simpl. rewrite Hc. split; [by f_equal | done].
  - exists []. done.
Qed.

Lemma forallb_rev (f : byte -> bool) s : forallb f (rev s) = forallb f s.
Proof.
  induction s as [|c s IH]; [done |]. simpl. rewrite forallb_app, IH. simpl.
  rewrite andb_true_r. apply andb_comm.
Qed.

Lemma trim_nil s : trim s = [] <-> forallb isSpace s = true.
Proof.
  unfold trim. rewrite <- (skip_space_nil s). split; intros H.
  - apply (f_equal (@rev _)) in H. rewrite rev_involutive in H. apply skip_space_nil in H.
    rewrite forallb_rev in H. destruct (skip_space_decomp s) as (b & _ & _ & Hh).
    destruct (skip_space s) as [|c t]; [done |]. simpl in H. by rewrite Hh in H.
  - by rewrite H.
Qed.

(** ** isComplete: cells one after another *)
Definition scan_wf (s : Scan) : Prop :=
  0 <= commentDepth s /\ 0 <= braces s /\ (0 < commentDepth s -> continued s = false).

(** The next [if] of the code that the goal is about. *)
Ltac branch :=
  match goal with |- (if ?b then _ else _) = _ -> _ => destruct b end.

Lemma scan_line_wf line : forall prev s s', scan_wf s -> (continued s = false) ->
  scan_line line prev s = Some s' -> scan_wf s'.
Proof.
  unfold scan_wf. induction line as [|c rest IH1 IH2] using list_two_ind; intros prev s s' Hwf Hk.
  { simpl. intros [= <-]. done. }
  assert (IH2' : forall s0 s1, scan_wf s0 -> continued s0 = false ->
            match rest with n :: rest' => scan_line rest' (Some n) s0 | [] => Some s0 end = Some s1 -> scan_wf s1).
  { intros s0 s1 Hs0 Hk0. destruct rest as [|n rest']; [intros [= <-]; done |]. by eapply IH2. }
  unfold scan_wf in IH2'. cbn [scan_line].
  destruct (Z.ltb_spec 0 (commentDepth s)).
  { branch; [apply IH2'; cbn; intuition lia |]. branch; [apply IH2'; cbn; intuition lia | by apply IH1]. }
  branch; [apply IH1; destruct (char_eqb c dquote); cbn; intuition |].
  destruct (Z.ltb_spec 0 (compound s)).
  { branch; [apply IH2'; cbn; intuition |]. branch; [apply IH2'; cbn; intuition | by apply IH1]. }
  branch; [by apply IH1 |]. branch; [by intros [= <-] |].
  branch; [apply IH2'; cbn; intuition lia |].
  branch.
  { intros [= <-]. destruct rest as [|? [|? ?]]; [done | done |]. case_match; cbn; intuition lia. }
  branch; [apply IH2'; cbn; intuition |].
  branch; [apply IH1; cbn; intuition |].
  branch; [apply IH1; cbn; intuition lia |].
  branch; [| apply IH1; cbn; intuition].
  destruct (Z.ltb_spec (braces (saw_code s) - 1) 0); [done |]. apply IH1; cbn in *; intuition lia.
Qed.

Definition between_lines (s : Scan) : Prop := scan_wf s /\ end_line s = s.

Lemma scan_one_wf s line s' : between_lines s -> scan_one s line = Some s' -> between_lines s'.
Proof.
  unfold scan_one. intros [Hwf He]. case_match; [intros [= <-]; done |].
  destruct (scan_line _ _ _) as [s''|] eqn:Hs; [| done]. intros [= <-].
  apply scan_line_wf in Hs; [| | done].
  - split; done.
  - destruct Hwf as (? & ? & ?). split; cbn; auto.
Qed.

Lemma scan_lines_wf lines s s' : between_lines s -> scan_lines lines s = Some s' -> between_lines s'.
Proof.
  revert s. induction lines as [|line lines IH]; intros s Hs; cbn; [by intros [= <-] |].
  destruct (scan_one s line) as [s1|] eqn:H1; [| done]. intros H. eapply IH; [| done]. by eapply scan_one_wf.
Qed.

Lemma scan_lines_app a b s : scan_lines (a ++ b) s = scan_lines a s ≫= scan_lines b.
Proof.
  revert s. induction a as [|line a IH]; intros s; [done |]. cbn. by destruct (scan_one s line).
Qed.

Lemma scan_blank s : between_lines s -> scan_one s [] = Some s.
Proof.
  intros [(Hd & Hb & Hk) He]. unfold scan_one.
  destruct (Z.eqb_spec (commentDepth s) 0) as [H0 | H0]; [done |].
  cbn. f_equal. transitivity (end_line s); [| done]. unfold end_line. cbn. by rewrite Hk by lia.
Qed.

Lemma scan_start_wf : between_lines scan_start.
Proof. split; [| done]. split; [done | split; done]. Qed.

(** A cell followed by another: the scan goes on where the first left it. *)
Lemma scan_cells a b :
  scan_lines (splitLines (a ++ newline :: b)) scan_start
  = scan_lines (splitLines a) scan_start ≫= scan_lines (splitLines b).
Proof.
  unfold splitLines. rewrite getlines_app, fmap_app, scan_lines_app.
  destruct (getlines_split a) as [-> | ->]; [done |].
  rewrite fmap_app, scan_lines_app.
  destruct (scan_lines (strip_cr <$> getlines a) scan_start) as [s|] eqn:Hs; [| done].
  apply scan_lines_wf in Hs; [| apply scan_start_wf]. cbn [mbind option_bind].
  cbn [fmap list_fmap strip_cr last scan_lines]. change (strip_cr []) with (@nil byte).
  by rewrite scan_blank.
Qed.

(** What closes everything still open: the comments, then the blocks. *)
Fixpoint closers (d : nat) : str := match d with O => [] | S d' => star :: slash :: closers d' end.

Definition completion (s : Scan) : str :=
  closers (Z.to_nat (commentDepth s)) ++ "x"%char :: repeat "}"%char (Z.to_nat (braces s)).

Lemma scan_closers d rest prev s : commentDepth s = Z.of_nat d -> exists prev',
  scan_line (closers d ++ rest) prev s = scan_line rest prev' (set_comment 0 s).
Proof.
  revert prev s. induction d as [|d IH]; intros prev s Hd.
  - exists prev. cbn [closers app]. f_equal. destruct s. cbn in *. by rewrite Hd.
  - cbn [closers app scan_line]. rewrite Hd. cmp. rewrite !char_eqb_refl. cbn [andb].
    destruct (IH (Some slash) (set_comment (Z.of_nat (S d) - 1) s)) as [p Hp]; [cbn; lia |].
    exists p. exact Hp.
Qed.

Lemma scan_braces n prev s : commentDepth s = 0 -> inString s = false -> compound s = 0 -> sawCode s = true ->
  braces s = Z.of_nat n -> scan_line (repeat "}"%char n) prev s = Some (set_braces 0 s).
Proof.
  revert prev s. induction n as [|n IH]; intros prev s Hd Hi Hc Hs Hb.
  - cbn [repeat scan_line]. destruct s; cbn in *; by subst.
  - cbn [repeat scan_line]. rewrite Hd, Hi, Hc, Hs. cbn -[scan_line].
    rewrite (proj2 (Z.ltb_ge _ _)) by (rewrite Hb; lia).
    change (isSpace "}"%char) with false. cbv iota. rewrite IH; cbn; try done; [| lia].
    unfold saw_code, set_braces. cbn. by rewrite Hs.
Qed.

Lemma completion_closes s : between_lines s ->
  scan_lines (splitLines (completion s)) s = Some scan_start.
Proof.
  intros [(Hd & Hb & Hk) He]. pose (b := completion s). fold b.
  assert (Hx : "x"%char ∈ b) by (unfold b, completion; rewrite elem_of_app, elem_of_cons; auto).
  assert (Hchars : forall c, c ∈ b -> c ∈ [star; slash; "x"%char; "}"%char]).
  { intros c. unfold b, completion. rewrite elem_of_app, elem_of_cons. intros [H | [-> | H]].
    - induction (Z.to_nat (commentDepth s)) as [|d IH]; [by apply elem_of_nil in H |].
      cbn [closers] in H. apply elem_of_cons in H as [-> | [-> | H]%elem_of_cons]; [| | by apply IH];
        rewrite !elem_of_cons; tauto.
    - rewrite !elem_of_cons. tauto.
    - apply list_elem_of_In, repeat_spec in H as ->. rewrite !elem_of_cons. tauto. }
  assert (Hnl : newline ∉ b) by (intros H; apply Hchars in H; rewrite !elem_of_cons, elem_of_nil in H; naive_solver).
  assert (Hcr : carriage_return ∉ b) by (intros H; apply Hchars in H; rewrite !elem_of_cons, elem_of_nil in H; naive_solver).
  unfold splitLines. rewrite getlines_one by (done || (intros E; rewrite E in Hx; by apply elem_of_nil in Hx)).
  cbn [fmap list_fmap scan_lines]. rewrite strip_cr_id by done.
  unfold scan_one. rewrite (bool_decide_false (trim b = [])), andb_false_r.
  - unfold b, completion.
    destruct (scan_closers (Z.to_nat (commentDepth s)) ("x"%char :: repeat "}"%char (Z.to_nat (braces s))) None
                (end_line (set_continued false s))) as [p ->]; [cbn; lia |].
    cbn -[repeat]. change (isSpace "x"%char) with false. cbv iota.
    rewrite scan_braces by (cbn; done || lia).
    done.
  - rewrite trim_nil, forallb_forall. intros H. by apply list_elem_of_In, H in Hx.
Qed.

(** IsComplete reads a sequence of cells as the user would: a cell that is
    complete changes nothing for what follows it on later lines; a cell that is
    invalid stays invalid whatever follows; and a cell that is incomplete (an
    open comment or block, a /// at its end) always has a continuation that
    completes it. *)
Theorem isComplete_cells a :
  (isComplete a = "complete"%string /\ forall b, isComplete (a ++ newline :: b) = isComplete b)
  \/ (isComplete a = "invalid"%string /\ forall b, isComplete (a ++ newline :: b) = "invalid"%string)
  \/ (isComplete a = "incomplete"%string /\ exists b, isComplete (a ++ newline :: b) = "complete"%string).
Proof.
  unfold isComplete. setoid_rewrite scan_cells.
  destruct (scan_lines (splitLines a) scan_start) as [s|] eqn:Hs; [| by right; left].
  apply scan_lines_wf in Hs; [| apply scan_start_wf]. cbn [mbind option_bind].
  destruct (_ || _ || continued s) eqn:Hopen.
  - right. right. split; [done |]. exists (completion s). by rewrite completion_closes.
  - left. split; [done |]. intros b. replace s with scan_start; [done |].
    apply orb_false_iff in Hopen as [[Hd%Z.ltb_ge Hb%Z.ltb_ge]%orb_false_iff Hk].
    destruct Hs as [(Hd' & Hb' & _) <-]. unfold end_line. rewrite Hk.
    by replace (commentDepth s) with 0 by lia; replace (braces s) with 0 by lia.
Qed.

(** ** The token at the cursor *)
Lemma take_while_all f s : forallb f (take_while f s) = true.
Proof. induction s as [|c s IH]; [done |]. cbn. destruct (f c) eqn:Hc; [cbn; by rewrite Hc | done]. Qed.

Lemma take_while_split f s : exists rest, s = take_while f s ++ rest
  /\ match rest with c :: _ => f c = false | [] => True end.
Proof.
  induction s as [|c s (rest & Hs & Hr)]; [by exists [] |]. cbn. destruct (f c) eqn:Hc.
  - exists rest. split; [cbn; by f_equal | done].
  - by exists (c :: s).
Qed.

Lemma take_while_end_split f s : exists before, s = before ++ take_while_end f s
  /\ forallb f (take_while_end f s) = true
  /\ match last before with Some c => f c = false | None => True end.
Proof.
  unfold take_while_end. destruct (take_while_split f (rev s)) as (rest & Hs & Hr).
  exists (rev rest). split; [| split].
  - rewrite <- rev_app_distr, <- Hs. by rewrite rev_involutive.
  - rewrite forallb_rev. apply take_while_all.
  - destruct rest as [|c rest]; [done |]. cbn. by rewrite last_snoc.
Qed.

(** Where a name that ends at the cursor starts, as the code finds it. *)
Record at_cursor (code : str) (pos : nat) (before prefix : str) : Prop := {
  cursor_text : take pos code = before ++ prefix;
  cursor_name : forallb isNameChar prefix = true;
  cursor_longest : match last before with Some c => isNameChar c = false | None => True end
}.

Lemma cursor_range code cursorPos : (cursor code cursorPos <= length code)%nat.
Proof. unfold cursor. pose proof (clamp_range cursorPos 0 (Z.of_nat (length code)) ltac:(lia)). lia. Qed.

Lemma completionToken_fields code cursorPos :
  let pos := cursor code cursorPos in
  let t := completionToken code cursorPos in
  token_prefix t = take_while_end isNameChar (take pos code)
  /\ token_start t = Z.of_nat (pos - length (take_while_end isNameChar (take pos code))).
Proof.
  intros pos t. subst t. unfold completionToken. fold pos.
  destruct (char_eqb _ backtick); [done |]. destruct (char_eqb _ "$"%char || _); [done |].
  destruct (_ && negb _); [done |].
  destruct (take_while_end isNameChar (take pos code)); [done |]. by destruct (negb _).
Qed.

(** Whatever the cursor position (it is clamped into the code), the token
    being completed is the longest run of name characters that ends there, its
    start is within the code, and the code cut at it is unchanged; the word
    that inspection uses is that prefix and the longest run of name characters
    after the cursor. *)
Theorem completionToken_correct code cursorPos :
  let pos := cursor code cursorPos in
  let t := completionToken code cursorPos in
  exists before,
    at_cursor code pos before (token_prefix t)
    /\ 0 <= token_start t <= Z.of_nat (length code)
    /\ token_start t = Z.of_nat (length before)
    /\ code = before ++ token_prefix t ++ drop pos code
    /\ exists after rest, tokenAt code cursorPos = token_prefix t ++ after
       /\ drop pos code = after ++ rest /\ forallb isNameChar after = true
       /\ match rest with c :: _ => isNameChar c = false | [] => True end.
Proof.
  intros pos t. destruct (completionToken_fields code cursorPos) as [Hp Hs]. fold pos t in Hp, Hs.
  destruct (take_while_end_split isNameChar (take pos code)) as (before & Ht & Hn & Hl).
  rewrite <- Hp in Ht, Hn, Hs. exists before.
  pose proof (cursor_range code cursorPos) as Hr. fold pos in Hr.
  assert (Hlen : (length before + length (token_prefix t) = pos)%nat).
  { rewrite <- length_app, <- Ht, length_take. lia. }
  split; [by split |]. split; [lia |]. split; [lia |]. split.
  { rewrite app_assoc, <- Ht. by rewrite take_drop. }
  destruct (take_while_split isNameChar (drop pos code)) as (rest & Hd & Hr').
  exists (take_while isNameChar (drop pos code)), rest.
  split; [| split; [done | split; [apply take_while_all | done]]].
  unfold tokenAt. fold pos. by rewrite Hp.
Qed.

(** ** Names *)
Lemma match_names_spec candidates prefix seen :
  NoDup (match_names candidates prefix seen)
  /\ match_names candidates prefix seen `sublist_of` candidates
  /\ forall name, name ∈ match_names candidates prefix seen <->
       name ∈ candidates /\ starts_with prefix name = true /\ name ∉ seen.
Proof.
  revert seen. induction candidates as [|c cs IH]; intros seen; cbn [match_names].
  - split; [constructor |]. split; [done |]. intros name. rewrite elem_of_nil. tauto.
  - destruct (_ && _) eqn:Hc.
    + apply andb_true_iff in Hc as [Hp Hseen]. apply negb_true_iff, bool_decide_eq_false in Hseen.
      destruct (IH (c :: seen)) as (Hnd & Hsub & Hin). split; [| split].
      * constructor; [| done]. rewrite Hin, elem_of_cons. tauto.
      * by constructor.
      * intros name. rewrite !elem_of_cons, Hin, elem_of_cons.
        split; [intros [-> | H]; tauto |]. intros [[-> | H] H']; [by left |].
        destruct (decide (name = c)); [by left | right; tauto].
    + destruct (IH seen) as (Hnd & Hsub & Hin). split; [done |]. split; [by constructor |].
      intros name. rewrite Hin, elem_of_cons. split; [tauto |].
      intros [[-> | H] [Hp Hs]]; [| tauto]. rewrite Hp in Hc. cbn in Hc.
      by apply negb_false_iff, bool_decide_eq_true in Hc.
Qed.

Lemma words_from_word word w rest : forallb (fun c => negb (isspace c)) w = true ->
  words_from word (w ++ rest) = words_from (word ++ w) rest.
Proof.
  revert word. induction w as [|c w IH]; intros word Hw; [by rewrite app_nil_r |].
  cbn in Hw. apply andb_true_iff in Hw as [Hc Hw]. apply negb_true_iff in Hc.
  cbn [app words_from]. rewrite Hc, IH by done. by rewrite <- app_assoc.
Qed.

(** A word as Stata prints it in a list. *)
Definition word (w : str) : Prop := w <> [] /\ forallb (fun c => negb (isspace c)) w = true.

Lemma splitNames_join sep names : isspace sep = true -> Forall word names ->
  splitNames (join [sep] names) = names.
Proof.
  intros Hsep H. unfold splitNames. induction H as [|w ws [Hne Hw] Hws IH]; [done |].
  assert (Hread : forall rest, words_from [] (w ++ rest) = words_from w rest).
  { intros rest. by rewrite words_from_word. }
  destruct ws as [|v ws].
  - cbn [join]. rewrite <- (app_nil_r w) at 1. rewrite Hread. cbn. by rewrite bool_decide_false.
  - change (join [sep] (w :: v :: ws)) with (w ++ sep :: join [sep] (v :: ws)).
    rewrite Hread. cbn [words_from]. rewrite Hsep, bool_decide_false by done. by rewrite IH.
Qed.

(** Completion reads back the list of names Stata prints (whatever blank
    separates them) and offers exactly the names that start with what was
    typed, each once and in Stata's order. *)
Theorem matchingNames_correct sep names prefix : isspace sep = true -> Forall word names ->
  let matches := matchingNames (splitNames (join [sep] names)) prefix in
  NoDup matches /\ matches `sublist_of` names
  /\ forall name, name ∈ matches <-> name ∈ names /\ exists rest, name = prefix ++ rest.
Proof.
  intros Hsep Hnames matches. subst matches. rewrite splitNames_join by done.
  destruct (match_names_spec names prefix []) as (Hnd & Hsub & Hin).
  split; [done |]. split; [done |]. intros name. unfold matchingNames.
  rewrite Hin, starts_with_spec, elem_of_nil. tauto.
Qed.

Lemma matchingNames_correct_witness :
  NoDup (matchingNames (splitNames "mpg make mpg price"%string) "m"%string).
Proof.
  apply (matchingNames_correct " "%char
    ["mpg"%string : str; "make"%string : str; "mpg"%string : str; "price"%string : str] "m"%string); [done |].
  repeat constructor; done.
Defined.

Example matchingNames_example :
  matchingNames (splitNames "mpg make mpg price"%string) "m"%string = ["mpg"%string : str; "make"%string : str].
Proof. reflexivity. Qed.

Example isComplete_examples :
  isComplete "foreach v of varlist * {"%string = "incomplete"%string
  /\ isComplete ("display "%string ++ dquote :: "} not a brace"%string ++ [dquote]) = "complete"%string.
Proof. split; reflexivity. Qed.
