(* ===== verification/StataOutput.v ===== *)
(** * What Stata printed: the second half of callisto/stata/stata_text.cpp

    Joining the lines Stata wrapped, the error message at the end of an output,
    and the two stream filters a cell's output goes through: [TailHold], which
    holds back its last lines, and [EchoFilter], which removes the commands a
    do-file echoes.  A filter is its state and one function per method; what a
    method returns comes first. *)

From Stdlib Require Import Ascii ZArith Lia.
From S2P Require Import Prelude StataCode.
Local Open Scope Z_scope.

Definition dot : byte := "."%char.
Definition gt : byte := ">"%char.
Definition blank : byte := " "%char.

(** ** Wrapped lines *)
Fixpoint unwrap (text : str) : str :=
  match text with
  | [] => []
  | a :: t1 =>
      match t1 with
      | b :: t2 =>
          match t2 with
          | c :: t3 =>
              match t3 with
              | d :: t4 =>
                  if char_eqb a carriage_return && char_eqb b newline && char_eqb c gt && char_eqb d blank
                  then unwrap t4
                  else if char_eqb a newline && char_eqb b gt && char_eqb c blank then unwrap t3
                  else a :: unwrap t1
              | [] => if char_eqb a newline && char_eqb b gt && char_eqb c blank then unwrap t3 else a :: unwrap t1
              end
          | [] => a :: unwrap t1
          end
      | [] => a :: unwrap t1
      end
  end.

Definition printedLines (text : str) : list str :=
  filter (fun line => line <> []) (trim <$> splitLines (unwrap text)).

(** ** The regular expressions *)

(** [.] in ECMAScript: any character but a line terminator. *)
Definition dot_class (c : byte) : bool := negb (char_eqb c newline) && negb (char_eqb c carriage_return).

Fixpoint skip_digits (s : str) : str :=
  match s with c :: rest => if isdigit c then skip_digits rest else s | [] => [] end.

Definition starts_digit (s : str) : bool := match s with c :: _ => isdigit c | [] => false end.

(** The end of both patterns: nothing, or a blank and any characters. *)
Definition numbered_tail (s : str) : bool :=
  match s with [] => true | c :: t => char_eqb c blank && forallb dot_class t end.

(** [numbered]: blanks, digits, a dot, and that end. *)
Definition isNumberedLine (line : str) : bool :=
  let s := skip_space line in
  starts_digit s &&
  match skip_digits s with c :: t => char_eqb c dot && numbered_tail t | [] => false end.

(** [start]: what may still become one. *)
Definition mayBeNumbered (partial : str) : bool :=
  match skip_space partial with
  | [] => true
  | s => starts_digit s &&
         match skip_digits s with [] => true | c :: t => char_eqb c dot && numbered_tail t end
  end.

(** [code]: r, digits in parentheses, a semicolon. *)
Definition isReturnCodeLine (line : str) : bool :=
  match line with
  | c :: d :: s => char_eqb c "r"%char && char_eqb d "("%char && starts_digit s && str_eqb (skip_digits s) ");"%string
  | _ => false
  end.

(** ** The echo of a do-file *)
Definition isEchoLine (line : str) : bool := str_eqb line [dot] || starts_with [dot; blank] line.

(** [trimmed.find(p)]: the text before the first occurrence. *)
Fixpoint before_first (p s : str) : str :=
  if starts_with p s then [] else match s with c :: rest => c :: before_first p rest | [] => [] end.

Definition opensNumberedLines (command : str) : bool :=
  let trimmed := trim command in
  let trimmed := if contains " //"%string trimmed then trim (before_first " //"%string trimmed) else trimmed in
  if bool_decide (last trimmed = Some "{"%char) then true
  else
    let first := nth 0 (splitNames trimmed) [] in
    let second := nth 1 (splitNames trimmed) [] in
    if (2 <=? length first)%nat && starts_with first "program"%string
    then negb (str_eqb second "drop"%string) && negb (str_eqb second "dir"%string) && negb (str_eqb second "list"%string)
    else false.

Record EchoFilter := {
  m_partial : str;
  m_passing : bool;
  m_blankLines : nat;
  m_afterEcho : bool;
  m_numbered : bool;
  m_continuable : bool;
  m_command : str;
  m_lastLine : str
}.

Definition echo_start : EchoFilter :=
  {| m_partial := []; m_passing := false; m_blankLines := 0; m_afterEcho := false; m_numbered := false;
     m_continuable := false; m_command := []; m_lastLine := [] |}.

(** A "> " line may continue the echo before it. *)
Definition continues (f : EchoFilter) : bool := m_afterEcho f || (m_numbered f && m_continuable f).

(** The first character is [c], alone or followed by a blank. *)
Definition marks (c : byte) (partial : str) : bool :=
  match partial with
  | [a] => char_eqb a c
  | a :: b :: _ => char_eqb a c && char_eqb b blank
  | [] => false
  end.

Definition mayBeEcho (f : EchoFilter) (partial : str) : bool :=
  if bool_decide (partial = []) then true
  else if marks dot partial then true
  else if continues f && marks gt partial then true
  else if m_numbered f && mayBeNumbered partial then true
  else if char_eqb (hd nul partial) "r"%char && isReturnCodeLine (m_lastLine f) then true
  else false.

(** One complete line (without its newline). *)
Definition line (f : EchoFilter) (text : str) : str * EchoFilter :=
  let line := strip_cr text in
  let keep blank_ after numbered cont command last :=
    {| m_partial := m_partial f; m_passing := m_passing f; m_blankLines := blank_; m_afterEcho := after;
       m_numbered := numbered; m_continuable := cont; m_command := command; m_lastLine := last |} in
  if continues f && starts_with [gt; blank] line then
    let command := m_command f ++ drop 2 line in
    ([], keep (m_blankLines f) (m_afterEcho f) (opensNumberedLines command) (m_continuable f) command (m_lastLine f))
  else if isEchoLine line then
    let command := drop 2 line in
    ([], keep 0%nat true (opensNumberedLines command) (m_continuable f) command (m_lastLine f))
  else if m_numbered f && isNumberedLine line then
    ([], keep (m_blankLines f) false true true (m_command f) (m_lastLine f))
  else if bool_decide (trim line = []) then
    ([], keep (S (m_blankLines f)) false false false (m_command f) (m_lastLine f))
  else if isReturnCodeLine line && str_eqb line (m_lastLine f) && (m_blankLines f =? 0)%nat then
    ([], keep (m_blankLines f) false false false (m_command f) (m_lastLine f))
  else (repeat newline (m_blankLines f) ++ text ++ [newline], keep 0%nat false false false (m_command f) line).

Definition set_partial (p : str) (f : EchoFilter) : EchoFilter :=
  {| m_partial := p; m_passing := m_passing f; m_blankLines := m_blankLines f; m_afterEcho := m_afterEcho f;
     m_numbered := m_numbered f; m_continuable := m_continuable f; m_command := m_command f; m_lastLine := m_lastLine f |}.

(** The end of a line whose start went out already. *)
Definition end_passing (f : EchoFilter) (partial : str) : str * EchoFilter :=
  (partial ++ [newline],
   {| m_partial := []; m_passing := false; m_blankLines := m_blankLines f; m_afterEcho := m_afterEcho f;
      m_numbered := m_numbered f; m_continuable := m_continuable f; m_command := m_command f;
      m_lastLine := strip_cr (m_lastLine f ++ partial) |}).

(** The loop of push: [partial] is m_partial, [text] what is left from [begin]. *)
Fixpoint echo_lines (f : EchoFilter) (partial text : str) : str * EchoFilter :=
  match text with
  | [] => ([], set_partial partial f)
  | c :: rest =>
      if char_eqb c newline then
        let (out, f') := if m_passing f then end_passing f partial else line f partial in
        let (more, f'') := echo_lines f' [] rest in
        (out ++ more, f'')
      else echo_lines f (partial ++ [c]) rest
  end.

(** The start of a line that cannot be echo goes out now. *)
Definition pass_partial (f : EchoFilter) : str * EchoFilter :=
  let partial := m_partial f in
  if negb (bool_decide (partial = [])) && (m_passing f || negb (mayBeEcho f partial)) then
    if m_passing f then
      (partial,
       {| m_partial := []; m_passing := true; m_blankLines := m_blankLines f; m_afterEcho := m_afterEcho f;
          m_numbered := m_numbered f; m_continuable := m_continuable f; m_command := m_command f;
          m_lastLine := m_lastLine f ++ partial |})
    else
      (repeat newline (m_blankLines f) ++ partial,
       {| m_partial := []; m_passing := true; m_blankLines := 0; m_afterEcho := false;
          m_numbered := false; m_continuable := m_continuable f; m_command := m_command f;
          m_lastLine := partial |})
  else ([], f).

Definition echo_push (f : EchoFilter) (text : str) : str * EchoFilter :=
  let (out, f') := echo_lines f (m_partial f) text in
  let (more, f'') := pass_partial f' in
  (out ++ more, f'').

Definition drop_newline (out : str) : str :=
  if bool_decide (last out = Some newline) then removelast out else out.

Definition echo_finish (f : EchoFilter) : str * EchoFilter :=
  let partial := m_partial f in
  let (out, f') :=
    if m_passing f then (partial, f)
    else if negb (bool_decide (partial = [])) && negb (isEchoLine partial) && negb (str_eqb partial [dot])
    then let (out, f') := line f partial in (drop_newline out, f')
    else ([], f) in
  (out, {| m_partial := []; m_passing := false; m_blankLines := 0; m_afterEcho := false; m_numbered := false;
           m_continuable := m_continuable f'; m_command := m_command f'; m_lastLine := [] |}).

(** ** The last lines *)
Definition kLines : nat := 8.

(** The loop from the end of what is held: [lines] newlines were seen, [n]
    characters are left of [i]; the result is [cut]. *)
Fixpoint find_cut (rev_held : str) (lines : nat) : option nat :=
  match rev_held with
  | [] => None
  | c :: rest =>
      if char_eqb c newline then
        if (lines =? kLines)%nat then Some (S (length rest)) else find_cut rest (S lines)
      else find_cut rest lines
  end.

Definition hold_push (m_held text : str) : str * str :=
  let held := m_held ++ text in
  match find_cut (rev held) 0 with
  | None => ([], held)
  | Some cut => (take cut held, drop cut held)
  end.

Definition hold_release (m_held : str) : str * str := (m_held, []).

Definition hold_finish (m_held error : str) : str * str :=
  let (out, held) := hold_release m_held in
  if bool_decide (error = []) then (out, held)
  else
    let end_ := length (rev (skip_space (rev out))) in
    if (length error <=? end_)%nat && str_eqb (take (length error) (drop (end_ - length error) out)) error then
      let start := (end_ - length error)%nat in
      if (start =? 0)%nat || char_eqb (nth (start - 1) out nul) newline
      then (take start out, held)
      else (out, held)
    else (out, held).

(** ** The error message *)
Definition end_of_dofile : str := "end of do-file"%string.

(** The first loop, over the lines from the last: [markerLine]. *)
Fixpoint marker_line (marker : str) (rev_lines : list str) (found : option nat) : option nat :=
  match rev_lines with
  | [] => found
  | l :: rest =>
      let line := trim l in
      if str_eqb line marker then marker_line marker rest (Some (length rest))
      else if negb (bool_decide (line = [])) && negb (str_eqb line end_of_dofile) then found
      else marker_line marker rest found
  end.

Definition starts_message (line : str) : bool :=
  bool_decide (trim line = []) || starts_with [dot; blank] line || starts_with [gt; blank] line || isNumberedLine line.

(** The second loop: the lines before the marker, from the last. *)
Fixpoint message_lines (rev_lines : list str) : list str :=
  match rev_lines with
  | [] => []
  | l :: rest => if starts_message l then [] else message_lines rest ++ [l]
  end.

(** The third: an empty message gets no newline before a line. *)
Fixpoint join_message (message : str) (lines : list str) : str :=
  match lines with
  | [] => message
  | l :: rest => join_message ((if bool_decide (message = []) then message else message ++ [newline]) ++ l) rest
  end.

Definition errorMessage (output : str) (rc : Z) : str :=
  let marker := "r("%string ++ to_string rc ++ ");"%string in
  let lines := splitLines output in
  match marker_line marker (rev lines) None with
  | None => []
  | Some m => trim (join_message [] (message_lines (rev (take m lines))))
  end.

(** ** Wrapping is undone *)
Definition one_line (l : str) : Prop := newline ∉ l /\ carriage_return ∉ l.

Lemma one_line_dots l : forallb dot_class l = true -> one_line l.
Proof.
  intros H. rewrite forallb_forall in H.
  split; intros Hin%list_elem_of_In%H; by vm_compute in Hin.
Qed.

Lemma unwrap_plain l rest : one_line l -> unwrap (l ++ rest) = l ++ unwrap rest.
Proof.
  induction l as [|a l IH]; [done |]. intros [Hn Hc].
  apply not_elem_of_cons in Hn as [Hna Hn]. apply not_elem_of_cons in Hc as [Hca Hc].
  specialize (IH (conj Hn Hc)). cbn [app]. rewrite <- IH. cbn [unwrap].
  rewrite !(proj2 (char_eqb_neq a _)) by done. cbn [andb].
  destruct (l ++ rest) as [|b [|c [|d t]]]; done.
Qed.

Lemma unwrap_lf s : unwrap (newline :: gt :: blank :: s) = unwrap s.
Proof. destruct s; reflexivity. Qed.

Lemma unwrap_crlf s : unwrap (carriage_return :: newline :: gt :: blank :: s) = unwrap s.
Proof. reflexivity. Qed.

Lemma unwrap_newline s : starts_with [gt; blank] s = false -> unwrap (newline :: s) = newline :: unwrap s.
Proof.
  intros H. cbn [unwrap].
  destruct s as [|b [|c [|d t]]]; [done | done | |]; cbn [starts_with] in H; rewrite andb_true_r in H;
    rewrite ?(proj2 (char_eqb_neq newline carriage_return)) by done; cbn [andb];
    rewrite char_eqb_refl; cbn [andb];
    destruct (char_eqb b gt) eqn:Hb; [apply char_eqb_eq in Hb as -> | done | apply char_eqb_eq in Hb as -> | done];
    rewrite char_eqb_refl in H; cbn [andb] in *;
    destruct (char_eqb c blank) eqn:Hc; [apply char_eqb_eq in Hc as -> | done | apply char_eqb_eq in Hc as -> | done]; done.
Qed.

(** Stata at its line size: one line is its first piece, and the others each on
    a line of its own, after a line end and "> ". *)
Record wrapped := { piece : str; others : list (bool * str) }.

Definition line_break (crlf : bool) : str :=
  (if crlf then [carriage_return; newline] else [newline]) ++ [gt; blank].

Definition as_printed (w : wrapped) : str := piece w ++ (others w ≫= fun p => line_break p.1 ++ p.2).
Definition as_meant (w : wrapped) : str := piece w ++ (others w ≫= snd).

Definition wrapped_ok (w : wrapped) : Prop :=
  one_line (piece w) /\ Forall (fun p => one_line p.2) (others w).

Lemma unwrap_printed w rest : wrapped_ok w -> unwrap (as_printed w ++ rest) = as_meant w ++ unwrap rest.
Proof.
  destruct w as [p ps]. intros [Hp Hps]. unfold as_printed, as_meant in *. cbn in *.
  rewrite <- !app_assoc, unwrap_plain by done. f_equal.
  induction Hps as [|[crlf q] ps Hq _ IH]; [done |].
  rewrite !bind_cons, <- !app_assoc. cbn [fst snd].
  destruct crlf; cbn [line_break app]; rewrite ?unwrap_lf, ?unwrap_crlf, unwrap_plain by done;
    by rewrite IH.
Qed.

Lemma as_meant_one_line w : wrapped_ok w -> one_line (as_meant w).
Proof.
  destruct w as [p ps]. intros [[Hn Hc] Hps]. unfold as_meant in *. cbn in *.
  assert (one_line (ps ≫= snd)) as [Hn' Hc'].
  { induction Hps as [|[crlf q] ps [Hqn Hqc] _ [IHn IHc]]; [split; apply not_elem_of_nil |].
    rewrite bind_cons. split; rewrite not_elem_of_app; done. }
  split; rewrite not_elem_of_app; done.
Qed.

Lemma trim_spec s : exists a b, s = a ++ trim s ++ b /\ forallb isSpace a = true /\ forallb isSpace b = true.
Proof.
  unfold trim. destruct (skip_space_decomp s) as (a & Hs & Ha & _).
  destruct (skip_space_decomp (rev (skip_space s))) as (b & Hb & Hbs & _).
  exists a, (rev b). split; [| split; [done | by rewrite forallb_rev]].
  rewrite Hs at 1. f_equal. rewrite <- rev_app_distr, <- Hb. by rewrite rev_involutive.
Qed.

Lemma getlines_lines lines tail : Forall (fun l => newline ∉ l) lines -> newline ∉ tail ->
  getlines ((lines ≫= fun l => l ++ [newline]) ++ tail) = lines ++ (if bool_decide (tail = []) then [] else [tail]).
Proof.
  intros H Ht. induction H as [|l lines Hl _ IH].
  - cbn. case_bool_decide as E; [by subst |]. by apply getlines_one.
  - rewrite bind_cons, <- !app_assoc. cbn [app].
    rewrite getlines_app, split_all_one by done. cbn [app]. f_equal. exact IH.
Qed.

Lemma splitLines_lines lines : Forall one_line lines ->
  splitLines (lines ≫= fun l => l ++ [newline]) = lines.
Proof.
  intros H. unfold splitLines. rewrite <- (app_nil_r (lines ≫= _)).
  rewrite getlines_lines.
  - rewrite bool_decide_true, app_nil_r by done.
    induction H as [|l lines [_ Hc] _ IH]; [done |]. cbn. by rewrite strip_cr_id, IH.
  - eapply Forall_impl; [exact H |]. by intros l [? _].
  - apply not_elem_of_nil.
Qed.

Lemma starts_with_printed w rest : starts_with [gt; blank] (piece w) = false -> piece w <> [] ->
  piece w <> [gt] -> starts_with [gt; blank] (as_printed w ++ rest) = false.
Proof.
  unfold as_printed. destruct (piece w) as [|a [|b p]]; [done | |]; intros H _ Hgt.
  - cbn [app starts_with]. by rewrite (proj2 (char_eqb_neq gt a)) by congruence.
  - exact H.
Qed.

(** A list printed one item per line is read back as its items whatever
    Stata's line size: each item, cut into pieces by the "> " continuations, is
    joined again; what printedLines returns is the items, trimmed, without the
    blank ones. *)
Theorem printedLines_correct items : Forall wrapped_ok items ->
  Forall (fun w => piece w <> [] /\ piece w <> [gt] /\ starts_with [gt; blank] (piece w) = false) items ->
  printedLines (items ≫= fun w => as_printed w ++ [newline])
    = filter (fun l => l <> []) (trim <$> (as_meant <$> items)).
Proof.
  intros H Hgt. unfold printedLines. do 2 f_equal.
  rewrite <- (splitLines_lines (as_meant <$> items))
    by (apply Forall_fmap; eapply Forall_impl; [exact H | apply as_meant_one_line]).
  f_equal. induction H as [|w items Hw H IH]; [done |].
  rewrite fmap_cons, !bind_cons, <- !app_assoc, unwrap_printed by done. f_equal. cbn [app].
  apply Forall_cons in Hgt as [_ Hgt]. specialize (IH Hgt).
  rewrite unwrap_newline; [by rewrite IH |].
  destruct Hgt as [|w' items (H1 & H2 & H3) _]; [done |].
  rewrite bind_cons, <- app_assoc. by apply starts_with_printed.
Qed.

Lemma printedLines_correct_witness :
  printedLines ("var"%string ++ [newline; gt; blank] ++ "iable"%string ++ newline :: "price "%string ++ [newline])
    = (["variable"%string : str; "price"%string : str]).
Proof.
  apply (printedLines_correct
    [ {| piece := "var"%string; others := [(false, "iable"%string : str)] |};
      {| piece := "price "%string; others := [] |} ]).
  - repeat first [apply Forall_cons; split | apply Forall_nil | split]; by apply one_line_dots.
  - repeat first [apply Forall_cons; split | apply Forall_nil]; done.
Defined.

(** ** TailHold *)
Fixpoint newlines (s : str) : nat :=
  match s with [] => 0 | c :: rest => ((if char_eqb c newline then 1 else 0) + newlines rest)%nat end.

Lemma newlines_app a b : newlines (a ++ b) = (newlines a + newlines b)%nat.
Proof. induction a as [|c a IH]; [done |]. cbn. rewrite IH. lia. Qed.

Lemma newlines_rev s : newlines (rev s) = newlines s.
Proof. induction s as [|c s IH]; [done |]. cbn. rewrite newlines_app, IH. cbn. lia. Qed.

Lemma find_cut_spec r lines : (lines <= kLines)%nat ->
  match find_cut r lines with
  | None => (newlines r + lines <= kLines)%nat
  | Some cut => exists a b, r = a ++ newline :: b /\ cut = S (length b) /\ (newlines a + lines = kLines)%nat
  end.
Proof.
  revert lines. induction r as [|c r IH]; intros lines Hl; cbn [find_cut newlines]; [lia |].
  destruct (char_eqb c newline) eqn:Hc.
  - destruct (Nat.eqb_spec lines kLines) as [-> | Hne].
    + apply char_eqb_eq in Hc as ->. by exists [], r.
    + specialize (IH (S lines) ltac:(lia)). destruct (find_cut r (S lines)); [| lia].
      destruct IH as (a & b & -> & -> & Ha). exists (c :: a), b. cbn [app newlines]. rewrite Hc.
      split; [done |]. split; [done | lia].
  - specialize (IH lines Hl). destruct (find_cut r lines); [| lia].
    destruct IH as (a & b & -> & -> & Ha). exists (c :: a), b. cbn [app newlines]. rewrite Hc. done.
Qed.

(** Whole lines: nothing, or a text that ends a line. *)
Definition whole_lines (s : str) : Prop := s = [] \/ last s = Some newline.

Lemma hold_push_spec held text :
  let (out, held') := hold_push held text in
  out ++ held' = held ++ text /\ whole_lines out /\ (newlines held' <= kLines)%nat.
Proof.
  unfold hold_push. pose proof (find_cut_spec (rev (held ++ text)) 0 ltac:(unfold kLines; lia)) as H.
  destruct (find_cut _ 0) as [cut|].
  - destruct H as (a & b & Hr & -> & Ha). rewrite take_drop. split; [done |].
    assert (Ht : held ++ text = (rev b ++ [newline]) ++ rev a).
    { rewrite <- (rev_involutive (held ++ text)), Hr, rev_app_distr. cbn. done. }
    assert (Hl : S (length b) = length (rev b ++ [newline])) by (rewrite length_app, length_rev; cbn; lia).
    rewrite Ht, Hl, take_app_length, drop_app_length. split.
    + right. by rewrite last_snoc.
    + rewrite newlines_rev. lia.
  - split; [done |]. split; [by left |]. rewrite newlines_rev in H. lia.
Qed.

(** A cell's output through the filter: what each push lets out. *)
Fixpoint hold_chunks (held : str) (chunks : list str) : str * str :=
  match chunks with
  | [] => ([], held)
  | c :: rest =>
      let (out, held) := hold_push held c in
      let (more, held) := hold_chunks held rest in
      (out ++ more, held)
  end.

Lemma hold_chunks_spec chunks held :
  let (out, held') := hold_chunks held chunks in
  out ++ held' = held ++ List.concat chunks /\ whole_lines out
  /\ (chunks <> [] -> newlines held' <= kLines)%nat.
Proof.
  revert held. induction chunks as [|c chunks IH]; intros held; cbn [hold_chunks List.concat].
  - rewrite app_nil_r. split; [done |]. split; [by left | done].
  - pose proof (hold_push_spec held c) as H1. destruct (hold_push held c) as [o1 h1].
    specialize (IH h1). destruct (hold_chunks h1 chunks) as [o2 h2] eqn:Hc.
    destruct H1 as (H1 & Hw1 & Hn1), IH as (H2 & Hw2 & Hn2).
    split; [by rewrite app_assoc, <- H1, <- !app_assoc, H2 |]. split.
    + destruct Hw2 as [-> | Hw2]; [by rewrite app_nil_r |]. right. by rewrite last_app, Hw2.
    + intros _. destruct chunks; [by injection Hc as <- <- | by apply Hn2].
Qed.

Lemma hold_finish_spec held error out :
  hold_finish held error = (out, []) ->
  out = held \/ (error <> [] /\ whole_lines out /\ exists blanks,
                   held = out ++ error ++ blanks /\ forallb isSpace blanks = true).
Proof.
  unfold hold_finish, hold_release. case_bool_decide as He; [intros [= <-]; by left |].
  set (body := rev (skip_space (rev held))).
  destruct (skip_space_decomp (rev held)) as (b & Hb & Hbs & _).
  assert (Hheld : held = body ++ rev b).
  { unfold body. rewrite <- rev_app_distr, <- Hb. by rewrite rev_involutive. }
  destruct (_ && str_eqb _ _) eqn:Hm; [| intros [= <-]; by left].
  apply andb_true_iff in Hm as [Hle Heq]. apply Nat.leb_le in Hle. apply str_eqb_eq in Heq.
  destruct (_ || _) eqn:Hs; [| intros [= <-]; by left]. intros [= <-]. right. split; [done |].
  set (start := (length body - length error)%nat) in *.
  assert (Hbody : body = take start held ++ error).
  { rewrite <- Heq. rewrite Hheld. rewrite take_app_le, drop_app_le by lia.
    rewrite take_app_le by (rewrite length_drop; lia).
    rewrite (take_ge (drop start body)) by (rewrite length_drop; lia). by rewrite take_drop. }
  split.
  - apply orb_true_iff in Hs as [H0%Nat.eqb_eq | Hc%char_eqb_eq].
    + left. by rewrite H0.
    + destruct (decide (start = 0)%nat) as [-> | Hn]; [by left |]. right.
      rewrite last_lookup, length_take. rewrite Nat.min_l by (rewrite Hheld, length_app; lia).
      replace (pred start) with (start - 1)%nat by lia. rewrite lookup_take, decide_True by lia.
      rewrite nth_lookup in Hc. destruct (held !! (start - 1)%nat) eqn:Hl; [cbn in Hc; by rewrite Hc | done].
  - exists (rev b). split; [| by rewrite forallb_rev]. by rewrite app_assoc, <- Hbody.
Qed.

Lemma hold_finish_removes out error blanks : error <> [] ->
  (forall c, last error = Some c -> isSpace c = false) -> forallb isSpace blanks = true ->
  whole_lines out -> hold_finish (out ++ error ++ blanks) error = (out, []).
Proof.
  intros He Hlast Hb Hout. unfold hold_finish, hold_release. rewrite bool_decide_false by done.
  assert (Hskip : forall b s, forallb isSpace b = true ->
            match s with c :: _ => isSpace c = false | [] => True end -> skip_space (b ++ s) = s).
  { intros b s Hbs Hs. induction b as [|c b IH]; cbn [app].
    - destruct s as [|c s]; [done |]. cbn. by rewrite Hs.
    - cbn in Hbs. apply andb_true_iff in Hbs as [Hc Hbs]. cbn. rewrite Hc. by apply IH. }
  rewrite app_assoc, rev_app_distr, Hskip.
  2: by rewrite forallb_rev.
  2: { destruct (exists_last He) as (l & x & ->). rewrite app_assoc, rev_unit.
       apply Hlast. by rewrite last_snoc. }
  rewrite rev_involutive, length_app.
  replace (length out + length error - length error)%nat with (length out) by lia.
  rewrite (proj2 (Nat.leb_le _ _)) by lia. rewrite <- app_assoc, drop_app_length, take_app_length, str_eqb_refl.
  cbn [andb]. rewrite take_app_length.
  destruct Hout as [-> | Hout]; [done |].
  destruct (exists_last (l := out)) as (l & x & ->); [by intros -> |].
  rewrite last_snoc in Hout. injection Hout as ->.
  rewrite <- app_assoc, app_nth2, !length_app by (rewrite length_app; cbn; lia). cbn [length].
  replace (length l + 1 - 1 - length l)%nat with 0%nat by lia. cbn [nth app].
  by rewrite char_eqb_refl, orb_true_r.
Qed.

(** However a cell's output is cut into chunks, TailHold loses and reorders
    nothing: what it has let out is whole lines, what it still holds is at most
    eight line ends, and the two together are the output so far.  At the end it
    lets out all the rest, except that an output that ends with the error
    message, on a line of its own and whatever blanks after it, loses exactly
    that. *)
Theorem TailHold_correct chunks error :
  let (out, held) := hold_chunks [] chunks in
  let rest := fst (hold_finish held error) in
  out ++ held = List.concat chunks /\ whole_lines out /\ (newlines held <= kLines)%nat
  /\ (rest = held \/
       error <> [] /\ whole_lines rest /\
       exists blanks, held = rest ++ error ++ blanks /\ forallb isSpace blanks = true)
  /\ (forall before blanks, error <> [] -> (forall c, last error = Some c -> isSpace c = false) ->
       forallb isSpace blanks = true -> whole_lines before -> held = before ++ error ++ blanks ->
       rest = before).
Proof.
  pose proof (hold_chunks_spec chunks []) as H.
  destruct (hold_chunks [] chunks) as [out held] eqn:Hc. cbv zeta. destruct H as (H & Hw & Hn).
  split; [done |]. split; [done |]. split.
  { destruct chunks; [injection Hc as <- <-; cbn; lia | by apply Hn]. }
  split.
  - apply hold_finish_spec. unfold hold_finish, hold_release. repeat (case_match; try done).
  - intros before blanks He Hl Hb Hbef ->. by rewrite hold_finish_removes.
Qed.

(** ** EchoFilter does not depend on the chunks

    Two states of the filter that no later text tells apart: m_continuable
    matters only while a numbered line was the last. *)
Record same (f g : EchoFilter) : Prop := {
  same_passing : m_passing f = m_passing g;
  same_blank : m_blankLines f = m_blankLines g;
  same_after : m_afterEcho f = m_afterEcho g;
  same_numbered : m_numbered f = m_numbered g;
  same_continues : continues f = continues g;
  same_command : m_command f = m_command g;
  same_last : m_lastLine f = m_lastLine g
}.

#[export] Instance same_equivalence : Equivalence same.
Proof.
  split.
  - by intros f.
  - intros f g []. by split.
  - intros f g h [] []. split; etrans; eauto.
Qed.

#[export] Instance mayBeEcho_same : Proper (same ==> eq ==> eq) mayBeEcho.
Proof.
  intros f g [_ _ _ Hn Hc _ Hl] p _ <-. unfold mayBeEcho. by rewrite Hn, Hc, Hl.
Qed.

Lemma line_same f g text : same f g ->
  fst (line f text) = fst (line g text) /\ same (snd (line f text)) (snd (line g text)).
Proof.
  intros [Hp Hb Ha Hn Hc Hm Hl]. unfold line. rewrite <- Hc, <- Hm, <- Hb, <- Hn, <- Hl, <- Ha.
  destruct (continues f && starts_with [gt; blank] (strip_cr text)) eqn:H1; [split; [done |]; split; cbn; try done |].
  - unfold continues in *. cbn. rewrite <- Ha, <- Hn in Hc.
    destruct (m_afterEcho f); [done |]. destruct (m_numbered f); [| done].
    cbn in *. by rewrite Hc.
  - repeat (match goal with |- context [if ?b then _ else _] => destruct b end; [by split |]). by split.
Qed.

Lemma line_passing f text : m_passing (snd (line f text)) = m_passing f.
Proof. unfold line. repeat (match goal with |- context [if ?b then _ else _] => destruct b end; [done |]). done. Qed.

(** What a partial line that can no longer be an echo becomes when it ends. *)
Lemma numbered_tail_prefix a b : numbered_tail (a ++ b) = true -> numbered_tail a = true.
Proof.
  destruct a as [|c a]; [done |]. cbn. rewrite forallb_app, !andb_true_iff. tauto.
Qed.

Lemma starts_digit_prefix a b : a <> [] -> starts_digit (a ++ b) = starts_digit a.
Proof. by destruct a. Qed.

Lemma mayBeNumbered_prefix a b : isNumberedLine (a ++ b) = true -> mayBeNumbered a = true.
Proof.
  unfold isNumberedLine, mayBeNumbered. induction a as [|c a IH]; [done |].
  cbn [app skip_space]. destruct (isSpace c); [exact IH |]. clear IH.
  change (c :: a ++ b) with ((c :: a) ++ b). rewrite (starts_digit_prefix (c :: a) b) by done.
  rewrite !andb_true_iff. intros [Hd H]. split; [done |].
  revert H. generalize (c :: a). clear. intros s. induction s as [|c s IH]; [done |].
  cbn [app skip_digits]. destruct (isdigit c); [exact IH |].
  rewrite !andb_true_iff. intros [Hc Ht]. split; [done |].
  change (c :: s ++ b) with ((c :: s) ++ b) in Ht. by apply numbered_tail_prefix in Ht.
Qed.

Definition whole_line (l : str) : Prop := carriage_return ∉ l /\ (l = [] \/ trim l <> []).

Lemma marks_prefix c a b : a <> [] -> starts_with [c; blank] (a ++ b) = true -> marks c a = true.
Proof.
  destruct a as [|x [|y a]]; [done | |]; intros _; cbn [app starts_with marks]; rewrite andb_true_iff.
  - intros [H _]. apply char_eqb_eq in H as ->. apply char_eqb_refl.
  - rewrite andb_true_r. intros [->%char_eqb_eq ->%char_eqb_eq]. by rewrite !char_eqb_refl.
Qed.

Lemma not_echo_line f a b : a <> [] -> mayBeEcho f a = false -> whole_line (a ++ b) ->
  isEchoLine (a ++ b) = false /\
  line f (a ++ b) = (repeat newline (m_blankLines f) ++ (a ++ b) ++ [newline],
    {| m_partial := m_partial f; m_passing := m_passing f; m_blankLines := 0; m_afterEcho := false;
       m_numbered := false; m_continuable := false; m_command := m_command f; m_lastLine := a ++ b |}).
Proof.
  intros Ha Hm [Hcr Hblank]. unfold mayBeEcho in Hm. rewrite bool_decide_false in Hm by done.
  destruct (marks dot a) eqn:Hdot; [done |].
  assert (Hecho : isEchoLine (a ++ b) = false).
  { unfold isEchoLine. apply orb_false_iff. split.
    - apply not_true_iff_false. rewrite str_eqb_eq. intros E.
      destruct a as [|x a]; [done |]. injection E as -> E. apply app_eq_nil in E as [-> ->].
      done.
    - apply not_true_iff_false. intros H. apply marks_prefix in H; [congruence | done]. }
  split; [done |]. unfold line. rewrite strip_cr_id by done. rewrite Hecho.
  destruct (continues f && starts_with [gt; blank] (a ++ b)) eqn:H1.
  { apply andb_true_iff in H1 as [Hc H1]. apply marks_prefix in H1; [| done]. by rewrite Hc, H1 in Hm. }
  destruct (continues f && marks gt a); [done |].
  destruct (m_numbered f && isNumberedLine (a ++ b)) eqn:H2.
  { apply andb_true_iff in H2 as [Hn H2]. apply mayBeNumbered_prefix in H2. by rewrite Hn, H2 in Hm. }
  destruct (m_numbered f && mayBeNumbered a); [done |].
  rewrite (bool_decide_false (trim (a ++ b) = [])) by (destruct Hblank as [E | ?]; [by apply app_eq_nil in E as [? _] | done]).
  destruct (isReturnCodeLine (a ++ b) && _ && _) eqn:H3; [| done].
  apply andb_true_iff in H3 as [[Hr Hl%str_eqb_eq]%andb_true_iff _]. rewrite <- Hl, Hr, andb_true_r in Hm.
  destruct a as [|x a]; [done |]. cbn [hd app] in *.
  destruct (char_eqb x "r"%char) eqn:Hx; [done |]. unfold isReturnCodeLine in Hr.
  destruct (a ++ b); [done |]. by rewrite Hx in Hr.
Qed.

(** The filter that reads the text at once ([f] and the line read so far, [p])
    against the one that reads chunks ([g], [q]); [ahead] is what the second has
    already let out. *)
Inductive reads (f : EchoFilter) (p : str) (g : EchoFilter) (q : str) : str -> Prop :=
| reads_same : same f g -> m_passing f = false -> p = q -> reads f p g q []
| reads_passing a b p' :
    p' = a ++ b -> a <> [] -> mayBeEcho f a = false ->
    m_passing f = false -> m_passing g = true -> p = p' ++ q ->
    m_blankLines g = 0%nat -> m_afterEcho g = false -> m_numbered g = false -> m_lastLine g = p' ->
    m_command g = m_command f ->
    reads f p g q (repeat newline (m_blankLines f) ++ p').

Lemma same_set_partial f p : same f (set_partial p f).
Proof. by split. Qed.

Lemma echo_lines_passing text : forall f p,
  m_passing f = false -> m_passing (snd (echo_lines f p text)) = false.
Proof.
  induction text as [|c text IH]; intros f p Hf; [done |]. cbn [echo_lines].
  destruct (char_eqb c newline); [| by apply IH]. rewrite Hf.
  destruct (line f p) as [out f'] eqn:Hl.
  assert (m_passing f' = false) by (rewrite <- Hf, <- (line_passing f p), Hl; done).
  specialize (IH f' [] H). by destruct (echo_lines f' [] text).
Qed.

Definition whole_text (s : str) : Prop := Forall whole_line (split_all newline s).

Lemma reads_lines rest text : forall f p g q ahead, newline ∉ p -> whole_text (p ++ text ++ rest) ->
  reads f p g q ahead ->
  let (o1, f') := echo_lines f p text in let (o2, g') := echo_lines g q text in
  newline ∉ m_partial f' /\ whole_text (m_partial f' ++ rest) /\
  exists ahead', ahead ++ o2 = o1 ++ ahead' /\ reads f' (m_partial f') g' (m_partial g') ahead'.
Proof.
  induction text as [|c text IH]; intros f p g q ahead Hnp Hwt R; cbn [echo_lines].
  - cbn [set_partial m_partial]. split; [done |]. split.
    + done.
    + exists ahead. split; [by rewrite app_nil_r |].
      destruct R as [[] | a b p']; [by apply reads_same |
        by apply (reads_passing (set_partial p f) p (set_partial q g) q a b p')].
  - destruct (char_eqb c newline) eqn:Hc.
    + apply char_eqb_eq in Hc as ->. unfold whole_text in Hwt. cbn [app] in Hwt. rewrite split_all_app in Hwt by done.
      apply Forall_cons in Hwt as [Hp Hwt].
      assert (Hnext : exists o1 o2 f1 g1, line f p = (o1, f1)
                /\ (if m_passing g then end_passing g q else line g q) = (o2, g1)
                /\ ahead ++ o2 = o1 /\ same f1 g1 /\ m_passing f1 = false).
      { destruct R as [Hs Hf -> | a b p' Hp' Ha Hm Hf Hg -> Hbg Hag Hng Hlg Hcg].
        - destruct (line_same f g q Hs) as [Ho Hs']. rewrite <- (same_passing _ _ Hs), Hf.
          destruct (line f q) as [o1 f1] eqn:E1, (line g q) as [o2 g1]. cbn in Ho, Hs'. subst o2.
          exists o1, o1, f1, g1. repeat split; try done; try apply Hs'.
          rewrite <- Hf, <- (line_passing f q), E1. done.
        - rewrite Hp', <- app_assoc in Hp |- *. destruct (not_echo_line f a (b ++ q) Ha Hm Hp) as [_ ->]. rewrite Hg.
          do 4 eexists. split; [reflexivity |]. split; [reflexivity |]. split; [by rewrite <- !app_assoc |].
          split; [| done]. destruct Hp as [Hcr _].
          unfold end_passing. split; cbn; rewrite ?Hbg, ?Hag, ?Hng, ?Hcg, ?Hlg; try done;
            rewrite Hp', <- app_assoc; by rewrite strip_cr_id. }
      destruct Hnext as (o1 & o2 & f1 & g1 & E1 & E2 & Hah & Hs & Hf1).
      assert (m_passing f = false) as -> by (by destruct R).
      rewrite E1, E2. specialize (IH f1 [] g1 [] [] (not_elem_of_nil _) Hwt (reads_same f1 [] g1 [] Hs Hf1 eq_refl)).
      destruct (echo_lines f1 [] text) as [m1 f2], (echo_lines g1 [] text) as [m2 g2].
      destruct IH as (Hn2 & Hw2 & ahead' & Ha' & R'). split; [done |]. split; [done |].
      exists ahead'. split; [| done]. cbn in Ha'. by rewrite app_assoc, Hah, Ha', app_assoc.
    + apply char_eqb_neq in Hc. apply IH.
      * rewrite not_elem_of_app, list_elem_of_singleton. split; [done | congruence].
      * by rewrite <- app_assoc.
      * destruct R as [Hs Hf -> | a b p' Hp' Ha Hm Hf Hg -> Hbg Hag Hng Hlg Hcg]; [by apply reads_same |].
        apply (reads_passing _ _ _ _ a b); try done. by rewrite app_assoc.
Qed.

Lemma reads_pass f p g ahead : reads f p g (m_partial g) ahead ->
  let (o, g') := pass_partial g in reads f p g' (m_partial g') (ahead ++ o).
Proof.
  intros R. unfold pass_partial. destruct (bool_decide_reflect (m_partial g = [])) as [He | He].
  - cbn. by rewrite app_nil_r.
  - cbn [negb andb]. destruct R as [Hs Hf -> | a b p' Hp' Ha Hm Hf Hg -> Hbg Hag Hng Hlg Hcg].
    + rewrite <- (same_passing _ _ Hs), Hf. cbn [orb].
      destruct (mayBeEcho g (m_partial g)) eqn:Hm; cbn [negb]; [by apply reads_same |].
      rewrite <- (same_blank _ _ Hs). apply (reads_passing _ _ _ _ (m_partial g) []); rewrite ?app_nil_r; try done.
      * by rewrite Hs.
      * symmetry. apply Hs.
    + rewrite Hg. cbn [orb]. rewrite <- app_assoc.
      apply (reads_passing _ _ _ _ a (b ++ m_partial g)); cbn; rewrite ?app_nil_r; try done.
      * by rewrite Hp', app_assoc.
      * by rewrite Hlg.
Qed.

(** The text at once: what a whole transcript becomes. *)
Definition echo_text (text : str) : str :=
  let (out, f) := echo_lines echo_start [] text in out ++ fst (echo_finish f).

(** The text in chunks, then its end. *)
Fixpoint echo_chunks (f : EchoFilter) (chunks : list str) : str :=
  match chunks with
  | [] => fst (echo_finish f)
  | c :: rest => let (out, f) := echo_push f c in out ++ echo_chunks f rest
  end.

Lemma line_set_partial f p text :
  line (set_partial p f) text = (fst (line f text), set_partial p (snd (line f text))).
Proof.
  unfold line. change (continues (set_partial p f)) with (continues f). cbn [set_partial m_partial m_passing
    m_blankLines m_afterEcho m_numbered m_continuable m_command m_lastLine].
  repeat (match goal with |- (if ?b then _ else _) = _ => destruct b end; [done |]). done.
Qed.

Lemma echo_lines_set_partial text : forall f p q, m_passing f = false ->
  echo_lines (set_partial p f) q text = echo_lines f q text.
Proof.
  induction text as [|c text IH]; intros f p q Hf; [done |]. cbn [echo_lines].
  destruct (char_eqb c newline); [| by apply IH].
  cbn [set_partial m_passing]. fold (set_partial p f). rewrite Hf, line_set_partial.
  destruct (line f q) as [o f'] eqn:Hl. cbn [fst snd]. rewrite IH; [done |].
  by rewrite <- Hf, <- (line_passing f q), Hl.
Qed.

Lemma echo_lines_app t1 : forall f p t2, m_passing f = false ->
  echo_lines f p (t1 ++ t2)
  = let (o1, f1) := echo_lines f p t1 in let (o2, f2) := echo_lines f1 (m_partial f1) t2 in (o1 ++ o2, f2).
Proof.
  induction t1 as [|c t1 IH]; intros f p t2 Hf; cbn [app echo_lines].
  - change (m_partial (set_partial p f)) with p. rewrite echo_lines_set_partial by done. by destruct (echo_lines f p t2).
  - rewrite Hf. destruct (char_eqb c newline); [| by apply IH].
    destruct (line f p) as [o f'] eqn:Hl.
    rewrite IH by (rewrite <- Hf, <- (line_passing f p), Hl; done).
    destruct (echo_lines f' [] t1) as [o1 f1], (echo_lines f1 (m_partial f1) t2). by rewrite app_assoc.
Qed.

Lemma reads_finish f g ahead : reads f (m_partial f) g (m_partial g) ahead -> whole_line (m_partial f) ->
  ahead ++ fst (echo_finish g) = fst (echo_finish f).
Proof.
  intros R Hw. unfold echo_finish. inversion R as [Hs Hf Hp | a b p' Hp' Ha Hm Hf Hg Hp].
  - rewrite <- Hp, <- (same_passing _ _ Hs), Hf. destruct (line_same f g (m_partial f) Hs) as [Ho _].
    destruct (line f (m_partial f)), (line g (m_partial f)). cbn in Ho. subst.
    by destruct (negb _ && _ && _).
  - rewrite Hf, Hg. rewrite Hp', <- app_assoc in Hp. rewrite Hp in Hw |- *.
    destruct (not_echo_line f a (b ++ m_partial g) Ha Hm Hw) as [He ->]. rewrite He.
    rewrite bool_decide_false by (by destruct a). cbn [negb andb].
    destruct (str_eqb _ _) eqn:Hd.
    { apply str_eqb_eq in Hd. rewrite Hd in He. done. }
    cbn [negb fst]. unfold drop_newline. rewrite app_assoc, last_snoc, bool_decide_true by done.
    rewrite removelast_last. by rewrite Hp', <- !app_assoc.
Qed.

Lemma reads_chunks chunks : forall f g ahead, whole_text (m_partial f ++ List.concat chunks) ->
  newline ∉ m_partial f -> m_passing f = false ->
  reads f (m_partial f) g (m_partial g) ahead ->
  ahead ++ echo_chunks g chunks
  = let (out, f') := echo_lines f (m_partial f) (List.concat chunks) in out ++ fst (echo_finish f').
Proof.
  induction chunks as [|c chunks IH]; intros f g ahead Hw Hn Hf R; cbn [echo_chunks List.concat].
  - cbn [echo_lines app]. assert (set_partial (m_partial f) f = f) as -> by (by destruct f).
    apply reads_finish; [done |]. cbn in Hw. rewrite app_nil_r in Hw. unfold whole_text in Hw.
    rewrite split_all_one in Hw by done. by inversion Hw.
  - rewrite echo_lines_app by done. unfold echo_push.
    pose proof (reads_lines (List.concat chunks) c f (m_partial f) g (m_partial g) ahead Hn Hw R) as H.
    destruct (echo_lines f (m_partial f) c) as [o1 f1] eqn:E1, (echo_lines g (m_partial g) c) as [o2 g1].
    destruct H as (Hn1 & Hw1 & ahead' & Ha & R1).
    assert (Hf1 : m_passing f1 = false) by (pose proof (echo_lines_passing c f (m_partial f) Hf); by rewrite E1 in *).
    pose proof (reads_pass f1 (m_partial f1) g1 ahead' R1) as R2.
    destruct (pass_partial g1) as [o3 g2]. specialize (IH f1 g2 (ahead' ++ o3) Hw1 Hn1 Hf1 R2).
    destruct (echo_lines f1 (m_partial f1) (List.concat chunks)) as [o4 f2].
    rewrite <- !app_assoc, <- IH, !app_assoc, Ha. by rewrite <- !app_assoc.
Qed.

Lemma echo_chunks_text chunks : whole_text (List.concat chunks) ->
  echo_chunks echo_start chunks = echo_text (List.concat chunks).
Proof.
  intros Hw. apply (reads_chunks chunks echo_start echo_start []); [done | apply not_elem_of_nil | done |].
  by apply reads_same.
Qed.

(** What EchoFilter lets out of an output does not depend on how the output
    is cut into chunks, although part of a line goes out as soon as it can no
    longer be an echo: for every text without carriage returns whose lines are
    each empty or not blank, the chunks give what the whole text gives. *)
Theorem EchoFilter_chunks chunks chunks' : whole_text (List.concat chunks) ->
  List.concat chunks = List.concat chunks' ->
  echo_chunks echo_start chunks = echo_chunks echo_start chunks'.
Proof.
  intros Hw He. rewrite !echo_chunks_text by congruence. by rewrite He.
Qed.

(** The hypothesis is needed: a line of blanks goes out when a chunk ends
    inside it, and not when it comes whole. *)
Example EchoFilter_blank_line :
  echo_chunks echo_start [["a"%char; newline]; [blank; newline]] = ["a"%char; newline]
  /\ echo_chunks echo_start [["a"%char; newline]; [blank]; [newline]] = ["a"%char; newline; blank; newline].
Proof. split; reflexivity. Qed.

(** ** What a do-file prints

    A transcript: for each command, the blank line and the echo (with the
    lines that continue it, and the numbered lines of a block), then what the
    command printed, each line with the blank lines before it. *)
Record Ran := {
  command : str;
  continuation : list str;
  numbered : list str;
  printed : list (nat * str)
}.

Definition full_command (r : Ran) : str := command r ++ List.concat (continuation r).

Definition print_line (p : nat * str) : str := repeat newline p.1 ++ p.2 ++ [newline].

Definition ran_text (r : Ran) : str :=
  newline :: [dot; blank] ++ command r ++ newline ::
  (continuation r ≫= fun l => [gt; blank] ++ l ++ [newline]) ++
  (numbered r ≫= fun l => l ++ [newline]) ++
  (printed r ≫= print_line).

(** A line a command prints that is none of what Stata echoes. *)
Definition output_line (l : str) : Prop :=
  one_line l /\ trim l <> [] /\ isEchoLine l = false /\ starts_with [gt; blank] l = false
  /\ isNumberedLine l = false /\ isReturnCodeLine l = false.

Definition ran_ok (r : Ran) : Prop :=
  one_line (command r) /\ command r <> [] /\ Forall one_line (continuation r)
  /\ Forall (fun l => one_line l /\ isNumberedLine l = true /\ isEchoLine l = false
                      /\ starts_with [gt; blank] l = false) (numbered r)
  /\ (numbered r <> [] -> opensNumberedLines (full_command r) = true)
  /\ Forall (fun p => output_line p.2) (printed r).

Lemma echo_lines_line f l rest : m_passing f = false -> newline ∉ l ->
  echo_lines f [] (l ++ newline :: rest)
  = let (o, f') := line f l in let (m, f'') := echo_lines f' [] rest in (o ++ m, f'').
Proof.
  intros Hf Hl. assert (H : forall p, echo_lines f p (l ++ newline :: rest)
    = let (o, f') := line f (p ++ l) in let (m, f'') := echo_lines f' [] rest in (o ++ m, f'')).
  { induction l as [|c l IH]; intros p; cbn [app echo_lines].
    - by rewrite char_eqb_refl, Hf, app_nil_r.
    - apply not_elem_of_cons in Hl as [Hc Hl]. rewrite (proj2 (char_eqb_neq c newline)) by congruence.
      rewrite IH by done. by rewrite <- app_assoc. }
  apply H.
Qed.

Lemma nothing_out (r : str * EchoFilter) : (let (m, f) := r in ([] ++ m, f)) = r.
Proof. by destruct r. Qed.

(** The state between two lines, up to what the echo of the next command resets. *)
Definition idle (f : EchoFilter) : Prop := m_passing f = false.

Lemma echo_blank f rest : idle f -> continues f = false \/ True ->
  exists f', idle f' /\ m_blankLines f' = S (m_blankLines f) /\ m_afterEcho f' = false /\ m_numbered f' = false
    /\ echo_lines f [] (newline :: rest) = echo_lines f' [] rest.
Proof.
  intros Hf _. pose proof (echo_lines_line f [] rest Hf (not_elem_of_nil _)) as H. cbn [app] in H. rewrite H.
  destruct (line f []) as [o f'] eqn:Hl. exists f'.
  unfold line in Hl. cbn in Hl. rewrite !andb_false_r in Hl. injection Hl as <- <-.
  repeat split; try done. by destruct (echo_lines _ [] rest).
Qed.

Lemma echo_blanks n : forall f rest, idle f ->
  exists f', idle f' /\ m_blankLines f' = (n + m_blankLines f)%nat
    /\ (n <> 0%nat \/ (m_afterEcho f = false /\ m_numbered f = false) -> m_afterEcho f' = false /\ m_numbered f' = false)
    /\ echo_lines f [] (repeat newline n ++ rest) = echo_lines f' [] rest.
Proof.
  induction n as [|n IH]; intros f rest Hf.
  - exists f. split; [done |]. split; [done |]. split; [| done]. by intros [? | ?].
  - destruct (echo_blank f (repeat newline n ++ rest) Hf (or_intror I)) as (f1 & H1 & Hb & Ha & Hn & E).
    destruct (IH f1 rest H1) as (f2 & H2 & Hb2 & Hc2 & E2). exists f2.
    split; [done |]. split; [lia |]. split; [intros _; apply Hc2; by right |]. cbn [repeat app]. by rewrite E.
Qed.

Lemma echo_command f cmd rest : idle f -> one_line cmd -> cmd <> [] ->
  exists f', idle f' /\ m_blankLines f' = 0%nat /\ m_afterEcho f' = true /\ m_command f' = cmd
    /\ m_numbered f' = opensNumberedLines cmd
    /\ echo_lines f [] (([dot; blank] ++ cmd) ++ newline :: rest) = echo_lines f' [] rest.
Proof.
  intros Hf [Hn Hc] Hne.
  assert (Hl : newline ∉ [dot; blank] ++ cmd) by (cbn; rewrite !not_elem_of_cons; done).
  assert (Hr : carriage_return ∉ [dot; blank] ++ cmd) by (cbn; rewrite !not_elem_of_cons; done).
  rewrite echo_lines_line by done. unfold line. rewrite strip_cr_id by done.
  change (starts_with [gt; blank] ([dot; blank] ++ cmd)) with false. rewrite andb_false_r.
  assert (isEchoLine ([dot; blank] ++ cmd) = true) as -> by (unfold isEchoLine; by rewrite starts_with_app, orb_true_r).
  rewrite nothing_out. eexists. split; [| split; [| split; [| split; [| split; [| reflexivity]]]]]; done.
Qed.

Lemma echo_continuation f ls : forall rest, idle f -> m_afterEcho f = true -> Forall one_line ls ->
  m_numbered f = opensNumberedLines (m_command f) ->
  exists f', idle f' /\ m_blankLines f' = m_blankLines f /\ m_afterEcho f' = true
    /\ m_numbered f' = opensNumberedLines (m_command f ++ List.concat ls)
    /\ echo_lines f [] ((ls ≫= fun l => [gt; blank] ++ l ++ [newline]) ++ rest) = echo_lines f' [] rest.
Proof.
  revert f. induction ls as [|l ls IH]; intros f rest Hf Ha Hls Hnum.
  - exists f. cbn. by rewrite app_nil_r.
  - apply Forall_cons in Hls as [[Hn Hc] Hls].
    assert (Hl : newline ∉ [gt; blank] ++ l) by (cbn; rewrite !not_elem_of_cons; done).
    assert (Hr : carriage_return ∉ [gt; blank] ++ l) by (cbn; rewrite !not_elem_of_cons; done).
    rewrite bind_cons. replace ((([gt; blank] ++ l ++ [newline]) ++ _) ++ rest)
      with (([gt; blank] ++ l) ++ newline :: ((ls ≫= fun l => [gt; blank] ++ l ++ [newline]) ++ rest))
      by (by rewrite <- !app_assoc).
    rewrite echo_lines_line by done. unfold line. rewrite strip_cr_id by done.
    rewrite starts_with_app. unfold continues. rewrite Ha. cbn [orb andb].
    match goal with |- context [echo_lines ?g [] _] => destruct (IH g rest) as (f' & H1 & H2 & H3 & H4 & H5) end;
      [done | done | done | done |].
    exists f'. split; [done |]. split; [done |]. split; [done |]. split; [| by rewrite H5; destruct (echo_lines f' [] rest)].
    rewrite H4. cbn. by rewrite <- app_assoc.
Qed.

Lemma echo_numbered f ls : forall rest, idle f -> (ls <> [] -> m_numbered f = true) ->
  Forall (fun l => one_line l /\ isNumberedLine l = true /\ isEchoLine l = false
                   /\ starts_with [gt; blank] l = false) ls ->
  exists f', idle f' /\ m_blankLines f' = m_blankLines f
    /\ echo_lines f [] ((ls ≫= fun l => l ++ [newline]) ++ rest) = echo_lines f' [] rest.
Proof.
  revert f. induction ls as [|l ls IH]; intros f rest Hf Hnum Hls; [by exists f |].
  apply Forall_cons in Hls as [([Hn Hc] & H1 & H2 & H3) Hls].
  rewrite bind_cons, <- !app_assoc. cbn [app].
  rewrite echo_lines_line by done. unfold line. rewrite strip_cr_id by done.
  rewrite H3, andb_false_r, H2, H1, (Hnum ltac:(done)). cbn [andb].
  match goal with |- context [echo_lines ?g [] _] => destruct (IH g rest) as (f' & G1 & G2 & G3) end; [done.. |].
  exists f'. split; [done |]. split; [done |]. by rewrite G3; destruct (echo_lines f' [] rest).
Qed.

Lemma echo_printed ps : forall f rest, idle f -> m_blankLines f = 0%nat -> Forall (fun p => output_line p.2) ps ->
  exists f', idle f' /\ m_blankLines f' = 0%nat
    /\ echo_lines f [] ((ps ≫= print_line) ++ rest)
       = let (m, f'') := echo_lines f' [] rest in ((ps ≫= print_line) ++ m, f'').
Proof.
  induction ps as [|[n l] ps IH]; intros f rest Hf Hb Hps.
  - exists f. split; [done |]. split; [done |]. cbn. by destruct (echo_lines f [] rest).
  - apply Forall_cons in Hps as [([Hn Hc] & Ht & H1 & H2 & H3 & H4) Hps]. cbn [snd] in *.
    rewrite bind_cons. unfold print_line at 1 3. cbn [fst snd]. rewrite <- !app_assoc. cbn [app].
    destruct (echo_blanks n f (l ++ newline :: ((ps ≫= print_line) ++ rest)) Hf) as (f1 & Hf1 & Hb1 & _ & ->).
    rewrite echo_lines_line by done. unfold line. rewrite strip_cr_id by done.
    rewrite H2, andb_false_r, H1, H3, andb_false_r, bool_decide_false, H4 by done. cbn [andb].
    match goal with |- context [echo_lines ?g [] _] => destruct (IH g rest) as (f' & G1 & G2 & G3) end; [done.. |].
    exists f'. split; [done |]. split; [done |]. rewrite G3. destruct (echo_lines f' [] rest).
    rewrite Hb1, Hb, Nat.add_0_r. by rewrite <- !app_assoc.
Qed.

Lemma echo_ran r f rest : idle f -> ran_ok r ->
  exists f', idle f' /\ m_blankLines f' = 0%nat
    /\ echo_lines f [] (ran_text r ++ rest)
       = let (m, f'') := echo_lines f' [] rest in ((printed r ≫= print_line) ++ m, f'').
Proof.
  intros Hf (Hc & Hne & Hcont & Hnum & Hopen & Hp). unfold ran_text. cbn [app].
  rewrite <- !app_assoc. cbn [app]. rewrite <- !app_assoc.
  set (t3 := (printed r ≫= print_line) ++ rest).
  set (t2 := (numbered r ≫= fun l => l ++ [newline]) ++ t3).
  set (t1 := (continuation r ≫= fun l => [gt; blank] ++ l ++ [newline]) ++ t2).
  destruct (echo_blank f (([dot; blank] ++ command r) ++ newline :: t1) Hf (or_intror I)) as (f0 & Hf0 & _ & _ & _ & E0).
  destruct (echo_command f0 (command r) t1 Hf0 Hc Hne) as (f1 & Hf1 & Hb1 & Ha1 & Hc1 & Hn1 & E1).
  destruct (echo_continuation f1 (continuation r) t2 Hf1 Ha1 Hcont) as (f2 & Hf2 & Hb2 & Ha2 & Hn2 & E2);
    [by rewrite Hn1, Hc1 |].
  destruct (echo_numbered f2 (numbered r) t3 Hf2) as (f3 & Hf3 & Hb3 & E3); [| done |].
  { intros Hnn. rewrite Hn2, Hc1. by apply Hopen. }
  destruct (echo_printed (printed r) f3 rest Hf3) as (f4 & Hf4 & Hb4 & E4); [congruence | done |].
  exists f4. split; [done |]. split; [done |].
  change ((dot :: blank :: command r) ++ newline :: t1) with (([dot; blank] ++ command r) ++ newline :: t1) in *.
  etrans; [exact E0 |]. rewrite E1. unfold t1. rewrite E2. unfold t2. by rewrite E3.
Qed.

Lemma echo_transcript rs : forall f, idle f -> Forall ran_ok rs -> m_blankLines f = 0%nat ->
  exists f', idle f' /\ m_partial f' = [dot; blank]
  /\ echo_lines f [] ((rs ≫= ran_text) ++ newline :: [dot; blank]) = ((rs ≫= fun r => printed r ≫= print_line), f').
Proof.
  induction rs as [|r rs IH]; intros f Hf Hrs Hb.
  - cbn [app]. destruct (echo_blank f [dot; blank] Hf (or_intror I)) as (f' & Hf' & _ & _ & _ & E).
    exists (set_partial [dot; blank] f'). split; [done |]. split; [done |]. exact E.
  - apply Forall_cons in Hrs as [Hr Hrs]. rewrite !bind_cons, <- !app_assoc.
    destruct (echo_ran r f ((rs ≫= ran_text) ++ newline :: [dot; blank]) Hf Hr) as (f1 & Hf1 & Hb1 & ->).
    destruct (IH f1 Hf1 Hrs Hb1) as (f2 & Hf2 & Hp2 & ->). by exists f2.
Qed.

Lemma whole_line_output l : one_line l -> (exists c, c ∈ l /\ isSpace c = false) -> whole_line l.
Proof.
  intros [Hn Hc] (x & Hx & Hs). split; [done |]. right. rewrite trim_nil, forallb_forall.
  intros H. apply list_elem_of_In, H in Hx. congruence.
Qed.

Lemma trim_has_char l : trim l <> [] -> exists c, c ∈ l /\ isSpace c = false.
Proof.
  rewrite trim_nil. intros H. apply not_true_iff_false in H. induction l as [|c l IH]; [done |].
  cbn in H. destruct (isSpace c) eqn:Hc; [| exists c; split; [left | done]].
  destruct (IH H) as (x & Hx & Hs). exists x. split; [by right | done].
Qed.

Lemma whole_text_lines s1 l s2 : newline ∉ l -> s1 = l ++ newline :: s2 ->
  whole_line l -> whole_text s2 -> whole_text s1.
Proof.
  intros Hl -> Hw H2. unfold whole_text. rewrite split_all_app by done. by constructor.
Qed.

Lemma whole_line_nil : whole_line [].
Proof. split; [apply not_elem_of_nil | by left]. Qed.

Lemma whole_marked a b l : isSpace a = false -> a <> newline -> a <> carriage_return ->
  b = blank -> one_line l -> newline ∉ a :: b :: l /\ whole_line (a :: b :: l).
Proof.
  intros Ha Hn Hr -> [Hln Hlc].
  assert (one_line (a :: blank :: l)) as [H1 H2] by (split; rewrite !not_elem_of_cons; done).
  split; [done |]. apply whole_line_output; [done |]. exists a. split; [left | done].
Qed.

Lemma numbered_has_char l : isNumberedLine l = true -> exists c, c ∈ l /\ isSpace c = false.
Proof.
  unfold isNumberedLine. intros H. apply trim_has_char. rewrite trim_nil, <- skip_space_nil.
  intros E. by rewrite E in H.
Qed.

Lemma ran_whole r rest : ran_ok r -> whole_text rest -> whole_text (ran_text r ++ rest).
Proof.
  intros (Hc & Hne & Hcont & Hnum & _ & Hp) Hrest. unfold ran_text.
  cbn [app]. apply (whole_text_lines _ [] _ (not_elem_of_nil _) eq_refl whole_line_nil).
  destruct (whole_marked dot blank (command r) eq_refl ltac:(done) ltac:(done) eq_refl Hc) as [H1 H2].
  rewrite <- !app_assoc. cbn [app]. apply (whole_text_lines _ (dot :: blank :: command r) _ H1 eq_refl H2). rewrite <- !app_assoc.
  induction Hcont as [|l ls Hl _ IH].
  2: { rewrite bind_cons, <- !app_assoc. cbn [app].
       destruct (whole_marked gt blank l eq_refl ltac:(done) ltac:(done) eq_refl Hl) as [H3 H4].
       rewrite <- !app_assoc.
       eapply (whole_text_lines _ (gt :: blank :: l)); [done | reflexivity | done | exact IH]. }
  cbn [mbind list_bind app].
  induction Hnum as [|l ls (Hl & Hn & _) _ IH].
  2: { rewrite bind_cons, <- !app_assoc. cbn [app].
       eapply (whole_text_lines _ l); [apply Hl | reflexivity | | exact IH].
       apply whole_line_output; [done | by apply numbered_has_char]. }
  cbn [mbind list_bind app].
  induction Hp as [|[n l] ps (Hl & Ht & _) _ IH]; [done |].
  rewrite bind_cons, <- !app_assoc. unfold print_line at 1. cbn [fst snd] in *. rewrite <- !app_assoc.
  induction n as [|n IHn]; cbn [repeat app].
  - eapply (whole_text_lines _ l); [apply Hl | reflexivity | | exact IH].
    by apply whole_line_output, trim_has_char.
  - by apply (whole_text_lines _ [] _ (not_elem_of_nil _) eq_refl whole_line_nil).
Qed.


(** ** The error message of a failed command *)
Definition marker (rc : Z) : str := "r("%string ++ to_string rc ++ ");"%string.

(** What may follow the return code: itself again, and the end of the do-file. *)
Definition after_error (rc : Z) (l : str) : Prop :=
  trim l = [] \/ trim l = end_of_dofile \/ trim l = marker rc.

Definition message_line (rc : Z) (l : str) : Prop :=
  starts_message l = false /\ trim l <> end_of_dofile /\ trim l <> marker rc.

Lemma marker_line_tail rc tail rest : forall found, Forall (after_error rc) tail ->
  exists found', marker_line (marker rc) (tail ++ rest) found = marker_line (marker rc) rest found'.
Proof.
  induction tail as [|l tail IH]; intros found H; [by exists found |].
  apply Forall_cons in H as [Hl H]. cbn [app marker_line].
  destruct (str_eqb (trim l) (marker rc)) eqn:Hm; [by apply IH |].
  destruct Hl as [-> | [-> | Hl]].
  - rewrite bool_decide_true by done. by apply IH.
  - rewrite str_eqb_refl, andb_false_r. by apply IH.
  - rewrite Hl, str_eqb_refl in Hm. done.
Qed.

Lemma message_lines_spec before message :
  Forall (fun l => starts_message l = false) message ->
  match last before with Some l => starts_message l = true | None => True end ->
  message_lines (rev (before ++ message)) = message.
Proof.
  intros Hm Hb. rewrite rev_app_distr. induction message as [|x message IH] using rev_ind.
  - cbn [rev app]. destruct before as [|b before _] using rev_ind; [done |].
    rewrite rev_unit. cbn. rewrite last_snoc in Hb. by rewrite Hb.
  - apply Forall_app in Hm as [Hm [Hx _]%Forall_cons]. rewrite rev_unit. cbn [app message_lines].
    by rewrite Hx, IH.
Qed.

Lemma join_message_spec message lines : message <> [] ->
  join_message message lines = join [newline] (message :: lines).
Proof.
  revert message. induction lines as [|l lines IH]; intros message Hm; [done |].
  cbn [join_message]. rewrite bool_decide_false by done. rewrite IH by (by destruct message).
  change (join [newline] (message :: l :: lines)) with (message ++ [newline] ++ join [newline] (l :: lines)).
  destruct lines as [|l' lines]; cbn [join]; by rewrite <- ?app_assoc.
Qed.

(** The message of a failed command is found wherever Stata stops: when the
    output ends with a message, the line of its return code and anything Stata
    adds after it (the same return code again, "end of do-file", blank lines),
    and the message is at the start or follows a blank line or an echoed one,
    errorMessage returns the lines of the message and nothing else. *)
Theorem errorMessage_correct output rc before message line tail :
  splitLines output = before ++ message ++ line :: tail ->
  message <> [] -> Forall (message_line rc) message ->
  match last before with Some l => starts_message l = true | None => True end ->
  trim line = marker rc -> Forall (after_error rc) tail ->
  errorMessage output rc = trim (join [newline] message).
Proof.
  intros Hout Hne Hm Hb Hl Ht. unfold errorMessage. fold (marker rc). rewrite Hout.
  assert (Hrev : rev (before ++ message ++ line :: tail) = rev tail ++ line :: rev (before ++ message)).
  { rewrite app_assoc, rev_app_distr. cbn [rev]. by rewrite <- app_assoc. }
  rewrite Hrev. destruct (marker_line_tail rc (rev tail) (line :: rev (before ++ message)) None) as (found & ->);
    [by apply Forall_rev |].
  cbn [marker_line]. rewrite Hl, str_eqb_refl.
  assert (Hfound : marker_line (marker rc) (rev (before ++ message)) (Some (length (rev (before ++ message))))
                   = Some (length (before ++ message))).
  { rewrite length_rev. destruct (exists_last Hne) as (ms & x & ->).
    apply Forall_app in Hm as [_ [(Hs & Hd & Hk) _]%Forall_cons].
    rewrite app_assoc, rev_unit. cbn [marker_line].
    assert (str_eqb (trim x) (marker rc) = false) as -> by (apply not_true_iff_false; by rewrite str_eqb_eq).
    assert (str_eqb (trim x) end_of_dofile = false) as -> by (apply not_true_iff_false; by rewrite str_eqb_eq).
    unfold starts_message in Hs. destruct (bool_decide (trim x = [])); [done |]. done. }
  rewrite Hfound, app_assoc, take_app_length, message_lines_spec; [| | done].
  - destruct message as [|x message]; [done |]. cbn [join_message]. rewrite bool_decide_true by done.
    rewrite app_nil_l, join_message_spec; [done |]. intros ->.
    apply Forall_cons in Hm as [[Hs _] _]. done.
  - eapply Forall_impl; [exact Hm |]. by intros l (? & _).
Qed.

Definition example_output : str :=
  join [newline] [". summarize x"%string : str; "variable x not found"%string : str; "r(111);"%string : str;
                  []; "end of do-file"%string : str; []; "r(111);"%string : str].

Lemma errorMessage_correct_witness : errorMessage example_output 111 = "variable x not found"%string.
Proof.
  apply (errorMessage_correct example_output 111 [". summarize x"%string : str] ["variable x not found"%string : str]
    "r(111);"%string ([[]; "end of do-file"%string : str; []; "r(111);"%string : str])); try (vm_compute; reflexivity); try done.
  - repeat constructor; vm_compute; done.
  - repeat (apply Forall_cons; split); try done; unfold after_error;
      first [left; vm_compute; reflexivity | right; left; vm_compute; reflexivity | right; right; vm_compute; reflexivity].
Defined.

Definition example_ran : Ran :=
  {| command := "foreach v of varlist * {"%string; continuation := [];
     numbered := ["  2.  summarize `v'"%string : str; "  3. }"%string : str];
     printed := [(0%nat, "mean 3"%string : str); (2%nat, "mean 4"%string : str)] |}.

Lemma example_ran_ok : ran_ok example_ran.
Proof.
  unfold ran_ok. cbn [command continuation numbered printed example_ran].
  split; [by apply one_line_dots |]. split; [done |]. split; [constructor |].
  split; [repeat (apply Forall_cons; split); try apply Forall_nil; split; try (by apply one_line_dots); done |].
  split; [done |]. repeat (apply Forall_cons; split); try apply Forall_nil; split; try (by apply one_line_dots); done.
Qed.


Lemma EchoFilter_chunks_witness :
  echo_chunks echo_start [["r"%char; "("%char]; ["1"%char]] = echo_chunks echo_start [["r"%char]; ["("%char; "1"%char]].
Proof.
  apply EchoFilter_chunks; [| reflexivity]. unfold whole_text. constructor; [| constructor].
  split; [| right; vm_compute; discriminate]. rewrite !elem_of_cons, elem_of_nil. naive_solver.
Defined.

Lemma TailHold_correct_witness :
  fst (hold_finish (snd (hold_chunks [] ["a"%string ++ [newline]; "error"%string : str])) "error"%string)
  = "a"%string ++ [newline].
Proof.
  pose proof (TailHold_correct ["a"%string ++ [newline]; "error"%string : str] "error"%string) as H.
  destruct (hold_chunks [] _) as [out held] eqn:Hc. destruct H as (_ & _ & _ & _ & H).
  apply (H ("a"%string ++ [newline]) []); [done | | done | by right |].
  - vm_compute. by intros c [= <-].
  - vm_compute in Hc. by injection Hc as <- <-.
Defined.
