(* ===== verification/PyText.v ===== *)
(** * Python's text and the kernel's (carpo/interpreter_py.cpp)

    A Python [str] is a sequence of code points, lone surrogates included; the
    kernel's text is bytes of UTF-8.  [pyUnicodeToStdString] goes one way and
    CPython's [PyUnicode_FromString] the other; the bootstrap's own text
    functions (slices, the identifier before the cursor, thousands separators,
    the white space of a preview) are functions on code points. *)

From Stdlib Require Import Ascii String ZArith Lia.
From stdpp Require Import base list strings pretty sorting.
From S2P Require Import Prelude Utf8 StataCode.

Local Open Scope Z_scope.

Abbreviation pystr := (list Z).

(** A literal of the source, which is ASCII. *)
Definition lit (s : str) : pystr := code <$> s.

(** ** UTF-8 *)

Definition surrogate (c : Z) : bool := (0xD800 <=? c) && (c <=? 0xDFFF).
Definition code_point (c : Z) : Prop := 0 <= c < 0x110000.

Definition encode_cp (c : Z) : str :=
  if c <? 0x80 then [chr c]
  else if c <? 0x800 then [chr (0xC0 + c / 64); chr (0x80 + c mod 64)]
  else if c <? 0x10000 then [chr (0xE0 + c / 4096); chr (0x80 + (c / 64) mod 64); chr (0x80 + c mod 64)]
  else [chr (0xF0 + c / 262144); chr (0x80 + (c / 4096) mod 64); chr (0x80 + (c / 64) mod 64); chr (0x80 + c mod 64)].

(** What has an encoding: a code point that is not a surrogate. *)
Definition encodable (c : Z) : bool := (0 <=? c) && (c <? 0x110000) && negb (surrogate c).

(** [PyUnicode_AsUTF8String]: an exception for a lone surrogate. *)
Fixpoint encode_utf8 (s : pystr) : option str :=
  match s with
  | [] => Some []
  | c :: s => if encodable c then b ← encode_utf8 s; Some (encode_cp c ++ b) else None
  end.

(** The character at the front of well-formed text, by its length. *)
Definition decode_cp (n : nat) (s : str) : Z :=
  let at_ i := code (nth i s nul) in
  match n with
  | 1%nat => at_ 0%nat
  | 2%nat => (at_ 0%nat - 0xC0) * 64 + (at_ 1%nat - 0x80)
  | 3%nat => ((at_ 0%nat - 0xE0) * 64 + (at_ 1%nat - 0x80)) * 64 + (at_ 2%nat - 0x80)
  | _ => (((at_ 0%nat - 0xF0) * 64 + (at_ 1%nat - 0x80)) * 64 + (at_ 2%nat - 0x80)) * 64 + (at_ 3%nat - 0x80)
  end.

(** CPython's strict decoder: as many turns as there are bytes are enough. *)
Fixpoint decode_from (fuel : nat) (s : str) : option pystr :=
  match s, fuel with
  | [], _ => Some []
  | _, O => None
  | _, S fuel =>
      match char_length s with
      | Some n => r ← decode_from fuel (drop n s); Some (decode_cp n s :: r)
      | None => None
      end
  end.

Definition decode_utf8 (s : str) : option pystr := decode_from (length s) s.

(** Nothing for text that cannot be encoded, and nothing after a zero. *)
Definition pyUnicodeToStdString (s : pystr) : str := match encode_utf8 s with Some b => c_str b | None => [] end.

(** [PyUnicode_FromString]: [None] is an exception. *)
Definition PyUnicode_FromString (s : str) : option pystr := decode_utf8 (c_str s).

Lemma code_chr_small z : 0 <= z < 256 -> code (chr z) = z.
Proof. intros H. rewrite code_chr. apply Z.mod_small. lia. Qed.

Local Ltac Zify.zify_post_hook ::= Z.to_euclidean_division_equations.

Ltac byte_codes := rewrite ?code_chr_small by lia.

Lemma is_cont_chr z : 0 <= z < 64 -> is_cont (chr (0x80 + z)) = true.
Proof. intros H. unfold is_cont. byte_codes. apply andb_true_iff. rewrite !Z.leb_le. lia. Qed.

Lemma encodable_spec c : encodable c = true <-> code_point c /\ surrogate c = false.
Proof. unfold encodable, code_point. rewrite !andb_true_iff, negb_true_iff, Z.leb_le, Z.ltb_lt. tauto. Qed.

Lemma encode_cp_char c : code_point c -> surrogate c = false -> utf8_char (encode_cp c).
Proof.
  unfold code_point. intros Hc Hs. unfold encode_cp.
  destruct (Z.ltb_spec c 0x80); [constructor; byte_codes; lia |].
  destruct (Z.ltb_spec c 0x800); [constructor; [byte_codes; lia | apply is_cont_chr; lia] |].
  assert (forall a z, 0 <= z < 64 -> 0xE0 <= code a <= 0xF4 ->
    (code a = 0xE0 -> 0x20 <= z) -> (code a = 0xED -> z < 0x20) -> (code a = 0xF0 -> 0x10 <= z) -> (code a = 0xF4 -> z < 0x10) ->
    second_ok a (chr (0x80 + z)) = true) as H2.
  { intros a z Hz Ha H1 H2 H3 H4. unfold second_ok. rewrite is_cont_chr by lia. byte_codes.
    rewrite !andb_true_iff, !orb_true_iff, !negb_true_iff, !Z.eqb_neq, !Z.leb_le, !Z.ltb_lt. lia. }
  destruct (Z.ltb_spec c 0x10000).
  - apply utf8_3; [byte_codes; lia | | apply is_cont_chr; lia].
    assert (~ (0xD800 <= c <= 0xDFFF)) as Hn.
    { intros Hn. unfold surrogate in Hs. rewrite andb_false_iff, !Z.leb_gt in Hs. lia. }
    apply H2; byte_codes; lia.
  - apply utf8_4; [byte_codes; lia | | apply is_cont_chr; lia ..]. apply H2; byte_codes; lia.
Qed.

Lemma decode_encode_cp c t : code_point c -> surrogate c = false ->
  decode_cp (length (encode_cp c)) (encode_cp c ++ t) = c.
Proof.
  unfold code_point. intros Hc _. unfold encode_cp.
  destruct (Z.ltb_spec c 0x80); [cbn; byte_codes; done |].
  destruct (Z.ltb_spec c 0x800); [cbn; byte_codes; lia |].
  destruct (Z.ltb_spec c 0x10000); cbn; byte_codes; lia.
Qed.

Lemma encode_cp_decode u : utf8_char u ->
  code_point (decode_cp (length u) u) /\ surrogate (decode_cp (length u) u) = false /\ encode_cp (decode_cp (length u) u) = u.
Proof.
  assert (forall a, is_cont a = true -> 0x80 <= code a < 0xC0) as Hcont.
  { intros a. unfold is_cont. rewrite andb_true_iff, !Z.leb_le. lia. }
  assert (forall a z, z = code a -> chr z = a) as Hchr by (intros a z ->; apply chr_code).
  assert (forall a b, second_ok a b = true -> 0x80 <= code b < 0xC0 /\ (code a = 0xE0 -> 0xA0 <= code b)
    /\ (code a = 0xED -> code b < 0xA0) /\ (code a = 0xF0 -> 0x90 <= code b) /\ (code a = 0xF4 -> code b < 0x90)) as Hsec.
  { intros a b. unfold second_ok. rewrite !andb_true_iff, !orb_true_iff, !negb_true_iff, !Z.eqb_neq, !Z.leb_le, !Z.ltb_lt.
    intros ((((Hc & H1) & H2) & H3) & H4). split; [by apply Hcont |]. lia. }
  unfold surrogate, code_point. intros H. rewrite andb_false_iff, !Z.leb_gt.
  destruct H as [a Ha | a b Ha Hb | a b c Ha Hb Hc | a b c d Ha Hb Hc Hd]; cbn [length decode_cp nth].
  - pose proof (code_range a). split; [lia |]. split; [lia |]. unfold encode_cp.
    rewrite (proj2 (Z.ltb_lt _ _)) by done. by rewrite chr_code.
  - apply Hcont in Hb. split; [lia |]. split; [lia |]. unfold encode_cp.
    rewrite (proj2 (Z.ltb_ge _ _)), (proj2 (Z.ltb_lt _ _)) by lia. f_equal; [apply Hchr; lia |]. f_equal. apply Hchr; lia.
  - apply Hsec in Hb. apply Hcont in Hc. split; [lia |]. split; [lia |]. unfold encode_cp.
    rewrite !(proj2 (Z.ltb_ge _ _)) by lia. rewrite (proj2 (Z.ltb_lt _ _)) by lia.
    f_equal; [apply Hchr; lia |]. f_equal; [apply Hchr; lia |]. f_equal. apply Hchr; lia.
  - apply Hsec in Hb. apply Hcont in Hc. apply Hcont in Hd. split; [lia |]. split; [lia |]. unfold encode_cp.
    rewrite !(proj2 (Z.ltb_ge _ _)) by lia. f_equal; [apply Hchr; lia |]. f_equal; [apply Hchr; lia |].
    f_equal; [apply Hchr; lia |]. f_equal. apply Hchr; lia.
Qed.

Lemma utf8_char_length u : utf8_char u -> (0 < length u)%nat.
Proof. intros []; cbn; lia. Qed.

Lemma decode_from_char fuel u t : utf8_char u -> (length u + length t <= fuel)%nat ->
  exists fuel', (length t <= fuel')%nat
  /\ decode_from fuel (u ++ t) = (r ← decode_from fuel' t; Some (decode_cp (length u) (u ++ t) :: r)).
Proof.
  intros Hu Hf. pose proof (utf8_char_length u Hu) as Hl. destruct fuel as [|fuel]; [lia |]. exists fuel. split; [lia |].
  pose proof (char_length_char u t Hu) as Hc. destruct (u ++ t) as [|x rest] eqn:E; [destruct u; [cbn in Hl; lia | done] |].
  cbn [decode_from]. rewrite Hc, <- E, drop_app_length. done.
Qed.

Lemma decode_encode s : forall b fuel, encode_utf8 s = Some b -> (length b <= fuel)%nat -> decode_from fuel b = Some s.
Proof.
  induction s as [|c s IH]; intros b fuel; cbn [encode_utf8]; [intros [= <-]; by destruct fuel |].
  destruct (encodable c) eqn:Es; [apply encodable_spec in Es as [Hc Es] | done].
  destruct (encode_utf8 s) as [b'|] eqn:Eb; cbn; [| done]. intros [= <-] Hf. rewrite length_app in Hf.
  destruct (decode_from_char fuel (encode_cp c) b') as (fuel' & Hf' & ->); [by apply encode_cp_char | done |].
  rewrite (IH b' fuel' eq_refl Hf'). cbn. by rewrite decode_encode_cp.
Qed.

(** A well-formed character decodes by itself. *)
Lemma decode_cp_app u t : utf8_char u -> decode_cp (length u) (u ++ t) = decode_cp (length u) u.
Proof. by intros []. Qed.

Lemma decode_utf8_text b : utf8 b -> exists s, encode_utf8 s = Some b
  /\ forall fuel, (length b <= fuel)%nat -> decode_from fuel b = Some s.
Proof.
  induction 1 as [|u b Hu Hb (s & He & Hd)].
  - exists []. split; [done |]. by intros [|].
  - destruct (encode_cp_decode u Hu) as (Hc & Hsur & Hu').
    exists (decode_cp (length u) u :: s).
    split; [cbn [encode_utf8]; rewrite (proj2 (encodable_spec _)) by done; by rewrite He, Hu' |].
    intros fuel Hf. rewrite length_app in Hf. destruct (decode_from_char fuel u b Hu Hf) as (fuel' & Hf' & ->).
    rewrite (Hd fuel' Hf'). cbn. by rewrite decode_cp_app.
Qed.

(** ** Zero bytes *)

Fixpoint until_nul (s : pystr) : pystr :=
  match s with c :: s => if c =? 0 then [] else c :: until_nul s | [] => [] end.

Lemma c_str_app u t : nul ∉ u -> c_str (u ++ t) = u ++ c_str t.
Proof.
  intros Hu. unfold c_str. induction u as [|x u IH]; cbn; [done |]. apply not_elem_of_cons in Hu as [Hx Hu].
  destruct (char_eqb x nul) eqn:E; [apply char_eqb_eq in E; congruence |]. cbn. by rewrite IH.
Qed.

Lemma c_str_id b : nul ∉ b -> c_str b = b.
Proof. intros H. rewrite <- (app_nil_r b) at 1. rewrite (c_str_app b []) by done. apply app_nil_r. Qed.

Lemma encode_cp_no_nul c : code_point c -> c <> 0 -> nul ∉ encode_cp c.
Proof.
  unfold code_point. intros Hc Hne Hin. assert (exists b, b ∈ encode_cp c /\ code b = 0) as (b & Hb & H0) by (by exists nul).
  revert Hb. unfold encode_cp. destruct (Z.ltb_spec c 0x80), (Z.ltb_spec c 0x800), (Z.ltb_spec c 0x10000);
    rewrite ?elem_of_cons, elem_of_nil; intros Hb;
    repeat destruct Hb as [-> | Hb]; try done; revert H0; byte_codes; lia.
Qed.

Lemma encode_until_nul s b : encode_utf8 s = Some b -> encode_utf8 (until_nul s) = Some (c_str b).
Proof.
  revert b. induction s as [|c s IH]; intros b; cbn [encode_utf8 until_nul]; [by intros [= <-] |].
  destruct (encodable c) eqn:Es; [| done].
  destruct (encode_utf8 s) as [b'|] eqn:Eb; cbn; [| done]. intros [= <-]. destruct (Z.eqb_spec c 0) as [-> | Hne].
  - by vm_compute.
  - cbn [encode_utf8]. rewrite Es, (IH b' eq_refl), c_str_app; [done |].
    apply encode_cp_no_nul; [by apply encodable_spec in Es as [] | done].
Qed.

Lemma encode_utf8_text s b : encode_utf8 s = Some b -> utf8 b.
Proof.
  revert b. induction s as [|c s IH]; intros b; cbn [encode_utf8]; [intros [= <-]; constructor |].
  destruct (encodable c) eqn:Es; [apply encodable_spec in Es as [Hc Es] | done].
  destruct (encode_utf8 s) as [b'|] eqn:Eb; cbn; [| done]. intros [= <-]. constructor; [by apply encode_cp_char | by apply IH].
Qed.

Lemma until_nul_no_nul s : until_nul (until_nul s) = until_nul s.
Proof. induction s as [|c s IH]; cbn; [done |]. destruct (c =? 0) eqn:E; [done |]. cbn. by rewrite E, IH. Qed.

Lemma encode_utf8_None s : encode_utf8 s = None <-> ~ Forall (fun c => encodable c = true) s.
Proof.
  induction s as [|c s IH]; cbn; [split; [done |]; intros H; by destruct H |]. rewrite Forall_cons.
  destruct (encodable c); cbn; [| split; [by intros _ [? _] | done]].
  destruct (encode_utf8 s); cbn; [| split; [intros _ [_ H]; by apply IH | done]].
  split; [done |]. intros H. assert (~ Forall (fun c => encodable c = true) s) as H' by tauto. by apply IH in H'.
Qed.

(** What Python says is UTF-8 when it reaches the kernel. *)
Lemma pyUnicodeToStdString_utf8 s : utf8 (pyUnicodeToStdString s).
Proof.
  unfold pyUnicodeToStdString. destruct (encode_utf8 s) as [t|] eqn:E; [| constructor].
  eapply encode_utf8_text, encode_until_nul, E.
Qed.

Lemma PyUnicode_utf8 b : utf8 b -> is_Some (PyUnicode_FromString b).
Proof.
  intros Hb. assert (utf8 (c_str b)) as Hc.
  { destruct (decode_utf8_text b Hb) as (s & He & _). eapply encode_utf8_text, encode_until_nul, He. }
  destruct (decode_utf8_text _ Hc) as (s & _ & Hd). unfold PyUnicode_FromString, decode_utf8. rewrite Hd; [by eexists | done].
Qed.

Lemma utf8_ascii t : Forall (fun c => code c < 0x80) t -> utf8 t.
Proof. induction 1 as [|c t Hc Ht IH]; [constructor |]. apply (utf8_cons [c]); [by constructor | done]. Qed.

(** Text between Python and the kernel.  What Python writes reaches the
    kernel as valid UTF-8 always, whatever the string: it is the string, up to
    a zero character, and nothing at all when it has a lone surrogate.  And the
    other way round: text of the kernel's that is UTF-8 without a zero byte is
    one Python string, which is that text again. *)
Theorem python_text s b : Forall code_point s -> utf8 b -> nul ∉ b ->
  utf8 (pyUnicodeToStdString s)
  /\ (Exists (fun c => surrogate c = true) s -> pyUnicodeToStdString s = [])
  /\ (Forall (fun c => surrogate c = false) s -> PyUnicode_FromString (pyUnicodeToStdString s) = Some (until_nul s))
  /\ exists s', PyUnicode_FromString b = Some s' /\ pyUnicodeToStdString s' = b.
Proof.
  intros Hs Hb Hn. split; [apply pyUnicodeToStdString_utf8 |]. unfold pyUnicodeToStdString, PyUnicode_FromString, decode_utf8.
  split; [| split].
  - intros Hx. rewrite (proj2 (encode_utf8_None s)); [done |]. intros Hall.
    apply Exists_exists in Hx as (c & Hc & Hsur). rewrite Forall_forall in Hall. apply Hall, encodable_spec in Hc as [_ Hc]. congruence.
  - intros Hsur. destruct (encode_utf8 s) as [t|] eqn:E.
    + pose proof (encode_until_nul s t E) as E1. pose proof (encode_until_nul _ _ E1) as E2.
      rewrite until_nul_no_nul, E1 in E2. injection E2 as E2. rewrite <- E2. by eapply decode_encode.
    + exfalso. apply encode_utf8_None in E. apply E. rewrite Forall_forall in Hs |- *. rewrite Forall_forall in Hsur.
      intros c Hc. apply encodable_spec. auto.
  - destruct (decode_utf8_text b Hb) as (s' & He & Hd). exists s'. rewrite c_str_id by done. split; [by apply Hd |].
    rewrite He. by apply c_str_id.
Qed.

Definition example_text : pystr := lit "a"%string ++ [0xE9; 0x1F600; 0; 0x62].

Lemma python_text_witness :
  PyUnicode_FromString (pyUnicodeToStdString example_text) = Some (lit "a"%string ++ [0xE9; 0x1F600])
  /\ exists s', PyUnicode_FromString "x = 1"%string = Some s' /\ pyUnicodeToStdString s' = "x = 1"%string.
Proof.
  destruct (python_text example_text "x = 1"%string) as (_ & _ & H1 & H2).
  - repeat constructor; vm_compute; congruence.
  - apply utf8_ascii. repeat constructor; vm_compute; congruence.
  - by apply (bool_decide_unpack _).
  - split; [apply H1; repeat constructor | exact H2].
Defined.

(** ** Slices and indices *)

Definition len (s : pystr) : Z := Z.of_nat (length s).

(** The bound [n] of a slice of a sequence that is [size] long. *)
Definition slice_bound (size n : Z) : Z := if n <? 0 then Z.max 0 (size + n) else Z.min n size.

(** [l[a:b]] *)
Definition slice {A} (l : list A) (a b : Z) : list A :=
  let size := Z.of_nat (length l) in
  let a := slice_bound size a in
  take (Z.to_nat (slice_bound size b - a)) (drop (Z.to_nat a) l).

(** [s[i]]: [None] is the IndexError. *)
Definition py_index (s : pystr) (i : Z) : option Z :=
  let i := if i <? 0 then len s + i else i in
  if i <? 0 then None else s !! Z.to_nat i.

Lemma slice_to {A} (l : list A) n : slice l 0 n = take (Z.to_nat (slice_bound (Z.of_nat (length l)) n)) l.
Proof. unfold slice. unfold slice_bound at 2 3. cbn. by rewrite Z.min_l, Z.sub_0_r by lia. Qed.

Lemma slice_length {A} (l : list A) a b : 0 <= a -> (Z.of_nat (length (slice l a b)) <= Z.max 0 (b - a) \/ b < 0).
Proof.
  intros Ha. unfold slice, slice_bound. rewrite length_take, length_drop. destruct (Z.ltb_spec b 0); [by right | left].
  rewrite (proj2 (Z.ltb_ge a 0)) by lia. lia.
Qed.

(** A slice whose bounds are inside. *)
Lemma slice_inside {A} (l : list A) a b : 0 <= a <= b -> b <= Z.of_nat (length l) ->
  slice l a b = take (Z.to_nat (b - a)) (drop (Z.to_nat a) l).
Proof.
  intros Ha Hb. unfold slice, slice_bound. rewrite !(proj2 (Z.ltb_ge _ 0)) by lia. by rewrite !Z.min_l by lia.
Qed.

(** The longest run at the front whose elements satisfy [f], and the rest. *)
Fixpoint span (f : Z -> bool) (s : pystr) : pystr * pystr :=
  match s with
  | c :: rest => if f c then let (u, v) := span f rest in (c :: u, v) else ([], s)
  | [] => ([], [])
  end.

Abbreviation drop_run f s := (snd (span f s)).

Lemma span_app f s : fst (span f s) ++ drop_run f s = s.
Proof. induction s as [|c s IH]; cbn; [done |]. destruct (f c); [| done]. destruct (span f s). cbn in *. by rewrite IH. Qed.

Lemma span_run f s : Forall (fun c => f c = true) (fst (span f s)).
Proof. induction s as [|c s IH]; cbn; [constructor |]. destruct (f c) eqn:E; [| constructor]. destruct (span f s). by constructor. Qed.

Lemma span_all f s : Forall (fun c => f c = true) s -> span f s = (s, []).
Proof. induction 1 as [|c s Hc Hs IH]; cbn; [done |]. by rewrite Hc, IH. Qed.

(** A page of a list, past its end or not. *)
Lemma slice_page {A} (l : list A) a n : 0 <= a -> 0 <= n -> slice l a (a + n) = take (Z.to_nat n) (drop (Z.to_nat a) l).
Proof.
  intros Ha Hn. unfold slice, slice_bound. rewrite !(proj2 (Z.ltb_ge _ 0)) by lia.
  destruct (Z.leb_spec a (Z.of_nat (length l))).
  - rewrite (Z.min_l a) by lia. destruct (Z.leb_spec (a + n) (Z.of_nat (length l))).
    + rewrite Z.min_l by lia. f_equal. lia.
    + rewrite Z.min_r by lia. rewrite !take_ge; [done | rewrite length_drop; lia ..].
  - rewrite !Z.min_r by lia. rewrite Z.sub_diag. rewrite (drop_ge l (Z.to_nat a)) by lia. by rewrite take_nil.
Qed.

(** ** The name before the cursor: [_carpo_token_re], searched *)

Definition in_range (a b c : Z) : bool := (a <=? c) && (c <=? b).
Definition name_start (c : Z) : bool := in_range 0x41 0x5A c || in_range 0x61 0x7A c || (c =? 0x5F).
Definition name_char (c : Z) : bool := name_start c || in_range 0x30 0x39 c || (c =? 0x2E).

Definition name_run (s : pystr) : pystr := fst (span name_char s).

(** [$] is at the end, and before a newline that is last. *)
Definition at_dollar (s : pystr) : bool := match s with [] => true | [c] => c =? 10 | _ => false end.

(** The leftmost match: a newline is no name character, so the run of name
    characters is the only one that can reach [$]. *)
Fixpoint token_search (s : pystr) : option pystr :=
  match s with
  | [] => None
  | c :: rest =>
      if name_start c && at_dollar (drop_run name_char rest) then Some (c :: name_run rest) else token_search rest
  end.

(** [m.group(0) if m else ""] *)
Definition token_of (s : pystr) : pystr := default [] (token_search s).

Definition is_token (t : pystr) : Prop :=
  match t with c :: rest => name_start c = true /\ Forall (fun c => name_char c = true) rest | [] => False end.

Lemma name_run_app r : name_run r ++ drop_run name_char r = r.
Proof. apply span_app. Qed.

Lemma name_run_chars r : Forall (fun c => name_char c = true) (name_run r).
Proof. apply span_run. Qed.

Lemma name_run_all t : Forall (fun c => name_char c = true) t -> name_run t = t /\ drop_run name_char t = [].
Proof. intros H. unfold name_run. by rewrite (span_all _ _ H). Qed.

(** What a match is: the whole of the text up to [$], a token. *)
Lemma token_search_Some s t : token_search s = Some t -> exists q e, s = q ++ t ++ e /\ is_token t /\ (e = [] \/ e = [10]).
Proof.
  induction s as [|c s IH]; cbn; [done |]. destruct (name_start c && at_dollar (drop_run name_char s)) eqn:E.
  - intros [= <-]. apply andb_true_iff in E as [Hc Hd]. exists [], (drop_run name_char s).
    split; [cbn; by rewrite name_run_app |]. split; [split; [done | apply name_run_chars] |].
    destruct (drop_run name_char s) as [|d [|d' r]]; [by left | right | done]. cbn in Hd. apply Z.eqb_eq in Hd. by subst.
  - intros H. destruct (IH H) as (q & e & -> & Ht & He). by exists (c :: q), e.
Qed.

(** And it is the longest: no token that ends the text is longer. *)
Lemma token_search_longest s q t : s = q ++ t -> is_token t -> exists t' q', token_search s = Some t' /\ q = q' ++ take (length t' - length t) t'
  /\ (length t <= length t')%nat.
Proof.
  intros -> Ht. assert (Forall (fun c => name_char c = true) t) as Hall.
  { destruct t as [|c t]; [done |]. destruct Ht as [Hc Ht]. constructor; [| done]. unfold name_char. by rewrite Hc. }
  induction q as [|c q IH]; cbn [app].
  - destruct t as [|c t]; [done |]. destruct Ht as [Hc Ht]. destruct (name_run_all t Ht) as [E1 E2]. cbn [token_search].
    rewrite Hc, E2, E1. exists (c :: t), []. rewrite Nat.sub_diag. by split_and!.
  - cbn [token_search]. destruct (name_start c && at_dollar (drop_run name_char (q ++ t))) eqn:E.
    + apply andb_true_iff in E as [Hc Hd].
      assert (forall q, at_dollar (drop_run name_char (q ++ t)) = true -> Forall (fun c => name_char c = true) q) as Hq.
      { clear -Hall Ht. induction q as [|d q IH]; cbn; [constructor |]. destruct (name_char d) eqn:Ed.
        - intros H. constructor; [done |]. apply IH. by destruct (span name_char (q ++ t)).
        - destruct t; [done |]. by destruct q. }
      apply Hq in Hd. destruct (name_run_all (q ++ t)) as [E1 _]; [by apply Forall_app |]. rewrite E1.
      exists (c :: q ++ t), []. split; [done |]. cbn [length app]. rewrite length_app.
      replace (S (length q + length t) - length t)%nat with (S (length q)) by lia. cbn [take]. rewrite take_app_length. split; [done | lia].
    + destruct IH as (t' & q' & -> & -> & Hl). by exists t', (c :: q').
Qed.

(** ** Numbers and white space *)

(** The decimal digits of [n], with a comma before each group of three:
    [f"{n:,}"].  [group] takes the digits in reverse. *)
Fixpoint group (k : nat) (ds : pystr) : pystr :=
  match ds with
  | [] => []
  | d :: rest => match k with O => 0x2C :: d :: group 2 rest | S k => d :: group k rest end
  end.

Definition digits (n : Z) : pystr := lit (to_string (Z.abs n)).
Definition thousands (n : Z) : pystr := (if n <? 0 then lit "-"%string else []) ++ rev (group 3 (rev (digits n))).

Lemma group_commas ds k : 0x2C ∉ ds -> List.filter (fun c => negb (c =? 0x2C)) (group k ds) = ds.
Proof.
  revert k. induction ds as [|d ds IH]; intros k; cbn; [done |]. intros H. apply not_elem_of_cons in H as [Hd H].
  assert (d =? 0x2C = false) as E by (apply Z.eqb_neq; congruence).
  destruct k; cbn; rewrite E; cbn; by rewrite IH.
Qed.

(** [str.isspace] *)
Definition py_isspace (c : Z) : bool :=
  in_range 9 13 c || in_range 0x1C 0x20 c || (c =? 0x85) || (c =? 0xA0) || (c =? 0x1680) || in_range 0x2000 0x200A c
  || (c =? 0x2028) || (c =? 0x2029) || (c =? 0x202F) || (c =? 0x205F) || (c =? 0x3000).

(** [s.split()]; [word] is the word being read. *)
Fixpoint split_words (word s : pystr) : list pystr :=
  let flush := if bool_decide (word = []) then [] else [word] in
  match s with
  | [] => flush
  | c :: rest => if py_isspace c then flush ++ split_words [] rest else split_words (word ++ [c]) rest
  end.

Fixpoint join_words (sep : pystr) (words : list pystr) : pystr :=
  match words with [] => [] | [w] => w | w :: rest => w ++ sep ++ join_words sep rest end.

(** [s.strip()] *)
Definition strip (s : pystr) : pystr := rev (drop_run py_isspace (rev (drop_run py_isspace s))).

(** [" ".join(text.split())], at most 200 characters of it *)
Definition one_line_preview (text : pystr) : pystr :=
  let text := join_words (lit " "%string) (split_words [] text) in
  if len text <=? 200 then text else slice text 0 200 ++ lit "..."%string.

(** ** The order of strings *)

Fixpoint pystr_leb (a b : pystr) : bool :=
  match a, b with
  | [], _ => true
  | _, [] => false
  | x :: a, y :: b => if x <? y then true else if y <? x then false else pystr_leb a b
  end.

Definition pystr_le (a b : pystr) : Prop := pystr_leb a b = true.
#[export] Instance pystr_le_dec a b : Decision (pystr_le a b).
Proof. unfold pystr_le. apply _. Defined.

#[export] Instance pystr_le_total : Total pystr_le.
Proof.
  unfold pystr_le. intros a. induction a as [|x a IH]; intros [|y b]; cbn; [by left .. | by right |].
  destruct (Z.ltb_spec x y), (Z.ltb_spec y x); try lia; auto.
Qed.

#[export] Instance pystr_le_trans : Transitive pystr_le.
Proof.
  unfold pystr_le. intros a. induction a as [|x a IH]; intros [|y b] [|z c]; cbn; try done.
  destruct (Z.ltb_spec x y), (Z.ltb_spec y x), (Z.ltb_spec y z), (Z.ltb_spec z y), (Z.ltb_spec x z), (Z.ltb_spec z x); try done; try lia.
  apply IH.
Qed.

(** [sorted(names)] *)
Definition py_sorted (names : list pystr) : list pystr := merge_sort pystr_le names.
