(* ===== verification/Json.v ===== *)
(** * JSON, as the program uses it

    The program's [json] is nlohmann::json, a library that is not part of the
    repository: its operations are the fields of [JsonLib], and the documented
    behaviour the program relies on the fields of [JsonLaws].  [Concrete] is an
    instance, for evaluating the definitions. *)

From Stdlib Require Import Ascii ZArith Lia.
From stdpp Require Import countable.
From S2P Require Import Prelude.
Local Open Scope Z_scope.

Inductive jtype := Jnull | Jobject | Jarray | Jstring | Jboolean | Jnumber | Jdiscarded.

#[export] Instance jtype_eq_dec : EqDecision jtype.
Proof. solve_decision. Defined.

(** What [dump] does with a string that is not UTF-8. *)
Inductive error_handler := Strict | Replace | Ignore.

Class JsonLib := {
  json : Type;
  json_eq_dec :: EqDecision json;
  type_of : json -> jtype;
  null : json;
  mk_bool : bool -> json;
  mk_int : Z -> json;
  mk_str : str -> json;
  mk_array : list json -> json;
  (** an object from a list of members; of a repeated name the first counts *)
  mk_object : list (str * json) -> json;
  (** [get<T>()]: [None] is the type_error it throws *)
  get_bool : json -> option bool;
  get_int : json -> option Z;
  get_str : json -> option str;
  elements : json -> list json;
  (** [find(key)] on an object, [None] on anything else *)
  find : json -> str -> option json;
  (** [j[key] = value] on an object or null *)
  insert_key : json -> str -> json -> json;
  (** [parse(text, nullptr, false, true)]: comments are ignored, a text that is
      not JSON gives a discarded value *)
  parse : str -> json;
  (** [parse(text)]: throws when the text is not JSON *)
  parse_strict : str -> result json;
  (** [items()] of an object *)
  members : json -> list (str * json);
  dump : error_handler -> json -> result str;
  (** the values a JSON text represents exactly *)
  storable : json -> Prop
}.

Class JsonLaws (J : JsonLib) := {
  type_null : type_of null = Jnull;
  type_bool b : type_of (mk_bool b) = Jboolean;
  type_int z : type_of (mk_int z) = Jnumber;
  type_str s : type_of (mk_str s) = Jstring;
  type_array l : type_of (mk_array l) = Jarray;
  type_object l : type_of (mk_object l) = Jobject;
  get_bool_mk b : get_bool (mk_bool b) = Some b;
  get_int_mk z : get_int (mk_int z) = Some z;
  get_str_mk s : get_str (mk_str s) = Some s;
  get_str_type j : is_Some (get_str j) <-> type_of j = Jstring;
  get_bool_type j : is_Some (get_bool j) <-> type_of j = Jboolean;
  elements_mk l : elements (mk_array l) = l;
  find_object l k : find (mk_object l) k = (snd <$> list_find (fun m => m.1 = k) l) ≫= fun m => Some m.2;
  find_other j k : type_of j <> Jobject -> find j k = None;
  type_insert j k v : type_of j = Jobject \/ type_of j = Jnull -> type_of (insert_key j k v) = Jobject;
  find_insert j k v k' : type_of j = Jobject \/ type_of j = Jnull ->
    find (insert_key j k v) k' = if decide (k = k') then Some v else find j k';
  parse_dump h j : storable j -> exists s, dump h j = Ok s /\ parse s = j;
  parse_strict_dump h j s : storable j -> dump h j = Ok s -> parse_strict s = Ok j
}.

Section Operations.
Context `{J : JsonLib}.

Definition is_type (t : jtype) (j : json) : bool := bool_decide (type_of j = t).
Definition is_object : json -> bool := is_type Jobject.
Definition is_string : json -> bool := is_type Jstring.
Definition is_null : json -> bool := is_type Jnull.
Definition is_array : json -> bool := is_type Jarray.
Definition is_discarded : json -> bool := is_type Jdiscarded.

Definition type_error_302 : str := "[json.exception.type_error.302]"%string.
Definition type_error_305 : str := "[json.exception.type_error.305]"%string.
Definition type_error_306 : str := "[json.exception.type_error.306]"%string.

Definition contains_key (j : json) (k : str) : bool :=
  match find j k with Some _ => true | None => false end.

Definition get {T} (conv : json -> option T) (j : json) : result T :=
  match conv j with Some x => Ok x | None => Throw type_error_302 end.

(** [j.value(key, default)] *)
Definition value {T} (conv : json -> option T) (j : json) (k : str) (default : T) : result T :=
  if negb (is_object j) then Throw type_error_306
  else match find j k with None => Ok default | Some v => get conv v end.

(** [j[key] = value] *)
Definition set_key (j : json) (k : str) (v : json) : result json :=
  if is_object j || is_null j then Ok (insert_key j k v) else Throw type_error_305.

(** Several members set on [json()] or on an object, as the code fills one. *)
Definition with_keys (j : json) (members : list (str * json)) : json :=
  fold_left (fun j m => insert_key j m.1 m.2) members j.

Definition empty_object : json := mk_object [].

(** A conversion that never fails: [value] with a default of type json. *)
Definition any (j : json) : option json := Some j.

End Operations.

Section Laws.
Context `{L : JsonLaws}.

Lemma is_object_type j : is_object j = true <-> type_of j = Jobject.
Proof. apply bool_decide_eq_true. Qed.

Lemma type_with_keys j members : type_of j = Jobject \/ (type_of j = Jnull /\ members <> []) ->
  type_of (with_keys j members) = Jobject.
Proof.
  unfold with_keys. revert j. induction members as [|m members IH]; intros j H; cbn; [tauto |].
  apply IH. left. apply type_insert. tauto.
Qed.

Lemma find_with_keys_other j members k : type_of j = Jobject \/ type_of j = Jnull ->
  k ∉ members.*1 -> find (with_keys j members) k = find j k.
Proof.
  unfold with_keys. revert j. induction members as [|[k' v] members IH]; intros j H Hk; [done |].
  cbn in *. rewrite not_elem_of_cons in Hk. rewrite IH; [| left; by apply type_insert | tauto].
  rewrite find_insert by done. rewrite decide_False by naive_solver. done.
Qed.

Lemma find_with_keys j members k v : type_of j = Jobject \/ type_of j = Jnull ->
  NoDup members.*1 -> (k, v) ∈ members -> find (with_keys j members) k = Some v.
Proof.
  unfold with_keys. revert j. induction members as [|[k' v'] members IH]; intros j H Hnd Hin;
    [by apply elem_of_nil in Hin |].
  cbn in *. apply NoDup_cons in Hnd as [Hk Hnd]. apply elem_of_cons in Hin as [[= <- <-] | Hin].
  - change (fold_left _ members ?x) with (with_keys x members).
    rewrite find_with_keys_other by (done || (left; by apply type_insert)).
    rewrite find_insert by done. by rewrite decide_True.
  - apply IH; [left; by apply type_insert | done | done].
Qed.

(** What a member can be set on, as the side conditions need it. *)
Lemma null_settable : type_of null = Jobject \/ type_of null = Jnull.
Proof. right. apply type_null. Qed.

Lemma object_settable l : type_of (mk_object l) = Jobject \/ type_of (mk_object l) = Jnull.
Proof. left. apply type_object. Qed.

Lemma insert_settable j k v : type_of j = Jobject \/ type_of j = Jnull ->
  type_of (insert_key j k v) = Jobject \/ type_of (insert_key j k v) = Jnull.
Proof. left. by apply type_insert. Qed.

Lemma value_found {T} (conv : json -> option T) j k v x d : find j k = Some v -> conv v = Some x ->
  value conv j k d = Ok x.
Proof.
  intros Hf Hc. unfold value, get. destruct (is_object j) eqn:Ho; cbn [negb].
  - by rewrite Hf, Hc.
  - rewrite find_other in Hf; [done |]. intros E. apply is_object_type in E. congruence.
Qed.

Lemma value_missing {T} (conv : json -> option T) j k d : type_of j = Jobject -> find j k = None ->
  value conv j k d = Ok d.
Proof. intros Ho Hf. unfold value. apply is_object_type in Ho. by rewrite Ho, Hf. Qed.

Lemma find_nothing k : find (mk_object []) k = None.
Proof. by rewrite find_object. Qed.

Lemma find_head k v l : find (mk_object ((k, v) :: l)) k = Some v.
Proof. rewrite find_object. cbn. by rewrite decide_True. Qed.

Lemma find_tail k v l k' : k <> k' -> find (mk_object ((k, v) :: l)) k' = find (mk_object l) k'.
Proof.
  intros H. rewrite !find_object. cbn. rewrite decide_False by done. by destruct (list_find _ l) as [[]|].
Qed.

End Laws.

#[export] Hint Resolve null_settable object_settable insert_settable : jovian.

(** Reads the members of an object that was filled by [with_keys] or
    [insert_key] with literal names. *)
Ltac find_key :=
  unfold with_keys, empty_object; cbn [fold_left fst snd];
  repeat (rewrite find_insert by auto 20 with jovian;
          first [rewrite decide_True by done | rewrite decide_False by discriminate]).

(** Reads a literal member of an object built from literal members. *)
Ltac find_member :=
  repeat first [rewrite find_head | rewrite find_nothing | rewrite find_tail by discriminate].

(** ** A concrete JSON *)
Module Concrete.

Inductive J :=
| Null
| Discarded
| Bool (b : bool)
| Int (z : Z)
| Str (s : str)
| Arr (l : list J)
| Obj (m : list (str * J)).

(** The values as trees, from which equality and an encoding follow. *)
Fixpoint to_tree (j : J) : gen_tree (unit + bool + bool + Z + str) :=
  match j with
  | Null => GenLeaf (inl (inl (inl (inl tt))))
  | Discarded => GenLeaf (inl (inl (inl (inr false))))
  | Bool b => GenLeaf (inl (inl (inr b)))
  | Int z => GenLeaf (inl (inr z))
  | Str s => GenLeaf (inr s)
  | Arr l => GenNode 0 (to_tree <$> l)
  | Obj m => GenNode 1 ((fun kv => GenNode 2 [GenLeaf (inr kv.1); to_tree kv.2]) <$> m)
  end.

Fixpoint of_tree (t : gen_tree (unit + bool + bool + Z + str)) : J :=
  match t with
  | GenLeaf (inl (inl (inl (inl tt)))) => Null
  | GenLeaf (inl (inl (inl (inr _)))) => Discarded
  | GenLeaf (inl (inl (inr b))) => Bool b
  | GenLeaf (inl (inr z)) => Int z
  | GenLeaf (inr s) => Str s
  | GenNode 0 l => Arr (of_tree <$> l)
  | GenNode 1 m => Obj ((fun kv => match kv with GenNode _ [GenLeaf (inr k); v] => (k, of_tree v) | _ => ([], Null) end) <$> m)
  | GenNode _ _ => Null
  end.

Fixpoint of_to_tree (j : J) : of_tree (to_tree j) = j.
Proof.
  destruct j as [| |b|z|s|l|m]; cbn; try done.
  - f_equal. induction l as [|j l IH]; cbn; [done |]. by rewrite of_to_tree, IH.
  - f_equal. induction m as [|[k j] m IH]; cbn; [done |]. by rewrite of_to_tree, IH.
Qed.

#[export] Instance J_eq_dec : EqDecision J.
Proof. refine (inj_eq_dec to_tree). intros x y H. by rewrite <- (of_to_tree x), H, of_to_tree. Defined.

#[export] Instance J_countable : Countable J.
Proof. refine (inj_countable' to_tree of_tree of_to_tree). Defined.

(** A text for a value: the digits of its number. *)
Fixpoint bits (p : positive) : str :=
  match p with xH => [] | xO p => "0"%char :: bits p | xI p => "1"%char :: bits p end.

Fixpoint unbits (s : str) : positive :=
  match s with [] => xH | c :: s => if char_eqb c "0"%char then xO (unbits s) else xI (unbits s) end.

Lemma unbits_bits p : unbits (bits p) = p.
Proof. induction p; cbn; congruence. Qed.

Definition J_type (j : J) : jtype :=
  match j with
  | Null => Jnull | Discarded => Jdiscarded | Bool _ => Jboolean | Int _ => Jnumber | Str _ => Jstring
  | Arr _ => Jarray | Obj _ => Jobject
  end.

Definition J_find (j : J) (k : str) : option J :=
  match j with
  | Obj m => (snd <$> list_find (fun p => p.1 = k) m) ≫= fun p => Some p.2
  | _ => None
  end.

Definition J_insert (j : J) (k : str) (v : J) : J :=
  match j with
  | Obj m => Obj (filter (fun p => p.1 <> k) m ++ [(k, v)])
  | _ => Obj [(k, v)]
  end.

#[global] Instance concrete : JsonLib := {|
  json := J;
  type_of := J_type;
  null := Null;
  mk_bool := Bool;
  mk_int := Int;
  mk_str := Str;
  mk_array := Arr;
  mk_object := Obj;
  get_bool j := match j with Bool b => Some b | _ => None end;
  get_int j := match j with Int z => Some z | _ => None end;
  get_str j := match j with Str s => Some s | _ => None end;
  elements j := match j with Arr l => l | _ => [] end;
  find := J_find;
  insert_key := J_insert;
  parse s := match decode (unbits s) with Some j => j | None => Discarded end;
  parse_strict s := match decode (unbits s) with Some j => Ok j | None => Throw "[json.exception.parse_error.101]"%string end;
  members j := match j with Obj m => m | _ => [] end;
  dump _ j := Ok (bits (encode j));
  storable _ := True
|}.

Lemma list_find_filter (m : list (str * J)) k k' : k <> k' ->
  (snd <$> list_find (fun p => p.1 = k') (filter (fun p => p.1 <> k) m))
  = (snd <$> list_find (fun p => p.1 = k') m).
Proof.
  intros Hne. induction m as [|[a v] m IH]; [done |]. rewrite filter_cons. cbn.
  destruct (decide (a = k)) as [-> | Ha].
  - rewrite (decide_False (P := k <> k)) by naive_solver. rewrite (decide_False (P := k = k')) by done.
    rewrite IH. by destruct (list_find _ m) as [[]|].
  - rewrite (decide_True (P := a <> k)) by done. cbn. destruct (decide (a = k')); [done |].
    revert IH. destruct (list_find _ (filter _ m)) as [[]|], (list_find _ m) as [[]|]; cbn; congruence.
Qed.

Lemma list_find_snoc (m : list (str * J)) k v k' :
  (snd <$> list_find (fun p => p.1 = k') (m ++ [(k, v)]))
  = match snd <$> list_find (fun p => p.1 = k') m with
    | Some p => Some p
    | None => if decide (k = k') then Some (k, v) else None
    end.
Proof.
  induction m as [|[a w] m IH]; cbn; [by destruct (decide (k = k')) |].
  destruct (decide (a = k')); [done |].
  revert IH. destruct (list_find _ (m ++ _)) as [[]|], (list_find _ m) as [[]|]; cbn; done.
Qed.

Lemma list_find_removed (m : list (str * J)) k :
  (snd <$> list_find (fun p => p.1 = k) (filter (fun p => p.1 <> k) m)) = None.
Proof.
  induction m as [|[a v] m IH]; [done |]. rewrite filter_cons. cbn.
  destruct (decide (a = k)) as [-> | Ha].
  - rewrite (decide_False (P := k <> k)) by naive_solver. done.
  - rewrite (decide_True (P := a <> k)) by done. cbn. rewrite decide_False by done.
    by destruct (list_find _ _) as [[]|].
Qed.

Lemma find_insert_concrete j k v k' : J_type j = Jobject \/ J_type j = Jnull ->
  J_find (J_insert j k v) k' = if decide (k = k') then Some v else J_find j k'.
Proof.
  destruct j as [| |b|z|s|l|m]; cbn [J_type]; intros [H | H]; try done; cbn.
  - destruct (decide (k = k')) as [-> |]; cbn; done.
  - rewrite list_find_snoc. destruct (decide (k = k')) as [<- | Hne].
    + by rewrite list_find_removed.
    + rewrite list_find_filter by done. by destruct (list_find _ m) as [[]|].
Qed.

#[global] Instance concrete_laws : JsonLaws concrete.
Proof.
  split; try done.
  - intros j. destruct j; cbn; split; intros H; try done; try (by destruct H); eauto.
  - intros j. destruct j; cbn; split; intros H; try done; try (by destruct H); eauto.
  - intros j k H. by destruct j.
  - intros j k v _. by destruct j.
  - intros j k v k' H. by apply find_insert_concrete.
  - intros h j _. exists (bits (encode j)). split; [done |].
    cbn. by rewrite unbits_bits, decode_encode.
  - intros h j s _ [= <-]. cbn. by rewrite unbits_bits, decode_encode.
Qed.

End Concrete.
