(* ===== verification/Wire.v ===== *)
(** * The Jupyter wire protocol: authentication.cpp, zmq_serializer.cpp, message.cpp

    A message and its frames: the signature of the four JSON frames, what goes
    before the delimiter, a large content kept as its text.  A frame is a [str],
    a multipart message a list of frames; popping an empty one is what ZeroMQ
    asserts on ([Undefined]). *)

From Stdlib Require Import Ascii ZArith Lia.
From S2P Require Import Prelude Utf8 Crypto Json.
Local Open Scope Z_scope.

Abbreviation frame := str (only parsing).
Abbreviation frames := (list str).

(** ** Authentication *)
Section Authentication.
Context `{Ossl : OpenSSL}.

Inductive Authentication :=
| NoAuthentication
| OpensslAuthentication (m_hashName m_key : str).

Definition toupper (c : byte) : byte :=
  if (97 <=? code c) && (code c <=? 122) then chr (code c - 32) else c.

(** The constructor: "hmac-sha256" names the digest SHA256. *)
Definition newOpensslAuthentication (scheme key : str) : result Authentication :=
  if (length scheme <? 5)%nat then Throw "basic_string::substr: __pos (which is 5) > this->size()"%string
  else if negb EVP_MAC_fetch then Throw "Could not fetch evp_mac"%string
  else if negb EVP_MAC_CTX_new then Throw "Could not allocate evp_mac_ctx"%string
  else Ok (OpensslAuthentication (toupper <$> drop 5 scheme) key).

Definition makeAuthentication (scheme key : str) : result Authentication :=
  if str_eqb scheme "none"%string then Ok NoAuthentication else newOpensslAuthentication scheme key.

(** The digits of the MAC. *)
Definition finalizeHexSignature (sig : str) : str := sig ≫= format_02x.

(** One [update] per part, then the end. *)
Definition computeHexSignature (hashName key : str) (parts : list str) : str :=
  finalizeHexSignature (hmac hashName key (List.concat parts)).

Definition sign (auth : Authentication) (parts : list str) : str :=
  match auth with
  | NoAuthentication => []
  | OpensslAuthentication hashName key => computeHexSignature hashName key parts
  end.

(** The comparison reads as many bytes of the signature as the expected one
    has; [None] when that is past the end of the frame. *)
Definition verify (auth : Authentication) (signature : str) (parts : list str) : option bool :=
  match auth with
  | NoAuthentication => Some true
  | OpensslAuthentication hashName key =>
      let hex_sig := computeHexSignature hashName key parts in
      if (length signature <? length hex_sig)%nat then None
      else Some (CRYPTO_memcmp hex_sig signature (length hex_sig) =? 0)
  end.

Lemma verify_sign `{!OpenSSLLaws Ossl} auth signature parts :
  verify auth signature parts = Some true -> exists rest, signature = sign auth parts ++ rest.
Proof.
  destruct auth as [|hashName key]; cbn [verify sign]; [intros _; by exists signature |].
  set (hex := computeHexSignature hashName key parts).
  destruct (Nat.ltb_spec (length signature) (length hex)); [done |].
  intros [= Hc%Z.eqb_eq]. apply CRYPTO_memcmp_zero in Hc; [| lia | lia].
  rewrite take_ge in Hc by lia. exists (drop (length hex) signature).
  rewrite Hc at 1. by rewrite take_drop.
Qed.

Lemma verify_signed `{!OpenSSLLaws Ossl} auth parts : verify auth (sign auth parts) parts = Some true.
Proof.
  destruct auth as [|hashName key]; cbn [verify sign]; [done |]. rewrite Nat.ltb_irrefl. f_equal.
  apply Z.eqb_eq. by apply CRYPTO_memcmp_zero.
Qed.

End Authentication.

(** ** Messages *)
Section Messages.
Context `{J : JsonLib}.

Record MessageBase := {
  m_header : json;
  m_parentHeader : json;
  m_metadata : json;
  m_content : json;
  m_contentDeferred : bool;
  m_hasContentText : bool;
  m_contentText : str;
  m_buffers : list str
}.

Definition makeMessageBase (header parent_header metadata content : json) (buffers : list str) : MessageBase :=
  {| m_header := header; m_parentHeader := parent_header; m_metadata := metadata; m_content := content;
     m_contentDeferred := false; m_hasContentText := false; m_contentText := []; m_buffers := buffers |}.

Definition deferContent (text : str) (m : MessageBase) : MessageBase :=
  {| m_header := m_header m; m_parentHeader := m_parentHeader m; m_metadata := m_metadata m; m_content := null;
     m_contentDeferred := true; m_hasContentText := true; m_contentText := text; m_buffers := m_buffers m |}.

Definition parseDeferredContent (m : MessageBase) : MessageBase :=
  let parsed := parse (m_contentText m) in
  let content :=
    if is_discarded parsed
    then insert_key empty_object "error"%string (mk_str "JSON parse error: the message's content is not JSON"%string)
    else parsed in
  {| m_header := m_header m; m_parentHeader := m_parentHeader m; m_metadata := m_metadata m; m_content := content;
     m_contentDeferred := false; m_hasContentText := m_hasContentText m; m_contentText := m_contentText m;
     m_buffers := m_buffers m |}.

(** [content()]: parsed on first use. *)
Definition content (m : MessageBase) : json * MessageBase :=
  let m := if m_contentDeferred m then parseDeferredContent m else m in (m_content m, m).

Definition contentText (m : MessageBase) : option str :=
  if m_hasContentText m then Some (m_contentText m) else None.

Record Message := { identities : list str; base : MessageBase }.
Record PubMessage := { topic : str; pub_base : MessageBase }.

(** [iso8601Now], from the seconds as [put_time] writes them and the
    microseconds since the epoch. *)
Definition iso8601Now (seconds : str) (micros : Z) : str :=
  seconds ++ "."%string ++ to_string (Z.rem micros 1000000) ++ "Z"%string.

Definition kernel_protocol_version : str := "5.6"%string.
Definition getProtocolVersion : str := kernel_protocol_version.

Definition makeHeader (msg_id date msg_type user_name session_id : str) : json :=
  with_keys null
    [("msg_id"%string : str, mk_str msg_id); ("username"%string : str, mk_str user_name);
     ("session"%string : str, mk_str session_id); ("date"%string : str, mk_str date);
     ("msg_type"%string : str, mk_str msg_type); ("version"%string : str, mk_str getProtocolVersion)].

End Messages.

(** ** The serializer *)
Section Serializer.
Context `{J : JsonLib} `{Ossl : OpenSSL}.

Definition DELIMITER : frame := "<IDS|MSG>"%string.
Definition isDelimiter (f : frame) : bool := str_eqb f DELIMITER.

Definition kDeferredContentBytes : Z := 64 * 1024.

(** The parser does not throw (its last arguments), so the fallback object of
    the [catch] is never made: a frame that is not JSON is a discarded value. *)
Definition parseZmqMessage (msg : frame) : json := parse msg.

Definition writeZmqMessage (j : json) (handler : error_handler) : result frame := dump handler j.

Definition serializeMessageBase (m : MessageBase) (auth : Authentication) (handler : error_handler) : result frames :=
  let? header := writeZmqMessage (m_header m) handler in
  let? parent_header := writeZmqMessage (m_parentHeader m) handler in
  let? metadata := writeZmqMessage (m_metadata m) handler in
  let? content := writeZmqMessage (fst (content m)) handler in
  let parts := [header; parent_header; metadata; content] in
  Ok (sign auth parts :: parts ++ m_buffers m).

Definition isOneLine (text : str) : bool :=
  match OneLine.isOneLineOfUtf8 text with Some b => b | None => false end.

Definition deserializeMessageBase (wire_msg : frames) (auth : Authentication) (defer_large_content : bool)
    : result MessageBase :=
  match wire_msg with
  | signature :: header :: parent_header :: metadata :: content :: buffers =>
      let deferred := defer_large_content && (kDeferredContentBytes <=? Z.of_nat (length content)) && isOneLine content in
      match verify auth signature [header; parent_header; metadata; content] with
      | None => Undefined
      | Some false => Throw "ERROR: Signatures don't match"%string
      | Some true =>
          let m := makeMessageBase (parseZmqMessage header) (parseZmqMessage parent_header) (parseZmqMessage metadata)
                     (if deferred then null else parseZmqMessage content) buffers in
          Ok (if deferred then deferContent content m else m)
      end
  | _ => Throw ("malformed message: "%string ++ to_string (Z.of_nat (length wire_msg))
                ++ " frames after the delimiter, 5 needed"%string)
  end.

Definition serializeTopic (t : str) : frames := [t; DELIMITER].

(** The frames before the delimiter: [topic] and [first] as in the loop. *)
Fixpoint deserializeTopic_from (t : str) (first : bool) (wire_msg : frames) : result (str * frames) :=
  match wire_msg with
  | [] => Throw "malformed message: no <IDS|MSG> delimiter"%string
  | f :: rest =>
      if isDelimiter f then Ok (t, rest)
      else deserializeTopic_from (if first then f else t) false rest
  end.

Definition deserializeTopic (wire_msg : frames) : result (str * frames) := deserializeTopic_from [] true wire_msg.

Definition serializeZmqId (ids : list str) : frames := ids ++ [DELIMITER].

(** The loop: [f] is the frame popped last. *)
Fixpoint deserializeZmqId_from (f : frame) (zmq_id : list str) (wire_msg : frames) : result (list str * frames) :=
  if isDelimiter f then Ok (zmq_id, wire_msg)
  else match wire_msg with
       | [] => Throw "ERROR: Delimiter not present in message"%string
       | g :: rest => deserializeZmqId_from g (zmq_id ++ [f]) rest
       end.

Definition deserializeZmqId (wire_msg : frames) : result (list str * frames) :=
  match wire_msg with
  | [] => Undefined
  | f :: rest => deserializeZmqId_from f [] rest
  end.

Definition serialize (msg : Message) (auth : Authentication) (handler : error_handler) : result frames :=
  let? body := serializeMessageBase (base msg) auth handler in
  Ok (serializeZmqId (identities msg) ++ body).

Definition deserialize (wire_msg : frames) (auth : Authentication) (defer_large_content : bool) : result Message :=
  let? (zmq_id, wire_msg) := deserializeZmqId wire_msg in
  let? parts := deserializeMessageBase wire_msg auth defer_large_content in
  Ok {| identities := zmq_id; base := parts |}.

Definition serializeIopub (msg : PubMessage) (auth : Authentication) (handler : error_handler) : result frames :=
  let? body := serializeMessageBase (pub_base msg) auth handler in
  Ok (serializeTopic (topic msg) ++ body).

Definition deserializeIopub (wire_msg : frames) (auth : Authentication) (defer_large_content : bool) : result PubMessage :=
  let? (t, wire_msg) := deserializeTopic wire_msg in
  let? parts := deserializeMessageBase wire_msg auth defer_large_content in
  Ok {| topic := t; pub_base := parts |}.

End Serializer.

(** ** Round trips *)
Section RoundTrip.
Context `{JL : JsonLaws} `{OL : OpenSSLLaws}.

(** A message as the program makes one: its content not deferred, its four
    parts values that JSON represents. *)
Record sendable (m : MessageBase) : Prop := {
  sendable_content : m_contentDeferred m = false;
  sendable_header : storable (m_header m);
  sendable_parent : storable (m_parentHeader m);
  sendable_metadata : storable (m_metadata m);
  sendable_body : storable (m_content m)
}.

(** The same message: the same parts, whether the content was parsed or not. *)
Record same_message (m m' : MessageBase) : Prop := {
  same_header : m_header m = m_header m';
  same_parent : m_parentHeader m = m_parentHeader m';
  same_metadata : m_metadata m = m_metadata m';
  same_content : fst (content m) = fst (content m');
  same_buffers : m_buffers m = m_buffers m'
}.

#[export] Instance same_message_equivalence : Equivalence same_message.
Proof.
  split; [by intros m | by intros m m' [] | intros m m' m'' [] []; split; etrans; eauto].
Qed.

Lemma message_base_roundtrip m auth handler defer : sendable m -> is_discarded (m_content m) = false ->
  exists body, serializeMessageBase m auth handler = Ok body
  /\ exists m', deserializeMessageBase body auth defer = Ok m' /\ same_message m' m.
Proof.
  intros [Hd Hh Hp Hm Hc] Hdisc. unfold serializeMessageBase, writeZmqMessage, content. rewrite Hd. cbn [fst].
  destruct (parse_dump handler _ Hh) as (h & -> & Ph), (parse_dump handler _ Hp) as (p & -> & Pp),
    (parse_dump handler _ Hm) as (d & -> & Pd), (parse_dump handler _ Hc) as (c & -> & Pc).
  eexists. split; [reflexivity |]. cbn [app deserializeMessageBase].
  rewrite verify_signed. eexists. split; [reflexivity |]. unfold parseZmqMessage. rewrite Ph, Pp, Pd, Pc.
  destruct (_ && _ && _); split; cbn; try done; unfold content; cbn; rewrite ?Hd, ?Pc, ?Hdisc; done.
Qed.

Lemma isDelimiter_refl : isDelimiter DELIMITER = true.
Proof. apply str_eqb_refl. Qed.

Lemma isDelimiter_other f : DELIMITER <> f -> isDelimiter f = false.
Proof. intros H. apply not_true_iff_false. unfold isDelimiter. rewrite str_eqb_eq. congruence. Qed.

Lemma deserializeZmqId_stop acc rest : deserializeZmqId_from DELIMITER acc rest = Ok (acc, rest).
Proof. destruct rest; cbn [deserializeZmqId_from]; by rewrite isDelimiter_refl. Qed.

Lemma deserializeZmqId_spec ids f rest acc : DELIMITER ∉ f :: ids ->
  deserializeZmqId_from f acc (ids ++ DELIMITER :: rest) = Ok (acc ++ f :: ids, rest).
Proof.
  revert f acc. induction ids as [|g ids IH]; intros f acc Hn; apply not_elem_of_cons in Hn as [Hf Hn];
    cbn [app deserializeZmqId_from]; rewrite isDelimiter_other by done.
  - apply deserializeZmqId_stop.
  - rewrite IH by done. by rewrite <- app_assoc.
Qed.

Lemma deserializeZmqId_serialize ids rest : DELIMITER ∉ ids ->
  deserializeZmqId (serializeZmqId ids ++ rest) = Ok (ids, rest).
Proof.
  intros Hn. unfold serializeZmqId. rewrite <- app_assoc. destruct ids as [|f ids]; cbn [app deserializeZmqId].
  - apply deserializeZmqId_stop.
  - by rewrite deserializeZmqId_spec.
Qed.

Lemma pub_roundtrip t m auth handler defer :
  sendable m -> is_discarded (m_content m) = false -> t <> DELIMITER ->
  exists wire msg, serializeIopub {| topic := t; pub_base := m |} auth handler = Ok wire
    /\ deserializeIopub wire auth defer = Ok msg /\ topic msg = t /\ same_message (pub_base msg) m.
Proof.
  intros Hs Hd Ht. destruct (message_base_roundtrip m auth handler defer Hs Hd) as (body & Hbody & m' & Hm' & Hsame).
  unfold serializeIopub, deserializeIopub. cbn [pub_base topic]. rewrite Hbody.
  do 2 eexists. split; [reflexivity |]. unfold deserializeTopic, serializeTopic.
  cbn [app deserializeTopic_from]. rewrite isDelimiter_other by done. rewrite isDelimiter_refl, Hm'.
  split; [reflexivity |]. done.
Qed.

(** C29: a message sent and received again with the same key is the same message
    (identities, header, parent header, metadata, content and buffers), on
    every channel and whether or not the receiver defers a large content. *)
Theorem serialize_roundtrip ids t m auth handler defer :
  sendable m -> is_discarded (m_content m) = false -> DELIMITER ∉ ids -> t <> DELIMITER ->
  (exists wire msg, serialize {| identities := ids; base := m |} auth handler = Ok wire
     /\ deserialize wire auth defer = Ok msg /\ identities msg = ids /\ same_message (base msg) m)
  /\ (exists wire msg, serializeIopub {| topic := t; pub_base := m |} auth handler = Ok wire
     /\ deserializeIopub wire auth defer = Ok msg /\ topic msg = t /\ same_message (pub_base msg) m).
Proof.
  intros Hs Hd Hids Ht. split; [| by apply pub_roundtrip].
  destruct (message_base_roundtrip m auth handler defer Hs Hd) as (body & Hbody & m' & Hm' & Hsame).
  unfold serialize, deserialize. cbn [base identities]. rewrite Hbody.
  do 2 eexists. split; [reflexivity |]. rewrite deserializeZmqId_serialize by done. rewrite Hm'.
  split; [reflexivity |]. done.
Qed.

Lemma deserializeZmqId_inv f acc wire ids rest : deserializeZmqId_from f acc wire = Ok (ids, rest) ->
  exists more, ids = acc ++ more /\ f :: wire = more ++ DELIMITER :: rest /\ DELIMITER ∉ more.
Proof.
  revert f acc. induction wire as [|g wire IH]; intros f acc; cbn; unfold isDelimiter;
    destruct (str_eqb f DELIMITER) eqn:E.
  - intros [= <- <-]. apply str_eqb_eq in E as ->. exists []. rewrite app_nil_r.
    split; [done |]. split; [done | apply not_elem_of_nil].
  - done.
  - intros [= <- <-]. apply str_eqb_eq in E as ->. exists []. rewrite app_nil_r.
    split; [done |]. split; [done | apply not_elem_of_nil].
  - intros H. destruct (IH g _ H) as (more & -> & -> & Hn). exists (f :: more).
    rewrite <- app_assoc. split; [done |]. split; [done |].
    rewrite not_elem_of_cons. split; [| done]. intros <-. by rewrite str_eqb_refl in E.
Qed.

(** C3: a message is accepted only if its sender had the key: whatever the
    frames are, when deserialize returns a message they are its identities, the
    delimiter, a signature frame that starts with the HMAC, under the
    receiver's key, of the four parts that follow it, then the buffers; and the
    message holds exactly those parts.  Anything else is an exception, or (a
    signature frame shorter than the HMAC, and no frame at all) undefined. *)
Theorem deserialize_authentic wire hashName key defer msg :
  deserialize wire (OpensslAuthentication hashName key) defer = Ok msg ->
  exists rest header parent_header metadata content_,
    wire = identities msg ++ DELIMITER ::
           (computeHexSignature hashName key [header; parent_header; metadata; content_] ++ rest)
           :: header :: parent_header :: metadata :: content_ :: m_buffers (base msg)
    /\ DELIMITER ∉ identities msg
    /\ m_header (base msg) = parse header /\ m_parentHeader (base msg) = parse parent_header
    /\ m_metadata (base msg) = parse metadata
    /\ (is_discarded (parse content_) = false -> fst (content (base msg)) = parse content_).
Proof.
  unfold deserialize. destruct wire as [|f wire]; [done |]. cbn [deserializeZmqId].
  destruct (deserializeZmqId_from f [] wire) as [[ids body]| |] eqn:Hid; [| done | done].
  destruct (deserializeZmqId_inv _ _ _ _ _ Hid) as (more & Hids & Hwire & Hn). cbn in Hids. subst more.
  destruct body as [|sg [|h [|p [|d [|c buffers]]]]]; try done. cbn [deserializeMessageBase].
  destruct (verify _ sg _) as [[|]|] eqn:Hv; [| done | done].
  destruct (verify_sign _ _ _ Hv) as (rest & ->). cbn [sign]. intros [= <-].
  exists rest, h, p, d, c. rewrite Hwire. cbn [identities base].
  destruct (_ && _ && _); cbn; repeat split; try done.
  unfold content. cbn. intros ->. done.
Qed.

End RoundTrip.

Section WireWitness.

Definition example_message : MessageBase (J := Concrete.concrete) :=
  makeMessageBase (mk_object [("msg_type"%string : str, mk_str "status"%string)]) (mk_object []) (mk_object [])
    (mk_object [("execution_state"%string : str, mk_str "busy"%string)]) ["bin"%string : str].

Definition example_auth : Authentication := OpensslAuthentication "SHA256"%string "key"%string.

Lemma example_sendable : sendable example_message.
Proof. by split. Qed.

Lemma serialize_roundtrip_witness : exists wire msg,
  serialize (Ossl := Stub.stub) {| identities := ["id"%string : str]; base := example_message |} example_auth Strict = Ok wire
  /\ deserialize (Ossl := Stub.stub) wire example_auth true = Ok msg /\ identities msg = ["id"%string : str].
Proof.
  destruct (serialize_roundtrip (JL := Concrete.concrete_laws) (OL := Stub.stub_laws) ["id"%string : str] "topic"%string
    example_message example_auth Strict true) as [(wire & msg & H1 & H2 & H3 & _) _];
    [apply example_sendable | reflexivity | | discriminate |].
  - rewrite elem_of_cons, elem_of_nil. intros [H | []]. discriminate H.
  - by exists wire, msg.
Defined.

Lemma example_received : exists wire msg,
  deserialize (Ossl := Stub.stub) wire example_auth false = Ok msg.
Proof.
  destruct (message_base_roundtrip (JL := Concrete.concrete_laws) (OL := Stub.stub_laws)
    example_message example_auth Strict false example_sendable eq_refl) as (body & _ & m & Hm & _).
  exists (serializeZmqId [] ++ body), {| identities := []; base := m |}.
  unfold deserialize. rewrite deserializeZmqId_serialize by apply not_elem_of_nil. by rewrite Hm.
Qed.

Lemma deserialize_authentic_witness : exists wire msg tail,
  deserialize (Ossl := Stub.stub) wire example_auth false = Ok msg /\ wire = identities msg ++ DELIMITER :: tail.
Proof.
  destruct example_received as (wire & msg & Hd). exists wire, msg.
  destruct (deserialize_authentic (OL := Stub.stub_laws) wire "SHA256"%string "key"%string false msg Hd)
    as (rest & h & p & m & c & Hw & _).
  eexists. split; [exact Hd | exact Hw].
Defined.

(** A fraction of a second is written without its leading zeros: five
    microseconds past the second read as half a second. *)
Example iso8601Now_fraction :
  iso8601Now "2024-01-01T00:00:00"%string 5 = "2024-01-01T00:00:00.5Z"%string
  /\ iso8601Now "2024-01-01T00:00:00"%string 500000 = "2024-01-01T00:00:00.500000Z"%string.
Proof. split; reflexivity. Qed.

(** A signature frame shorter than the expected signature is read past its
    end. *)
Example verify_reads_past_the_end :
  verify (Ossl := Stub.stub) example_auth "ab"%string [] = None.
Proof. reflexivity. Qed.

(** A content frame that is not JSON: an error object when it was deferred, a
    discarded value when it was not. *)
Lemma malformed_content `{JsonLaws} m : is_discarded (parse (m_contentText m)) = true -> m_contentDeferred m = true ->
  find (fst (content m)) "error"%string = Some (mk_str "JSON parse error: the message's content is not JSON"%string)
  /\ is_discarded (parseZmqMessage (m_contentText m)) = true.
Proof.
  intros Hd Hc. split; [| done]. unfold content. rewrite Hc. cbn. rewrite Hd.
  rewrite find_insert by (left; apply type_object). by rewrite decide_True.
Qed.

End WireWitness.
