(* ===== verification/Registration.v ===== *)
(** * How a kernel and its supervisor find each other

    Configurations and their file (core/kernel/kernel_configuration.cpp), end
    points and free ports (transport/common/middleware.cpp), what the supervisor
    writes for a kernel it starts (themisto/session_registry.cpp), and the
    registration: the kernel's half (transport/server/handshaking.cpp) and the
    supervisor's (transport/client/client_handshake_zmq.cpp).  A router socket
    puts the sender's identity before the frames it receives and takes it off
    the frames it sends.  Time is in milliseconds. *)

From Stdlib Require Import Ascii ZArith Lia.
From stdpp Require Import pretty.
From S2P Require Import Prelude Utf8 Crypto Json Wire.
Local Open Scope Z_scope.

(** ** Configurations *)
Record CommonConfiguration := {
  m_transport : str;
  m_ip : str;
  m_signatureScheme : str;
  m_key : str
}.

Record KernelConfiguration := {
  kernel_common : CommonConfiguration;
  m_kernelId : str;
  m_controlPort : str;
  m_shellPort : str;
  m_stdinPort : str;
  m_iopubPort : str;
  m_hbPort : str
}.

Record RegistrationConfiguration := {
  registration_common : CommonConfiguration;
  r_kernelId : str;
  m_registrationIp : str;
  m_registrationPort : str
}.

Inductive configuration :=
| IsKernel (c : KernelConfiguration)
| IsRegistration (c : RegistrationConfiguration).

(** The members' initialisers. *)
Definition newCommonConfiguration (key : str) : CommonConfiguration :=
  {| m_transport := "tcp"%string; m_ip := "127.0.0.1"%string; m_signatureScheme := "hmac-sha256"%string; m_key := key |}.

Definition newKernelConfiguration (common : CommonConfiguration) : KernelConfiguration :=
  {| kernel_common := common; m_kernelId := []; m_controlPort := []; m_shellPort := []; m_stdinPort := [];
     m_iopubPort := []; m_hbPort := [] |}.

(** [getKernelConfiguration] of handshaking.cpp. *)
Definition getKernelConfiguration (config : configuration) : KernelConfiguration :=
  match config with
  | IsKernel c => c
  | IsRegistration c => newKernelConfiguration (registration_common c)
  end.

Section ConfigurationFile.
Context `{J : JsonLib}.

(** [doc[key]] of a const json: no such member is undefined. *)
Definition member (doc : json) (key : str) : result json :=
  if negb (is_object doc) then Throw type_error_305
  else match find doc key with Some v => Ok v | None => Undefined end.

Definition string_member (doc : json) (key : str) : result str :=
  let? v := member doc key in get get_str v.

(** [std::to_string(doc[key].get<int>())] *)
Definition port_member (doc : json) (key : str) : result str :=
  let? v := member doc key in
  let? n := get get_int v in
  Ok (to_string (wrap_int n)).

Definition loadCommonConfiguration (doc : json) : result CommonConfiguration :=
  let? transport := string_member doc "transport"%string in
  let? ip := string_member doc "ip"%string in
  let? scheme := value get_str doc "signature_scheme"%string [] in
  let? key := if str_eqb scheme [] then Ok [] else string_member doc "key"%string in
  Ok {| m_transport := transport; m_ip := ip; m_signatureScheme := scheme; m_key := key |}.

Definition loadKernelConfiguration (doc : json) : result KernelConfiguration :=
  let? common := loadCommonConfiguration doc in
  let? control := port_member doc "control_port"%string in
  let? shell := port_member doc "shell_port"%string in
  let? stdin := port_member doc "stdin_port"%string in
  let? iopub := port_member doc "iopub_port"%string in
  let? hb := port_member doc "hb_port"%string in
  Ok {| kernel_common := common; m_kernelId := []; m_controlPort := control; m_shellPort := shell;
        m_stdinPort := stdin; m_iopubPort := iopub; m_hbPort := hb |}.

Definition loadRegistrationConfiguration (doc : json) : result RegistrationConfiguration :=
  let? common := loadCommonConfiguration doc in
  let? kernel_id := string_member doc "kernel_id"%string in
  let? ip := string_member doc "registration_ip"%string in
  let? port := string_member doc "registration_port"%string in
  Ok {| registration_common := common; r_kernelId := kernel_id; m_registrationIp := ip; m_registrationPort := port |}.

(** From the text of the file. *)
Definition loadConfiguration (file : str) : result configuration :=
  let? doc := parse_strict file in
  let? registration_ip := value get_str doc "registration_ip"%string [] in
  if negb (str_eqb registration_ip []) then
    let? c := loadRegistrationConfiguration doc in Ok (IsRegistration c)
  else
    let? c := loadKernelConfiguration doc in Ok (IsKernel c).

End ConfigurationFile.

(** ** End points and ports *)
Definition getEndPoint (transport ip port : str) : str :=
  let sep : byte := if str_eqb transport "tcp"%string then ":"%char else "-"%char in
  transport ++ "://"%string ++ ip ++ sep :: port.

(** What follows the last colon of the end point a socket is bound to. *)
Definition getSocketPort (end_point : str) : str :=
  List.last (split_all ":"%char end_point) [].

(** The draws of the random engine, each with whether the bind succeeds.  The
    condition of the loop counts the attempt before it binds. *)
Fixpoint findFreePort_from (max_tries tries : nat) (draws : list (Z * bool)) : option str :=
  match draws with
  | [] => None
  | (n, bound) :: draws =>
      let rd_port := to_string n in
      let tries := S tries in
      if (tries <=? max_tries)%nat && negb bound then findFreePort_from max_tries tries draws
      else Some (if (max_tries <? tries)%nat then [] else rd_port)
  end.

Definition findFreePortImpl (max_tries : nat) (draws : list (Z * bool)) : option str :=
  findFreePort_from max_tries 0 draws.

(** ** What the supervisor writes for a kernel that is to dial it or be dialled *)
Section Launch.
Context `{J : JsonLib}.

(** [std::stoi]: blanks, a sign, digits up to the first other character. *)
Definition isspace (c : byte) : bool := (code c =? 32) || ((9 <=? code c) && (code c <=? 13)).

Definition digit (c : byte) : option Z :=
  if (48 <=? code c) && (code c <=? 57) then Some (code c - 48) else None.

Fixpoint skip_blanks (s : str) : str :=
  match s with c :: rest => if isspace c then skip_blanks rest else s | [] => [] end.

Fixpoint digits_value (acc : Z) (s : str) : Z :=
  match s with
  | c :: s => match digit c with Some d => digits_value (10 * acc + d) s | None => acc end
  | [] => acc
  end.

Definition sign_of (s : str) : Z * str :=
  match s with
  | c :: rest => if char_eqb c "-"%char then (-1, rest) else if char_eqb c "+"%char then (1, rest) else (1, s)
  | [] => (1, [])
  end.

Definition stoi (s : str) : result Z :=
  let (sgn, s) := sign_of (skip_blanks s) in
  match s with
  | c :: _ =>
      if bool_decide (digit c = None) then Throw "stoi"%string
      else let n := sgn * digits_value 0 s in
           if (- 2 ^ 31 <=? n) && (n <? 2 ^ 31) then Ok n else Throw "stoi"%string
  | [] => Throw "stoi"%string
  end.

(** [freePort]: the first of the ports found that was not given out yet. *)
Fixpoint freePort (taken : list str) (found : list str) : option (str * list str * list str) :=
  match found with
  | [] => None
  | port :: found => if bool_decide (port ∈ taken) then freePort taken found else Some (port, port :: taken, found)
  end.

Definition kernel_ports (found : list str) : option (str * str * str * str * str) :=
  '(shell, taken, found) ← freePort [] found;
  '(iopub, taken, found) ← freePort taken found;
  '(stdin, taken, found) ← freePort taken found;
  '(control, taken, found) ← freePort taken found;
  '(hb, _, _) ← freePort taken found;
  Some (shell, iopub, stdin, control, hb).

Definition jupyter_configuration (key : str) (ports : str * str * str * str * str) : KernelConfiguration :=
  let '(shell, iopub, stdin, control, hb) := ports in
  {| kernel_common := newCommonConfiguration key; m_kernelId := []; m_controlPort := control; m_shellPort := shell;
     m_stdinPort := stdin; m_iopubPort := iopub; m_hbPort := hb |}.

Definition connection_members (config : KernelConfiguration) : result (list (str * json)) :=
  let common := kernel_common config in
  let? shell := stoi (m_shellPort config) in
  let? iopub := stoi (m_iopubPort config) in
  let? stdin := stoi (m_stdinPort config) in
  let? control := stoi (m_controlPort config) in
  let? hb := stoi (m_hbPort config) in
  Ok [("transport"%string : str, mk_str (m_transport common)); ("ip"%string : str, mk_str (m_ip common));
      ("key"%string : str, mk_str (m_key common)); ("signature_scheme"%string : str, mk_str (m_signatureScheme common));
      ("shell_port"%string : str, mk_int shell); ("iopub_port"%string : str, mk_int iopub);
      ("stdin_port"%string : str, mk_int stdin); ("control_port"%string : str, mk_int control);
      ("hb_port"%string : str, mk_int hb)].

Definition connection_file (config : KernelConfiguration) : result str :=
  let? members := connection_members config in dump Strict (mk_object members).

Definition quote : byte := "034"%char.
Definition placeholder : str := "{connection_file}"%string.

(** Every placeholder, from left to right, what was put in left alone.  The
    fuel is the length of the argument. *)
Fixpoint replace_placeholder (fuel : nat) (path arg : str) : str :=
  match fuel, arg with
  | S fuel, c :: rest =>
      if starts_with placeholder arg then path ++ replace_placeholder fuel path (drop (length placeholder) arg)
      else c :: replace_placeholder fuel path rest
  | _, _ => arg
  end.

Definition jupyter_arguments (path : str) (kernelArgv : list str) : result (list str) :=
  match (fun arg => replace_placeholder (length arg) path arg) <$> tail kernelArgv with
  | [] => Throw ("the kernel's command has no arguments: it needs "%string ++ quote :: placeholder
                 ++ quote :: " to know its ports"%string)
  | args => Ok args
  end.

(** The start of a kernel from its kernel.json: its configuration, the text
    of its connection file, its arguments. *)
Definition startJupyterKernel (key path : str) (found : list str) (kernelArgv : list str)
    : option (result (KernelConfiguration * str * list str)) :=
  ports ← kernel_ports found;
  let config := jupyter_configuration key ports in
  Some (let? file := connection_file config in
        let? args := jupyter_arguments path kernelArgv in
        Ok (config, file, args)).

(** The registration file of Ark. *)
Definition ark_registration_file (ip key port : str) : result str :=
  let? n := stoi port in
  dump Strict (mk_object
    [("transport"%string : str, mk_str "tcp"%string); ("signature_scheme"%string : str, mk_str "hmac-sha256"%string);
     ("ip"%string : str, mk_str ip); ("key"%string : str, mk_str key); ("registration_port"%string : str, mk_int n)]).

End Launch.

(** ** The registration *)
Section Registration.
Context `{J : JsonLib} `{Ossl : OpenSSL}.

(** What the kernel sends; [handler] is the kernel's error handler. *)
Definition registration_content (regis : RegistrationConfiguration) (config : KernelConfiguration) : json :=
  mk_object
    [("kernel_id"%string : str, mk_str (r_kernelId regis)); ("control_port"%string : str, mk_str (m_controlPort config));
     ("shell_port"%string : str, mk_str (m_shellPort config)); ("stdin_port"%string : str, mk_str (m_stdinPort config));
     ("iopub_port"%string : str, mk_str (m_iopubPort config)); ("hb_port"%string : str, mk_str (m_hbPort config))].

Definition connectionInfo (regis : RegistrationConfiguration) (config : KernelConfiguration) (auth : Authentication)
    (handler : error_handler) : result frames :=
  let? buffer := dump handler (registration_content regis config) in
  Ok (serializeZmqId [] ++ [sign auth [buffer]; buffer]).

Definition rejected : str := "REJECTED "%string.

(** What the kernel makes of the answer; [None]: there was none within 5 s. *)
Definition readAnswer (auth : Authentication) (rep : option frames) : result unit :=
  match rep with
  | None => Throw "The supervisor did not answer this kernel's registration within 5 s"%string
  | Some rep =>
      let? (_, rep) := deserializeZmqId rep in
      match rep with
      | rep_sig :: rep_content :: _ =>
          match verify auth rep_sig [rep_content] with
          | None => Undefined
          | Some false => Throw "The supervisor's answer to this kernel's registration is not signed with its key"%string
          | Some true =>
              if str_eqb rep_content "ACK"%string then Ok tt
              else Throw ("The supervisor refused this kernel's registration: "%string
                          ++ (if starts_with rejected rep_content then drop 9 rep_content else rep_content))
          end
      | _ => Throw "The supervisor's answer to this kernel's registration is not one"%string
      end
  end.

(** [sendConnectionInfo]: the frames sent, and what the kernel's start does
    with the answer to them. *)
Definition sendConnectionInfo (regis : RegistrationConfiguration) (config : KernelConfiguration) (auth : Authentication)
    (handler : error_handler) (answer : frames -> option frames) : list frames * result unit :=
  match connectionInfo regis config auth handler with
  | Ok wire => ([wire], readAnswer auth (answer wire))
  | Throw w => ([], Throw w)
  | Undefined => ([], Undefined)
  end.

(** *** The supervisor's half *)

(** What the listener does besides returning: it sends, and it logs. *)
Inductive Effect :=
| Sent (wire : frames)
| Logged (text : str).

Definition answerShortForm (auth : Authentication) (routing_ids : list str) (text : str) : list Effect :=
  [Sent (serializeZmqId routing_ids ++ [sign auth [text]; text])].

(** The frames after the first delimiter. *)
Fixpoint after_delimiter (wire : frames) : option frames :=
  match wire with
  | [] => None
  | f :: rest => if isDelimiter f then Some rest else after_delimiter rest
  end.

Definition out_of_range_403 : str := "[json.exception.out_of_range.403]"%string.
Definition type_error_304 : str := "[json.exception.type_error.304]"%string.

(** [content.at(name)] *)
Definition at_key (j : json) (name : str) : result json :=
  if negb (is_object j) then Throw type_error_304
  else match find j name with Some v => Ok v | None => Throw out_of_range_403 end.

Definition jep66_port (content : json) (name : str) : result str :=
  let? value := at_key content name in
  if is_string value then get get_str value else let? n := get get_int value in Ok (to_string n).

(** What every configuration of the listener has: its key. *)
Definition registered (key kernel_id control shell stdin iopub hb : str) : KernelConfiguration :=
  {| kernel_common := newCommonConfiguration key; m_kernelId := kernel_id; m_controlPort := control;
     m_shellPort := shell; m_stdinPort := stdin; m_iopubPort := iopub; m_hbPort := hb |}.

Definition jep66_configuration (key : str) (content : json) : result KernelConfiguration :=
  let? control := jep66_port content "control_port"%string in
  let? shell := jep66_port content "shell_port"%string in
  let? stdin := jep66_port content "stdin_port"%string in
  let? iopub := jep66_port content "iopub_port"%string in
  let? hb := jep66_port content "hb_port"%string in
  Ok (registered key [] control shell stdin iopub hb).

(** [msg_id] and [date]: those of the reply's header. *)
Definition jep66_reply (auth : Authentication) (msg_id date : str) (request : Message) : result frames :=
  let? session := value get_str (m_header (base request)) "session"%string [] in
  serialize
    {| identities := identities request;
       base := makeMessageBase (makeHeader msg_id date "handshake_reply"%string "themisto"%string session)
                 (m_header (base request)) empty_object
                 (mk_object [("status"%string : str, mk_str "ok"%string)]) [] |} auth Replace.

Definition readJep66Handshake (auth : Authentication) (key msg_id date : str) (wire_msg : frames)
    : result (option (frames * KernelConfiguration)) :=
  match after_delimiter wire_msg with
  | None => Ok None
  | Some after =>
      if (length after <? 5)%nat then Ok None
      else match deserialize wire_msg auth false with
           | Undefined => Undefined
           | Throw what => Throw ("Rejected a kernel's handshake: "%string ++ what)
           | Ok request =>
               let? msg_type := value get_str (m_header (base request)) "msg_type"%string [] in
               if negb (str_eqb msg_type "handshake_request"%string) then Ok None
               else
                 let? config := jep66_configuration key (fst (content (base request))) in
                 let? wire_reply := jep66_reply auth msg_id date request in
                 Ok (Some (wire_reply, config))
           end
  end.

(** [j[name].get<std::string>()] of a json that is not const: no such member
    is a null, which is not a string. *)
Definition short_port (j : json) (name : str) : result str :=
  match find j name with Some v => get get_str v | None => Throw type_error_302 end.

Definition short_configuration (key : str) (j : json) : result KernelConfiguration :=
  let? kernel_id := value get_str j "kernel_id"%string [] in
  let? control := short_port j "control_port"%string in
  let? shell := short_port j "shell_port"%string in
  let? stdin := short_port j "stdin_port"%string in
  let? iopub := short_port j "iopub_port"%string in
  let? hb := short_port j "hb_port"%string in
  Ok (registered key kernel_id control shell stdin iopub hb).

(** Why a short registration is refused ([]: it is not), and its content.  A
    text that [parse(text)] throws on is what [parse(text, nullptr, false)]
    gives a discarded value for. *)
Definition refusal (auth : Authentication) (expectedKernelId : str) (signature content : frame) : result (str * json) :=
  match verify auth signature [content] with
  | None => Undefined
  | Some false => Ok ("not signed with this supervisor's key"%string : str, null)
  | Some true =>
      match parse_strict content with
      | Ok j =>
          if negb (is_object j) then Ok ("not a JSON object"%string : str, j)
          else if str_eqb expectedKernelId [] then Ok ([], j)
          else
            let? kernel_id := value get_str j "kernel_id"%string [] in
            if str_eqb kernel_id expectedKernelId then Ok ([], j)
            else Ok ("another kernel's ("%string ++ kernel_id ++ ", not "%string ++ expectedKernelId ++ ")"%string, j)
      | _ => Ok ("not a JSON object"%string : str, null)
      end
  end.

Definition logged (text : str) : Effect := Logged ("Refused a kernel registration: "%string ++ text).

(** One turn of the listener's loop, on the message it received: the
    configuration it returns, or [None] when the wait goes on. *)
Definition handleRegistration (auth : Authentication) (key expectedKernelId msg_id date : str) (wire_msg : frames)
    : list Effect * result (option KernelConfiguration) :=
  match readJep66Handshake auth key msg_id date wire_msg with
  | Throw w => ([], Throw w)
  | Undefined => ([], Undefined)
  | Ok (Some (wire_reply, config)) => ([Sent wire_reply], Ok (Some config))
  | Ok None =>
      match deserializeZmqId wire_msg with
      | Throw w => ([], Throw w)
      | Undefined => ([], Undefined)
      | Ok (routing_ids, signature :: content :: _) =>
          match refusal auth expectedKernelId signature content with
          | Throw w => ([], Throw w)
          | Undefined => ([], Undefined)
          | Ok ([], j) =>
              match short_configuration key j with
              | Ok config => (answerShortForm auth routing_ids "ACK"%string, Ok (Some config))
              | Throw w => ([], Throw w)
              | Undefined => ([], Undefined)
              end
          | Ok (refused, _) => (logged refused :: answerShortForm auth routing_ids (rejected ++ refused), Ok None)
          end
      | Ok _ => ([logged "not a registration message"%string], Ok None)
      end
  end.

(** A return of [recv], at most [kPollIntervalMs] after its call: a message or
    nothing, the time, and what [shouldAbort] says then. *)
Record Turn := { got : option frames; at_ms : Z; gone : bool }.

Definition kRegistrationTimeoutMs : Z := 60000.

Definition exited_text : str :=
  "Kernel process exited before it could register -- check its stderr output for the actual error."%string.

Definition timeout_text : str :=
  "Did not receive kernel configuration within "%string ++ to_string (Z.quot kRegistrationTimeoutMs 1000)
  ++ "s -- the kernel process is still running but never registered. Check its stderr output for what it's doing."%string.

(** [receive]: the message with the time and the turns that are left; [None]
    while it waits. *)
Fixpoint receive_until (deadline : Z) (turns : list Turn) : option (result (frames * Z * list Turn)) :=
  match turns with
  | [] => None
  | t :: rest =>
      match got t with
      | Some wire => Some (Ok (wire, at_ms t, rest))
      | None => if gone t then Some (Throw exited_text)
                else if deadline <=? at_ms t then Some (Throw timeout_text)
                else receive_until deadline rest
      end
  end.

Definition receive (now : Z) (turns : list Turn) := receive_until (now + kRegistrationTimeoutMs) turns.

Inductive Outcome :=
| Waiting
| Failed (what : str)
| Crashed
| Configured (config : KernelConfiguration).

(** Every iteration takes a turn, so their number is enough fuel. *)
Fixpoint wait_from (fuel : nat) (auth : Authentication) (key expectedKernelId msg_id date : str) (now : Z)
    (turns : list Turn) : list Effect * Outcome :=
  match fuel with
  | O => ([], Waiting)
  | S fuel =>
      match receive now turns with
      | None => ([], Waiting)
      | Some (Throw w) => ([], Failed w)
      | Some Undefined => ([], Crashed)
      | Some (Ok (wire_msg, now, turns)) =>
          let (effects, outcome) := handleRegistration auth key expectedKernelId msg_id date wire_msg in
          match outcome with
          | Ok (Some config) => (effects, Configured config)
          | Throw w => (effects, Failed w)
          | Undefined => (effects, Crashed)
          | Ok None =>
              let (more, outcome) := wait_from fuel auth key expectedKernelId msg_id date now turns in
              (effects ++ more, outcome)
          end
      end
  end.

Definition waitForConfiguration (auth : Authentication) (key expectedKernelId msg_id date : str) (now : Z)
    (turns : list Turn) : list Effect * Outcome :=
  wait_from (S (length turns)) auth key expectedKernelId msg_id date now turns.

End Registration.

(** ** What the two halves promise *)
Section Agreement.
Context `{JL : JsonLaws} `{OL : OpenSSLLaws}.

Lemma registration_id regis config :
  value get_str (registration_content regis config) "kernel_id"%string [] = Ok (r_kernelId regis).
Proof.
  apply (value_found _ _ _ (mk_str (r_kernelId regis))); [| apply get_str_mk].
  unfold registration_content. by find_member.
Qed.

Lemma after_delimiter_short (id : str) rest : DELIMITER <> id -> after_delimiter (id :: DELIMITER :: rest) = Some rest.
Proof. intros H. cbn [after_delimiter]. rewrite isDelimiter_other by done. by rewrite isDelimiter_refl. Qed.

Lemma registered_content regis config key :
  short_configuration key (registration_content regis config)
  = Ok (registered key (r_kernelId regis) (m_controlPort config) (m_shellPort config) (m_stdinPort config)
          (m_iopubPort config) (m_hbPort config)).
Proof.
  unfold short_configuration. rewrite registration_id. unfold registration_content, short_port, get.
  find_member. by rewrite !get_str_mk.
Qed.

Lemma registration_is_object regis config :
  negb (is_object (registration_content regis config)) = false.
Proof. unfold is_object, is_type, registration_content. rewrite type_object. by rewrite bool_decide_eq_true_2. Qed.

(** A signed answer, as its receiver reads it. *)
Lemma readAnswer_signed auth text :
  readAnswer auth (Some (serializeZmqId [] ++ [sign auth [text]; text]))
  = if str_eqb text "ACK"%string then Ok tt
    else Throw ("The supervisor refused this kernel's registration: "%string
                ++ (if starts_with rejected text then drop 9 text else text)).
Proof.
  cbn [readAnswer]. rewrite (deserializeZmqId_serialize [] [sign auth [text]; text]) by apply not_elem_of_nil.
  by rewrite verify_signed.
Qed.

Lemma readAnswer_rejected auth text :
  readAnswer auth (Some (serializeZmqId [] ++ [sign auth [rejected ++ text]; rejected ++ text]))
  = Throw ("The supervisor refused this kernel's registration: "%string ++ text).
Proof. rewrite readAnswer_signed. by rewrite starts_with_app. Qed.

Lemma not_elem_of_one {A} (x y : A) : x <> y -> x ∉ [y].
Proof. intros H. by rewrite list_elem_of_singleton. Qed.

(** The answer as the router sends it: without its first frame. *)
Definition delivered (effects : list Effect) : list (str * frames) :=
  omap (fun e => match e with Sent (id :: wire) => Some (id, wire) | _ => None end) effects.

Definition another_kernels (kernel_id expected : str) : str :=
  "another kernel's ("%string ++ kernel_id ++ ", not "%string ++ expected ++ ")"%string.

(** The listener, on what a kernel sends. *)
Lemma handle_connectionInfo auth key regis config expected msg_id date id buffer :
  parse_strict buffer = Ok (registration_content regis config) -> id <> DELIMITER ->
  handleRegistration auth key expected msg_id date (id :: serializeZmqId [] ++ [sign auth [buffer]; buffer])
  = if decide (expected = [] \/ expected = r_kernelId regis)
    then (answerShortForm auth [id] "ACK"%string,
          Ok (Some (registered key (r_kernelId regis) (m_controlPort config) (m_shellPort config) (m_stdinPort config)
                      (m_iopubPort config) (m_hbPort config))))
    else (logged (another_kernels (r_kernelId regis) expected)
            :: answerShortForm auth [id] (rejected ++ another_kernels (r_kernelId regis) expected), Ok None).
Proof.
  intros Hparse Hid. unfold handleRegistration.
  assert (readJep66Handshake auth key msg_id date (id :: serializeZmqId [] ++ [sign auth [buffer]; buffer]) = Ok None) as ->.
  { unfold readJep66Handshake. cbn [serializeZmqId app]. by rewrite after_delimiter_short. }
  change (id :: serializeZmqId [] ++ ?l) with (serializeZmqId [id] ++ l).
  rewrite deserializeZmqId_serialize by (apply not_elem_of_one; congruence).
  unfold refusal. rewrite verify_signed, Hparse, registration_is_object.
  rewrite registration_id.
  destruct (str_eqb expected []) eqn:E1.
  - apply str_eqb_eq in E1 as ->. rewrite decide_True by tauto. by rewrite registered_content.
  - destruct (str_eqb (r_kernelId regis) expected) eqn:E2.
    + apply str_eqb_eq in E2 as <-. rewrite decide_True by tauto. by rewrite registered_content.
    + rewrite decide_False; [done |]. intros [H | H].
      * by rewrite H in E1.
      * by rewrite <- H, str_eqb_refl in E2.
Qed.

(** The two halves of the registration. *)
Lemma registration_agrees hashName key regis config handler expected msg_id date id :
  storable (registration_content regis config) -> id <> DELIMITER ->
  let auth := OpensslAuthentication hashName key in
  exists wire answer effects outcome,
    sendConnectionInfo regis config auth handler (fun _ => Some answer) = ([wire], readAnswer auth (Some answer))
    /\ handleRegistration auth key expected msg_id date (id :: wire) = (effects, outcome)
    /\ delivered effects = [(id, answer)]
    /\ (expected = [] \/ expected = r_kernelId regis ->
        outcome = Ok (Some (registered key (r_kernelId regis) (m_controlPort config) (m_shellPort config)
                              (m_stdinPort config) (m_iopubPort config) (m_hbPort config)))
        /\ readAnswer auth (Some answer) = Ok tt)
    /\ (expected <> [] -> expected <> r_kernelId regis ->
        outcome = Ok None
        /\ readAnswer auth (Some answer)
           = Throw ("The supervisor refused this kernel's registration: "%string
                    ++ another_kernels (r_kernelId regis) expected)).
Proof.
  intros Hst Hid auth. destruct (parse_dump handler _ Hst) as (buffer & Hdump & _).
  pose proof (parse_strict_dump handler _ _ Hst Hdump) as Hparse.
  unfold sendConnectionInfo, connectionInfo. rewrite Hdump.
  pose proof (handle_connectionInfo auth key regis config expected msg_id date id buffer Hparse Hid) as Hhandle.
  set (signed := fun text => serializeZmqId [] ++ [sign auth [text]; text]).
  destruct (decide _) as [Hexp | Hexp].
  - exists (signed buffer), (signed "ACK"%string). do 2 eexists. split; [done |]. split; [exact Hhandle |].
    split; [done |]. split; [intros _; split; [done | apply readAnswer_signed] | tauto].
  - exists (signed buffer), (signed (rejected ++ another_kernels (r_kernelId regis) expected)). do 2 eexists.
    split; [done |]. split; [exact Hhandle |]. split; [done |]. split; [tauto |].
    intros _ _. split; [done | apply readAnswer_rejected].
Qed.

(** The two halves of the registration agree.  The message a kernel sends
    is answered, whatever identity [id] its socket has, by one signed frame.
    When the supervisor waits for this kernel (or for any), it returns the
    kernel's id and ports with the key, and the kernel's start goes on; when it
    waits for another one, it goes on waiting, and the kernel's start fails,
    saying why. *)
Theorem registration_agreement hashName key regis config handler expected msg_id date id :
  storable (registration_content regis config) -> id <> DELIMITER ->
  let auth := OpensslAuthentication hashName key in
  exists wire answer effects outcome,
    sendConnectionInfo regis config auth handler (fun _ => Some answer) = ([wire], readAnswer auth (Some answer))
    /\ handleRegistration auth key expected msg_id date (id :: wire) = (effects, outcome)
    /\ delivered effects = [(id, answer)]
    /\ (expected = [] \/ expected = r_kernelId regis ->
        outcome = Ok (Some (registered key (r_kernelId regis) (m_controlPort config) (m_shellPort config)
                              (m_stdinPort config) (m_iopubPort config) (m_hbPort config)))
        /\ readAnswer auth (Some answer) = Ok tt)
    /\ (expected <> [] -> expected <> r_kernelId regis ->
        outcome = Ok None
        /\ readAnswer auth (Some answer)
           = Throw ("The supervisor refused this kernel's registration: "%string
                    ++ another_kernels (r_kernelId regis) expected)).
Proof. apply registration_agrees. Qed.

End Agreement.

(** ** The wait for a registration *)
Section Wait.
Context `{J : JsonLib} `{OL : OpenSSLLaws}.
Variables hashName key expected msg_id date : str.

Definition listener : Authentication := OpensslAuthentication hashName key.

Definition handled (wire : frames) : list Effect * result (option KernelConfiguration) :=
  handleRegistration listener key expected msg_id date wire.

(** The frames a configuration may come from: both forms have a signature
    under the listener's key of everything that is read. *)
Inductive registered_by (wire : frames) (config : KernelConfiguration) : Prop :=
| by_short ids rest content_ more j :
    wire = ids ++ DELIMITER :: (computeHexSignature hashName key [content_] ++ rest) :: content_ :: more ->
    DELIMITER ∉ ids -> parse_strict content_ = Ok j -> is_object j = true ->
    short_configuration key j = Ok config ->
    (expected <> [] -> m_kernelId config = expected) -> registered_by wire config
| by_jep66 request :
    deserialize wire listener false = Ok request ->
    value get_str (m_header (base request)) "msg_type"%string [] = Ok ("handshake_request"%string : str) ->
    jep66_configuration key (fst (content (base request))) = Ok config -> registered_by wire config.

(** A message that leaves the listener waiting: its sender is told why, or it
    was not a registration at all. *)
Inductive refused_with : list Effect -> Prop :=
| refused_told ids reason : refused_with (logged reason :: answerShortForm listener ids (rejected ++ reason))
| refused_unread : refused_with [logged "not a registration message"%string].

(** The turns after which the listener still waits, and until when. *)
Fixpoint patient (deadline : Z) (turns : list Turn) : option Z :=
  match turns with
  | [] => Some deadline
  | t :: rest =>
      match got t with
      | Some wire => match snd (handled wire) with
                     | Ok None => patient (at_ms t + kRegistrationTimeoutMs) rest
                     | _ => None
                     end
      | None => if gone t || (deadline <=? at_ms t) then None else patient deadline rest
      end
  end.

Definition messages (turns : list Turn) : list frames := omap got turns.
Definition answers (turns : list Turn) : list Effect := messages turns ≫= fun wire => fst (handled wire).

(** The turn that ends the wait. *)
Inductive decides (deadline : Z) (t : Turn) : list Effect -> Outcome -> Prop :=
| decides_gone : got t = None -> gone t = true -> decides deadline t [] (Failed exited_text)
| decides_late : got t = None -> gone t = false -> deadline <= at_ms t -> decides deadline t [] (Failed timeout_text)
| decides_throw wire effects what :
    got t = Some wire -> handled wire = (effects, Throw what) -> decides deadline t effects (Failed what)
| decides_undefined wire effects :
    got t = Some wire -> handled wire = (effects, Undefined) -> decides deadline t effects Crashed
| decides_configured wire effects config :
    got t = Some wire -> handled wire = (effects, Ok (Some config)) -> registered_by wire config ->
    decides deadline t effects (Configured config).

Lemma readJep66_some wire reply config :
  readJep66Handshake listener key msg_id date wire = Ok (Some (reply, config)) -> registered_by wire config.
Proof.
  unfold readJep66Handshake. destruct (after_delimiter wire) as [after|]; [| done].
  destruct (_ <? 5)%nat; [done |]. destruct (deserialize wire listener false) as [request| |] eqn:Hd; [| done | done].
  destruct (value get_str (m_header (base request)) "msg_type"%string []) as [msg_type| |] eqn:Ht; [| done | done].
  destruct (str_eqb msg_type _) eqn:E; [| done]. apply str_eqb_eq in E as ->. cbn [negb].
  destruct (jep66_configuration key _) as [c| |] eqn:Hc; [| done | done].
  destruct (jep66_reply _ _ _ _); [| done | done]. intros [= _ <-]. by eapply by_jep66.
Qed.

(** The cases of a refusal. *)
Lemma refusal_spec signature content_ refused j : refusal listener expected signature content_ = Ok (refused, j) ->
  refused <> []
  \/ (refused = [] /\ verify listener signature [content_] = Some true /\ parse_strict content_ = Ok j
      /\ is_object j = true /\ (expected <> [] -> value get_str j "kernel_id"%string [] = Ok expected)).
Proof.
  unfold refusal. destruct (verify listener signature [content_]) as [[|]|] eqn:Hv; [| intros [= <- _]; by left | done].
  destruct (parse_strict content_) as [j0| |] eqn:Hp; [| intros [= <- _]; by left..].
  destruct (negb (is_object j0)) eqn:Ho; [intros [= <- _]; by left |]. apply negb_false_iff in Ho.
  destruct (str_eqb expected []) eqn:E; [apply str_eqb_eq in E as ->; intros [= <- <-]; right; tauto |].
  destruct (value get_str j0 "kernel_id"%string []) as [kid| |] eqn:Hk; [| done | done].
  destruct (str_eqb kid expected) eqn:E2; [| intros [= <- _]; by left].
  apply str_eqb_eq in E2 as ->. intros [= <- <-]. right. auto.
Qed.

Lemma short_configuration_id j config kid :
  short_configuration key j = Ok config -> value get_str j "kernel_id"%string [] = Ok kid -> m_kernelId config = kid.
Proof.
  unfold short_configuration. intros H Hk. rewrite Hk in H.
  repeat match type of H with (let? _ := ?e in _) = _ => destruct e; try done end. by injection H as <-.
Qed.

Lemma handled_spec wire effects outcome : handled wire = (effects, Ok outcome) ->
  match outcome with None => refused_with effects | Some config => registered_by wire config end.
Proof.
  unfold handled, handleRegistration.
  destruct (readJep66Handshake listener key msg_id date wire) as [[[reply c]|]| |] eqn:Hj; [| | done | done].
  { intros [= <- <-]. by eapply readJep66_some. }
  destruct wire as [|f wire]; [done |]. cbn [deserializeZmqId].
  destruct (deserializeZmqId_from f [] wire) as [[ids body]| |] eqn:Hid; [| done | done].
  destruct (deserializeZmqId_inv _ _ _ _ _ Hid) as (more & Hids & Hwire & Hn). cbn in Hids. subst more.
  destruct body as [|signature [|content_ tail]]; [intros [= <- <-]; constructor.. |].
  destruct (refusal listener expected signature content_) as [[refused j]| |] eqn:Hr; [| done | done].
  destruct (refusal_spec _ _ _ _ Hr) as [Hne | (-> & Hv & Hp & Ho & Hexp)].
  { destruct refused as [|c refused]; [done |]. intros [= <- <-]. constructor. }
  destruct (short_configuration key j) as [c| |] eqn:Hc; [| done | done].
  intros [= <- <-]. destruct (verify_sign _ _ _ Hv) as (rest & ->).
  apply (by_short _ _ ids rest content_ tail j); [exact Hwire | done | done | done | done |].
  intros Hne. by apply (short_configuration_id j); [| apply Hexp].
Qed.

Lemma receive_until_shorter deadline turns wire at_ rest :
  receive_until deadline turns = Some (Ok (wire, at_, rest)) -> (length rest < length turns)%nat.
Proof.
  induction turns as [|t turns IH]; [done |]. cbn [receive_until length].
  destruct (got t); [intros [= _ _ <-]; lia |]. destruct (gone t), (deadline <=? at_ms t); try done. intros H%IH. lia.
Qed.

(** What a run of the listener is, from the deadline of its [receive]. *)
Definition waits (deadline : Z) (turns : list Turn) (effects : list Effect) (outcome : Outcome) : Prop :=
  exists before after deadline' last,
    turns = before ++ after /\ patient deadline before = Some deadline' /\ effects = answers before ++ last
    /\ Forall (fun wire => refused_with (fst (handled wire))) (messages before)
    /\ match after with
       | [] => last = [] /\ outcome = Waiting
       | t :: _ => decides deadline' t last outcome
       end.

(** A turn without a message, and one whose message is refused. *)
Lemma waits_quiet deadline t turns effects outcome : got t = None -> gone t = false -> at_ms t < deadline ->
  waits deadline turns effects outcome -> waits deadline (t :: turns) effects outcome.
Proof.
  intros Hg Hgone Hat (before & after & deadline' & last & -> & Hp & -> & Hf & Hl).
  exists (t :: before), after, deadline', last. split; [done |].
  unfold answers, messages in *. cbn [patient omap list_omap]. rewrite Hg, Hgone.
  rewrite (proj2 (Z.leb_gt _ _)) by done. done.
Qed.

Lemma waits_refused deadline t wire turns effects more outcome : got t = Some wire ->
  handled wire = (effects, Ok None) -> waits (at_ms t + kRegistrationTimeoutMs) turns more outcome ->
  waits deadline (t :: turns) (effects ++ more) outcome.
Proof.
  intros Hg Hh (before & after & deadline' & last & -> & Hp & -> & Hf & Hl).
  exists (t :: before), after, deadline', last. split; [done |].
  unfold answers, messages in *. cbn [patient omap list_omap]. rewrite Hg. cbn. rewrite Hh. cbn.
  split; [done |]. split; [by rewrite app_assoc |]. split; [| done]. constructor; [| done].
  rewrite Hh. exact (handled_spec _ _ _ Hh).
Qed.

Lemma waits_decided deadline t turns effects outcome :
  decides deadline t effects outcome -> waits deadline (t :: turns) effects outcome.
Proof. intros H. exists [], (t :: turns), deadline, effects. repeat (split; [done || constructor |]). done. Qed.

Lemma waits_nothing deadline : waits deadline [] [] Waiting.
Proof. exists [], [], deadline, []. repeat (split; [done || constructor |]). done. Qed.

Lemma wait_from_waits fuel : forall now turns, (length turns < fuel)%nat ->
  let (effects, outcome) := wait_from fuel listener key expected msg_id date now turns in
  waits (now + kRegistrationTimeoutMs) turns effects outcome.
Proof.
  induction fuel as [|fuel IH]; intros now turns Hfuel; [lia |]. cbn [wait_from]. unfold receive.
  generalize (now + kRegistrationTimeoutMs). intros deadline.
  induction turns as [|t turns IHt]; cbn [receive_until]; [apply waits_nothing |].
  destruct (got t) as [wire|] eqn:Hg.
  - fold (handled wire). destruct (handled wire) as [effects [[config|]|what|]] eqn:Hh.
    + apply waits_decided. apply (decides_configured _ _ wire); [done | done | exact (handled_spec _ _ _ Hh)].
    + specialize (IH (at_ms t) turns ltac:(cbn in Hfuel; lia)).
      destruct (wait_from _ _ _ _ _ _ _ turns) as [more outcome]. by apply (waits_refused _ _ wire).
    + apply waits_decided. by apply (decides_throw _ _ wire).
    + apply waits_decided. by apply (decides_undefined _ _ wire).
  - destruct (gone t) eqn:Hgone; [by apply waits_decided, decides_gone |].
    destruct (Z.leb_spec deadline (at_ms t)); [by apply waits_decided, decides_late |].
    specialize (IHt ltac:(cbn in Hfuel; lia)).
    destruct (receive_until deadline turns) as [[[[wire at_] rest]|what|]|] eqn:Hr;
      [| by apply waits_quiet..]. destruct (handleRegistration _ _ _ _ _ _) as [effects [[config|]|what|]];
      [by apply waits_quiet | | by apply waits_quiet..].
    destruct (wait_from _ _ _ _ _ _ _ rest) as [more outcome]. by apply waits_quiet.
Qed.

(** What the listener's wait comes to, for every sequence of messages and
    timeouts: it refuses (and tells so) or skips some messages; then it still
    waits, or one turn decides: the kernel's process is gone; nothing came for
    60 s since the last message (or the start); the message made it throw; or
    it returns a configuration.  The last only from a message whose whole
    content is signed with its key, that names the kernel waited for (or is a
    JEP 66 handshake), and the configuration is the one the message gives. *)
Theorem registration_wait now turns :
  let (effects, outcome) := waitForConfiguration listener key expected msg_id date now turns in
  waits (now + kRegistrationTimeoutMs) turns effects outcome.
Proof. apply wait_from_waits. lia. Qed.

End Wait.

(** ** A kernel started from its kernel.json *)
Section Launched.
Context `{JL : JsonLaws}.

(** A port as [findFreePort] gives it: a draw between 49152 and 65536. *)
Definition is_port (p : str) : Prop := exists n, 49152 <= n <= 65536 /\ p = to_string n.

Lemma digit_char (m : N) : (m < 10)%N -> digit (pretty_N_char m) = Some (Z.of_N m).
Proof. intros H. do 10 (destruct m as [|m] using N.peano_ind; [done | clear IHm]). lia. Qed.

Lemma digits_go x : forall s,
  (exists k, forall acc, digits_value acc (pretty_N_go x s) = digits_value (acc * k + Z.of_N x) s)
  /\ ((0 < x)%N -> exists c rest, (pretty_N_go x s : str) = c :: rest /\ is_Some (digit c)).
Proof.
  induction (N.lt_wf_0 x) as [x _ IH]. intros s. destruct (decide (x = 0%N)) as [-> | Hx].
  { rewrite pretty_N_go_0. split; [exists 1; intros acc; f_equal; lia | lia]. }
  rewrite pretty_N_go_step by lia. set (c := pretty_N_char (x `mod` 10)).
  assert (digit c = Some (Z.of_N (x `mod` 10))) as Hc by (apply digit_char, N.mod_lt; done).
  destruct (IH (x `div` 10)%N ltac:(apply N.div_lt; lia) (String c s)) as [(k & Hk) Hh]. split.
  - exists (10 * k). intros acc. rewrite Hk. cbn [String.list_ascii_of_string digits_value]. rewrite Hc. f_equal.
    pose proof (N.div_mod x 10 ltac:(done)) as Hx10. set (q := (x `div` 10)%N) in *. set (r := (x `mod` 10)%N) in *.
    clearbody q r. nia.
  - intros _. destruct (decide (x `div` 10 = 0)%N) as [-> | Hd]; [| by apply Hh, N.neq_0_lt_0].
    rewrite pretty_N_go_0. exists c, s. split; [done | by rewrite Hc].
Qed.

Lemma digit_head c rest : is_Some (digit c) -> sign_of (skip_blanks (c :: rest)) = (1, c :: rest).
Proof.
  intros [d H]. unfold digit in H. destruct ((48 <=? code c) && (code c <=? 57)) eqn:E; [| done].
  apply andb_true_iff in E as [H1%Z.leb_le H2%Z.leb_le]. cbn [skip_blanks]. unfold isspace.
  rewrite (proj2 (Z.eqb_neq _ _)), (proj2 (Z.leb_gt (code c) 13)), andb_false_r by lia. cbn.
  rewrite !(proj2 (char_eqb_neq _ _)); [done | intros ->; exact (H1 eq_refl)..].
Qed.

Lemma stoi_to_string n : 0 < n < 2 ^ 31 -> stoi (to_string n) = Ok n.
Proof.
  intros H. assert ((to_string n : str) = pretty_N_go (Z.to_N n) "") as ->.
  { unfold to_string. destruct n as [|p|p]; [lia | | lia]. reflexivity. }
  destruct (digits_go (Z.to_N n) "") as [(k & Hk) Hh]. destruct (Hh ltac:(lia)) as (c & rest & Hs & Hc).
  unfold stoi. rewrite Hs in *. rewrite digit_head by done. rewrite bool_decide_eq_false_2 by (by destruct Hc as [? ->]).
  rewrite Hk. cbn [digits_value String.list_ascii_of_string].
  rewrite (proj2 (Z.leb_le _ _)), (proj2 (Z.ltb_lt _ _)) by lia. cbn [andb]. f_equal. lia.
Qed.

Lemma freePort_spec taken found port taken' found' : freePort taken found = Some (port, taken', found') ->
  port ∉ taken /\ taken' = port :: taken /\ port ∈ found /\ (forall q, q ∈ found' -> q ∈ found).
Proof.
  induction found as [|q found IH]; [done |]. cbn [freePort]. case_bool_decide as Hq.
  - intros (H1 & H2 & H3 & H4)%IH. repeat split; [done | done | by right | intros r Hr; right; by apply H4].
  - intros [= <- <- <-]. repeat split; [done | by left | intros r Hr; by right].
Qed.

Lemma kernel_ports_spec found shell iopub stdin control hb :
  kernel_ports found = Some (shell, iopub, stdin, control, hb) ->
  NoDup [hb; control; stdin; iopub; shell] /\ (forall p, p ∈ [hb; control; stdin; iopub; shell] -> p ∈ found).
Proof.
  unfold kernel_ports. intros H.
  repeat match type of H with
  | (freePort _ _ ≫= _) = Some _ =>
      let Hf := fresh "Hf" in
      apply bind_Some in H as ([[? ?] ?] & Hf & H);
      apply freePort_spec in Hf as (? & -> & ? & ?); cbn beta iota in H
  end.
  injection H as -> -> -> -> ->. split; [repeat constructor; try done; apply not_elem_of_nil |].
  intros p. rewrite !elem_of_cons, elem_of_nil. naive_solver.
Qed.

(** A placeholder stands out in a text without an opening brace. *)
Lemma replace_plain fuel path part rest : "{"%char ∉ part ->
  replace_placeholder (length part + fuel) path (part ++ rest) = part ++ replace_placeholder fuel path rest.
Proof.
  induction part as [|c part IH]; [done |]. intros Hn. apply not_elem_of_cons in Hn as [Hc Hn].
  cbn [app length plus replace_placeholder]. rewrite IH by done.
  assert (starts_with placeholder (c :: part ++ rest) = false) as ->; [| done].
  cbn [starts_with placeholder String.list_ascii_of_string]. by rewrite (proj2 (char_eqb_neq _ _)).
Qed.

Lemma replace_none fuel path rest : replace_placeholder (S fuel) path (placeholder ++ rest)
  = path ++ replace_placeholder fuel path rest.
Proof.
  pose proof (starts_with_app placeholder rest) as H.
  change (placeholder ++ rest) with ("{"%char :: tail placeholder ++ rest) at 1. cbn [replace_placeholder].
  change ("{"%char :: tail placeholder ++ rest) with (placeholder ++ rest). rewrite H.
  by rewrite drop_app_length.
Qed.

Lemma replace_join path parts : forall fuel, (length (join placeholder parts) <= fuel)%nat ->
  Forall (fun part => "{"%char ∉ part) parts ->
  replace_placeholder fuel path (join placeholder parts) = join path parts.
Proof.
  induction parts as [|part [|part' parts] IH]; intros fuel Hf Hp; [by destruct fuel | |];
    apply Forall_cons in Hp as [Hp Hrest].
  - cbn [join] in *. replace fuel with (length part + (fuel - length part))%nat by lia.
    rewrite <- (app_nil_r part) at 3 4. rewrite replace_plain by done. by destruct (fuel - length part)%nat.
  - change (join ?s (part :: part' :: parts)) with (part ++ s ++ join s (part' :: parts)) in *.
    rewrite !length_app in Hf. replace fuel with (length part + S (fuel - length part - 1))%nat by (cbn in Hf; lia).
    rewrite replace_plain by done. rewrite replace_none, IH; [done | cbn in Hf |- *; lia | done].
Qed.

Lemma jupyter_arguments_join path exe partss : partss <> [] -> Forall (Forall (fun part => "{"%char ∉ part)) partss ->
  jupyter_arguments path (exe :: (join placeholder <$> partss)) = Ok (join path <$> partss).
Proof.
  intros Hne Hp. unfold jupyter_arguments. cbn [tail].
  assert ((fun arg => replace_placeholder (length arg) path arg) <$> (join placeholder <$> partss) = join path <$> partss) as ->.
  { clear Hne. induction Hp as [|parts partss Hp _ IH]; [done |]. rewrite !fmap_cons, IH. by rewrite replace_join. }
  by destruct partss.
Qed.

Definition file_members (key : str) (shell iopub stdin control hb : Z) : list (str * json) :=
  [("transport"%string : str, mk_str "tcp"%string); ("ip"%string : str, mk_str "127.0.0.1"%string);
   ("key"%string : str, mk_str key); ("signature_scheme"%string : str, mk_str "hmac-sha256"%string);
   ("shell_port"%string : str, mk_int shell); ("iopub_port"%string : str, mk_int iopub);
   ("stdin_port"%string : str, mk_int stdin); ("control_port"%string : str, mk_int control);
   ("hb_port"%string : str, mk_int hb)].

Lemma member_found j key v : find j key = Some v -> member j key = Ok v.
Proof.
  intros H. unfold member. destruct (is_object j) eqn:Ho; [by rewrite H |].
  rewrite find_other in H; [done |]. intros E. apply is_object_type in E. congruence.
Qed.

Lemma string_member_found j key s : find j key = Some (mk_str s) -> string_member j key = Ok s.
Proof. intros H. unfold string_member, get. by rewrite (member_found _ _ _ H), get_str_mk. Qed.

Lemma port_member_found j key n : find j key = Some (mk_int n) -> 49152 <= n <= 65536 ->
  port_member j key = Ok (to_string n).
Proof.
  intros H Hn. unfold port_member, get. rewrite (member_found _ _ _ H), get_int_mk.
  by rewrite wrap_int_small by lia.
Qed.

Lemma load_file_members key shell iopub stdin control hb :
  (forall n, n ∈ [shell; iopub; stdin; control; hb] -> 49152 <= n <= 65536) ->
  loadKernelConfiguration (mk_object (file_members key shell iopub stdin control hb))
  = Ok (jupyter_configuration key (to_string shell, to_string iopub, to_string stdin, to_string control, to_string hb)).
Proof.
  intros Hn. unfold loadKernelConfiguration, loadCommonConfiguration, file_members.
  rewrite (string_member_found _ _ "tcp"%string) by (by find_member).
  rewrite (string_member_found _ _ "127.0.0.1"%string) by (by find_member).
  rewrite (value_found _ _ _ (mk_str "hmac-sha256"%string) ("hmac-sha256"%string : str)) by (by find_member || apply get_str_mk).
  rewrite (string_member_found _ "key"%string key) by (by find_member).
  rewrite (port_member_found _ _ control), (port_member_found _ _ shell), (port_member_found _ _ stdin),
    (port_member_found _ _ iopub), (port_member_found _ _ hb) by (by find_member || apply Hn; set_solver).
  done.
Qed.

(** A kernel that is started from its kernel.json finds its supervisor.
    Five different ports are chosen; the kernel's arguments are those of its
    command with the connection file's path for every placeholder; and the
    connection file, loaded by a kernel, gives exactly the configuration that
    the supervisor connects with: the key, the signature scheme and the ports. *)
Theorem connection_file_roundtrip key path found exe partss shell iopub stdin control hb :
  let config := jupyter_configuration key (shell, iopub, stdin, control, hb) in
  Forall is_port found -> kernel_ports found = Some (shell, iopub, stdin, control, hb) ->
  partss <> [] -> Forall (Forall (fun part => "{"%char ∉ part)) partss ->
  (forall members, connection_members config = Ok members -> storable (mk_object members)) ->
  NoDup [hb; control; stdin; iopub; shell]
  /\ exists file, startJupyterKernel key path found (exe :: (join placeholder <$> partss))
                    = Some (Ok (config, file, join path <$> partss))
                  /\ loadConfiguration file = Ok (IsKernel config).
Proof.
  intros config Hfound Hports Hne Hparts Hst. destruct (kernel_ports_spec _ _ _ _ _ _ Hports) as [Hnd Hin].
  split; [done |]. rewrite Forall_forall in Hfound.
  assert (forall p, p ∈ [hb; control; stdin; iopub; shell] -> is_port p) as Hp by auto. clear Hfound Hin Hnd.
  destruct (Hp shell ltac:(set_solver)) as (n1 & H1 & ->), (Hp iopub ltac:(set_solver)) as (n2 & H2 & ->),
    (Hp stdin ltac:(set_solver)) as (n3 & H3 & ->), (Hp control ltac:(set_solver)) as (n4 & H4 & ->),
    (Hp hb ltac:(set_solver)) as (n5 & H5 & ->). clear Hp.
  assert (connection_members config = Ok (file_members key n1 n2 n3 n4 n5)) as Hm.
  { unfold connection_members, config. cbn [jupyter_configuration m_shellPort m_iopubPort m_stdinPort m_controlPort m_hbPort].
    by rewrite !stoi_to_string by lia. }
  destruct (parse_dump Strict _ (Hst _ Hm)) as (file & Hdump & _). exists file. split.
  - unfold startJupyterKernel. rewrite Hports. cbn [mbind option_bind]. fold config.
    unfold connection_file. by rewrite Hm, Hdump, jupyter_arguments_join.
  - unfold loadConfiguration. rewrite (parse_strict_dump Strict _ file (Hst _ Hm) Hdump).
    rewrite value_missing; [| apply type_object | unfold file_members; by find_member].
    cbn [str_eqb]. rewrite load_file_members; [done |]. set_unfold. naive_solver lia.
Qed.

End Launched.

(** ** Ports *)

(** The port of a bound TCP socket, read back from its end point. *)
Lemma getSocketPort_endpoint ip port : ":"%char ∉ port -> getSocketPort (getEndPoint "tcp"%string ip port) = port.
Proof.
  intros H. unfold getSocketPort, getEndPoint. rewrite str_eqb_refl.
  change ("tcp"%string ++ "://"%string ++ ip ++ ":"%char :: port) with (("tcp://"%string ++ ip) ++ ":"%char :: port).
  rewrite split_all_sep, (split_all_one _ port) by done. apply List.last_last.
Qed.

(** With another transport there is no colon before the port. *)
Example getSocketPort_ipc :
  getSocketPort (getEndPoint "ipc"%string "/tmp/kernel"%string "5"%string) = "///tmp/kernel-5"%string.
Proof. reflexivity. Qed.

(** The first draw that binds, if it is among the first [max_tries]; no port
    after as many failures. *)
Lemma findFreePort_from_spec max_tries before rest : forall tries, Forall (fun d => d.2 = false) before ->
  (tries + length before <= max_tries)%nat ->
  findFreePort_from max_tries tries (before ++ rest) = findFreePort_from max_tries (tries + length before) rest.
Proof.
  induction before as [|[n bound] before IH]; intros tries Hb Hlen; [by rewrite Nat.add_0_r |].
  apply Forall_cons in Hb as [Hn Hb]. cbn [snd length app findFreePort_from] in *. subst bound.
  rewrite (proj2 (Nat.leb_le _ _)) by lia. cbn [andb negb]. rewrite IH by (done || lia). f_equal. lia.
Qed.

Lemma findFreePort_spec max_tries before n rest : Forall (fun d => d.2 = false) before ->
  ((length before < max_tries)%nat -> findFreePortImpl max_tries (before ++ (n, true) :: rest) = Some (to_string n))
  /\ (length before = max_tries -> rest <> [] -> findFreePortImpl max_tries (before ++ rest) = Some []).
Proof.
  intros Hb. unfold findFreePortImpl. split; intros Hlen.
  - rewrite findFreePort_from_spec by (done || lia). cbn [findFreePort_from plus].
    rewrite (proj2 (Nat.leb_le _ _)), (proj2 (Nat.ltb_ge _ _)) by lia. done.
  - intros Hr. rewrite findFreePort_from_spec by (done || lia). destruct rest as [|[m bound] rest]; [done |].
    cbn [findFreePort_from plus]. rewrite (proj2 (Nat.leb_gt _ _)), (proj2 (Nat.ltb_lt _ _)) by lia. done.
Qed.

(** ** Examples *)
Section Examples.

Abbreviation registration_text := "registration key"%string.

Definition example_kernel : RegistrationConfiguration :=
  {| registration_common := newCommonConfiguration registration_text; r_kernelId := "kernel-1"%string;
     m_registrationIp := "127.0.0.1"%string; m_registrationPort := "50000"%string |}.

Definition example_ports : KernelConfiguration :=
  registered registration_text [] "50001"%string "50002"%string "50003"%string "50004"%string "50005"%string.

Lemma registration_agreement_witness : exists wire answer effects,
  handleRegistration (J := Concrete.concrete) (Ossl := Stub.stub)
    (OpensslAuthentication "SHA256"%string registration_text) registration_text "kernel-1"%string [] []
    (("id"%string : str) :: wire)
  = (effects, Ok (Some (registered registration_text "kernel-1"%string "50001"%string "50002"%string "50003"%string
                          "50004"%string "50005"%string)))
  /\ readAnswer (Ossl := Stub.stub) (OpensslAuthentication "SHA256"%string registration_text) (Some answer) = Ok tt.
Proof.
  destruct (registration_agreement (JL := Concrete.concrete_laws) (OL := Stub.stub_laws) "SHA256"%string registration_text
    example_kernel example_ports Strict "kernel-1"%string [] [] "id"%string I ltac:(discriminate))
    as (wire & answer & effects & outcome & _ & Hh & _ & Hok & _).
  destruct (Hok (or_intror eq_refl)) as [-> Ha]. by exists wire, answer, effects.
Defined.

(** A message that is no registration, then nothing for the time given. *)
Definition example_turns : list Turn :=
  [{| got := Some ["id"%string : str; DELIMITER]; at_ms := 100; gone := false |};
   {| got := None; at_ms := 350; gone := false |};
   {| got := None; at_ms := 60100; gone := false |}].

Lemma registration_wait_witness :
  waitForConfiguration (J := Concrete.concrete) (Ossl := Stub.stub) (listener "SHA256"%string registration_text)
    registration_text [] [] [] 0 example_turns
  = ([logged "not a registration message"%string], Failed timeout_text)
  /\ waits (J := Concrete.concrete) (Ossl := Stub.stub) "SHA256"%string registration_text [] [] []
       (0 + kRegistrationTimeoutMs) example_turns [logged "not a registration message"%string] (Failed timeout_text).
Proof.
  split; [vm_compute; reflexivity |].
  exact (registration_wait (J := Concrete.concrete) (OL := Stub.stub_laws) "SHA256"%string registration_text [] [] [] 0
           example_turns).
Defined.

(** The 60 s are counted from the last message, and the kernel's process is
    looked at only when no message came: with a message that is no registration
    every 200 ms, a kernel whose process has been gone from the start is still
    waited for after 100 s. *)
Example deadline_restarts :
  snd (waitForConfiguration (J := Concrete.concrete) (Ossl := Stub.stub) (listener "SHA256"%string registration_text)
         registration_text [] [] [] 0
         (List.map (fun n => {| got := Some ["id"%string : str; DELIMITER]; at_ms := 200 * Z.of_nat n; gone := true |})
            (List.seq 1 500)))
  = Waiting.
Proof. vm_compute. reflexivity. Qed.

(** A message without the delimiter, and one with five frames after it and a
    wrong signature, are not refused: they end the wait. *)
Example stranger_ends_the_wait :
  let wait wire := snd (waitForConfiguration (J := Concrete.concrete) (Ossl := Stub.stub)
    (listener "SHA256"%string registration_text) registration_text "kernel-1"%string [] [] 0
    [{| got := Some wire; at_ms := 0; gone := false |}]) in
  wait ["id"%string : str; "hello"%string : str] = Failed "ERROR: Delimiter not present in message"%string
  /\ wait (["id"%string : str; DELIMITER; "0000"%string : str] ++ repeat (""%string : str) 4)
     = Failed "Rejected a kernel's handshake: ERROR: Signatures don't match"%string.
Proof. split; vm_compute; reflexivity. Qed.

Definition example_found : list str := (fun n => to_string n) <$> [50001; 50001; 50002; 50003; 50002; 50004; 50005].

Lemma example_found_ports : Forall is_port example_found.
Proof. unfold example_found. rewrite Forall_fmap. repeat constructor; eexists; split; try reflexivity; lia. Qed.

Lemma connection_file_roundtrip_witness : exists file,
  startJupyterKernel (J := Concrete.concrete) "key"%string "/tmp/c.json"%string example_found
    (("python"%string : str) :: (join placeholder <$> [["-m"%string : str]; ["--file="%string : str; [] : str]]))
  = Some (Ok (jupyter_configuration "key"%string ("50001"%string : str, "50002"%string : str, "50003"%string : str,
                "50004"%string : str, "50005"%string : str), file, ["-m"%string : str; "--file=/tmp/c.json"%string : str]))
  /\ is_ok (loadConfiguration (J := Concrete.concrete) file) = true.
Proof.
  destruct (connection_file_roundtrip (JL := Concrete.concrete_laws) "key"%string "/tmp/c.json"%string example_found
    "python"%string [["-m"%string : str]; ["--file="%string : str; [] : str]] "50001"%string "50002"%string "50003"%string
    "50004"%string "50005"%string) as [_ (file & Hs & Hl)].
  - exact example_found_ports.
  - vm_compute. reflexivity.
  - discriminate.
  - repeat constructor; apply (proj1 (bool_decide_eq_true _)); vm_compute; reflexivity.
  - intros members _. exact I.
  - exists file. split; [exact Hs | by rewrite Hl].
Defined.

End Examples.
