(* ===== verification/Channels.v ===== *)
(** * The supervisor's side of a kernel's channels: the heartbeat and the output

    - transport/client/client_heartbeat.cpp: the thread that pings the kernel
      and reports it dead; transport/server/heartbeat.cpp echoes.
    - transport/server/publisher.cpp, transport/client/client_iopub.cpp and
      client_zmq_impl.cpp: what the kernel publishes, from its publisher thread
      to the queue that the supervisor's poll thread reads.
    A thread is cut into steps where another thread can come in between. *)

From Stdlib Require Import Ascii ZArith Lia.
From S2P Require Import Prelude Utf8 Crypto Json Wire.
Local Open Scope Z_scope.

(** ** The heartbeat *)
Section Heartbeat.

(** The object: what its thread keeps, and what it did.  [notified] are the
    calls of the listener; [ended]: the thread's function has returned. *)
Record ClientHeartbeat := {
  m_maxRetry : nat;
  m_requestStop : bool;
  m_lastRttMicros : Z;
  m_lastPongMs : Z;
  m_misses : nat;
  retry_count : nat;
  notified : list bool;
  ended : bool
}.

Definition newHeartbeat (max_retry : nat) : ClientHeartbeat :=
  {| m_maxRetry := max_retry; m_requestStop := false; m_lastRttMicros := -1; m_lastPongMs := -1; m_misses := 0;
     retry_count := 0; notified := []; ended := false |}.

Definition max_retry : nat := 3.
Definition heartbeat_timeout : Z := 20000.

(** What a poll finds on a socket: nothing, a message, or one whose handling
    throws. *)
Inductive Socket := Quiet | Message | Throws.

(** One turn of the loop: the ping or the poll throws, or the poll returns,
    at most [heartbeat_timeout] later.  Times are of [steady_clock], in
    microseconds. *)
Inductive Round :=
| Exception
| Polled (sent now : Z) (pong stop : Socket).

Definition set_stop (h : ClientHeartbeat) : ClientHeartbeat :=
  {| m_maxRetry := m_maxRetry h; m_requestStop := true; m_lastRttMicros := m_lastRttMicros h;
     m_lastPongMs := m_lastPongMs h; m_misses := m_misses h; retry_count := retry_count h; notified := notified h;
     ended := ended h |}.

(** [waitForAnswer]: an exception makes the answer [false]. *)
Definition waitForAnswer (pong stop : Socket) (h : ClientHeartbeat) : bool * ClientHeartbeat :=
  match pong, stop with
  | Throws, _ => (false, h)
  | _, Throws => (false, h)
  | Message, Quiet => (true, h)
  | Quiet, Quiet => (false, h)
  | Message, Message => (true, set_stop h)
  | Quiet, Message => (false, set_stop h)
  end.

Definition answered (sent now : Z) (h : ClientHeartbeat) : ClientHeartbeat :=
  {| m_maxRetry := m_maxRetry h; m_requestStop := m_requestStop h; m_lastRttMicros := now - sent;
     m_lastPongMs := Z.quot now 1000; m_misses := 0; retry_count := retry_count h; notified := notified h;
     ended := ended h |}.

Definition missed (h : ClientHeartbeat) : ClientHeartbeat :=
  {| m_maxRetry := m_maxRetry h; m_requestStop := m_requestStop h; m_lastRttMicros := m_lastRttMicros h;
     m_lastPongMs := m_lastPongMs h; m_misses := S (m_misses h); retry_count := retry_count h; notified := notified h;
     ended := ended h |}.

Definition set_retry (n : nat) (h : ClientHeartbeat) : ClientHeartbeat :=
  {| m_maxRetry := m_maxRetry h; m_requestStop := m_requestStop h; m_lastRttMicros := m_lastRttMicros h;
     m_lastPongMs := m_lastPongMs h; m_misses := m_misses h; retry_count := n; notified := notified h;
     ended := ended h |}.

Definition notifyKernelDead (status : bool) (h : ClientHeartbeat) : ClientHeartbeat :=
  {| m_maxRetry := m_maxRetry h; m_requestStop := m_requestStop h; m_lastRttMicros := m_lastRttMicros h;
     m_lastPongMs := m_lastPongMs h; m_misses := m_misses h; retry_count := retry_count h;
     notified := notified h ++ [status]; ended := ended h |}.

Definition end_thread (h : ClientHeartbeat) : ClientHeartbeat :=
  {| m_maxRetry := m_maxRetry h; m_requestStop := m_requestStop h; m_lastRttMicros := m_lastRttMicros h;
     m_lastPongMs := m_lastPongMs h; m_misses := m_misses h; retry_count := retry_count h; notified := notified h;
     ended := true |}.

(** The body of the loop. *)
Definition beat_body (r : Round) (h : ClientHeartbeat) : ClientHeartbeat :=
  match r with
  | Exception => h
  | Polled sent now pong stop =>
      let (answer, h) := waitForAnswer pong stop h in
      let h := if answer then answered sent now h else missed h in
      if negb (m_misses h =? 0)%nat then
        if (retry_count h <? m_maxRetry h)%nat then set_retry (S (retry_count h)) h
        else end_thread (notifyKernelDead true h)
      else set_retry 0 h
  end.

(** A turn: the condition, then the body. *)
Definition beat (h : ClientHeartbeat) (r : Round) : ClientHeartbeat :=
  if ended h then h
  else if m_requestStop h then end_thread h
  else beat_body r h.

Definition run (h : ClientHeartbeat) (rounds : list Round) : ClientHeartbeat := fold_left beat rounds h.

Record HeartbeatStatus := { hasPong : bool; rttMicros : Z; sinceLastPongMs : Z; misses : nat }.

(** [status()] at a time in milliseconds; the round trip is left in
    microseconds, which the code divides by 1000.0. *)
Definition status (nowMs : Z) (h : ClientHeartbeat) : HeartbeatStatus :=
  let has := (0 <=? m_lastRttMicros h) && (0 <=? m_lastPongMs h) in
  {| hasPong := has; rttMicros := if has then m_lastRttMicros h else 0;
     sinceLastPongMs := if has then nowMs - m_lastPongMs h else 0; misses := m_misses h |}.

(** *** When a kernel is reported dead *)

(** What a round counts for: answered, not answered, or nothing. *)
Definition counts (r : Round) : option bool :=
  match r with
  | Exception => None
  | Polled _ _ pong stop => Some (match pong, stop with Message, Throws => false | Message, _ => true | _, _ => false end)
  end.

Definition stops (r : Round) : bool :=
  match r with Polled _ _ Throws _ => false | Polled _ _ _ Message => true | _ => false end.

(** The rounds up to the one that receives the stop. *)
Fixpoint until_stop (rounds : list Round) : list Round :=
  match rounds with
  | [] => []
  | r :: rounds => if stops r then [r] else r :: until_stop rounds
  end.

Definition verdicts (rounds : list Round) : list bool := omap counts (until_stop rounds).

(** [n] misses in a row. *)
Definition streak (n : nat) (v : list bool) : Prop := exists a b, v = a ++ repeat false n ++ b.

(** How many misses [v] ends with. *)
Definition trailing (v : list bool) : nat :=
  fold_left (fun n answer => if answer : bool then O else S n) v O.

Lemma trailing_snoc v answer : trailing (v ++ [answer]) = if answer then O else S (trailing v).
Proof. unfold trailing. by rewrite fold_left_app. Qed.

Lemma trailing_suffix v : exists a, v = a ++ repeat false (trailing v).
Proof.
  induction v as [|answer v IH] using rev_ind; [by exists [] |]. rewrite trailing_snoc.
  destruct answer; [by exists (v ++ [true]); rewrite app_nil_r |].
  destruct IH as (a & IH). exists a. rewrite IH at 1. rewrite <- app_assoc. f_equal.
  change [false] with (repeat false 1). by rewrite <- repeat_app, Nat.add_comm.
Qed.

Lemma trailing_repeat a n : trailing (a ++ repeat false n) = (trailing a + n)%nat.
Proof.
  induction n as [|n IH]; cbn [repeat]; [rewrite app_nil_r; lia |].
  rewrite repeat_cons, app_assoc, trailing_snoc, IH. lia.
Qed.

Lemma streak_prefix n v : streak n v <-> exists p b, v = p ++ b /\ (n <= trailing p)%nat.
Proof.
  split.
  - intros (a & b & ->). exists (a ++ repeat false n), b. rewrite trailing_repeat, app_assoc. split; [done | lia].
  - intros (p & b & -> & Hn). destruct (trailing_suffix p) as (a & Ha).
    exists (a ++ repeat false (trailing p - n)), b. rewrite Ha at 1. rewrite <- !app_assoc. f_equal.
    rewrite app_assoc, <- repeat_app. do 2 f_equal. lia.
Qed.

Lemma streak_app n v w : streak n v -> streak n (v ++ w).
Proof. intros (a & b & ->). exists a, (b ++ w). by rewrite !app_assoc. Qed.

Lemma streak_snoc n v answer : streak n (v ++ [answer]) -> streak n v \/ (n <= trailing (v ++ [answer]))%nat.
Proof.
  rewrite !streak_prefix. intros (p & b & E & Hn). destruct b as [|b0 b _] using rev_ind.
  - right. rewrite app_nil_r in E. by rewrite E.
  - rewrite app_assoc in E. apply app_inj_tail in E as [-> _]. left. by exists p, b.
Qed.

Lemma until_stop_snoc rounds r :
  until_stop (rounds ++ [r]) = if existsb stops rounds then until_stop rounds else until_stop rounds ++ [r].
Proof.
  induction rounds as [|r0 rounds IH]; cbn; [by destruct (stops r) |].
  destruct (stops r0); cbn; [done |]. rewrite IH. by destruct (existsb stops rounds).
Qed.

Lemma verdicts_snoc rounds r :
  verdicts (rounds ++ [r]) = if existsb stops rounds then verdicts rounds
                             else verdicts rounds ++ match counts r with Some answer => [answer] | None => [] end.
Proof.
  unfold verdicts. rewrite until_stop_snoc. destruct (existsb stops rounds); [done |].
  rewrite omap_app. cbn. by destruct (counts r).
Qed.

(** The clock is not before its epoch, and does not go back. *)
Definition timed (r : Round) : Prop :=
  match r with Exception => True | Polled sent now _ _ => 0 <= sent <= now end.

(** The thread, while it has reported nothing, and once it has. *)
Record watching (rounds : list Round) (h : ClientHeartbeat) : Prop := {
  watching_silent : notified h = [];
  watching_alive : ~ streak (S (m_maxRetry h)) (verdicts rounds);
  watching_misses : m_misses h = trailing (verdicts rounds);
  watching_retry : retry_count h = trailing (verdicts rounds);
  watching_stop : m_requestStop h = existsb stops rounds;
  watching_ended : ended h = true -> existsb stops rounds = true;
  watching_pong : Forall timed rounds -> hasPong (status 0 h) = bool_decide (true ∈ verdicts rounds)
}.

Record reported (rounds : list Round) (h : ClientHeartbeat) : Prop := {
  reported_once : notified h = [true];
  reported_dead : streak (S (m_maxRetry h)) (verdicts rounds);
  reported_ended : ended h = true
}.

Lemma reported_beat rounds h r : reported rounds h -> reported (rounds ++ [r]) (beat h r).
Proof.
  intros [H1 H2 H3]. unfold beat. rewrite H3. split; [done | | done]. rewrite verdicts_snoc.
  destruct (existsb stops rounds); [done | by apply streak_app].
Qed.

Lemma watching_stopped rounds h r : watching rounds h -> existsb stops rounds = true ->
  watching (rounds ++ [r]) (beat h r) /\ ended (beat h r) = true.
Proof.
  intros [H1 H2 H3 H4 H5 H6 H7] Hs. unfold beat. rewrite H5, Hs.
  assert (existsb stops (rounds ++ [r]) = true) as Hs' by (by rewrite existsb_app, Hs).
  assert (Forall timed (rounds ++ [r]) -> Forall timed rounds) as Ht by (rewrite Forall_app; tauto).
  destruct (ended h) eqn:He; (split; [| done]); split; rewrite ?verdicts_snoc, ?Hs, ?Hs'; auto;
    cbn [end_thread m_requestStop]; congruence.
Qed.

(** What the answer of a round is, and whether it carries the stop. *)
Lemma waitForAnswer_spec sent now pong stop h :
  let r := Polled sent now pong stop in
  counts r = Some (fst (waitForAnswer pong stop h))
  /\ snd (waitForAnswer pong stop h) = if stops r then set_stop h else h.
Proof. by destruct pong, stop. Qed.

Lemma last_true v : (true ∈ v ++ [true]) <-> True.
Proof. rewrite elem_of_app, list_elem_of_singleton. tauto. Qed.

Lemma last_false v : (true ∈ v ++ [false]) <-> (true ∈ v).
Proof. rewrite elem_of_app, list_elem_of_singleton. naive_solver. Qed.

Lemma watching_running rounds h r : watching rounds h -> existsb stops rounds = false ->
  watching (rounds ++ [r]) (beat h r) \/ reported (rounds ++ [r]) (beat h r).
Proof.
  intros [H1 H2 H3 H4 H5 H6 H7] Hs. unfold beat.
  destruct (ended h) eqn:He; [by rewrite H6 in Hs |]. rewrite H5, Hs.
  assert (existsb stops (rounds ++ [r]) = stops r) as Hstops by (rewrite existsb_app, Hs; cbn; by rewrite orb_false_r).
  assert (Forall timed (rounds ++ [r]) -> Forall timed rounds /\ timed r) as Ht
    by (rewrite Forall_app, Forall_singleton; tauto).
  destruct r as [|sent now pong stop]; cbn [beat_body].
  { left. split; rewrite ?verdicts_snoc, ?Hs, ?Hstops; cbn [counts stops]; rewrite ?app_nil_r; try tauto; congruence. }
  destruct (waitForAnswer_spec sent now pong stop h) as [Hc Hh].
  destruct (waitForAnswer pong stop h) as [answer h'] eqn:Hw. cbn [fst snd] in Hc, Hh.
  set (r := Polled sent now pong stop) in *.
  assert (verdicts (rounds ++ [r]) = verdicts rounds ++ [answer]) as Hv by (by rewrite verdicts_snoc, Hs, Hc).
  assert (m_maxRetry h' = m_maxRetry h /\ retry_count h' = trailing (verdicts rounds) /\ m_misses h' = trailing (verdicts rounds)
          /\ notified h' = [] /\ ended h' = false /\ m_requestStop h' = stops r /\ status 0 h' = status 0 h)
    as (E1 & E2 & E3 & E4 & E5 & E6 & E7) by (rewrite Hh; destruct (stops r); cbn; repeat split; congruence).
  destruct answer.
  - left. cbn [answered m_misses Nat.eqb negb]. split; rewrite ?Hv, ?Hstops, ?trailing_snoc;
      cbn [answered set_retry notified m_maxRetry m_misses retry_count m_requestStop ended]; try congruence.
    + rewrite E1. intros [Hst | Hn]%streak_snoc; [done |]. rewrite trailing_snoc in Hn. lia.
    + intros [_ Hr]%Ht. cbn in Hr. cbn [status hasPong set_retry answered m_lastRttMicros m_lastPongMs].
      rewrite (proj2 (Z.leb_le _ _)) by lia. rewrite (proj2 (Z.leb_le _ _)) by (apply Z.quot_pos; lia).
      symmetry. apply bool_decide_eq_true, last_true. done.
  - cbn [missed m_misses Nat.eqb negb retry_count m_maxRetry]. rewrite E1, E2.
    destruct (Nat.ltb_spec (trailing (verdicts rounds)) (m_maxRetry h)) as [Hlt | Hge].
    + left. split; rewrite ?Hv, ?Hstops, ?trailing_snoc;
        cbn [missed set_retry notified m_maxRetry m_misses retry_count m_requestStop ended]; try congruence.
      * rewrite E1. intros [Hst | Hn]%streak_snoc; [done |]. rewrite trailing_snoc in Hn. lia.
      * intros [Hr _]%Ht. specialize (H7 Hr). rewrite <- E7 in H7.
        rewrite (bool_decide_ext _ _ (last_false _)). exact H7.
    + right. split; cbn [end_thread notifyKernelDead missed notified m_maxRetry ended]; [by rewrite E4 | | done].
      rewrite Hv, E1. apply streak_prefix. exists (verdicts rounds ++ [false]), []. rewrite app_nil_r, trailing_snoc.
      split; [done | lia].
Qed.

Lemma watching_start k : watching [] (newHeartbeat k).
Proof. split; try done. rewrite streak_prefix. intros (p & b & E & Hn). destruct p; [cbn in Hn; lia | done]. Qed.

Lemma run_watching k rounds :
  watching rounds (run (newHeartbeat k) rounds) \/ reported rounds (run (newHeartbeat k) rounds).
Proof.
  unfold run. induction rounds as [|r rounds IH] using rev_ind; [left; apply watching_start |].
  rewrite fold_left_app. cbn [fold_left]. destruct IH as [H | H]; [| right; by apply reported_beat].
  destruct (existsb stops rounds) eqn:Hs; [left; by apply watching_stopped | by apply watching_running].
Qed.

Lemma run_maxRetry k rounds : m_maxRetry (run (newHeartbeat k) rounds) = k.
Proof.
  unfold run. induction rounds as [|r rounds IH] using rev_ind; [done |]. rewrite fold_left_app. cbn [fold_left].
  revert IH. generalize (fold_left beat rounds (newHeartbeat k)) as h. intros h <-. unfold beat.
  destruct (ended h), (m_requestStop h), r as [|sent now [] []]; try done; cbn; by repeat case_match.
Qed.

(** When a kernel is reported dead.  Over any rounds, the listener is
    called once, with [true], exactly when [max_retry] + 1 rounds in a row,
    those that threw left out and none after the stop was received, had no
    answer; it is never called twice.  Until then [status] tells the truth: the
    misses since the last answer, and whether there was an answer.  A received
    stop ends the thread at its next turn. *)
Theorem heartbeat_verdict k rounds : let h := run (newHeartbeat k) rounds in
  (streak (S k) (verdicts rounds) -> notified h = [true] /\ ended h = true)
  /\ (~ streak (S k) (verdicts rounds) ->
      notified h = [] /\ (forall now, misses (status now h) = trailing (verdicts rounds))
      /\ (Forall timed rounds -> forall now, hasPong (status now h) = bool_decide (true ∈ verdicts rounds))
      /\ (existsb stops rounds = true -> forall r, ended (beat h r) = true)
      /\ (ended h = true -> existsb stops rounds = true)).
Proof.
  intros h. pose proof (run_maxRetry k rounds) as Hk. fold h in Hk.
  destruct (run_watching k rounds) as [H | H]; fold h in H.
  - pose proof H as [H1 H2 H3 H4 H5 H6 H7]. rewrite Hk in H2. split; [done |]. intros _.
    split; [done |]. split; [done |]. split; [intros Ht now; exact (H7 Ht) |]. split; [| done].
    intros Hs r. by apply (watching_stopped rounds h r H).
  - destruct H as [H1 H2 H3]. rewrite Hk in H2. split; [done | tauto].
Qed.

End Heartbeat.

(** ** The kernel's publisher thread *)
Section Publisher.
Context `{J : JsonLib} `{Ossl : OpenSSL}.
Variables (auth : Authentication) (handler : error_handler) (msg_id date : str).

Inductive PublisherThread := Publishing | Returned | Terminated.

(** The messages that wait on the thread's three sockets, and all it sent. *)
Record Publisher := {
  listener_queue : list frames;
  stop_waits : bool;
  subscription_events : list frames;
  published : list frames;
  publisher_thread : PublisherThread
}.

Definition newPublisher : Publisher :=
  {| listener_queue := []; stop_waits := false; subscription_events := []; published := [];
     publisher_thread := Publishing |}.

Definition createPubMessage (topic : str) : PubMessage :=
  {| topic := [];
     pub_base := makeMessageBase (makeHeader msg_id date "iopub_welcome"%string [] []) empty_object empty_object
                   (insert_key empty_object "subscription"%string (mk_str topic)) [] |}.

(** A subscription event: the message sent for it, none for an unsubscription.
    An exception leaves the thread's function, which ends the process. *)
Definition welcome (event : frames) : result (list frames) :=
  match event with
  | [frame] =>
      match frame with
      | [] => Undefined
      | e :: topic =>
          if code e =? 1 then let? wire := serializeIopub (createPubMessage topic) auth handler in Ok [wire] else Ok []
      end
  | _ => Throw "ERROR: Received message on XPUB is not a single frame"%string
  end.

(** One turn of the loop: at most one message of each socket. *)
Definition publisher_turn (p : Publisher) : Publisher :=
  match publisher_thread p with
  | Publishing =>
      let sent := match listener_queue p with wire :: _ => [wire] | [] => [] end in
      let queue := tail (listener_queue p) in
      if stop_waits p then
        {| listener_queue := queue; stop_waits := false; subscription_events := subscription_events p;
           published := published p ++ sent; publisher_thread := Returned |}
      else
        match subscription_events p with
        | [] => {| listener_queue := queue; stop_waits := false; subscription_events := [];
                   published := published p ++ sent; publisher_thread := Publishing |}
        | event :: events =>
            match welcome event with
            | Ok more => {| listener_queue := queue; stop_waits := false; subscription_events := events;
                            published := published p ++ sent ++ more; publisher_thread := Publishing |}
            | _ => {| listener_queue := queue; stop_waits := false; subscription_events := events;
                      published := published p ++ sent; publisher_thread := Terminated |}
            end
        end
  | _ => p
  end.

(** What the kernel's other threads and the subscribers do, and the turns. *)
Inductive PublisherEvent :=
| Publish (wire : frames)
| Subscription (event : frames)
| StopPublisher
| PublisherTurn.

Definition publisher_event (p : Publisher) (e : PublisherEvent) : Publisher :=
  match e with
  | Publish wire => {| listener_queue := listener_queue p ++ [wire]; stop_waits := stop_waits p;
                       subscription_events := subscription_events p; published := published p;
                       publisher_thread := publisher_thread p |}
  | Subscription event => {| listener_queue := listener_queue p; stop_waits := stop_waits p;
                             subscription_events := subscription_events p ++ [event]; published := published p;
                             publisher_thread := publisher_thread p |}
  | StopPublisher => {| listener_queue := listener_queue p; stop_waits := true;
                        subscription_events := subscription_events p; published := published p;
                        publisher_thread := publisher_thread p |}
  | PublisherTurn => publisher_turn p
  end.

Definition run_publisher (events : list PublisherEvent) : Publisher := fold_left publisher_event events newPublisher.

End Publisher.

(** ** The supervisor's output thread and the thread that waits for it *)
Section Iopub.
Context `{J : JsonLib} `{Ossl : OpenSSL}.
Variable auth : Authentication.

(** [run()]: polling; with a message read; with it queued; about to signal;
    returned.  [stop] is whether the poll found the stop message too. *)
Inductive Receiver :=
| RPoll
| RRead (msg : PubMessage) (stop : bool)
| RQueued (stop : bool)
| RSignal (stop : bool)
| REnd
| RCrash.

(** The poll thread of the session: popping messages, then in
    [waitForActivity]: looking whether one waits, polling, clearing the flag,
    reading the signals. *)
Inductive Waiter := WDrain | WCheck | WPoll | WClear | WRead.

Record ClientIopub := {
  incoming : list frames;
  stop_message : bool;
  receiver : Receiver;
  m_messageQueue : list PubMessage;
  m_welcomed : bool;
  m_signalled : bool;
  signals : nat;
  waiter : Waiter;
  popped : list PubMessage
}.

Definition newIopub : ClientIopub :=
  {| incoming := []; stop_message := false; receiver := RPoll; m_messageQueue := []; m_welcomed := false;
     m_signalled := false; signals := 0; waiter := WDrain; popped := [] |}.

(** The message of a wire message, and whether it is the welcome: exceptions
    are logged, and the message is dropped. *)
Definition read_iopub (wire : frames) : result (PubMessage * bool) :=
  let? msg := deserializeIopub wire auth true in
  let? msg_type := value get_str (m_header (pub_base msg)) "msg_type"%string [] in
  Ok (msg, str_eqb msg_type "iopub_welcome"%string).

Definition set_receiver (r : Receiver) (c : ClientIopub) : ClientIopub :=
  {| incoming := incoming c; stop_message := stop_message c; receiver := r; m_messageQueue := m_messageQueue c;
     m_welcomed := m_welcomed c; m_signalled := m_signalled c; signals := signals c; waiter := waiter c;
     popped := popped c |}.

Definition take_incoming (rest : list frames) (welcomed : bool) (r : Receiver) (c : ClientIopub) : ClientIopub :=
  {| incoming := rest; stop_message := stop_message c; receiver := r; m_messageQueue := m_messageQueue c;
     m_welcomed := m_welcomed c || welcomed; m_signalled := m_signalled c; signals := signals c; waiter := waiter c;
     popped := popped c |}.

(** The end of a turn: the stop message is answered, or the loop goes on. *)
Definition after_message (stop : bool) (c : ClientIopub) : ClientIopub :=
  if stop then
    {| incoming := incoming c; stop_message := false; receiver := REnd; m_messageQueue := m_messageQueue c;
       m_welcomed := m_welcomed c; m_signalled := m_signalled c; signals := signals c; waiter := waiter c;
       popped := popped c |}
  else set_receiver RPoll c.

Definition receiver_step (c : ClientIopub) : ClientIopub :=
  match receiver c with
  | RPoll =>
      match incoming c with
      | [] => if stop_message c then after_message true c else c
      | wire :: rest =>
          match read_iopub wire with
          | Ok (msg, welcomed) => take_incoming rest welcomed (RRead msg (stop_message c)) c
          | Throw _ => take_incoming rest false RPoll c
          | Undefined => take_incoming rest false RCrash c
          end
      end
  | RRead msg stop =>
      {| incoming := incoming c; stop_message := stop_message c; receiver := RQueued stop;
         m_messageQueue := m_messageQueue c ++ [msg]; m_welcomed := m_welcomed c; m_signalled := m_signalled c;
         signals := signals c; waiter := waiter c; popped := popped c |}
  | RQueued stop =>
      if m_signalled c then after_message stop c
      else {| incoming := incoming c; stop_message := stop_message c; receiver := RSignal stop;
              m_messageQueue := m_messageQueue c; m_welcomed := m_welcomed c; m_signalled := true;
              signals := signals c; waiter := waiter c; popped := popped c |}
  | RSignal stop =>
      after_message stop
        {| incoming := incoming c; stop_message := stop_message c; receiver := receiver c;
           m_messageQueue := m_messageQueue c; m_welcomed := m_welcomed c; m_signalled := m_signalled c;
           signals := S (signals c); waiter := waiter c; popped := popped c |}
  | REnd | RCrash => c
  end.

Definition set_waiter (w : Waiter) (c : ClientIopub) : ClientIopub :=
  {| incoming := incoming c; stop_message := stop_message c; receiver := receiver c; m_messageQueue := m_messageQueue c;
     m_welcomed := m_welcomed c; m_signalled := m_signalled c; signals := signals c; waiter := w; popped := popped c |}.

(** [popIopubMessage] *)
Definition popIopubMessage (c : ClientIopub) : option PubMessage * ClientIopub :=
  match m_messageQueue c with
  | [] => (None, c)
  | msg :: queue =>
      (Some msg, {| incoming := incoming c; stop_message := stop_message c; receiver := receiver c;
                    m_messageQueue := queue; m_welcomed := m_welcomed c; m_signalled := m_signalled c;
                    signals := signals c; waiter := waiter c; popped := popped c ++ [msg] |})
  end.

(** [other]: another channel has a message, or the poll's time is over. *)
Definition waiter_step (other : bool) (c : ClientIopub) : ClientIopub :=
  match waiter c with
  | WDrain => match popIopubMessage c with (Some _, c) => c | (None, c) => set_waiter WCheck c end
  | WCheck => set_waiter (if negb (bool_decide (m_messageQueue c = [])) || other then WClear else WPoll) c
  | WPoll => if (0 <? signals c)%nat || other then set_waiter WClear c else c
  | WClear => {| incoming := incoming c; stop_message := stop_message c; receiver := receiver c;
                 m_messageQueue := m_messageQueue c; m_welcomed := m_welcomed c; m_signalled := false;
                 signals := signals c; waiter := WRead; popped := popped c |}
  | WRead => match signals c with
             | O => set_waiter WDrain c
             | S n => {| incoming := incoming c; stop_message := stop_message c; receiver := receiver c;
                         m_messageQueue := m_messageQueue c; m_welcomed := m_welcomed c; m_signalled := m_signalled c;
                         signals := n; waiter := WRead; popped := popped c |}
             end
  end.

Inductive IopubEvent :=
| Arrive (wire : frames)
| StopMessage
| ReceiverStep
| WaiterStep (other : bool).

Definition iopub_event (c : ClientIopub) (e : IopubEvent) : ClientIopub :=
  match e with
  | Arrive wire => {| incoming := incoming c ++ [wire]; stop_message := stop_message c; receiver := receiver c;
                      m_messageQueue := m_messageQueue c; m_welcomed := m_welcomed c; m_signalled := m_signalled c;
                      signals := signals c; waiter := waiter c; popped := popped c |}
  | StopMessage => {| incoming := incoming c; stop_message := true; receiver := receiver c;
                      m_messageQueue := m_messageQueue c; m_welcomed := m_welcomed c; m_signalled := m_signalled c;
                      signals := signals c; waiter := waiter c; popped := popped c |}
  | ReceiverStep => receiver_step c
  | WaiterStep other => waiter_step other c
  end.

Definition run_iopub (events : list IopubEvent) : ClientIopub := fold_left iopub_event events newIopub.

End Iopub.

(** ** What reaches the client's queue, and what wakes its reader *)
Section IopubClient.
Context `{J : JsonLib} `{Ossl : OpenSSL}.
Variable auth : Authentication.

Definition arrivals (events : list IopubEvent) : list frames :=
  omap (fun e => match e with Arrive wire => Some wire | _ => None end) events.

(** The messages that can be read, with whether each is a welcome. *)
Definition readable (wires : list frames) : list (PubMessage * bool) :=
  omap (fun wire => match read_iopub auth wire with Ok x => Some x | _ => None end) wires.

Definition in_hand (r : Receiver) : list PubMessage := match r with RRead msg _ => [msg] | _ => [] end.

(** All messages read so far are popped, queued or about to be, in order. *)
Definition delivers (arrived : list frames) (c : ClientIopub) : Prop :=
  exists handled, arrived = handled ++ incoming c
    /\ popped c ++ m_messageQueue c ++ in_hand (receiver c) = (readable handled).*1
    /\ m_welcomed c = existsb snd (readable handled).

Lemma arrivals_snoc events e :
  arrivals (events ++ [e]) = arrivals events ++ match e with Arrive wire => [wire] | _ => [] end.
Proof. unfold arrivals. rewrite omap_app. by destruct e. Qed.

Lemma readable_snoc wires wire :
  readable (wires ++ [wire]) = readable wires ++ match read_iopub auth wire with Ok x => [x] | _ => [] end.
Proof. unfold readable. rewrite omap_app. cbn. by destruct (read_iopub auth wire). Qed.

(** A step that moves no message. *)
Lemma delivers_same arrived c c' :
  incoming c' = incoming c -> popped c' ++ m_messageQueue c' ++ in_hand (receiver c')
                              = popped c ++ m_messageQueue c ++ in_hand (receiver c) ->
  m_welcomed c' = m_welcomed c -> delivers arrived c -> delivers arrived c'.
Proof. intros H1 H2 H3 (handled & -> & Hq & Hw). exists handled. by rewrite H1, H2, H3. Qed.

Lemma delivers_receiver arrived c : delivers arrived c -> delivers arrived (receiver_step auth c).
Proof.
  intros H. unfold receiver_step. destruct (receiver c) as [|msg stop|stop|stop| |] eqn:Hr.
  - destruct (incoming c) as [|wire rest] eqn:Hin.
    + destruct (stop_message c); [| done]. revert H. by apply delivers_same; cbn; rewrite ?Hr.
    + destruct H as (handled & -> & Hq & Hw). rewrite Hr in Hq. cbn [in_hand] in Hq. rewrite app_nil_r in Hq.
      exists (handled ++ [wire]). rewrite readable_snoc, Hin, <- app_assoc.
      destruct (read_iopub auth wire) as [[msg welcomed]|what|]; cbn [take_incoming incoming popped m_messageQueue receiver m_welcomed in_hand];
        (split; [done |]); rewrite ?app_nil_r, ?fmap_app, ?existsb_app, Hw; cbn; rewrite ?orb_false_r, <- Hq;
        by rewrite ?app_assoc.
  - revert H. apply delivers_same; cbn; rewrite ?Hr; cbn; rewrite ?app_nil_r; done.
  - destruct (m_signalled c), stop; revert H; apply delivers_same; cbn; rewrite ?Hr; done.
  - destruct stop; revert H; apply delivers_same; cbn; rewrite ?Hr; done.
  - done.
  - done.
Qed.

Lemma delivers_waiter arrived other c : delivers arrived c -> delivers arrived (waiter_step other c).
Proof.
  apply delivers_same; unfold waiter_step, popIopubMessage;
    destruct (waiter c), (m_messageQueue c) as [|m queue] eqn:Hq, (signals c), other; cbn; rewrite ?Hq; try done;
    by rewrite <- app_assoc.
Qed.

Lemma delivers_run events : delivers (arrivals events) (run_iopub auth events).
Proof.
  unfold run_iopub. induction events as [|e events IH] using rev_ind; [by exists [] |].
  rewrite fold_left_app, arrivals_snoc. cbn [fold_left].
  destruct e; cbn [iopub_event]; rewrite ?app_nil_r; [| exact IH | by apply delivers_receiver | by apply delivers_waiter].
  destruct IH as (handled & Ha & Hq & Hw). exists handled. rewrite Ha, <- app_assoc. done.
Qed.

(** *** Signals *)

(** Whether a signal was sent while the waiter was reading the signals, since
    it last cleared the flag. *)
Definition raced_step (raced : bool) (c : ClientIopub) (e : IopubEvent) : bool :=
  match e, receiver c, waiter c with
  | ReceiverStep, RSignal _, WRead => true
  | WaiterStep _, _, WClear => false
  | _, _, _ => raced
  end.

Definition raced (events : list IopubEvent) : bool :=
  fst (fold_left (fun bc e => (raced_step bc.1 bc.2 e, iopub_event auth bc.2 e)) events (false, newIopub)).

Definition signalling (r : Receiver) : Prop := match r with RSignal _ => True | _ => False end.
Definition announcing (r : Receiver) : Prop := match r with RQueued _ | RSignal _ => True | _ => False end.

(** The flag is up only for a signal that is there, is coming, or was read too
    early; a message that came while the waiter polls is announced. *)
Record signals_sound (b : bool) (c : ClientIopub) : Prop := {
  flag_kept : m_signalled c = true -> signalling (receiver c) \/ (0 < signals c)%nat \/ b = true;
  flag_reading : waiter c = WRead -> m_signalled c = true -> signalling (receiver c) \/ b = true;
  flag_polling : waiter c = WPoll -> m_messageQueue c <> [] -> announcing (receiver c) \/ m_signalled c = true \/ (0 < signals c)%nat
}.

Lemma signals_receiver b c : signals_sound b c -> signals_sound (raced_step b c ReceiverStep) (receiver_step auth c).
Proof.
  intros [H1 H2 H3]. unfold receiver_step, raced_step.
  destruct (receiver c) as [|msg stop|stop|stop| |] eqn:Hr; cbn in H1, H2, H3.
  - destruct (incoming c) as [|wire rest]; [destruct (stop_message c) |
      destruct (read_iopub auth wire) as [[msg welcomed]|what|]]; split; cbn; rewrite ?Hr; cbn; auto.
  - split; cbn; auto.
  - destruct (m_signalled c) eqn:Hs, stop; split; cbn; auto.
  - destruct (waiter c) eqn:Hw, stop; split; cbn; intros; try rewrite Hw in *; try done; auto with lia.
    all: first [right; left; lia | right; right; lia].
  - split; cbn; rewrite ?Hr; auto.
  - split; cbn; rewrite ?Hr; auto.
Qed.

Lemma signals_waiter b c other : signals_sound b c ->
  signals_sound (raced_step b c (WaiterStep other)) (waiter_step other c).
Proof.
  intros [H1 H2 H3]. unfold waiter_step, popIopubMessage, raced_step.
  destruct (waiter c) eqn:Hw.
  - destruct (m_messageQueue c) as [|m queue] eqn:Hq; split; cbn; rewrite ?Hw, ?Hq; destruct (receiver c); auto; done.
  - split; cbn; destruct (receiver c), other, (bool_decide (m_messageQueue c = [])) eqn:E; cbn; auto; try done;
      apply bool_decide_eq_true in E; rewrite E; done.
  - destruct (0 <? signals c)%nat, other; cbn; split; cbn; rewrite ?Hw; destruct (receiver c); auto; done.
  - split; cbn; done.
  - specialize (H2 eq_refl). destruct (signals c) as [|n] eqn:Hn; split; cbn; rewrite ?Hw, ?Hn; try done; destruct (receiver c); naive_solver.
Qed.

Lemma signals_run events : signals_sound (raced events) (run_iopub auth events).
Proof.
  unfold raced, run_iopub.
  assert (forall es b c, signals_sound b c ->
    let bc := fold_left (fun bc e => (raced_step bc.1 bc.2 e, iopub_event auth bc.2 e)) es (b, c) in
    signals_sound bc.1 bc.2 /\ bc.2 = fold_left (iopub_event auth) es c) as H.
  { induction es as [|e es IH]; intros b c Hs; [done |]. cbn [fold_left fst snd]. apply IH.
    destruct e; [| | by apply signals_receiver | by apply signals_waiter]; destruct Hs as [H1 H2 H3];
      split; cbn; destruct (receiver c), (waiter c); auto. }
  destruct (H events false newIopub) as [Hs <-]; [by split | exact Hs].
Qed.

(** The output of a kernel reaches the supervisor's reader.  Over any
    interleaving of the output thread, the reader and the network: the messages
    read so far are the ones popped, queued or just read, in the order they
    arrived, each once; the welcome is noted exactly when it was read; and a
    message that is queued while the reader polls wakes it (a signal is there
    or on its way), unless a signal was sent while the reader was reading the
    signals: then the reader wakes when its poll ends. *)
Theorem iopub_delivery events : let c := run_iopub auth events in
  delivers (arrivals events) c
  /\ (waiter c = WPoll -> m_messageQueue c <> [] ->
      announcing (receiver c) \/ (0 < signals c)%nat \/ raced events = true)
  /\ (waiter c = WPoll -> waiter (waiter_step true c) = WClear).
Proof.
  intros c. split; [apply delivers_run |]. destruct (signals_run events) as [H1 H2 H3]. fold c in H1, H2, H3. split.
  - intros Hw Hq. destruct (H3 Hw Hq) as [Ha | [Hs | Hs]]; [by left | | by right; left]. destruct (H1 Hs) as [Ha | Ha]; [left | by right].
    by destruct (receiver c).
  - intros Hw. unfold waiter_step. rewrite Hw. by rewrite orb_true_r.
Qed.

End IopubClient.

(** ** From the kernel's threads to the supervisor's reader *)
Section EndToEnd.
Context `{JL : JsonLaws} `{OL : OpenSSLLaws}.
Variables (auth : Authentication) (handler : error_handler) (msg_id date : str).

(** A message the program can publish: its parts are values that JSON
    represents, its type is a string. *)
Record publishable (m : PubMessage) : Prop := {
  publishable_sendable : sendable (pub_base m);
  publishable_content : is_discarded (m_content (pub_base m)) = false;
  publishable_topic : topic m <> DELIMITER;
  publishable_type : is_ok (value get_str (m_header (pub_base m)) "msg_type"%string []) = true
}.

Definition same_pub (m m' : PubMessage) : Prop := topic m = topic m' /\ same_message (pub_base m) (pub_base m').
Definition serialized (m : PubMessage) (wire : frames) : Prop := serializeIopub m auth handler = Ok wire.

Definition publishes (events : list PublisherEvent) : list frames :=
  omap (fun e => match e with Publish wire => Some wire | _ => None end) events.

(** The welcomes that a subscription asks for can be published. *)
Definition good_event (e : PublisherEvent) : Prop :=
  match e with Subscription [_ :: t] => publishable (createPubMessage msg_id date t) | _ => True end.

(** What the publisher sent, and whether each message is the kernel's. *)
Record publisher_log (ms : list PubMessage) (p : Publisher) (log : list (bool * PubMessage)) : Prop := {
  log_sent : Forall2 serialized log.*2 (published p);
  log_good : Forall publishable log.*2;
  log_kernel : exists rest, ms = (List.filter fst log).*2 ++ rest /\ Forall2 serialized rest (listener_queue p);
  log_events : Forall (fun event => good_event (Subscription event)) (subscription_events p)
}.

Lemma welcome_publishes event wires : good_event (Subscription event) -> welcome auth handler msg_id date event = Ok wires ->
  exists ms, Forall2 serialized ms wires /\ Forall publishable ms.
Proof.
  destruct event as [|[|e t] [|]]; cbn [welcome]; try done. intros Hg. destruct (code e =? 1); [| intros [= <-]; by exists []].
  destruct (serializeIopub _ auth handler) as [wire| |] eqn:Hw; [| done | done]. intros [= <-].
  exists [createPubMessage msg_id date t]. split; (constructor; [done | constructor]).
Qed.

(** Taking a message from the queue to the socket. *)
Lemma log_take ms p log : Forall publishable ms -> publisher_log ms p log ->
  exists log' sent, sent = match listener_queue p with wire :: _ => [wire] | [] => [] end
    /\ Forall2 serialized log'.*2 (published p ++ sent) /\ Forall publishable log'.*2
    /\ exists rest, ms = (List.filter fst log').*2 ++ rest /\ Forall2 serialized rest (tail (listener_queue p)).
Proof.
  intros Hms [H1 H2 (rest & -> & H3) _]. destruct (listener_queue p) as [|wire queue].
  - exists log, []. rewrite app_nil_r. repeat split; try done. exists rest. done.
  - apply Forall2_cons_inv_r in H3 as (m & rest' & Hm & Hrest & ->).
    exists (log ++ [(true, m)]), [wire]. apply Forall_app in Hms as [_ Hms]. apply Forall_cons in Hms as [Hm' _].
    rewrite fmap_app, List.filter_app, fmap_app. split; [done |]. split; [by apply Forall2_app; [| constructor] |].
    split; [rewrite Forall_app; split; [done | by constructor] |]. exists rest'. by rewrite <- app_assoc.
Qed.

Lemma log_turn ms p log : Forall publishable ms -> publisher_log ms p log ->
  exists log', publisher_log ms (publisher_turn auth handler msg_id date p) log'.
Proof.
  intros Hms H. pose proof H as [_ _ _ Hev].
  destruct (log_take ms p log Hms H) as (log' & sent & Hsent & H1 & H2 & H3).
  unfold publisher_turn. rewrite <- Hsent. destruct (publisher_thread p); [| by exists log | by exists log].
  destruct (stop_waits p); [exists log'; by split |].
  destruct (subscription_events p) as [|event events]; [exists log'; by split |].
  apply Forall_cons in Hev as [He Hev].
  destruct (welcome auth handler msg_id date event) as [wires| |] eqn:Hw; [| exists log'; by split | exists log'; by split].
  destruct (welcome_publishes event wires He Hw) as (ws & Hws & Hg).
  exists (log' ++ ((fun m => (false, m)) <$> ws)).
  assert (((fun m : PubMessage => (false, m)) <$> ws).*2 = ws) as E2 by (rewrite <- list_fmap_compose; apply list_fmap_id).
  assert (List.filter fst ((fun m : PubMessage => (false, m)) <$> ws) = []) as E3 by (clear; by induction ws).
  split; cbn; rewrite ?fmap_app, ?List.filter_app, ?E2, ?E3, ?app_nil_r; [| | done | done].
  - rewrite app_assoc. by apply Forall2_app.
  - by rewrite Forall_app.
Qed.

Lemma publisher_logged events : forall ms, Forall2 serialized ms (publishes events) -> Forall publishable ms ->
  Forall good_event events -> exists log, publisher_log ms (run_publisher auth handler msg_id date events) log.
Proof.
  unfold run_publisher. induction events as [|e events IH] using rev_ind; intros ms Hser Hms Hev.
  { apply Forall2_nil_inv_r in Hser as ->. exists []. split; try constructor. by exists []. }
  unfold publishes in Hser. rewrite omap_app in Hser. apply Forall_app in Hev as [Hev He].
  apply Forall_cons in He as [He _]. rewrite fold_left_app. cbn [fold_left].
  apply Forall2_app_inv_r in Hser as (ms1 & ms2 & Hs1 & Hs2 & ->). apply Forall_app in Hms as [Hm1 Hm2].
  destruct (IH ms1 Hs1 Hm1 Hev) as (log & Hlog). pose proof Hlog as [H1 H2 (rest & Hr & H3) H4].
  destruct e as [wire|event| |]; cbn in Hs2.
  - exists log. split; cbn; [done | done | | done].
    exists (rest ++ ms2). rewrite Hr, <- app_assoc. split; [done |]. by apply Forall2_app.
  - apply Forall2_nil_inv_r in Hs2 as ->. rewrite app_nil_r. exists log. split; cbn; [done | done | by exists rest |].
    rewrite Forall_app. split; [done | by constructor].
  - apply Forall2_nil_inv_r in Hs2 as ->. rewrite app_nil_r. exists log. by split; cbn; [| | exists rest |].
  - apply Forall2_nil_inv_r in Hs2 as ->. rewrite app_nil_r. by apply (log_turn ms1 _ log).
Qed.

(** What was serialised can be read, and is the same message. *)
Lemma readable_serialized ms wires : Forall2 serialized ms wires -> Forall publishable ms ->
  Forall2 same_pub (readable auth wires).*1 ms.
Proof.
  intros H. induction H as [|m wire ms wires Hm H IH]; intros Hp; [constructor |].
  apply Forall_cons in Hp as [[Hs Hd Ht Hty] Hp]. destruct m as [t b]. cbn [topic pub_base] in *.
  destruct (pub_roundtrip t b auth handler true Hs Hd Ht) as (wire' & msg & Hw & Hr & Htop & Hsame).
  unfold serialized in Hm. assert (wire' = wire) as -> by congruence.
  unfold readable. cbn [omap list_omap]. unfold read_iopub at 1. rewrite Hr.
  pose proof (same_header _ _ Hsame) as Hh. rewrite <- Hh in Hty.
  destruct (value get_str _ _ _); [| done | done]. cbn. constructor; [by split | by apply IH].
Qed.

(** C34: the output of a kernel, from its threads to the supervisor.  Whatever
    the interleaving of publishing, subscriptions and the publisher's turns,
    and of the supervisor's threads: the publisher sends the kernel's messages,
    each once and in order, with the welcomes in between; and when everything
    that it sent after the supervisor's subscription took effect (from some
    message [k] on) was received and read, the supervisor's reader has exactly
    these messages, popped or in its queue, in order, equal to the ones the
    kernel published. *)
Theorem output_reaches_client ms events client_events k :
  Forall2 serialized ms (publishes events) -> Forall publishable ms -> Forall good_event events ->
  let p := run_publisher auth handler msg_id date events in
  let c := run_iopub auth client_events in
  arrivals client_events = drop k (published p) -> incoming c = [] -> receiver c = RPoll \/ receiver c = REnd ->
  exists log : list (bool * PubMessage),
    (exists rest, ms = (List.filter fst log).*2 ++ rest /\ length rest = length (listener_queue p))
    /\ length log = length (published p)
    /\ Forall2 same_pub (popped c ++ m_messageQueue c) (drop k log.*2).
Proof.
  intros Hser Hms Hev p c Harr Hin Hrec. destruct (publisher_logged events ms Hser Hms Hev) as (log & [H1 H2 (rest & Hr & H3) _]).
  fold p in H1, H3. exists log. split; [exists rest; split; [done | by eapply Forall2_length] |].
  split; [by rewrite <- (Forall2_length _ _ _ H1), length_fmap |].
  destruct (delivers_run auth client_events) as (handled & Ha & Hq & _). fold c in Ha, Hq.
  rewrite Hin, app_nil_r, Harr in Ha.
  assert (in_hand (receiver c) = []) as Hh by (by destruct Hrec as [-> | ->]). rewrite Hh, app_nil_r in Hq. rewrite Hq, <- Ha.
  apply readable_serialized; [by apply Forall2_drop | by apply Forall_drop].
Qed.

End EndToEnd.

(** ** Examples *)
Section ChannelExamples.

(** Four pings in a row without an answer. *)
Definition unanswered : list Round := repeat (Polled 0 20000000 Quiet Quiet) 4.

Lemma heartbeat_verdict_witness :
  notified (run (newHeartbeat max_retry) (Polled 0 500 Message Quiet :: unanswered)) = [true].
Proof.
  apply (heartbeat_verdict max_retry (Polled 0 500 Message Quiet :: unanswered)).
  exists [true], []. vm_compute. reflexivity.
Defined.

(** Three are not enough, and a round that throws does not count. *)
Example three_misses :
  notified (run (newHeartbeat max_retry) ([Polled 0 20000000 Quiet Quiet; Exception] ++ repeat (Polled 0 20000000 Quiet Quiet) 2
              ++ [Polled 0 100 Message Quiet])) = [].
Proof. reflexivity. Qed.

Definition channel_auth : Authentication := OpensslAuthentication "SHA256"%string "key"%string.

Definition status_message : PubMessage (J := Concrete.concrete) :=
  {| topic := "kernel.status"%string;
     pub_base := makeMessageBase (mk_object []) (mk_object []) (mk_object []) (mk_object []) [] |}.

Definition status_wire : frames :=
  match serializeIopub (Ossl := Stub.stub) status_message channel_auth Strict with Ok wire => wire | _ => [] end.

(** A signal sent while the reader reads the signals: the flag stays up with
    no signal there, so the next message wakes nobody until the poll ends. *)
Definition lost_signal_events : list IopubEvent :=
  [WaiterStep true; WaiterStep true; Arrive status_wire; ReceiverStep; ReceiverStep; WaiterStep true;
   ReceiverStep; ReceiverStep; WaiterStep true; WaiterStep true; WaiterStep true; WaiterStep false; WaiterStep false;
   Arrive status_wire; ReceiverStep; ReceiverStep; ReceiverStep].

Example signal_lost :
  let c := run_iopub (J := Concrete.concrete) (Ossl := Stub.stub) channel_auth lost_signal_events in
  waiter c = WPoll /\ length (m_messageQueue c) = 1%nat /\ receiver c = RPoll /\ signals c = 0%nat
  /\ waiter_step false c = c /\ raced (Ossl := Stub.stub) channel_auth lost_signal_events = true.
Proof. cbv zeta. refine (conj _ (conj _ (conj _ (conj _ (conj _ _))))); vm_compute; reflexivity. Qed.

Definition example_published : list PublisherEvent :=
  [Publish status_wire; Subscription ["001"%char :: []]; PublisherTurn; Publish status_wire; PublisherTurn].

Definition example_wires : list frames :=
  published (run_publisher (J := Concrete.concrete) (Ossl := Stub.stub) channel_auth Strict [] [] example_published).

Definition example_received : list IopubEvent :=
  (Arrive <$> drop 1 example_wires) ++ repeat ReceiverStep 7.

Lemma status_publishable : publishable status_message.
Proof. split; [by split | reflexivity | discriminate | reflexivity]. Qed.

Lemma output_reaches_client_witness :
  let c := run_iopub (J := Concrete.concrete) (Ossl := Stub.stub) channel_auth example_received in
  exists log : list (bool * PubMessage),
    length log = 3%nat /\ Forall2 same_pub (popped c ++ m_messageQueue c) (drop 1 log.*2).
Proof.
  destruct (output_reaches_client (JL := Concrete.concrete_laws) (OL := Stub.stub_laws) channel_auth Strict [] []
    [status_message; status_message] example_published example_received 1) as (log & _ & Hl & Hf).
  - constructor; [vm_compute; reflexivity | constructor; [vm_compute; reflexivity | constructor]].
  - constructor; [exact status_publishable | constructor; [exact status_publishable | constructor]].
  - repeat (constructor; [exact I || (split; [by split | reflexivity | discriminate | reflexivity]) |]). constructor.
  - vm_compute. reflexivity.
  - vm_compute. reflexivity.
  - left. vm_compute. reflexivity.
  - exists log. split; [rewrite Hl; vm_compute; reflexivity | exact Hf].
Defined.

End ChannelExamples.
