(* ===== verification/Client.v ===== *)
(** * The supervisor's client of a kernel: transport/client/client_zmq_impl.cpp,
    dealer_channel.cpp, client_messenger.cpp

    Three DEALER sockets (shell, control, stdin) with one routing id, which the
    kernel's ROUTER sockets put before the frames they receive and take off the
    frames they send; what is for an id nobody has is dropped.  A socket is what
    it is connected to and the messages that have arrived ([inbox]).  The stop
    of the client's threads is two handshakes on REQ sockets, in milliseconds. *)

From Stdlib Require Import Ascii String ZArith Lia.
From S2P Require Import Prelude Utf8 Crypto Json Wire Registration.
Local Open Scope Z_scope.

(** ** A DEALER socket *)
Record DealerChannel := { routing_id : str; m_dealerEndPoint : str; linger : Z; inbox : list frames }.

Definition getSocketLinger : Z := 1000.

(** The socket's own id, [made], counts when none is given. *)
Definition newDealerChannel (made transport ip port identity : str) : DealerChannel :=
  {| routing_id := if bool_decide (identity = []) then made else identity;
     m_dealerEndPoint := getEndPoint transport ip port; linger := getSocketLinger; inbox := [] |}.

Definition set_inbox (fs : list frames) (d : DealerChannel) : DealerChannel :=
  {| routing_id := routing_id d; m_dealerEndPoint := m_dealerEndPoint d; linger := linger d; inbox := fs |}.

Definition arrive (fs : list frames) (d : DealerChannel) : DealerChannel := set_inbox (inbox d ++ fs) d.

(** One attempt; then, if it is blocking, another each millisecond: what
    arrives before each attempt is [arrivals].  [None] in the answer: there is
    nothing; no answer at all: it still waits. *)
Fixpoint receiveMessage (blocking : bool) (arrivals : list (list frames)) (d : DealerChannel) : option (option frames * DealerChannel) :=
  match arrivals with
  | [] => None
  | now :: later =>
      let d := arrive now d in
      match inbox d with
      | f :: rest => Some (Some f, set_inbox rest d)
      | [] => if blocking then receiveMessage blocking later d else Some (None, d)
      end
  end.

Definition hasMessage (d : DealerChannel) : bool := negb (bool_decide (inbox d = [])).

(** ** The client *)
Inductive Channel := Shell | Control | Stdin.

#[export] Instance channel_eq_dec : EqDecision Channel.
Proof. solve_decision. Defined.

Section Client.
Context `{J : JsonLib} `{Ossl : OpenSSL}.

Record ClientZmqImpl := {
  m_identity : str;
  p_auth : Authentication;
  m_shellClient : DealerChannel;
  m_controlClient : DealerChannel;
  m_stdinClient : DealerChannel;
  iopub : list PubMessage;
  m_errorHandler : error_handler
}.

Definition channel_of (c : Channel) (client : ClientZmqImpl) : DealerChannel :=
  match c with Shell => m_shellClient client | Control => m_controlClient client | Stdin => m_stdinClient client end.

Definition set_channel (c : Channel) (d : DealerChannel) (client : ClientZmqImpl) : ClientZmqImpl :=
  {| m_identity := m_identity client; p_auth := p_auth client;
     m_shellClient := match c with Shell => d | _ => m_shellClient client end;
     m_controlClient := match c with Control => d | _ => m_controlClient client end;
     m_stdinClient := match c with Stdin => d | _ => m_stdinClient client end;
     iopub := iopub client; m_errorHandler := m_errorHandler client |}.

Definition set_iopub (q : list PubMessage) (client : ClientZmqImpl) : ClientZmqImpl :=
  {| m_identity := m_identity client; p_auth := p_auth client; m_shellClient := m_shellClient client; m_controlClient := m_controlClient client;
     m_stdinClient := m_stdinClient client; iopub := q; m_errorHandler := m_errorHandler client |}.

(** The ports of the three channels. *)
Definition port_of (c : Channel) (config : KernelConfiguration) : str :=
  match c with Shell => m_shellPort config | Control => m_controlPort config | Stdin => m_stdinPort config end.

Definition newChannel (identity made : str) (c : Channel) (config : KernelConfiguration) : DealerChannel :=
  newDealerChannel made (m_transport (kernel_common config)) (m_ip (kernel_common config)) (port_of c config) identity.

(** [newGuid()] is an argument, and the ids the sockets would have made. *)
Definition newClient (guid : str) (made : Channel -> str) (config : KernelConfiguration) (eh : error_handler) : result ClientZmqImpl :=
  let? auth := makeAuthentication (m_signatureScheme (kernel_common config)) (m_key (kernel_common config)) in
  Ok {| m_identity := guid; p_auth := auth; m_shellClient := newChannel guid (made Shell) Shell config;
        m_controlClient := newChannel guid (made Control) Control config; m_stdinClient := newChannel guid (made Stdin) Stdin config;
        iopub := []; m_errorHandler := eh |}.

(** [sendOnShell], [sendOnControl], [sendOnStdin]: the frames that leave on that
    socket. *)
Definition send (client : ClientZmqImpl) (msg : Message) : result frames := serialize msg (p_auth client) (m_errorHandler client).

Definition deserialize_ (client : ClientZmqImpl) (wire_msg : frames) : result Message := deserialize wire_msg (p_auth client) true.
Definition deserializeIopub_ (client : ClientZmqImpl) (wire_msg : frames) : result PubMessage := deserializeIopub wire_msg (p_auth client) true.

(** [receiveOnShell], [receiveOnControl], [receiveOnStdin] *)
Definition receiveOn (c : Channel) (blocking : bool) (arrivals : list (list frames)) (client : ClientZmqImpl)
    : option (result (option Message) * ClientZmqImpl) :=
  match receiveMessage blocking arrivals (channel_of c client) with
  | None => None
  | Some (None, d) => Some (Ok None, set_channel c d client)
  | Some (Some wire_msg, d) => Some (let? m := deserialize_ client wire_msg in Ok (Some m), set_channel c d client)
  end.

(** [poll]: the first of the sockets that can be read is; a message that is not
    one is logged and it waits again.  A turn is what has arrived when
    [zmq::poll] returns. *)
Definition first_ready (client : ClientZmqImpl) : option Channel :=
  if hasMessage (m_shellClient client) then Some Shell
  else if hasMessage (m_controlClient client) then Some Control
  else if hasMessage (m_stdinClient client) then Some Stdin
  else None.

Definition arrive_all (now : Channel -> list frames) (client : ClientZmqImpl) : ClientZmqImpl :=
  set_channel Shell (arrive (now Shell) (m_shellClient client))
    (set_channel Control (arrive (now Control) (m_controlClient client))
      (set_channel Stdin (arrive (now Stdin) (m_stdinClient client)) client)).

Fixpoint poll (turns : list (Channel -> list frames)) (client : ClientZmqImpl) : option (result (Channel * Message) * ClientZmqImpl) :=
  match turns with
  | [] => None
  | now :: later =>
      let client := arrive_all now client in
      match first_ready client with
      | None => poll later client
      | Some c =>
          match inbox (channel_of c client) with
          | [] => poll later client
          | wire_msg :: rest =>
              let client := set_channel c (set_inbox rest (channel_of c client)) client in
              match deserialize_ client wire_msg with
              | Ok m => Some (Ok (c, m), client)
              | Throw _ => poll later client
              | Undefined => Some (Undefined, client)
              end
          end
      end
  end.

Inductive Notified := OnIopub (msg : PubMessage) | On (c : Channel) (msg : Message).

(** [waitForMessage]: a message of IOPUB that waits goes first. *)
Definition waitForMessage (turns : list (Channel -> list frames)) (client : ClientZmqImpl) : option (result Notified * ClientZmqImpl) :=
  match iopub client with
  | msg :: rest => Some (Ok (OnIopub msg), set_iopub rest client)
  | [] =>
      match poll turns client with
      | None => None
      | Some (r, client) => Some (let? (c, m) := r in Ok (On c m), client)
      end
  end.

(** ** The kernel's ROUTER sockets *)

Definition router_in (id : str) (fs : frames) : frames := id :: fs.
Definition router_out (fs : frames) : option (str * frames) := match fs with [] => None | id :: fs => Some (id, fs) end.

(** What the kernel's socket of channel [c] sends, at the clients connected to it. *)
Definition deliver (c : Channel) (fs : frames) (clients : list ClientZmqImpl) : list ClientZmqImpl :=
  match router_out fs with
  | None => clients
  | Some (id, fs) =>
      (fun client =>
         if bool_decide (routing_id (channel_of c client) = id) then set_channel c (arrive [fs] (channel_of c client)) client else client)
      <$> clients
  end.

End Client.

(** ** The stop of the client's threads *)

(** A REQ socket sends, then waits for the answer; a [send] before it came is
    refused. *)
Inductive Req := Ready | AwaitingReply.

Definition kStopTimeoutMs : Z := 5000.
Definition wrong_state : str := "Operation cannot be accomplished in current state"%string.

(** [answer]: after how long the thread answers "stop", if it does.  How long
    the round trip takes. *)
Definition stop_handshake (answer : option Z) (r : Req) : result Z * Req :=
  match r with
  | AwaitingReply => (Throw wrong_state, r)
  | Ready =>
      match answer with
      | Some t => if t <=? kStopTimeoutMs then (Ok t, Ready) else (Ok kStopTimeoutMs, AwaitingReply)
      | None => (Ok kStopTimeoutMs, AwaitingReply)
      end
  end.

Record ClientMessenger := { m_iopubController : Req; m_heartbeatController : Req }.

Definition newMessenger : ClientMessenger := {| m_iopubController := Ready; m_heartbeatController := Ready |}.

Definition stopChannels (iopub_answer heartbeat_answer : option Z) (m : ClientMessenger) : result Z * ClientMessenger :=
  match stop_handshake iopub_answer (m_iopubController m) with
  | (Ok t, r) =>
      match stop_handshake heartbeat_answer (m_heartbeatController m) with
      | (Ok u, r') => (Ok (t + u), {| m_iopubController := r; m_heartbeatController := r' |})
      | (e, r') => (e, {| m_iopubController := r; m_heartbeatController := r' |})
      end
  | (e, r) => (e, {| m_iopubController := r; m_heartbeatController := m_heartbeatController m |})
  end.

(** ** The stop is bounded *)

(** Stopping a client's threads ends within ten seconds whatever they do:
    each of the two is waited for until it answers, five seconds at most.  A
    second stop works when both had answered; when one had not, it is refused
    by the socket at once ([wrong_state]), and waits for nothing. *)
Theorem stop_bounded (a b a' b' : option Z) :
  (forall t, a = Some t \/ b = Some t -> 0 <= t) ->
  exists t m, stopChannels a b newMessenger = (Ok t, m) /\ 0 <= t <= 2 * kStopTimeoutMs
    /\ ((exists u v, a = Some u /\ b = Some v /\ u <= kStopTimeoutMs /\ v <= kStopTimeoutMs /\ t = u + v /\ m = newMessenger)
        \/ (kStopTimeoutMs <= t /\ fst (stopChannels a' b' m) = Throw wrong_state)).
Proof.
  intros H. unfold stopChannels, stop_handshake, kStopTimeoutMs. cbn.
  assert (Ha : forall t, a = Some t -> 0 <= t) by (intros; apply H; auto).
  assert (Hb : forall t, b = Some t -> 0 <= t) by (intros; apply H; auto). clear H.
  destruct a as [u |]; [specialize (Ha u eq_refl); destruct (Z.leb_spec u 5000) |];
    (destruct b as [v |]; [specialize (Hb v eq_refl); destruct (Z.leb_spec v 5000) |]); cbn;
    eexists _, _; (split; [reflexivity | split; [lia |]]).
  1: left; exists u, v; repeat split; done || lia.
  all: right; split; [lia |]; cbn; try done; destruct a' as [x |]; cbn; try done; by destruct (x <=? 5000).
Qed.

Lemma stop_bounded_witness :
  exists t m, stopChannels (Some 3) None newMessenger = (Ok t, m) /\ 0 <= t <= 10000.
Proof.
  destruct (stop_bounded (Some 3) None None None) as (t & m & Hs & Ht & _).
  - intros t [[= <-] | [=]]. lia.
  - exists t, m. split; [exact Hs | exact Ht].
Defined.

(** The heartbeat's thread has ended when it has found the kernel dead: the stop
    waits for it all the same, and cannot be done again. *)
Example dead_heartbeat :
  stopChannels (Some 2) None newMessenger = (Ok 5002, {| m_iopubController := Ready; m_heartbeatController := AwaitingReply |})
  /\ fst (stopChannels (Some 2) None {| m_iopubController := Ready; m_heartbeatController := AwaitingReply |}) = Throw wrong_state.
Proof. split; reflexivity. Qed.

(** ** A conversation *)
Section Conversation.
Context `{JL : JsonLaws} `{OL : OpenSSLLaws}.

(** A client of the kernel with this configuration. *)
Record joined (config : KernelConfiguration) (eh : error_handler) (client : ClientZmqImpl) : Prop := {
  joined_auth : makeAuthentication (m_signatureScheme (kernel_common config)) (m_key (kernel_common config)) = Ok (p_auth client);
  joined_handler : m_errorHandler client = eh;
  joined_id : forall c, routing_id (channel_of c client) = m_identity client
}.

Lemma newClient_joined guid made config eh client : guid <> [] -> newClient guid made config eh = Ok client -> joined config eh client.
Proof.
  intros Hg. unfold newClient. destruct (makeAuthentication _ _) as [auth | |] eqn:Ha; [| done ..]. intros [= <-].
  constructor; [done .. |]. intros []; cbn; by rewrite bool_decide_eq_false_2.
Qed.

Lemma channel_set c c' d client : channel_of c (set_channel c' d client) = if decide (c = c') then d else channel_of c client.
Proof. by destruct c, c'. Qed.

Lemma set_channel_joined config eh c d client :
  joined config eh client -> routing_id d = routing_id (channel_of c client) -> joined config eh (set_channel c d client).
Proof.
  intros [Ha Hh Hi] Hd. constructor; [done .. |]. intros c'. rewrite channel_set. destruct (decide (c' = c)) as [-> |]; [| apply Hi].
  rewrite Hd. apply Hi.
Qed.

Lemma receiveMessage_id blocking arrivals : forall d f d', receiveMessage blocking arrivals d = Some (f, d') -> routing_id d' = routing_id d.
Proof.
  induction arrivals as [| now later IH]; intros d f d'; cbn; [done |]. destruct (inbox d ++ now) as [| g rest].
  - destruct blocking; [| by intros [= <- <-]]. intros H. by apply IH in H.
  - by intros [= <- <-].
Qed.

Lemma receiveOn_joined config eh c blocking arrivals client r client' :
  joined config eh client -> receiveOn c blocking arrivals client = Some (r, client') -> joined config eh client'.
Proof.
  intros Hj. unfold receiveOn. destruct (receiveMessage _ _ _) as [[[f |] d] |] eqn:Hr; [| | done].
  all: apply receiveMessage_id in Hr; intros [= <- <-]; by apply set_channel_joined.
Qed.

Lemma arrive_all_joined config eh now client : joined config eh client -> joined config eh (arrive_all now client).
Proof. intros Hj. unfold arrive_all. repeat apply set_channel_joined; done. Qed.

Lemma poll_joined config eh turns : forall client r client',
  joined config eh client -> poll turns client = Some (r, client') -> joined config eh client'.
Proof.
  induction turns as [| now later IH]; intros client r client' Hj; cbn; [done |].
  pose proof (arrive_all_joined config eh now client Hj) as Ha. destruct (first_ready _) as [c |]; [| by apply IH].
  destruct (inbox _) as [| f rest]; [by apply IH |].
  assert (Hs : joined config eh (set_channel c (set_inbox rest (channel_of c (arrive_all now client))) (arrive_all now client)))
    by (by apply set_channel_joined).
  destruct (deserialize_ _ f); [by intros [= <- <-] | by apply IH | by intros [= <- <-]].
Qed.

Lemma deliver_at c id fs clients j client :
  clients !! j = Some client ->
  deliver c (id :: fs) clients !! j
  = Some (if bool_decide (routing_id (channel_of c client) = id) then set_channel c (arrive [fs] (channel_of c client)) client else client).
Proof. intros H. unfold deliver. cbn. by rewrite list_lookup_fmap, H. Qed.

(** What the kernel sends to the peer [id] of its socket [c']: only that peer's
    socket of that channel gets it, and reads it as the message sent. *)
Definition reaches (c : Channel) (ids : list str) (out : frames) (r : MessageBase) (clients : list ClientZmqImpl) (k : nat) (client : ClientZmqImpl) : Prop :=
  (forall j other, j <> k -> clients !! j = Some other -> deliver c out clients !! j = Some other)
  /\ exists client', deliver c out clients !! k = Some client'
     /\ (forall d, d <> c -> channel_of d client' = channel_of d client)
     /\ (inbox (channel_of c client) = [] -> exists msg client'',
          receiveOn c false [[]] client' = Some (Ok (Some msg), client'')
          /\ inbox (channel_of c client'') = [] /\ identities msg = ids /\ same_message (base msg) r).

Lemma serialized ids m auth handler : sendable m -> is_discarded (m_content m) = false ->
  exists body, serialize {| identities := ids; base := m |} auth handler = Ok (serializeZmqId ids ++ body)
  /\ forall defer, exists m', deserializeMessageBase body auth defer = Ok m' /\ same_message m' m.
Proof.
  intros Hs Hd. destruct (message_base_roundtrip m auth handler false Hs Hd) as (body & Hb & _).
  exists body. unfold serialize. cbn [base identities]. rewrite Hb. split; [done |]. intros defer.
  destruct (message_base_roundtrip m auth handler defer Hs Hd) as (body' & Hb' & H). rewrite Hb in Hb'. by simplify_eq.
Qed.

Lemma deserialized ids body auth defer m' : DELIMITER ∉ ids -> deserializeMessageBase body auth defer = Ok m' ->
  deserialize (serializeZmqId ids ++ body) auth defer = Ok {| identities := ids; base := m' |}.
Proof. intros Hi Hm. unfold deserialize. by rewrite deserializeZmqId_serialize, Hm. Qed.

Lemma reply_reaches config eh c ids clients k client r handler :
  Forall (joined config eh) clients -> NoDup (m_identity <$> clients) -> clients !! k = Some client ->
  DELIMITER ∉ ids -> sendable r -> is_discarded (m_content r) = false ->
  exists out, serialize {| identities := m_identity client :: ids; base := r |} (p_auth client) handler = Ok out
    /\ reaches c ids out r clients k client.
Proof.
  intros Hj Hn Hk Hi Hs Hd. destruct (serialized (m_identity client :: ids) r (p_auth client) handler Hs Hd) as (body & Hb & Hm).
  eexists. split; [exact Hb |].
  change (serializeZmqId (m_identity client :: ids) ++ body) with (m_identity client :: (serializeZmqId ids ++ body)).
  rewrite Forall_lookup in Hj. split.
  - intros j other Hne Ho. rewrite (deliver_at _ _ _ _ _ _ Ho), bool_decide_eq_false_2; [done |].
    rewrite (joined_id _ _ _ (Hj j other Ho)). intros Heq. apply Hne.
    apply (NoDup_lookup (m_identity <$> clients) j k (m_identity other) Hn); rewrite list_lookup_fmap; [by rewrite Ho |].
    rewrite Hk. cbn. by rewrite Heq.
  - rewrite (deliver_at _ _ _ _ _ _ Hk), bool_decide_eq_true_2 by apply (joined_id _ _ _ (Hj k client Hk)).
    eexists. split; [done |]. split; [intros d Hne; by rewrite channel_set, decide_False |]. intros He.
    destruct (Hm true) as (m' & Hm' & Hsame). unfold receiveOn. rewrite channel_set, decide_True by done. cbn. rewrite He. cbn.
    unfold deserialize_. eexists _, _. assert (Hp : forall d x, p_auth (set_channel d x client) = p_auth client) by done.
    rewrite Hp, (deserialized ids body _ true m' Hi Hm'). split; [done |].
    split; [by rewrite channel_set, decide_True |]. done.
Qed.

(** C24: A conversation with the kernel.  A request that a client sends on any of
    its channels is the message the kernel reads, with the client's id before
    the identities it was sent with; and whatever the kernel sends to those
    identities - the reply on the same channel, or a question on stdin to who
    sent a request on shell - reaches that client, on that channel, as it was
    sent, and nothing else of it or of the other clients changes. *)
Theorem client_conversation config eh clients k client ids m c :
  Forall (joined config eh) clients -> NoDup (m_identity <$> clients) -> clients !! k = Some client ->
  DELIMITER ∉ m_identity client :: ids -> sendable m -> is_discarded (m_content m) = false ->
  exists fs req, send client {| identities := ids; base := m |} = Ok fs
    /\ deserialize (router_in (routing_id (channel_of c client)) fs) (p_auth client) false = Ok req
    /\ identities req = m_identity client :: ids /\ same_message (base req) m
    /\ forall c' r handler, sendable r -> is_discarded (m_content r) = false ->
       exists out, serialize {| identities := identities req; base := r |} (p_auth client) handler = Ok out
         /\ reaches c' ids out r clients k client.
Proof.
  intros Hj Hn Hk Hd Hs Hdisc. destruct (serialized ids m (p_auth client) (m_errorHandler client) Hs Hdisc) as (body & Hb & Hm).
  destruct (Hm false) as (m' & Hm' & Hsame).
  assert (Hid : routing_id (channel_of c client) = m_identity client).
  { rewrite Forall_lookup in Hj. apply (joined_id _ _ _ (Hj k client Hk)). }
  do 2 eexists. split; [exact Hb |]. rewrite Hid. split.
  { apply (deserialized (m_identity client :: ids) body _ false m' Hd Hm'). }
  split; [done |]. split; [done |]. intros c' r handler Hr Hrd. apply (reply_reaches config eh); try done.
  by apply not_elem_of_cons in Hd as [_ ?].
Qed.

End Conversation.

(** ** Samples *)
Module Toy.
#[local] Existing Instance Concrete.concrete.
#[local] Existing Instance Concrete.concrete_laws.
#[local] Existing Instance Stub.stub.
#[local] Existing Instance Stub.stub_laws.

Definition sample_config : KernelConfiguration :=
  {| kernel_common := newCommonConfiguration "key"%string; m_kernelId := []; m_controlPort := "2"%string; m_shellPort := "1"%string;
     m_stdinPort := "3"%string; m_iopubPort := "4"%string; m_hbPort := "5"%string |}.

Definition made (c : Channel) : str := match c with Shell => "s"%string | Control => "c"%string | Stdin => "i"%string end.

Definition clients (guids : list str) : list ClientZmqImpl :=
  guids ≫= fun g => match newClient g made sample_config Strict with Ok c => [c] | _ => [] end.

Definition two : list ClientZmqImpl := clients ["A"%string : str; "B"%string : str].

Definition supervisor_id : str := "client_id"%string.

Lemma two_joined : Forall (joined sample_config Strict) two /\ NoDup (m_identity <$> two).
Proof.
  split; [| apply (bool_decide_unpack _); vm_compute; exact I].
  unfold two, clients. cbn [mbind list_bind app].
  constructor; [by apply (newClient_joined "A"%string made) |]. constructor; [by apply (newClient_joined "B"%string made) | constructor].
Qed.

Lemma two_second : exists client, two !! 1%nat = Some client /\ m_identity client = ("B"%string : str).
Proof. eexists. split; [vm_compute; reflexivity | reflexivity]. Qed.

Lemma client_conversation_witness : exists client fs req,
  two !! 1%nat = Some client /\ send client {| identities := [supervisor_id]; base := example_message |} = Ok fs
  /\ deserialize (router_in (routing_id (channel_of Shell client)) fs) (p_auth client) false = Ok req
  /\ identities req = ["B"%string : str; supervisor_id].
Proof.
  destruct two_joined as [Hj Hn]. destruct two_second as (client & Hk & Hi).
  destruct (client_conversation sample_config Strict two 1 client [supervisor_id] example_message Shell Hj Hn Hk)
    as (fs & req & Hs & Hd & Hq & _).
  - rewrite Hi. rewrite !elem_of_cons, elem_of_nil. intros [H | [H | []]]; discriminate H.
  - apply example_sendable.
  - reflexivity.
  - exists client, fs, req. split; [exact Hk |]. split; [exact Hs |]. split; [exact Hd |]. rewrite Hq, Hi. reflexivity.
Defined.

(** With an id of its own for each channel, a question on stdin to who sent the
    request on shell would reach nobody: why the client gives them one. *)
Definition without_identity : list ClientZmqImpl := clients [[]].

Example question_dropped :
  (deliver Stdin [made Shell; DELIMITER] without_identity) = without_identity
  /\ exists client, deliver Stdin ["A"%string : str; DELIMITER] two !! 0%nat = Some client /\ inbox (m_stdinClient client) = [[DELIMITER]].
Proof. split; [vm_compute; reflexivity |]. eexists. split; vm_compute; reflexivity. Qed.
End Toy.
