(* ===== verification/Frames.v ===== *)
(** * What the poll thread relays: [SessionRegistry::pollLoop] of
    themisto/session_registry.cpp, and the frames it makes

    A large message's content is not parsed: [frameFor] puts the text the kernel
    sent into the text of the frame.  [Grammar] is JSON's (RFC 8259), as a
    relation between texts and values, so that what a client reads can be said.
    A turn of the loop reads the client's queues ([Client]); an exception leaves
    the thread, which nobody catches: it ends the supervisor. *)

From Stdlib Require Import Ascii String ZArith Lia.
From S2P Require Import Prelude Utf8 Crypto Json Wire PyText Registration Client.
Local Open Scope Z_scope.

(** ** JSON texts *)
Section Grammar.
Context `{J : JsonLib}.

(** Which numerals stand for which number. *)
Context (numeral : str -> json -> Prop).

Definition quote : byte := chr 34.
Definition backslash : byte := chr 92.
Definition white (c : byte) : Prop := c ∈ chr <$> [9; 10; 13; 32].

(** A character that stands for itself. *)
Definition plain (c : byte) : bool := (32 <=? code c) && negb (char_eqb c quote) && negb (char_eqb c backslash).

Definition escapes : list (byte * byte) :=
  [(quote, quote); (backslash, backslash); ("/"%char, "/"%char); ("b"%char, chr 8); ("f"%char, chr 12); ("n"%char, chr 10);
   ("r"%char, chr 13); ("t"%char, chr 9)].

Definition hex_value (c : byte) : option Z :=
  if (48 <=? code c) && (code c <=? 57) then Some (code c - 48)
  else if (65 <=? code c) && (code c <=? 70) then Some (code c - 55)
  else if (97 <=? code c) && (code c <=? 102) then Some (code c - 87)
  else None.

(** Four hexadecimal digits. *)
Inductive four_hex : str -> Z -> Prop :=
| four_hex_digits a b c d w x y z : hex_value a = Some w -> hex_value b = Some x -> hex_value c = Some y -> hex_value d = Some z ->
    four_hex [a; b; c; d] (((w * 16 + x) * 16 + y) * 16 + z).

(** The text between the quotes, and the bytes it stands for. *)
Inductive spells : str -> str -> Prop :=
| spells_end : spells [] []
| spells_plain c t s : plain c = true -> spells t s -> spells (c :: t) (c :: s)
| spells_escape e c t s : (e, c) ∈ escapes -> spells t s -> spells (backslash :: e :: t) (c :: s)
| spells_unicode h n t s : four_hex h n -> surrogate n = false -> spells t s ->
    spells (backslash :: "u"%char :: h ++ t) (encode_cp n ++ s)
| spells_pair h n l m t s : four_hex h n -> 0xD800 <= n <= 0xDBFF -> four_hex l m -> 0xDC00 <= m <= 0xDFFF -> spells t s ->
    spells (backslash :: "u"%char :: h ++ backslash :: "u"%char :: l ++ t)
           (encode_cp (0x10000 + (n - 0xD800) * 1024 + (m - 0xDC00)) ++ s).

Inductive key_text : str -> str -> Prop :=
| key_spelled t k : spells t k -> key_text (quote :: t ++ [quote]) k
| key_before c t k : white c -> key_text t k -> key_text (c :: t) k
| key_after c t k : white c -> key_text t k -> key_text (t ++ [c]) k.

(** An object is what [find] says of it: the order of its members is none. *)
Definition same_members (j : json) (ms : list (str * json)) : Prop :=
  type_of j = Jobject /\ NoDup ms.*1 /\ forall k v, find j k = Some v <-> (k, v) ∈ ms.

Inductive denotes : str -> json -> Prop :=
| d_null : denotes "null"%string null
| d_true : denotes "true"%string (mk_bool true)
| d_false : denotes "false"%string (mk_bool false)
| d_number t j : type_of j = Jnumber -> numeral t j -> denotes t j
| d_string t s : key_text t s -> denotes t (mk_str s)
| d_no_elements t : Forall white t -> denotes ("["%char :: t ++ ["]"%char]) (mk_array [])
| d_array t l : elements_text t l -> denotes ("["%char :: t ++ ["]"%char]) (mk_array l)
| d_no_members t j : Forall white t -> same_members j [] -> denotes ("{"%char :: t ++ ["}"%char]) j
| d_object t ms j : members_text t ms -> same_members j ms -> denotes ("{"%char :: t ++ ["}"%char]) j
| d_before c t j : white c -> denotes t j -> denotes (c :: t) j
| d_after c t j : white c -> denotes t j -> denotes (t ++ [c]) j
with elements_text : str -> list json -> Prop :=
| e_one t j : denotes t j -> elements_text t [j]
| e_more t j u l : denotes t j -> elements_text u l -> elements_text (t ++ ","%char :: u) (j :: l)
with members_text : str -> list (str * json) -> Prop :=
| m_one q k t j : key_text q k -> denotes t j -> members_text (q ++ ":"%char :: t) [(k, j)]
| m_more q k t j u ms : key_text q k -> denotes t j -> members_text u ms ->
    members_text (q ++ ":"%char :: t ++ ","%char :: u) ((k, j) :: ms).

End Grammar.

(** ** What the library writes *)

(** [dump()] writes a value's text (of one that has a text: a discarded value
    has none), compactly: an object of texts is a brace, its members in the order the
    library keeps them, a brace. *)
Class JsonText (J : JsonLib) (numeral : str -> json -> Prop) := {
  writable : json -> Prop;
  dump_denotes handler j t : writable j -> dump handler j = Ok t -> denotes numeral t j;
  dump_texts handler ms t : ms <> [] -> Forall (fun m => exists s, m.2 = mk_str s) ms -> NoDup ms.*1 ->
    dump handler (mk_object ms) = Ok t ->
    exists body ms', t = "{"%char :: body ++ ["}"%char] /\ ms' ≡ₚ ms /\ members_text numeral body ms'
}.

(** ** The frames *)
Section Frames.
Context `{J : JsonLib} `{Ossl : OpenSSL}.

Definition envelope_members (channel topic msg_type parent_msg_id : str) : list (str * json) :=
  [("type"%string : str, mk_str "message"%string); ("channel"%string : str, mk_str channel); ("topic"%string : str, mk_str topic);
   ("msg_type"%string : str, mk_str msg_type); ("parent_msg_id"%string : str, mk_str parent_msg_id)].

Definition envelope (channel topic msg_type parent_msg_id : str) : json := mk_object (envelope_members channel topic msg_type parent_msg_id).

Definition content_key : str := ","%char :: quote :: "content"%string ++ [quote; ":"%char].

Definition frameFor (channel topic : str) (msg : MessageBase) : result str :=
  let? msg_type := value get_str (m_header msg) "msg_type"%string [] in
  let? parent_msg_id := value get_str (m_parentHeader msg) "msg_id"%string [] in
  match contentText msg with
  | None => dump Strict (insert_key (envelope channel topic msg_type parent_msg_id) "content"%string (fst (content msg)))
  | Some text =>
      let? head := dump Strict (envelope channel topic msg_type parent_msg_id) in
      Ok (removelast head ++ content_key ++ text ++ ["}"%char])
  end.

(** ** A turn of the loop *)

(** What the session's callback got is [emitted]. *)
Record Poller := { p_client : ClientZmqImpl; answeredShutdown : bool; emitted : list str }.

Definition emitMessage (frame : str) (p : Poller) : Poller :=
  {| p_client := p_client p; answeredShutdown := answeredShutdown p; emitted := emitted p ++ [frame] |}.

Definition set_client (c : ClientZmqImpl) (p : Poller) : Poller :=
  {| p_client := c; answeredShutdown := answeredShutdown p; emitted := emitted p |}.

Definition channel_name (c : Channel) : str :=
  match c with Shell => "shell"%string | Control => "control"%string | Stdin => "stdin"%string end.

Definition relay (c : Channel) (msg : Message) (p : Poller) : result Poller :=
  let? msgType := value get_str (m_header (base msg)) "msg_type"%string [] in
  let p := if str_eqb msgType "shutdown_reply"%string
           then {| p_client := p_client p; answeredShutdown := true; emitted := emitted p |} else p in
  let? frame := frameFor (channel_name c) msgType (base msg) in
  Ok (emitMessage frame p).

(** The messages that wait, first to last. *)
Fixpoint drain_iopub (waiting : list PubMessage) (p : Poller) : result Poller :=
  match waiting with
  | [] => Ok p
  | msg :: rest =>
      let p := set_client (set_iopub rest (p_client p)) p in
      let? frame := frameFor "iopub"%string (topic msg) (pub_base msg) in
      drain_iopub rest (emitMessage frame p)
  end.

Definition drainIopub (p : Poller) : result Poller := drain_iopub (iopub (p_client p)) p.

(** The loop of one channel: [attempts] is at least what waits on it; nothing
    arrives meanwhile. *)
Fixpoint drain_channel (attempts : nat) (c : Channel) (p : Poller) : result Poller :=
  match attempts with
  | O => Ok p
  | S attempts =>
      match receiveOn c false [[]] (p_client p) with
      | None => Ok p
      | Some (r, client) =>
          let p := set_client client p in
          let? m := r in
          match m with
          | None => Ok p
          | Some msg => let? p := relay c msg p in drain_channel attempts c p
          end
      end
  end.

Definition drainChannel (c : Channel) (p : Poller) : result Poller :=
  drain_channel (S (length (inbox (channel_of c (p_client p))))) c p.

Definition drainReplyChannels (p : Poller) : result Poller :=
  let? p := drainChannel Shell p in
  let? p := drainChannel Control p in
  drainChannel Stdin p.

(** The turn; an exception is the end of the supervisor. *)
Definition poll_turn (p : Poller) : result Poller :=
  let? p := drainIopub p in drainReplyChannels p.

End Frames.

(** ** The frame of a large message *)
Section LargeFrame.
Context `{JL : JsonLaws} (numeral : str -> json -> Prop) `{T : !JsonText J numeral}.

Lemma members_text_snoc body ms q k t j : members_text numeral body ms -> key_text q k -> denotes numeral t j ->
  members_text numeral (body ++ ","%char :: q ++ ":"%char :: t) (ms ++ [(k, j)]).
Proof.
  intros H Hq Ht. induction H as [q' k' t' j' Hq' Ht' | q' k' t' j' u ms Hq' Ht' _ IH].
  - rewrite <- app_assoc. cbn [app]. apply m_more; [done .. |]. by apply m_one.
  - replace ((q' ++ ":"%char :: t' ++ ","%char :: u) ++ ","%char :: q ++ ":"%char :: t)
      with (q' ++ ":"%char :: t' ++ ","%char :: (u ++ ","%char :: q ++ ":"%char :: t)) by (by rewrite <- !app_assoc; cbn; rewrite <- !app_assoc).
    by apply m_more.
Qed.

(** A member more. *)
Lemma same_members_insert j ms k v : same_members j ms -> find j k = None -> same_members (insert_key j k v) (ms ++ [(k, v)]).
Proof.
  intros (Ht & Hn & Hf) Hk. split; [apply type_insert; by left |]. split.
  - rewrite fmap_app. cbn. apply NoDup_app. split; [done |]. split; [| apply NoDup_singleton].
    intros x Hx Hin. apply list_elem_of_singleton in Hin as ->. apply list_elem_of_fmap in Hx as ([k' v'] & -> & Hin).
    apply Hf in Hin. cbn in Hk. congruence.
  - intros k' v'. rewrite find_insert by (by left). rewrite elem_of_app, list_elem_of_singleton, <- Hf.
    destruct (decide (k = k')) as [<- |]; [rewrite Hk |]; split; naive_solver.
Qed.

Lemma plain_spells s : forallb plain s = true -> spells s s.
Proof. induction s as [| c s IH]; cbn; [constructor |]. rewrite andb_true_iff. intros [Hc Hs]. constructor; auto. Qed.

Lemma content_key_text : key_text (quote :: "content"%string ++ [quote]) "content"%string.
Proof. apply (key_spelled "content"%string "content"%string), plain_spells. reflexivity. Qed.

Lemma envelope_fields c t ty pid :
  type_of (envelope c t ty pid) = Jobject
  /\ find (envelope c t ty pid) "type"%string = Some (mk_str "message"%string)
  /\ find (envelope c t ty pid) "channel"%string = Some (mk_str c)
  /\ find (envelope c t ty pid) "topic"%string = Some (mk_str t)
  /\ find (envelope c t ty pid) "msg_type"%string = Some (mk_str ty)
  /\ find (envelope c t ty pid) "parent_msg_id"%string = Some (mk_str pid)
  /\ find (envelope c t ty pid) "content"%string = None.
Proof. unfold envelope, envelope_members. rewrite type_object. split_and!; [done | find_member; reflexivity ..]. Qed.

Lemma find_members ms k v : NoDup ms.*1 -> find (mk_object ms) k = Some v <-> (k, v) ∈ ms.
Proof.
  intros Hn. rewrite find_object. induction ms as [| [k' v'] ms IH]; [cbn; split; [done | by intros ?%not_elem_of_nil] |].
  cbn in Hn. apply NoDup_cons in Hn as [Hk Hn]. specialize (IH Hn). cbn [list_find]. destruct (decide _) as [Heq | Hne]; cbn in *.
  - subst k'. rewrite elem_of_cons. split; [intros [= ->]; by left |]. intros [[= ->] | Hin]; [done |].
    destruct Hk. apply list_elem_of_fmap. by exists (k, v).
  - rewrite elem_of_cons. destruct (list_find _ ms) as [[n x] |]; cbn in *; naive_solver.
Qed.

Lemma envelope_texts c t ty pid : NoDup (envelope_members c t ty pid).*1
  /\ Forall (fun m => exists s, m.2 = mk_str s) (envelope_members c t ty pid).
Proof. split; [apply (bool_decide_unpack _); vm_compute; exact I |]. repeat constructor; by eexists. Qed.

(** The text with the content put in is the text of the envelope with it. *)
Lemma spliced_denotes ch t ty pid head text c : let env := envelope ch t ty pid in
  dump Strict env = Ok head -> denotes numeral text c ->
  denotes numeral (removelast head ++ content_key ++ text ++ ["}"%char]) (insert_key env "content"%string c).
Proof.
  intros env Hd Htext. destruct (envelope_texts ch t ty pid) as [Hn Hs].
  assert (Hne : envelope_members ch t ty pid <> []) by done.
  destruct (dump_texts Strict _ head Hne Hs Hn Hd) as (body & ms & -> & Hp & Hb).
  destruct (envelope_fields ch t ty pid) as (Et & _ & _ & _ & _ & _ & E6).
  assert (Hm : same_members env ms).
  { split; [done |]. split; [by rewrite Hp |]. intros k v. rewrite Hp. by apply find_members. }
  change ("{"%char :: body ++ ["}"%char]) with (("{"%char :: body) ++ ["}"%char]). rewrite List.removelast_last.
  pose proof (members_text_snoc body _ _ _ text c Hb content_key_text Htext) as Ht.
  pose proof (d_object numeral _ _ _ Ht (same_members_insert env _ _ c Hm E6)) as Hres.
  unfold content_key. cbn [app]. cbn [app] in Hres. rewrite <- ?app_assoc in Hres. cbn [app] in Hres. exact Hres.
Qed.

(** C31: The frame of a large message.  Its text, made with the content's text as
    the kernel sent it, is JSON, and of the same value as the frame of the
    message with its content parsed: the envelope of that channel, topic, type
    and parent, with that content. *)
Theorem large_frame channel topic msg text c frame :
  contentText msg = Some text -> denotes numeral text c -> frameFor channel topic msg = Ok frame ->
  exists v ty pid, denotes numeral frame v
    /\ value get_str (m_header msg) "msg_type"%string [] = Ok ty /\ value get_str (m_parentHeader msg) "msg_id"%string [] = Ok pid
    /\ find v "content"%string = Some c /\ find v "channel"%string = Some (mk_str channel) /\ find v "topic"%string = Some (mk_str topic)
    /\ find v "msg_type"%string = Some (mk_str ty) /\ find v "parent_msg_id"%string = Some (mk_str pid)
    /\ find v "type"%string = Some (mk_str "message"%string)
    /\ forall frame', writable v -> frameFor channel topic (makeMessageBase (m_header msg) (m_parentHeader msg) (m_metadata msg) c (m_buffers msg)) = Ok frame' ->
         denotes numeral frame' v.
Proof.
  intros Hct Hd. unfold frameFor. rewrite Hct. cbn [m_header m_parentHeader makeMessageBase].
  destruct (value get_str (m_header msg) _ _) as [ty | |]; [| done ..].
  destruct (value get_str (m_parentHeader msg) _ _) as [pid | |]; [| done ..].
  destruct (dump Strict (envelope channel topic ty pid)) as [head | |] eqn:Hh; [| done ..]. intros [= <-].
  destruct (envelope_fields channel topic ty pid) as (Et & E1 & E2 & E3 & E4 & E5 & E6).
  exists (insert_key (envelope channel topic ty pid) "content"%string c), ty, pid.
  split; [by apply spliced_denotes |].
  assert (Hf : forall k, find (insert_key (envelope channel topic ty pid) "content"%string c) k
                  = if decide (("content"%string : str) = k) then Some c else find (envelope channel topic ty pid) k)
    by (intros k; apply find_insert; by left).
  rewrite !Hf. rewrite decide_True by done. rewrite !decide_False by discriminate. split_and!; try done.
  intros frame' Hw Hf'. by apply (dump_denotes Strict).
Qed.

End LargeFrame.

(** ** A turn relays what waits *)
Section Turn.
Context `{J : JsonLib} `{Ossl : OpenSSL}.

Definition relayed (auth : Authentication) (c : Channel) (wire : frames) (frame : str) : Prop :=
  exists msg ty, deserialize wire auth true = Ok msg /\ value get_str (m_header (base msg)) "msg_type"%string [] = Ok ty
    /\ frameFor (channel_name c) ty (base msg) = Ok frame.

Definition published (msg : PubMessage) (frame : str) : Prop := frameFor "iopub"%string (topic msg) (pub_base msg) = Ok frame.

(** What reading channel [c] leaves. *)
Record emptied (c : Channel) (p : Poller) (frames : list str) (p' : Poller) : Prop := {
  em_auth : p_auth (p_client p') = p_auth (p_client p);
  em_iopub : iopub (p_client p') = iopub (p_client p);
  em_inbox : inbox (channel_of c (p_client p')) = [];
  em_others : forall d, d <> c -> channel_of d (p_client p') = channel_of d (p_client p);
  em_emitted : emitted p' = emitted p ++ frames
}.

Lemma receive_next c client w rest : inbox (channel_of c client) = w :: rest ->
  receiveOn c false [[]] client
  = Some (let? m := deserialize w (p_auth client) true in Ok (Some m), set_channel c (set_inbox rest (channel_of c client)) client).
Proof. intros H. unfold receiveOn. cbn. rewrite H. cbn. by rewrite app_nil_r. Qed.

Lemma receive_none c client : inbox (channel_of c client) = [] ->
  receiveOn c false [[]] client = Some (Ok None, set_channel c (set_inbox [] (channel_of c client)) client).
Proof. intros H. unfold receiveOn. cbn. rewrite H. cbn. unfold arrive. by rewrite H. Qed.

Lemma relay_result c msg p : match relay c msg p with
  | Ok p' => exists ty frame, value get_str (m_header (base msg)) "msg_type"%string [] = Ok ty
               /\ frameFor (channel_name c) ty (base msg) = Ok frame /\ p_client p' = p_client p /\ emitted p' = emitted p ++ [frame]
  | _ => ~ exists ty frame, value get_str (m_header (base msg)) "msg_type"%string [] = Ok ty /\ frameFor (channel_name c) ty (base msg) = Ok frame
  end.
Proof.
  unfold relay. destruct (value get_str _ _ _) as [ty | |] eqn:Hty; [| by intros (? & ? & ? & ?) ..].
  destruct (frameFor _ _ _) as [fr | |] eqn:Hf; [| intros (t & f & [= <-] & Hff); congruence ..].
  exists ty, fr. split_and!; try done; by destruct (str_eqb ty _).
Qed.

Lemma drain_channel_reads c : forall n p, (length (inbox (channel_of c (p_client p))) < n)%nat ->
  match drain_channel n c p with
  | Ok p' => exists fs, Forall2 (relayed (p_auth (p_client p)) c) (inbox (channel_of c (p_client p))) fs /\ emptied c p fs p'
  | _ => ~ exists fs, Forall2 (relayed (p_auth (p_client p)) c) (inbox (channel_of c (p_client p))) fs
  end.
Proof.
  induction n as [| n IH]; intros p Hn; [lia |]. cbn [drain_channel].
  destruct (inbox (channel_of c (p_client p))) as [| w rest] eqn:Hi.
  - rewrite (receive_none c _ Hi). exists []. split; [constructor |].
    constructor; cbn; [done | done | by rewrite channel_set, decide_True | intros d Hd; by rewrite channel_set, decide_False | by rewrite app_nil_r].
  - rewrite (receive_next c _ w rest Hi). destruct (deserialize w _ true) as [m | |] eqn:Hd;
      [| intros (fs & HF); apply Forall2_cons_inv_l in HF as (f & fs' & (m & ty & Hm & _) & _); congruence ..].
    set (p1 := set_client (set_channel c (set_inbox rest (channel_of c (p_client p))) (p_client p)) p).
    pose proof (relay_result c m p1) as Hr. destruct (relay c m p1) as [p2 | |].
    2, 3: intros (fs & HF); apply Forall2_cons_inv_l in HF as (f & fs' & (m' & ty & Hm & Ht & Hf) & _); apply Hr; exists ty, f;
      rewrite Hm in Hd; by injection Hd as ->.
    destruct Hr as (ty & fr & Hty & Hfr & Hc & He).
    assert (Hp1 : channel_of c (p_client p1) = set_inbox rest (channel_of c (p_client p))) by (cbn; by rewrite channel_set, decide_True).
    specialize (IH p2). rewrite Hc, Hp1 in IH. cbn [inbox set_inbox p_client] in IH. cbn [length] in Hn.
    specialize (IH ltac:(lia)). change (p_auth (p_client p1)) with (p_auth (p_client p)) in IH.
    destruct (drain_channel n c p2) as [p3 | |].
    2, 3: intros (fs & HF); apply Forall2_cons_inv_l in HF as (f & fs' & _ & HF & _); apply IH; by exists fs'.
    destruct IH as (fs & HF & [A1 A2 A3 A4 A5]). exists (fr :: fs). split; [constructor; [by exists m, ty | done] |].
    rewrite Hc in A1, A2, A4. constructor; [done | done | done | |].
    + intros d Hne. rewrite A4 by done. cbn. by rewrite channel_set, decide_False.
    + rewrite A5, He. cbn. by rewrite <- app_assoc.
Qed.

Lemma drain_iopub_reads : forall waiting p, iopub (p_client p) = waiting ->
  match drain_iopub waiting p with
  | Ok p' => exists fs, Forall2 published waiting fs /\ iopub (p_client p') = [] /\ p_auth (p_client p') = p_auth (p_client p)
               /\ (forall c, channel_of c (p_client p') = channel_of c (p_client p)) /\ emitted p' = emitted p ++ fs
  | _ => ~ exists fs, Forall2 published waiting fs
  end.
Proof.
  induction waiting as [| m rest IH]; intros p Hp; cbn [drain_iopub].
  - exists []. split; [constructor |]. split; [done |]. by rewrite app_nil_r.
  - destruct (frameFor _ _ _) as [fr | |] eqn:Hf;
      [| intros (fs & HF); apply Forall2_cons_inv_l in HF as (f & ? & Hm & _); unfold published in Hm; congruence ..].
    specialize (IH (emitMessage fr (set_client (set_iopub rest (p_client p)) p)) eq_refl).
    destruct (drain_iopub rest _) as [p' | |].
    2, 3: intros (fs & HF); apply Forall2_cons_inv_l in HF as (f & fs' & _ & HF & _); apply IH; by exists fs'.
    destruct IH as (fs & HF & H1 & H2 & H3 & H4). exists (fr :: fs). split; [by constructor |]. split; [done |]. split; [done |].
    split; [intros []; by rewrite H3 |]. rewrite H4. cbn. by rewrite <- app_assoc.
Qed.

(** Everything that waits can be relayed, as these frames. *)
Definition relayable (p : Poller) (io : list str) (replies : Channel -> list str) : Prop :=
  Forall2 published (iopub (p_client p)) io
  /\ forall c, Forall2 (relayed (p_auth (p_client p)) c) (inbox (channel_of c (p_client p))) (replies c).

Lemma drainChannel_reads c p : match drainChannel c p with
  | Ok p' => exists fs, Forall2 (relayed (p_auth (p_client p)) c) (inbox (channel_of c (p_client p))) fs /\ emptied c p fs p'
  | _ => ~ exists fs, Forall2 (relayed (p_auth (p_client p)) c) (inbox (channel_of c (p_client p))) fs
  end.
Proof. apply drain_channel_reads. lia. Qed.

(** C30: A turn of the poll thread.  When every message that waits can be made a
    frame, the client gets one frame for each - the output first, then the
    replies, those of control, the questions, each in order - and nothing waits
    any more.  When one cannot be (a wrong signature, a header without a type
    that is text, a topic that cannot be written), the thread ends with an
    exception: with it, the supervisor. *)
Theorem turn_relays p : match poll_turn p with
  | Ok p' => exists io replies, relayable p io replies
      /\ emitted p' = emitted p ++ io ++ replies Shell ++ replies Control ++ replies Stdin
      /\ iopub (p_client p') = [] /\ forall c, inbox (channel_of c (p_client p')) = []
  | _ => ~ exists io replies, relayable p io replies
  end.
Proof.
  unfold poll_turn, drainIopub, drainReplyChannels. pose proof (drain_iopub_reads (iopub (p_client p)) p eq_refl) as H0.
  destruct (drain_iopub _ _) as [p0 | |]; [| intros (io & rs & Hio & _); apply H0; by exists io ..].
  destruct H0 as (io & Hio & I0 & A0 & C0 & E0).
  pose proof (drainChannel_reads Shell p0) as H1. rewrite A0, C0 in H1.
  destruct (drainChannel Shell p0) as [p1 | |]; [| intros (? & rs & _ & Hrs); apply H1; by exists (rs Shell) ..].
  destruct H1 as (sh & Hsh & [A1 I1 N1 O1 E1]).
  pose proof (drainChannel_reads Control p1) as H2. rewrite A1, A0, O1, C0 in H2 by done.
  destruct (drainChannel Control p1) as [p2 | |]; [| intros (? & rs & _ & Hrs); apply H2; by exists (rs Control) ..].
  destruct H2 as (co & Hco & [A2 I2 N2 O2 E2]).
  pose proof (drainChannel_reads Stdin p2) as H3. rewrite A2, A1, A0, O2, O1, C0 in H3 by done.
  destruct (drainChannel Stdin p2) as [p3 | |]; [| intros (? & rs & _ & Hrs); apply H3; by exists (rs Stdin) ..].
  destruct H3 as (st & Hst & [A3 I3 N3 O3 E3]).
  exists io, (fun c => match c with Shell => sh | Control => co | Stdin => st end).
  split; [split; [done | by intros []] |]. split; [by rewrite E3, E2, E1, E0, <- !app_assoc |].
  split; [by rewrite I3, I2, I1, I0 |]. intros []; [rewrite O3, O2 by done | rewrite O3 by done |]; done.
Qed.

End Turn.

(** ** Samples *)
Module FramesToy.
Import Concrete.
#[local] Existing Instance concrete_laws.
#[local] Existing Instance Stub.stub.

(** A library that writes JSON, of texts without escapes; it refuses the others,
    and an object that names a member twice. *)
Definition write_text (s : str) : option str := if forallb plain s then Some (quote :: s ++ [quote]) else None.

Definition write_elements (write : J -> option str) : list J -> option str :=
  fix go (l : list J) : option str :=
    match l with
    | [] => Some []
    | [j] => write j
    | j :: l => t ← write j; u ← go l; Some (t ++ ","%char :: u)
    end.

Definition write_members (write : J -> option str) : list (str * J) -> option str :=
  fix go (m : list (str * J)) : option str :=
    match m with
    | [] => Some []
    | [(k, j)] => q ← write_text k; t ← write j; Some (q ++ ":"%char :: t)
    | (k, j) :: m => q ← write_text k; t ← write j; u ← go m; Some (q ++ ":"%char :: t ++ ","%char :: u)
    end.

Fixpoint write (j : J) : option str :=
  match j with
  | Null => Some ("null"%string : str)
  | Discarded => None
  | Bool b => Some (if b then "true"%string : str else "false"%string)
  | Int z => Some (to_string z)
  | Str s => write_text s
  | Arr l => t ← write_elements write l; Some ("["%char :: t ++ ["]"%char])
  | Obj m => if bool_decide (NoDup m.*1) then t ← write_members write m; Some ("{"%char :: t ++ ["}"%char]) else None
  end.

Definition type_error_316 : str := "[json.exception.type_error.316] invalid UTF-8"%string.

#[local] Instance writer : JsonLib := {|
  json := J; type_of := J_type; null := Null; mk_bool := Bool; mk_int := Int; mk_str := Str; mk_array := Arr; mk_object := Obj;
  get_bool := get_bool (JsonLib := concrete); get_int := get_int (JsonLib := concrete); get_str := get_str (JsonLib := concrete);
  elements := elements (JsonLib := concrete); find := J_find; insert_key := J_insert;
  parse := parse (JsonLib := concrete); parse_strict := parse_strict (JsonLib := concrete);
  members := members (JsonLib := concrete);
  dump _ j := match write j with Some t => Ok t | None => Throw type_error_316 end;
  storable _ := False
|}.

#[local] Instance writer_laws : JsonLaws writer.
Proof. destruct concrete_laws. split; solve [assumption | done]. Defined.

Definition decimal (t : str) (j : json (JsonLib := writer)) : Prop := exists z, j = Int z /\ t = to_string z.

Lemma write_text_key s t : write_text s = Some t -> key_text t s.
Proof. unfold write_text. destruct (forallb plain s) eqn:H; [| done]. intros [= <-]. by apply key_spelled, plain_spells. Qed.

Lemma obj_members m : NoDup m.*1 -> same_members (Obj m) m.
Proof. intros Hn. split; [done |]. split; [done |]. intros k v. exact (find_members m k v Hn). Qed.

Definition well_written (j : J) : Prop := forall t, write j = Some t -> denotes decimal t j.

Lemma write_elements_text l : Forall well_written l -> l <> [] -> forall t, write_elements write l = Some t -> elements_text decimal t l.
Proof.
  induction 1 as [| j l Hj _ IH]; [done |]. intros _ t. destruct l as [| j' l]; [intros H; apply (e_one (J := writer) decimal); by apply Hj |].
  intros (u1 & H1 & (u2 & H2 & [= <-])%bind_Some)%bind_Some. apply (e_more (J := writer) decimal); [by apply Hj | by apply IH].
Qed.

Lemma write_members_text m : Forall (fun kv => well_written kv.2) m -> m <> [] ->
  forall t, write_members write m = Some t -> members_text decimal t m.
Proof.
  induction 1 as [| [k j] m Hj _ IH]; [done |]. intros _ t. destruct m as [| kv m].
  - intros (q & Hq & (u1 & H1 & [= <-])%bind_Some)%bind_Some. apply (m_one (J := writer) decimal); [by apply write_text_key | by apply Hj].
  - intros (q & Hq & (u1 & H1 & (u2 & H2 & [= <-])%bind_Some)%bind_Some)%bind_Some.
    apply (m_more (J := writer) decimal); [by apply write_text_key | by apply Hj | by apply IH].
Qed.

Fixpoint write_denotes (j : J) : well_written j.
Proof.
  destruct j as [| | b | z | s | l | m]; intros t; cbn [write].
  - intros [= <-]. apply (d_null (J := writer) decimal).
  - done.
  - intros [= <-]. destruct b; [apply (d_true (J := writer) decimal) | apply (d_false (J := writer) decimal)].
  - intros [= <-]. apply (d_number (J := writer) decimal); [done | by exists z].
  - intros H. apply (d_string (J := writer) decimal). by apply write_text_key.
  - assert (Hl : Forall well_written l) by (induction l; constructor; [apply write_denotes | done]).
    intros (u & Hu & [= <-])%bind_Some. destruct l as [| j l]; [injection Hu as <-; apply (d_no_elements (J := writer) decimal []); constructor |].
    apply (d_array (J := writer) decimal). by apply write_elements_text.
  - assert (Hm : Forall (fun kv => well_written kv.2) m) by (induction m as [| [k j] m IH]; constructor; [apply (write_denotes j) | done]).
    case_bool_decide as Hn; [| done]. intros (u & Hu & [= <-])%bind_Some.
    destruct m as [| kv m]; [injection Hu as <-; apply (d_no_members (J := writer) decimal []); [constructor | by apply obj_members] |].
    apply (d_object (J := writer) decimal u (kv :: m)); [by apply write_members_text | by apply obj_members].
Defined.

#[local] Instance writer_text : JsonText writer decimal.
Proof.
  refine {| writable _ := True |}.
  - intros h j t _. cbn. destruct (write j) eqn:H; [| done]. intros [= <-]. by apply write_denotes.
  - intros h ms t Hne _ Hn. cbn. rewrite bool_decide_eq_true_2 by done.
    destruct (write_members write ms) as [body |] eqn:H; [| done]. cbn. intros [= <-]. exists body, ms. split; [done |]. split; [done |].
    apply write_members_text; [| done ..]. clear. induction ms as [| [k j] ms IH]; constructor; [apply (write_denotes j) | done].
Defined.

(** A message whose content was not parsed. *)
Definition large (text : str) : MessageBase :=
  deferContent text (makeMessageBase (Obj [("msg_type"%string : str, Str "stream"%string)]) (Obj [("msg_id"%string : str, Str "m1"%string)])
    (Obj []) Null []).

Definition some_output : J := Obj [("text"%string : str, Str "hello"%string); ("n"%string : str, Int 12)].
Definition output_text : str := default [] (write some_output).

Definition envelope_text : str :=
  match dump (JsonLib := writer) Strict (envelope "iopub"%string "t"%string "stream"%string "m1"%string) with Ok t => t | _ => [] end.

Lemma large_frame_witness : exists frame v, frameFor "iopub"%string "t"%string (large output_text) = Ok frame
  /\ denotes decimal frame v /\ find v "content"%string = Some some_output.
Proof.
  destruct (large_frame (J := writer) decimal "iopub"%string "t"%string (large output_text) output_text some_output
    (removelast envelope_text ++ content_key ++ output_text ++ ["}"%char]))
    as (v & ty & pid & Hd & _ & _ & Hc & _).
  - reflexivity.
  - apply write_denotes. reflexivity.
  - reflexivity.
  - eexists _, v. split; [reflexivity |]. split; [exact Hd | exact Hc].
Defined.

(** What the frame is, with the content's text as it came, blanks included (the
    real library keeps an object's members sorted). *)
Example spliced : frameFor "iopub"%string "t"%string (large "[ 1 ]"%string)
  = Ok (let q := [quote] in
        "{"%char :: q ++ "type"%string ++ q ++ ":"%string ++ q ++ "message"%string ++ q ++ ","%string ++ q ++ "channel"%string ++ q ++ ":"%string
        ++ q ++ "iopub"%string ++ q ++ ","%string ++ q ++ "topic"%string ++ q ++ ":"%string ++ q ++ "t"%string ++ q ++ ","%string
        ++ q ++ "msg_type"%string ++ q ++ ":"%string ++ q ++ "stream"%string ++ q ++ ","%string ++ q ++ "parent_msg_id"%string ++ q ++ ":"%string
        ++ q ++ "m1"%string ++ q ++ ","%string ++ q ++ "content"%string ++ q ++ ":[ 1 ]}"%string).
Proof. vm_compute. reflexivity. Qed.

(** ** A kernel's message that ends the supervisor *)

Definition poller (q : list PubMessage) (shell : list frames) : Poller :=
  {| p_client := {| m_identity := "id"%string; p_auth := NoAuthentication;
       m_shellClient := set_inbox shell (newDealerChannel [] "tcp"%string "127.0.0.1"%string "1"%string "id"%string);
       m_controlClient := newDealerChannel [] "tcp"%string "127.0.0.1"%string "2"%string "id"%string;
       m_stdinClient := newDealerChannel [] "tcp"%string "127.0.0.1"%string "3"%string "id"%string; iopub := q; m_errorHandler := Strict |};
     answeredShutdown := false; emitted := [] |}.

(** A topic that is not UTF-8 (the library's writer refuses more, but that too). *)
Example topic_ends_supervisor :
  poll_turn (poller [{| topic := [chr 255; quote]; pub_base := large "{}"%string |}] []) = Throw type_error_316.
Proof. vm_compute. reflexivity. Qed.

(** A header whose type is a number. *)
Example type_ends_supervisor :
  poll_turn (poller [{| topic := "t"%string;
                        pub_base := makeMessageBase (Obj [("msg_type"%string : str, Int 1)]) (Obj []) (Obj []) (Obj []) [] |}] [])
  = Throw type_error_302.
Proof. vm_compute. reflexivity. Qed.

(** A reply of too few frames. *)
Example frames_end_supervisor : is_ok (poll_turn (poller [] [[DELIMITER; []]])) = false.
Proof. vm_compute. reflexivity. Qed.

End FramesToy.
