(* ===== verification/Process.v ===== *)
(** * A kernel's process: themisto/kernel_process.cpp

    The command line and the environment a kernel is started with, its start
    (fork, exec, and the pipes), the relay of what it prints, and its life seen
    through [waitpid].  What the operating system does is given: the state of
    the child process and the events that change it, or the outcome of a call.
    The Windows functions modelled are the ones that only compute texts. *)

From Stdlib Require Import Ascii ZArith Lia.
From S2P Require Import Prelude.
Local Open Scope Z_scope.

(** ** Arguments *)
Record KernelProcessOptions := {
  kernelExePath : str;
  rHome : str;
  rPath : str;
  rLibs : str;
  pandocPath : str;
  pythonHome : str;
  pythonPath : str;
  venvPath : str;
  stataHome : str;
  stataEdition : str;
  workingDirectory : str;
  explicitArgs : list str;
  extraEnv : list (str * str);
  interruptBySignal : bool;
  registrationIp : str;
  registrationPort : str;
  registrationId : str;
  key : str
}.

Definition toArgPairs (options : KernelProcessOptions) : list (str * str) :=
  [("--r-home"%string : str, rHome options); ("--r-path"%string : str, rPath options);
   ("--r-libs"%string : str, rLibs options); ("--pandoc-path"%string : str, pandocPath options);
   ("--python-home"%string : str, pythonHome options); ("--python-path"%string : str, pythonPath options);
   ("--venv-path"%string : str, venvPath options); ("--stata-home"%string : str, stataHome options);
   ("--stata-edition"%string : str, stataEdition options);
   ("--registration-ip"%string : str, registrationIp options);
   ("--registration-port"%string : str, registrationPort options);
   ("--registration-id"%string : str, registrationId options); ("--key"%string : str, key options)].

Definition commandArguments (options : KernelProcessOptions) : list str :=
  if negb (bool_decide (explicitArgs options = [])) then explicitArgs options
  else toArgPairs options ≫= fun fv => if bool_decide (fv.2 = []) then [] else [fv.1; fv.2].

(** What [execv] gets. *)
Definition argv (options : KernelProcessOptions) : list str := kernelExePath options :: commandArguments options.

(** Windows: one command line. *)
Definition dquote : byte := "034"%char.
Definition backslash : byte := "\"%char.

Definition quoteArg (value : str) : str :=
  dquote :: (value ≫= fun c => if char_eqb c dquote then [backslash; c] else [c]) ++ [dquote].

Definition commandLine (options : KernelProcessOptions) : str :=
  quoteArg (kernelExePath options) ++ (commandArguments options ≫= fun arg => " "%char :: quoteArg arg).

(** The name before the kernel's lines: what follows the last slash, without
    ".exe". *)
Definition is_slash (c : byte) : bool := char_eqb c "/"%char || char_eqb c backslash.

Fixpoint after_last_slash (s : str) : str :=
  match s with
  | [] => []
  | c :: rest => if existsb is_slash rest then after_last_slash rest else if is_slash c then rest else s
  end.

Definition exeSuffix : str := ".exe"%string.

Definition strip_exe (name : str) : str :=
  let stem := take (length name - length exeSuffix) name in
  if (length exeSuffix <? length name)%nat && str_eqb (drop (length name - length exeSuffix) name) exeSuffix
  then stem else name.

Definition outputPumpLabel (path : str) : str :=
  let name := strip_exe (after_last_slash path) in
  if bool_decide (name = []) then "kernel"%string else name.

(** ** Environment *)

Definition toupper (c : byte) : byte :=
  if (97 <=? code c) && (code c <=? 122) then chr (code c - 32) else c.

Definition upper (s : str) : str := toupper <$> s.

(** The name of an inherited entry: up to the first '=' that is not its first
    character. *)
Definition entry_name (text : str) : option str :=
  match text with
  | [] => None
  | c :: rest => match split_at "="%char rest with Some (before, _) => Some (c :: before) | None => None end
  end.

Definition inherit (byName : list (str * str)) (text : str) : list (str * str) :=
  match entry_name text with Some name => map_set (upper name) text byName | None => byName end.

Definition override (byName : list (str * str)) (nv : str * str) : list (str * str) :=
  map_set (upper nv.1) (nv.1 ++ "="%char :: nv.2) byName.

Definition environment_map (inherited : list str) (extra : list (str * str)) : list (str * str) :=
  fold_left override extra (fold_left inherit inherited []).

(** [environmentBlock]: empty when there is nothing extra. *)
Definition environmentBlock (inherited : list str) (extra : list (str * str)) : str :=
  if bool_decide (extra = []) then []
  else (environment_map inherited extra ≫= fun kt => kt.2 ++ [nul]) ++ [nul].

(** The child of a fork: [setenv] on its copy of the environment.  macOS has
    another name for the variable. *)
Definition environment := gmap str str.

Definition libDirs (options : KernelProcessOptions) : list str :=
  (if bool_decide (rHome options = []) then [] else [rHome options ++ "/lib"%string])
  ++ (if bool_decide (pythonHome options = []) then [] else [pythonHome options ++ "/lib"%string]).

Definition set_library_path (ldPathVar : str) (options : KernelProcessOptions) (env : environment) : environment :=
  let combined := join [":"%char] (libDirs options) in
  if bool_decide (libDirs options = []) then env
  else
    let newLdPath := match env !! ldPathVar with
                     | Some (c :: existing) => combined ++ ":"%char :: c :: existing
                     | _ => combined
                     end in
    <[ldPathVar := newLdPath]> env.

Definition child_environment (ldPathVar : str) (options : KernelProcessOptions) (env : environment) : environment :=
  fold_left (fun env nv => <[nv.1 := nv.2]> env) (extraEnv options) (set_library_path ldPathVar options env).

(** ** The start *)

(** The descriptors of the two pipes. *)
Inductive fd := OutputRead | OutputWrite | StatusRead | StatusWrite.

#[export] Instance fd_eq_dec : EqDecision fd.
Proof. solve_decision. Defined.

(** What the system calls of a start answer.  [status_bytes] is how many bytes
    of errno, the low ones first, the child's write delivers; [exec_errno] is
    [None] when the program runs. *)
Record StartOutcome := {
  is_directory : bool;
  output_pipe : bool;
  status_pipe : bool;
  forked : option Z;
  chdir_errno : option Z;
  exec_errno : option Z;
  status_bytes : nat;
  strerror : Z -> str
}.

(** What the child does: it runs the program, or ends with 127. *)
Inductive ChildFate :=
| Runs (path : str) (arguments : list str) (env : environment) (directory : option str)
| Exits127 (errno : Z).

Definition child (ldPathVar : str) (options : KernelProcessOptions) (env : environment) (os : StartOutcome) : ChildFate :=
  let directory := if bool_decide (workingDirectory options = []) then None else Some (workingDirectory options) in
  match (if bool_decide (workingDirectory options = []) then None else chdir_errno os) with
  | Some errno => Exits127 errno
  | None =>
      match exec_errno os with
      | Some errno => Exits127 errno
      | None => Runs (kernelExePath options) (argv options) (child_environment ldPathVar options env) directory
      end
  end.

(** The parent's half: the descriptors it has left, whether it reaped the
    child, and the child's pid or the exception.  A read of the status pipe
    gives nothing when the program runs (the write end closes on exec). *)
Record Started := { open_fds : list fd; reaped_child : bool; outcome : result Z }.

Definition close (f : fd) (fds : list fd) : list fd := List.filter (fun g => negb (bool_decide (g = f))) fds.

Definition validateWorkingDirectory (options : KernelProcessOptions) (os : StartOutcome) : result unit :=
  if bool_decide (workingDirectory options = []) then Ok tt
  else if is_directory os then Ok tt
  else Throw ("workingDirectory does not exist or is not a directory: "%string ++ workingDirectory options).

Definition start (ldPathVar : str) (options : KernelProcessOptions) (env : environment) (os : StartOutcome) : Started :=
  match validateWorkingDirectory options os with
  | Throw w => {| open_fds := []; reaped_child := false; outcome := Throw w |}
  | Undefined => {| open_fds := []; reaped_child := false; outcome := Undefined |}
  | Ok _ =>
      if negb (output_pipe os) then
        {| open_fds := []; reaped_child := false; outcome := Throw "Failed to create output pipe for elara process"%string |}
      else
        let fds := [OutputRead; OutputWrite] in
        if negb (status_pipe os) then
          {| open_fds := close OutputWrite (close OutputRead fds); reaped_child := false;
             outcome := Throw "Failed to create exec-status pipe for elara process"%string |}
        else
          let fds := fds ++ [StatusRead; StatusWrite] in
          match forked os with
          | None =>
              {| open_fds := close StatusWrite (close StatusRead (close OutputWrite (close OutputRead fds)));
                 reaped_child := false; outcome := Throw "Failed to fork elara process"%string |}
          | Some pid =>
              let fds := close StatusRead (close StatusWrite (close OutputWrite fds)) in
              match child ldPathVar options env os with
              | Exits127 errno =>
                  if (0 <? status_bytes os)%nat then
                    {| open_fds := close OutputRead fds; reaped_child := true;
                       outcome := Throw ("Failed to spawn elara process (execv failed: "%string ++ strerror os (errno mod 2 ^ (8 * Z.of_nat (status_bytes os)))
                                         ++ ")"%string) |}
                  else {| open_fds := fds; reaped_child := false; outcome := Ok pid |}
              | Runs _ _ _ _ => {| open_fds := fds; reaped_child := false; outcome := Ok pid |}
              end
          end
  end.

(** ** The output pump *)

(** The lines that are complete, and what is carried over. *)
Fixpoint relay (fuel : nat) (carry : str) : list str * str :=
  match fuel with
  | O => ([], carry)
  | S fuel => match split_at newline carry with
              | Some (line, rest) => let (lines, carry) := relay fuel rest in (line :: lines, carry)
              | None => ([], carry)
              end
  end.

(** A turn of the loop: what [poll] and [read] answer, and [m_running] as the
    turn reads it. *)
Inductive PumpTurn :=
| Bytes (data : str)
| EndOfFile
| PollFails
| NothingReady (running : bool).

(** The thread: the carry and the lines printed; [None] once it has ended. *)
Record Pump := { carry : option str; printed : list str }.

Definition newPump : Pump := {| carry := Some []; printed := [] |}.

(** After the loop: the rest is printed when there is one. *)
Definition end_pump (rest : str) (p : Pump) : Pump :=
  {| carry := None; printed := printed p ++ (if bool_decide (rest = []) then [] else [rest]) |}.

Definition pump_turn (p : Pump) (t : PumpTurn) : Pump :=
  match carry p with
  | None => p
  | Some c =>
      match t with
      | Bytes [] => end_pump c p
      | Bytes data =>
          let (lines, c) := relay (length (c ++ data)) (c ++ data) in
          {| carry := Some c; printed := printed p ++ lines |}
      | EndOfFile | PollFails => end_pump c p
      | NothingReady running => if running then p else end_pump c p
      end
  end.

Definition run_pump (turns : list PumpTurn) : Pump := fold_left pump_turn turns newPump.

(** ** The life of the process *)

(** The child, as the system has it: [Reaped] when its pid may be another
    process's. *)
Inductive Child :=
| Running
| StoppedBy (signal : Z)
| Zombie (status : Z)
| Reaped.

#[export] Instance Child_eq_dec : EqDecision Child.
Proof. solve_decision. Defined.

Record KernelProcess := {
  os_child : Child;
  m_processId : Z;
  m_reaped : bool;
  m_exitStatus : Z;
  by_signal : bool;
  (** the signals sent, and whether the child was still there to get them *)
  signalled : list (Z * bool)
}.

Definition set_child (c : Child) (p : KernelProcess) : KernelProcess :=
  {| os_child := c; m_processId := m_processId p; m_reaped := m_reaped p; m_exitStatus := m_exitStatus p;
     by_signal := by_signal p; signalled := signalled p |}.

(** What happens to the child by itself. *)
Inductive ChildEvent :=
| Ends (status : Z)
| Stops (signal : Z)
| Continues.

Definition child_event (e : ChildEvent) (c : Child) : Child :=
  match e, c with
  | Ends status, Running => Zombie status
  | Ends status, StoppedBy _ => Zombie status
  | Stops signal, Running => StoppedBy signal
  | Continues, StoppedBy _ => Running
  | _, _ => c
  end.

Definition SIGINT : Z := 2.
Definition SIGABRT : Z := 6.
Definition SIGKILL : Z := 9.
Definition SIGSEGV : Z := 11.

(** [waitpid] on this child, when it does not block: its result (the pid, 0 or
    -1) and status.  A stopped child is reported with [WUNTRACED] only. *)
Definition waitpid (untraced : bool) (pid : Z) (c : Child) : Z * Z * Child :=
  match c with
  | Zombie status => (pid, status, Reaped)
  | StoppedBy signal => if untraced then (pid, Z.lor (Z.shiftl signal 8) 127, c) else (0, 0, c)
  | Running => (0, 0, c)
  | Reaped => (-1, 0, c)
  end.

Definition waitpidCached (untraced : bool) (p : KernelProcess) : Z * KernelProcess :=
  if m_reaped p then (m_processId p, p)
  else
    let '(res, status, c) := waitpid untraced (m_processId p) (os_child p) in
    (res, {| os_child := c; m_processId := m_processId p;
             m_reaped := m_reaped p || (res =? m_processId p);
             m_exitStatus := if res =? m_processId p then status else m_exitStatus p;
             by_signal := by_signal p; signalled := signalled p |}).

Definition isAlive (p : KernelProcess) : bool * KernelProcess :=
  if m_processId p <=? 0 then (false, p)
  else let (res, p) := waitpidCached false p in (res =? 0, p).

(** [::kill(m_processId, signal)]; SIGKILL ends any child, SIGINT is the
    child's affair. *)
Definition send_signal (signal : Z) (p : KernelProcess) : KernelProcess :=
  let there := match os_child p with Reaped => false | _ => true end in
  {| os_child := match os_child p with
                 | Running | StoppedBy _ => if signal =? SIGKILL then Zombie SIGKILL else os_child p
                 | c => c
                 end;
     m_processId := m_processId p; m_reaped := m_reaped p; m_exitStatus := m_exitStatus p; by_signal := by_signal p;
     signalled := signalled p ++ [(signal, there)] |}.

Definition interrupt (p : KernelProcess) : bool * KernelProcess :=
  if by_signal p && (0 <? m_processId p) then
    let (alive, p) := isAlive p in
    if alive then (true, send_signal SIGINT p) else (false, p)
  else (false, p).

(** The wait after SIGKILL does not block for long: the child has ended. *)
Definition kill (p : KernelProcess) : KernelProcess :=
  if 0 <? m_processId p then
    let p := if m_reaped p then p else snd (waitpidCached false (send_signal SIGKILL p)) in
    {| os_child := os_child p; m_processId := -1; m_reaped := m_reaped p; m_exitStatus := m_exitStatus p;
       by_signal := by_signal p; signalled := signalled p |}
  else p.

(** The macros of sys/wait.h. *)
Definition WTERMSIG (status : Z) : Z := Z.land status 127.
Definition WIFEXITED (status : Z) : bool := WTERMSIG status =? 0.
Definition WEXITSTATUS (status : Z) : Z := Z.shiftr (Z.land status 65280) 8.
Definition WIFSIGNALED (status : Z) : bool := (0 <? WTERMSIG status) && (WTERMSIG status <? 127).

Definition describe_exit (status : Z) : str :=
  if WIFEXITED status then "process exited with code "%string ++ to_string (WEXITSTATUS status)
  else if WIFSIGNALED status then
    "process terminated by signal "%string ++ to_string (WTERMSIG status)
    ++ (if WTERMSIG status =? SIGSEGV then " (SIGSEGV -- a native crash, e.g. in a compiled R package)"%string
        else if WTERMSIG status =? SIGABRT then " (SIGABRT)"%string else [])
  else "process status unknown (raw status "%string ++ to_string status ++ ")"%string.

Definition describeStatus (p : KernelProcess) : str * KernelProcess :=
  if m_processId p <=? 0 then ("process was never started or has already been cleaned up"%string : str, p)
  else
    let (res, p) := waitpidCached true p in
    if res =? 0 then ("process is still running -- likely hung or blocked rather than crashed"%string : str, p)
    else if res <? 0 then ("unable to query process status (waitpid failed)"%string : str, p)
    else (describe_exit (m_exitStatus p), p).

Definition pid (p : KernelProcess) : Z := if 0 <? m_processId p then m_processId p else 0.

(** A process that was started. *)
Definition started (pid : Z) (interruptBySignal : bool) : KernelProcess :=
  {| os_child := Running; m_processId := pid; m_reaped := false; m_exitStatus := 0; by_signal := interruptBySignal;
     signalled := [] |}.

(** *** Memory *)
Definition isspace (c : byte) : bool := (code c =? 32) || ((9 <=? code c) && (code c <=? 13)).
Definition isdigit (c : byte) : bool := (48 <=? code c) && (code c <=? 57).

Fixpoint take_digits (s : str) : str :=
  match s with c :: rest => if isdigit c then c :: take_digits rest else [] | [] => [] end.

Fixpoint drop_space (s : str) : str :=
  match s with c :: rest => if isspace c then drop_space rest else s | [] => [] end.

Definition stoull (digits : str) : result Z :=
  let n := fold_left (fun n c => 10 * n + (code c - 48)) digits 0 in
  if n <? 2 ^ 64 then Ok n else Throw "stoull"%string.

(** From the lines of /proc/<pid>/status. *)
Fixpoint memory_from (lines : list str) : result (option Z) :=
  match lines with
  | [] => Ok None
  | line :: lines =>
      if starts_with "VmRSS:"%string line then
        match take_digits (drop_space (drop 6 line)) with
        | [] => Ok None
        | digits => let? n := stoull digits in Ok (Some (wrap_u64 (n * 1024)))
        end
      else memory_from lines
  end.

(** [None]: the file is not there. *)
Definition memoryUsageBytes (p : KernelProcess) (status_file : option (list str)) : result (option Z) :=
  if m_processId p <=? 0 then Ok None
  else match status_file with None => Ok None | Some lines => memory_from lines end.

(** ** What the life of a process comes to *)

(** The calls of the supervisor, one after another, and what happens to the
    child in between. *)
Inductive Op :=
| IsAlive
| Interrupt
| Kill
| Describe
| Happens (e : ChildEvent).

Definition do_op (p : KernelProcess) (o : Op) : KernelProcess :=
  match o with
  | IsAlive => snd (isAlive p)
  | Interrupt => snd (interrupt p)
  | Kill => kill p
  | Describe => snd (describeStatus p)
  | Happens e => set_child (child_event e (os_child p)) p
  end.

(** A call of [describeStatus] that finds the child stopped. *)
Definition sees_stop (p : KernelProcess) (o : Op) : bool :=
  match o, os_child p with
  | Describe, StoppedBy _ => (0 <? m_processId p) && negb (m_reaped p)
  | _, _ => false
  end.

Fixpoint saw_stop (p : KernelProcess) (ops : list Op) : bool :=
  match ops with
  | [] => false
  | o :: ops => sees_stop p o || saw_stop (do_op p o) ops
  end.

Definition run_ops (p : KernelProcess) (ops : list Op) : KernelProcess := fold_left do_op ops p.

(** The status the child ended with by itself. *)
Fixpoint first_end (ops : list Op) : option Z :=
  match ops with
  | [] => None
  | Happens (Ends status) :: _ => Some status
  | _ :: ops => first_end ops
  end.

(** What the members say of the child: not ended yet; ended with a status; the
    process was killed. *)
Inductive knows (status : option Z) (p : KernelProcess) : Prop :=
| knows_alive : status = None -> 0 < m_processId p -> m_reaped p = false ->
    match os_child p with Running | StoppedBy _ => True | _ => False end -> knows status p
| knows_zombie s : status = Some s -> 0 < m_processId p -> m_reaped p = false -> os_child p = Zombie s -> knows status p
| knows_reaped s : status = Some s -> 0 < m_processId p -> m_reaped p = true -> os_child p = Reaped ->
    m_exitStatus p = s -> knows status p
| knows_killed : m_processId p = -1 -> os_child p = Reaped -> knows status p.

Definition end_of (status : option Z) (o : Op) : option Z :=
  match status, o with None, Happens (Ends s) => Some s | _, _ => status end.

Ltac know := first [by eapply knows_alive | by eapply knows_zombie | by eapply knows_reaped | by apply knows_killed].

(** Evaluates the operations of a process whose id is a numeral or the
    positive number [q]. *)
Ltac eval_ops :=
  unfold do_op, isAlive, interrupt, kill, describeStatus, waitpidCached, sees_stop in *; cbn in *;
  rewrite ?Pos.eqb_refl, ?andb_false_r in *; cbn in *.

Lemma knows_op status p o : knows status p -> sees_stop p o = false -> knows (end_of status o) (do_op p o).
Proof.
  intros H Hs. destruct p as [c id reaped st by_sig sig].
  destruct H as [-> Hid Hr Hc | s -> Hid Hr Hc | s -> Hid Hr Hc Hst | Hid Hc]; cbn in Hid, Hc; try cbn in Hr; subst;
    try (destruct id as [|q|q]; [lia | | lia]); destruct o as [| | | |e].
  - destruct c; eval_ops; know || done.
  - destruct by_sig, c; eval_ops; know || done.
  - destruct c; eval_ops; know || done.
  - destruct c; eval_ops; know || done.
  - destruct e, c; eval_ops; know || done.
  - eval_ops. know.
  - destruct by_sig; eval_ops; know.
  - eval_ops. know.
  - eval_ops. know.
  - destruct e; eval_ops; know.
  - eval_ops. know.
  - destruct by_sig; eval_ops; know.
  - eval_ops. know.
  - eval_ops. know.
  - destruct e; eval_ops; know.
  - eval_ops. know.
  - eval_ops. know.
  - eval_ops. know.
  - eval_ops. know.
  - destruct e; eval_ops; know.
Qed.

Lemma first_end_end_of ops : forall status, fold_left end_of ops status = match status with None => first_end ops | _ => status end.
Proof.
  induction ops as [|o ops IH]; intros status; [by destruct status |]. cbn [fold_left]. rewrite IH.
  destruct status; cbn; [done |]. by destruct o as [| | | |[]].
Qed.

Lemma knows_run ops : forall status p, knows status p -> saw_stop p ops = false ->
  knows (fold_left end_of ops status) (run_ops p ops).
Proof.
  induction ops as [|o ops IH]; intros status p H Hs; [done |]. cbn in Hs. apply orb_false_iff in Hs as [Ho Hs].
  cbn. apply IH; [by apply knows_op | done].
Qed.

(** A signal only goes to a child that is there: [m_reaped] says when it is
    not. *)
Record reaps_known (p : KernelProcess) : Prop := {
  reaped_known : os_child p = Reaped -> m_reaped p = true \/ m_processId p <= 0;
  signals_there : Forall (fun s => s.2 = true) (signalled p)
}.

Lemma signals_there_snoc sig s : Forall (fun s : Z * bool => s.2 = true) sig ->
  Forall (fun s : Z * bool => s.2 = true) (sig ++ [(s, true)]).
Proof. intros H. rewrite Forall_app. split; [done | by constructor]. Qed.

Lemma reaps_known_op p o : reaps_known p -> reaps_known (do_op p o).
Proof.
  intros [H1 H2]. destruct p as [c id reaped st by_sig sig]. cbn in H1, H2.
  pose proof (signals_there_snoc sig) as Hsnoc.
  destruct (decide (c = Reaped /\ reaped = false)) as [[-> ->] | Hc].
  { destruct (H1 eq_refl) as [? | Hid]; [done |]. destruct id as [|q|q]; [| lia |];
      destruct o as [| | | |[]], by_sig; eval_ops; by split. }
  destruct id as [|q|q]; [| destruct reaped |]; destruct o as [| | | |[]], by_sig, c; eval_ops; split; cbn; auto; naive_solver.
Qed.

Lemma reaps_known_run ops : forall p, reaps_known p -> reaps_known (run_ops p ops).
Proof. induction ops as [|o ops IH]; intros p H; [done |]. cbn. by apply IH, reaps_known_op. Qed.


(** A stopped child (a SIGSTOP, a terminal's job control), once described, is
    taken for reaped: it is never signalled again, so a kill leaves it there. *)
Example stopped_child_survives_kill :
  let p := run_ops (started 4711 true) [Happens (Stops 19); Describe; Kill] in
  os_child p = StoppedBy 19 /\ signalled p = []
  /\ fst (isAlive (run_ops (started 4711 true) [Happens (Stops 19); Describe])) = false.
Proof. by vm_compute. Qed.

(** The text of a status, as [waitpid] encodes it. *)
Lemma describe_exit_code n : 0 <= n < 256 ->
  describe_exit (Z.shiftl n 8) = "process exited with code "%string ++ to_string n.
Proof.
  intros Hn. assert (forallb (fun n => str_eqb (describe_exit (Z.shiftl n 8)) ("process exited with code "%string ++ to_string n))
    (seqZ 0 256) = true) as H by (vm_compute; reflexivity).
  rewrite forallb_forall in H. apply str_eqb_eq, H, list_elem_of_In, elem_of_seqZ. lia.
Qed.

(** ** The start *)

(** A start leaves nothing behind when it fails.  It succeeds exactly when
    the directory is there, both pipes and the child were made, and the child
    did not report an error; then the only descriptor kept is the end of the
    output pipe that is read.  Otherwise it throws, every descriptor is closed,
    and a child that was made is reaped. *)
Theorem start_correct ldPathVar options env os :
  let s := start ldPathVar options env os in
  let ready := (bool_decide (workingDirectory options = []) || is_directory os) && output_pipe os && status_pipe os in
  let reports := match child ldPathVar options env os with Exits127 _ => (0 <? status_bytes os)%nat | _ => false end in
  match forked os with
  | Some pid =>
      if ready && negb reports then outcome s = Ok pid /\ open_fds s = [OutputRead] /\ reaped_child s = false
      else (exists what, outcome s = Throw what) /\ open_fds s = [] /\ reaped_child s = (ready && reports)
  | None => (exists what, outcome s = Throw what) /\ open_fds s = [] /\ reaped_child s = false
  end.
Proof.
  unfold start, validateWorkingDirectory. generalize (child ldPathVar options env os) as fate. intros fate.
  destruct os as [dir out st fk cd ex sb se].
  cbn [is_directory output_pipe status_pipe forked status_bytes strerror].
  destruct (bool_decide (workingDirectory options = [])), dir, out, st, fk as [pid|], fate;
    cbn [orb andb negb]; try destruct (0 <? sb)%nat; cbn; repeat split; try (by eexists); done.
Qed.

(** ** What the kernel printed is what the supervisor prints *)

(** What the pump reads before the turn that ends it, and whether there is
    one. *)
Fixpoint pumped (turns : list PumpTurn) : str * bool :=
  match turns with
  | [] => ([], false)
  | (Bytes [] | EndOfFile | PollFails | NothingReady false) :: _ => ([], true)
  | Bytes data :: turns => let (rest, ended) := pumped turns in (data ++ rest, ended)
  | NothingReady true :: turns => pumped turns
  end.

Lemma split_all_resume s lines rest w : split_all newline s = lines ++ [rest] ->
  split_all newline (s ++ w) = lines ++ split_all newline (rest ++ w).
Proof.
  revert lines rest. induction s as [|c s IH]; intros lines rest; cbn [split_all app].
  - destruct lines as [|l lines]; [intros [= <-]; done | intros [= _ H]; by destruct lines].
  - destruct (char_eqb c newline) eqn:Hc.
    + destruct lines as [|l lines]; [intros [= _ H]; by destruct (split_all_not_nil newline s) |].
      intros [= <- H]. by rewrite (IH _ _ H).
    + destruct (split_all newline s) as [|p ps] eqn:Hs; [by destruct (split_all_not_nil newline s) |].
      destruct lines as [|l lines]; intros [= <- H].
      * subst ps. specialize (IH [] p eq_refl). cbn in IH |- *. rewrite IH, Hc. by destruct (split_all newline (p ++ w)).
      * subst ps. specialize (IH (p :: lines) rest eq_refl). cbn in IH. by rewrite IH.
Qed.

Lemma relay_spec fuel : forall s, (length s <= fuel)%nat ->
  exists lines rest, relay fuel s = (lines, rest) /\ split_all newline s = lines ++ [rest].
Proof.
  induction fuel as [|fuel IH]; intros s Hs; cbn [relay].
  - exists [], s. destruct s; [done | cbn in Hs; lia].
  - destruct (split_at newline s) as [[line s']|] eqn:E.
    + apply split_at_Some in E as [-> Hn]. rewrite length_app in Hs. cbn in Hs.
      destruct (IH s' ltac:(lia)) as (lines & rest & -> & Hl). exists (line :: lines), rest.
      split; [done |]. by rewrite split_all_app, Hl.
    + apply split_at_None in E. exists [], s. by rewrite split_all_one.
Qed.

(** The invariant of the pump's thread: it has printed the whole lines of what
    it read, and carries the rest; when it ends it prints that too. *)
Record pump_invariant (read : str) (ended : bool) (p : Pump) : Prop := {
  pump_carry : carry p = if ended then None else Some (List.last (split_all newline read) []);
  pump_printed : printed p = removelast (split_all newline read)
    ++ (if ended && negb (bool_decide (List.last (split_all newline read) [] = [])) then [List.last (split_all newline read) []] else [])
}.

Lemma removelast_last_split s lines rest : split_all newline s = lines ++ [rest] ->
  removelast (split_all newline s) = lines /\ List.last (split_all newline s) [] = rest.
Proof. intros ->. by rewrite removelast_last, List.last_last. Qed.

Lemma pump_ends read p : pump_invariant read false p ->
  pump_invariant read true (end_pump (List.last (split_all newline read) []) p).
Proof.
  intros [H1 H2]. split; [done |]. cbn. rewrite H2. cbn [andb]. rewrite app_nil_r.
  by destruct (bool_decide _).
Qed.

Lemma pump_reads read c data p : pump_invariant read false p -> carry p = Some c ->
  pump_invariant (read ++ data) false
    (let (lines, c) := relay (length (c ++ data)) (c ++ data) in {| carry := Some c; printed := printed p ++ lines |}).
Proof.
  intros [H1 H2] Hc. destruct (relay_spec _ (c ++ data) (le_n _)) as (lines & rest & -> & Hl).
  rewrite Hc in H1. injection H1 as H1. cbn [andb] in H2. rewrite app_nil_r in H2.
  pose proof (app_removelast_last [] (split_all_not_nil newline read)) as Hr. rewrite <- H1 in Hr.
  apply (split_all_resume _ _ _ data) in Hr. rewrite Hl, app_assoc in Hr.
  destruct (removelast_last_split _ _ _ Hr) as [E1 E2]. by split; cbn; rewrite ?E1, ?E2, ?app_nil_r, ?H2.
Qed.

Lemma pump_from turns : forall read p, pump_invariant read false p ->
  pump_invariant (read ++ fst (pumped turns)) (snd (pumped turns)) (fold_left pump_turn turns p).
Proof.
  assert (forall turns p, carry p = None -> fold_left pump_turn turns p = p) as Hend.
  { clear turns. induction turns as [|t turns IH]; intros p Hp; [done |]. cbn. unfold pump_turn at 2. rewrite Hp. by apply IH. }
  induction turns as [|t turns IH]; intros read p H; [by rewrite app_nil_r |]. pose proof (pump_carry _ _ _ H) as Hc.
  pose proof (pump_ends _ _ H) as He. cbn [fold_left]. unfold pump_turn at 2. rewrite Hc.
  destruct t as [[|c data]| | |[]]; cbn [pumped fst snd]; rewrite ?app_nil_r; try by rewrite Hend.
  - specialize (IH (read ++ c :: data) _ (pump_reads _ _ _ _ H Hc)).
    destruct (pumped turns) as [rest ended]. cbn [fst snd] in IH |- *. by rewrite <- app_assoc in IH.
  - by apply IH.
Qed.

(** Everything the kernel printed is relayed, line by line.  However its
    output is cut into reads, the pump has printed the whole lines of all it
    read, in order; once it has ended (the end of the pipe, an error, or a kill
    with nothing left to read) the rest after the last newline too, if any. *)
Theorem pump_relays turns :
  let (read, ended) := pumped turns in
  let parts := split_all newline read in
  let p := run_pump turns in
  (carry p = None <-> ended = true)
  /\ printed p = removelast parts ++ (if ended && negb (bool_decide (List.last parts [] = [])) then [List.last parts []] else []).
Proof.
  pose proof (pump_from turns [] newPump ltac:(by split)) as [H1 H2]. fold (run_pump turns) in H1, H2.
  destruct (pumped turns) as [read ended]. cbn in H1, H2. split; [| exact H2]. rewrite H1. by destruct ended.
Qed.

(** ** The environment of the child *)
(** The settings in the order they are made, each under its upper-case name. *)
Definition settings (inherited : list str) (extra : list (str * str)) : list (str * str) :=
  omap (fun text => (fun name => (upper name, text)) <$> entry_name text) inherited
  ++ ((fun nv => (upper nv.1, nv.1 ++ "="%char :: nv.2)) <$> extra).

Lemma environment_map_settings inherited extra :
  environment_map inherited extra = fold_left (fun m nv => map_set nv.1 nv.2 m) (settings inherited extra) [].
Proof.
  unfold environment_map, settings. rewrite fold_left_app.
  assert (forall m, fold_left inherit inherited m = fold_left (fun m nv => map_set nv.1 nv.2 m)
    (omap (fun text => (fun name => (upper name, text)) <$> entry_name text) inherited) m) as ->.
  { induction inherited as [|text inherited IH]; intros m; [done |]. cbn. unfold inherit at 2.
    destruct (entry_name text); cbn; apply IH. }
  generalize (fold_left (fun m nv => map_set nv.1 nv.2 m)
    (omap (fun text => (fun name => (upper name, text)) <$> entry_name text) inherited) []).
  induction extra as [|nv extra IH]; intros m; [done |]. cbn. apply IH.
Qed.

(** The environment block of a kernel on Windows.  It holds, sorted by
    their upper-case names, for every name the last of its settings, the
    inherited ones first and then the kernel's own: a variable of the kernel's
    replaces the inherited one whatever its case, the other inherited ones are
    kept; and the block ends each text, and itself, with a zero. *)
Theorem environment_block inherited extra : extra <> [] ->
  exists m, environmentBlock inherited extra = (m ≫= fun nt => nt.2 ++ [nul]) ++ [nul] /\ sorted m
    /\ forall name text, (name, text) ∈ m <->
         exists before after, settings inherited extra = before ++ (name, text) :: after /\ name ∉ after.*1.
Proof.
  intros He. unfold environmentBlock. rewrite bool_decide_eq_false_2 by done.
  exists (environment_map inherited extra). split; [done |]. rewrite environment_map_settings.
  destruct (map_sets_spec (settings inherited extra) [] I) as [Hs Hin]. split; [done |].
  intros name text. rewrite Hin. split; [intros [H | [_ H]]; [done | by apply elem_of_nil in H] | by left].
Qed.


Definition sample_inherited : list str :=
  ["Path=C:\bin"%string : str; "=C:=C:\"%string : str; "nonsense"%string : str; "TERM=dumb"%string : str].

Lemma environment_block_witness :
  environmentBlock sample_inherited [("PATH"%string : str, "D:\r"%string : str)]
    = "=C:=C:\"%string ++ nul :: "PATH=D:\r"%string ++ nul :: "TERM=dumb"%string ++ [nul; nul]
  /\ exists m, sorted m /\ ("PATH"%string : str, "PATH=D:\r"%string : str) ∈ m.
Proof.
  split; [by vm_compute |].
  destruct (environment_block sample_inherited [("PATH"%string : str, "D:\r"%string : str)] ltac:(done)) as (m & _ & Hs & Hm).
  exists m. split; [done |]. apply Hm.
  exists (take 3 (settings sample_inherited [("PATH"%string : str, "D:\r"%string : str)])), [].
  split; [by vm_compute | apply not_elem_of_nil].
Defined.

(** The resident memory in bytes, and a line with no number. *)
Example memory_lines :
  memoryUsageBytes (started 4711 true)
    (Some ["Name: elara"%string : str; ("VmRSS:"%string : str) ++ "009"%char :: "   1536 kB"%string; "x"%string : str]) = Ok (Some 1572864)
  /\ memoryUsageBytes (started 4711 true) (Some ["VmRSS: none"%string : str]) = Ok None
  /\ memoryUsageBytes (kill (started 4711 true)) (Some ["VmRSS: 1 kB"%string : str]) = Ok None
  /\ memoryUsageBytes (started 4711 true) (Some ["VmRSS: 99999999999999999999 kB"%string : str]) = Throw "stoull"%string.
Proof. by vm_compute. Qed.

(** A directory that ends in a backslash breaks the Windows command line: the
    quote that closes the argument is escaped by it. *)
Example trailing_backslash :
  commandLine {| kernelExePath := "k"%string; rHome := "C:\R\"%string; rPath := []; rLibs := []; pandocPath := []; pythonHome := [];
    pythonPath := []; venvPath := []; stataHome := []; stataEdition := []; workingDirectory := []; explicitArgs := [];
    extraEnv := []; interruptBySignal := false; registrationIp := []; registrationPort := []; registrationId := []; key := [] |}
  = let q := [dquote] in q ++ "k"%string ++ q ++ " "%char :: q ++ "--r-home"%string ++ q ++ " "%char :: q ++ "C:\R\"%string ++ q.
Proof. by vm_compute. Qed.
