(* ===== verification/WinProcess.v ===== *)
(** * A kernel's process on Windows: themisto/kernel_process.cpp

    The other half of the file: the start (CreateProcess with the handles the
    child may inherit), the output pump's turns, and the process seen through
    its handle.  Process.v has what both platforms share and the POSIX half.
    The calls that open, use or close a handle are a trace ([Call]), in order;
    what the system answers is an argument. *)

From Stdlib Require Import Ascii String ZArith Lia.
From S2P Require Import Prelude Process.
Local Open Scope Z_scope.

Inductive handle := InterruptEvent | PipeRead | PipeWrite | ProcessHandle | ThreadHandle.

#[export] Instance handle_eq_dec : EqDecision handle.
Proof. solve_decision. Defined.

Inductive Call :=
| Opened (h : handle)
| Closed (h : handle)
| NotInherited (h : handle)
| ListInitialised
| ListDeleted
| CreateProcessA (commandLine : str) (environment : str) (directory : option str) (inherits : list handle)
| Used (h : handle)
| AssignedToJob.

(** What the calls of a start answer; the event's handle as a number, and the
    child's id. *)
Record StartOutcome := {
  is_directory : bool;
  event : option Z;
  pipe : bool;
  list_initialised : bool;
  list_updated : bool;
  created : option Z;
  job : bool
}.

(** The child, as the system has it, and the thread that relays its output:
    none to join, reading, or at its end. *)
Inductive Child := NoChild | Alive | Exited (code : Z).
Inductive Pump := NotStarted | Reading | Ended.

Record KernelProcess := {
  os_child : Child;
  m_processHandle : bool;
  m_processId : Z;
  m_interruptEvent : option Z;
  m_outputThread : Pump;
  calls : list Call
}.

Definition new_process : KernelProcess :=
  {| os_child := NoChild; m_processHandle := false; m_processId := 0; m_interruptEvent := None; m_outputThread := NotStarted; calls := [] |}.

Definition add (cs : list Call) (p : KernelProcess) : KernelProcess :=
  {| os_child := os_child p; m_processHandle := m_processHandle p; m_processId := m_processId p; m_interruptEvent := m_interruptEvent p;
     m_outputThread := m_outputThread p; calls := calls p ++ cs |}.
Definition set_child (c : Child) (p : KernelProcess) : KernelProcess :=
  {| os_child := c; m_processHandle := m_processHandle p; m_processId := m_processId p; m_interruptEvent := m_interruptEvent p;
     m_outputThread := m_outputThread p; calls := calls p |}.
Definition set_event (e : option Z) (p : KernelProcess) : KernelProcess :=
  {| os_child := os_child p; m_processHandle := m_processHandle p; m_processId := m_processId p; m_interruptEvent := e;
     m_outputThread := m_outputThread p; calls := calls p |}.
Definition set_handle (b : bool) (p : KernelProcess) : KernelProcess :=
  {| os_child := os_child p; m_processHandle := b; m_processId := m_processId p; m_interruptEvent := m_interruptEvent p;
     m_outputThread := m_outputThread p; calls := calls p |}.
Definition set_pump (t : Pump) (p : KernelProcess) : KernelProcess :=
  {| os_child := os_child p; m_processHandle := m_processHandle p; m_processId := m_processId p; m_interruptEvent := m_interruptEvent p;
     m_outputThread := t; calls := calls p |}.
Definition started (pid : Z) (p : KernelProcess) : KernelProcess :=
  {| os_child := Alive; m_processHandle := true; m_processId := pid; m_interruptEvent := m_interruptEvent p; m_outputThread := m_outputThread p; calls := calls p |}.

(** The event an interrupt sets, made once for a kernel that is interrupted by
    signal. *)
Definition make_event (options : KernelProcessOptions) (os : StartOutcome) (p : KernelProcess) : KernelProcess :=
  match m_interruptEvent p with
  | None =>
      if interruptBySignal options then
        match event os with Some e => add [Opened InterruptEvent] (set_event (Some e) p) | None => p end
      else p
  | Some _ => p
  end.

Definition event_variable : str := "JPY_INTERRUPT_EVENT"%string.

Definition with_event (extra : list (str * str)) (p : KernelProcess) : list (str * str) :=
  match m_interruptEvent p with Some e => map_set event_variable (to_string e) extra | None => extra end.

Definition inheritList (p : KernelProcess) : list handle :=
  PipeWrite :: match m_interruptEvent p with Some _ => [InterruptEvent] | None => [] end.

Definition startOutputPump (p : KernelProcess) : KernelProcess := set_pump Reading p.

Definition no_directory : str := "workingDirectory does not exist or is not a directory: "%string.
Definition no_pipe : str := "Failed to create output pipe for elara process"%string.
Definition no_list : str := "Failed to initialize process attribute list for elara process"%string.
Definition no_inherited_list : str := "Failed to set inherited handle list for elara process"%string.
Definition no_process : str := "Failed to spawn elara process (CreateProcess failed)"%string.

Definition start (inherited : list str) (options : KernelProcessOptions) (os : StartOutcome) (p : KernelProcess) : KernelProcess * result unit :=
  let directory := if bool_decide (workingDirectory options = []) then None else Some (workingDirectory options) in
  if negb (bool_decide (workingDirectory options = [])) && negb (is_directory os) then
    (p, Throw (no_directory ++ workingDirectory options))
  else
    let p := make_event options os p in
    let environment := environmentBlock inherited (with_event (extraEnv options) p) in
    if negb (pipe os) then (p, Throw no_pipe)
    else
      let p := add [Opened PipeRead; Opened PipeWrite; NotInherited PipeRead] p in
      if negb (list_initialised os) then
        (add [Closed PipeWrite; Closed PipeRead] p, Throw no_list)
      else
        let p := add [ListInitialised] p in
        if negb (list_updated os) then
          (add [ListDeleted; Closed PipeWrite; Closed PipeRead] p, Throw no_inherited_list)
        else
          let p := add [CreateProcessA (commandLine options) environment directory (inheritList p); ListDeleted; Closed PipeWrite] p in
          match created os with
          | None => (add [Closed PipeRead] p, Throw no_process)
          | Some pid =>
              let p := add ([Opened ProcessHandle; Opened ThreadHandle; Closed ThreadHandle] ++ if job os then [Used ProcessHandle; AssignedToJob] else [])
                         (started pid p) in
              (startOutputPump p, Ok tt)
          end.

(** ** The process through its handle *)

Definition STILL_ACTIVE : Z := 259.

(** What [GetExitCodeProcess] gives on an open handle, when it answers
    ([queried]). *)
Definition exit_code (p : KernelProcess) : Z := match os_child p with Exited code => code | _ => STILL_ACTIVE end.

Definition isAlive (queried : bool) (p : KernelProcess) : bool * KernelProcess :=
  if negb (m_processHandle p) then (false, p)
  else if negb queried then (false, add [Used ProcessHandle] p)
  else (exit_code p =? STILL_ACTIVE, add [Used ProcessHandle] p).

Definition interrupt (queried set : bool) (p : KernelProcess) : bool * KernelProcess :=
  match m_interruptEvent p with
  | None => (false, p)
  | Some _ => let (alive, p) := isAlive queried p in if alive then (set, add [Used InterruptEvent] p) else (false, p)
  end.

(** The pump closes the pipe's end when it ends: by itself at the end of the
    file, or when it is told to, which the join waits for. *)
Definition pump_ends (p : KernelProcess) : KernelProcess :=
  match m_outputThread p with Reading => add [Closed PipeRead] (set_pump Ended p) | _ => p end.

Definition endOutputPump (p : KernelProcess) : KernelProcess :=
  match m_outputThread p with NotStarted => p | _ => set_pump NotStarted (pump_ends p) end.

Definition terminated (c : Child) : Child := match c with Alive => Exited 1 | _ => c end.

Definition kill (p : KernelProcess) : KernelProcess :=
  endOutputPump
    (if m_processHandle p then
       set_handle false (add [Used ProcessHandle; Closed ProcessHandle] (set_child (terminated (os_child p)) p))
     else p).

(** [~KernelProcess] *)
Definition destroy (p : KernelProcess) : KernelProcess :=
  let p := kill p in
  match m_interruptEvent p with Some _ => add [Closed InterruptEvent] (set_event None p) | None => p end.

(** [std::hex], of a DWORD: eight digits at most. *)
Fixpoint hex_from (fuel : nat) (n : Z) : str :=
  match fuel with
  | O => []
  | S fuel =>
      let d := nth (Z.to_nat (n mod 16)) ("0123456789abcdef"%string : str) nul in
      if n <? 16 then [d] else hex_from fuel (n / 16) ++ [d]
  end.
Definition hex (n : Z) : str := hex_from 8 n.

Definition describe_code (code : Z) : str :=
  if code =? 0xC0000005 then " (STATUS_ACCESS_VIOLATION -- a native crash, e.g. in a compiled R package)"%string
  else if code =? 0xC00000FD then " (STATUS_STACK_OVERFLOW)"%string
  else if code =? 0xC0000409 then " (STATUS_STACK_BUFFER_OVERRUN)"%string
  else if code =? 0xC0000135 then " (STATUS_DLL_NOT_FOUND -- a required DLL is missing)"%string
  else if code =? 0xC000007B then " (STATUS_INVALID_IMAGE_FORMAT -- likely a 32/64-bit or ABI mismatch in a loaded DLL)"%string
  else if code =? 0xC0000142 then " (STATUS_DLL_INIT_FAILED)"%string
  else [].

Definition describeStatus (queried : bool) (p : KernelProcess) : str * KernelProcess :=
  if negb (m_processHandle p) then ("process was never started or has already been cleaned up"%string : str, p)
  else if negb queried then
    ("unable to query process exit code (GetExitCodeProcess failed)"%string : str, add [Used ProcessHandle] p)
  else
    (if exit_code p =? STILL_ACTIVE then ("process is still running -- likely hung or blocked rather than crashed"%string : str)
     else "process exited with code 0x"%string ++ hex (exit_code p) ++ describe_code (exit_code p),
     add [Used ProcessHandle] p).

Definition pid (p : KernelProcess) : Z := m_processId p.

Definition memoryUsageBytes (working_set : option Z) (p : KernelProcess) : option Z :=
  if negb (m_processHandle p) then None else working_set.

(** ** The pump's turns

    What [PeekNamedPipe] and [ReadFile] answer, as the turns of Process.v. *)
Definition peek_turn (available : option Z) (read : option str) (running : bool) : PumpTurn :=
  match available with
  | None => EndOfFile
  | Some n => if 0 <? n then match read with Some data => Bytes data | None => EndOfFile end else NothingReady running
  end.

(** ** The handles, replayed

    The handles open after a trace, oldest first; none when the trace opens
    one that is open, or uses, passes on or closes one that is not. *)
Definition drop_handle (h : handle) (hs : list handle) : list handle := List.filter (fun h' => negb (bool_decide (h' = h))) hs.

Definition is_open (h : handle) (hs : list handle) : bool := bool_decide (h ∈ hs).

Definition replay_call (hs : list handle) (c : Call) : option (list handle) :=
  match c with
  | Opened h => if is_open h hs then None else Some (hs ++ [h])
  | Closed h => if is_open h hs then Some (drop_handle h hs) else None
  | NotInherited h | Used h => if is_open h hs then Some hs else None
  | CreateProcessA _ _ _ inherits => if forallb (fun h => is_open h hs) inherits then Some hs else None
  | ListInitialised | ListDeleted | AssignedToJob => Some hs
  end.

Fixpoint replay (hs : list handle) (cs : list Call) : option (list handle) :=
  match cs with [] => Some hs | c :: rest => hs ← replay_call hs c; replay hs rest end.

(** The handles the process holds. *)
Definition held (p : KernelProcess) : list handle :=
  match m_interruptEvent p with Some _ => [InterruptEvent] | None => [] end
  ++ match m_outputThread p with Reading => [PipeRead] | _ => [] end
  ++ if m_processHandle p then [ProcessHandle] else [].

Definition sound (p : KernelProcess) : Prop :=
  replay [] (calls p) = Some (held p)
  /\ (m_processHandle p = true -> os_child p <> NoChild)
  /\ (m_processHandle p = false -> os_child p <> Alive).

(** What happens to a process after its start. *)
Inductive Op := Kill | Ask (queried : bool) | Interrupt (queried set : bool) | Describe (queried : bool) | PumpEnds | ChildExits (code : Z).

Definition step (p : KernelProcess) (o : Op) : KernelProcess :=
  match o with
  | Kill => kill p
  | Ask q => snd (isAlive q p)
  | Interrupt q s => snd (interrupt q s p)
  | Describe q => snd (describeStatus q p)
  | PumpEnds => pump_ends p
  | ChildExits code => match os_child p with Alive => set_child (Exited code) p | _ => p end
  end.

Lemma replay_app cs ds : forall hs, replay hs (cs ++ ds) = hs' ← replay hs cs; replay hs' ds.
Proof. induction cs as [| c cs IH]; intros hs; cbn; [done |]. destruct (replay_call hs c); cbn; [apply IH | done]. Qed.

Ltac cases_of p :=
  destruct p as [[| | ?] [|] ? [?|] [| |] ?]; cbn in *.

Lemma step_sound (p : KernelProcess) (o : Op) : sound p -> sound (step p o).
Proof.
  unfold sound. destruct o; cases_of p; intros (Hr & H1 & H2);
    try (exfalso; by (apply H1 || apply H2)); unfold isAlive, interrupt, describeStatus, kill, exit_code; cbn;
    repeat (case_match; simplify_eq; cbn in * ); rewrite ?replay_app, ?Hr; cbn; repeat split; try done; intros; try congruence.
Qed.

Lemma steps_sound (ops : list Op) : forall p, sound p -> sound (fold_left step ops p).
Proof. induction ops as [| o ops IH]; intros p Hp; cbn; [done | apply IH, step_sound, Hp]. Qed.

Lemma destroyed_sound (p : KernelProcess) : sound p -> sound (destroy p) /\ held (destroy p) = [].
Proof.
  intros Hp. pose proof (step_sound p Kill Hp) as Hk. cbn in Hk. unfold destroy.
  assert (Hn : m_processHandle (kill p) = false /\ m_outputThread (kill p) = NotStarted)
    by (clear; cases_of p; done).
  revert Hk Hn. generalize (kill p) as q. clear. intros q (Hr & H1 & H2) [Hh Ho]. cases_of q; simplify_eq; try done;
    unfold sound; cbn in *; rewrite ?replay_app, Hr; done.
Qed.

(** ** The start *)

(** What a start gives: the handles of a running child, or at most the event. *)
Definition started_well (options : KernelProcessOptions) (os : StartOutcome) (r : KernelProcess * result unit) : Prop :=
  sound r.1
  /\ match r.2 with
     | Ok _ =>
         os_child r.1 = Alive /\ m_outputThread r.1 = Reading /\ m_processHandle r.1 = true /\ created os = Some (pid r.1)
     | _ => os_child r.1 = NoChild /\ held r.1 = match m_interruptEvent r.1 with Some _ => [InterruptEvent] | None => [] end
     end
  /\ m_interruptEvent r.1 = if interruptBySignal options && (bool_decide (workingDirectory options = []) || is_directory os) then event os else None.

#[local] Arguments environmentBlock : simpl never.
#[local] Arguments commandLine : simpl never.
#[local] Arguments with_event : simpl never.
#[local] Opaque environmentBlock commandLine with_event no_directory no_pipe no_list no_inherited_list no_process.

Lemma start_well (inherited : list str) (options : KernelProcessOptions) (os : StartOutcome) :
  started_well options os (start inherited options os new_process).
Proof.
  unfold started_well, start, make_event. destruct os as [d e pi li lu cr jb]. cbn.
  destruct (bool_decide (workingDirectory options = [])); destruct d; destruct (interruptBySignal options); destruct e; cbn;
    destruct pi; try done; destruct li; try done; destruct lu; try done; destruct cr; try done; destruct jb; done.
Qed.

(** What every [CreateProcess] of a trace was given. *)
Definition spawns_of (cs : list Call) : list (str * str * option str * list handle) :=
  cs ≫= fun c => match c with CreateProcessA l e d hs => [(l, e, d, hs)] | _ => [] end.

Lemma start_spawns (inherited : list str) (options : KernelProcessOptions) (os : StartOutcome) :
  let p := (start inherited options os new_process).1 in
  os_child p = Alive ->
  spawns_of (calls p)
  = [(commandLine options, environmentBlock inherited (with_event (extraEnv options) p),
      if bool_decide (workingDirectory options = []) then None else Some (workingDirectory options), inheritList p)].
Proof.
  unfold start, make_event. destruct os as [d e pi li lu cr jb]. cbn.
  destruct (bool_decide (workingDirectory options = [])); destruct d; destruct (interruptBySignal options); destruct e; cbn;
    destruct pi; try done; destruct li; try done; destruct lu; try done; destruct cr; try done; destruct jb; done.
Qed.

Lemma alive_iff (p : KernelProcess) :
  sound p -> (isAlive true p).1 = true <-> m_processHandle p = true /\ (os_child p = Alive \/ os_child p = Exited STILL_ACTIVE).
Proof.
  intros (_ & H1 & H2). unfold isAlive, exit_code.
  destruct (m_processHandle p); cbn; [| split; [done | by intros [? _]]].
  destruct (os_child p) as [| | code]; cbn; [by destruct H1 | by split; [left + auto |] |].
  rewrite Z.eqb_eq. split; [intros ->; auto | intros [_ [? | ?]]; [done | congruence]].
Qed.


(** ** Samples *)
Module Toy.
Definition fine : StartOutcome :=
  {| is_directory := true; event := Some 88; pipe := true; list_initialised := true; list_updated := true; created := Some 4711; job := true |}.

(** A child that ends with 259 is taken for alive, and would be interrupted. *)
Example still_active : forall inherited options,
  let p := step (start inherited options fine new_process).1 (ChildExits 259) in
  os_child p = Exited 259 /\ (isAlive true p).1 = true.
Proof. intros. subst p. unfold start, make_event, fine. cbn. destruct (bool_decide _), (interruptBySignal options); done. Qed.

Example crash : describe_code 3221225477 = (" (STATUS_ACCESS_VIOLATION -- a native crash, e.g. in a compiled R package)"%string : str)
  /\ hex 3221225477 = ("c0000005"%string : str) /\ hex 0 = ("0"%string : str).
Proof. split; [| split]; vm_compute; reflexivity. Qed.
End Toy.
