(* ===== verification/Launch.v ===== *)
(** * The programs: the three kernels' main functions and the supervisor's

    elara.cpp, carpo.cpp and callisto.cpp with their engine.cpp (the command
    line, the environment the interpreter finds, and the start that registers
    with the supervisor or serves a connection file), and themisto/main.cpp with
    activity.hpp (the command line, and the loop that ends when it is asked to
    or nobody uses the supervisor).  The three kernels' files differ only in
    their options and variables, so they are one definition by [Kind]. *)

From Stdlib Require Import Ascii ZArith Lia.
From S2P Require Import Prelude Utf8 Crypto Json Wire Registration Process.
Local Open Scope Z_scope.

(** ** The command line of a kernel *)
Inductive Kind := Elara | Carpo | Callisto.

#[export] Instance Kind_eq_dec : EqDecision Kind.
Proof. solve_decision. Defined.

(** The loop of [parseArgs]: a flag and its value at a time. *)
Fixpoint parse_pairs (argv : list str) (args : gmap str str) : gmap str str :=
  match argv with
  | flag :: value :: argv =>
      parse_pairs argv
        (if str_eqb flag "-f"%string then <[("connection-file"%string : str) := value]> args
         else if starts_with "--"%string flag then <[drop 2 flag := value]> args
         else args)
  | _ => args
  end.

(** [parseArgs], from [argv] with the program's own name first. *)
Definition parseArgs (argv : list str) : gmap str str := parse_pairs (tail argv) ∅.

(** The options of the three programs; those of another one stay empty. *)
Record CliOptions := {
  o_rHome : str;
  o_rPath : str;
  o_rLibs : str;
  o_pandocPath : str;
  o_pythonHome : str;
  o_pythonPath : str;
  o_venvPath : str;
  o_stataHome : str;
  o_stataEdition : str;
  o_registrationIp : str;
  o_registrationPort : str;
  o_registrationId : str;
  o_key : str;
  o_connectionFile : str
}.

Definition option_of (args : gmap str str) (name : str) : str := default [] (args !! name).

Definition toCliOptions (k : Kind) (args : gmap str str) : CliOptions :=
  let get := option_of args in
  let of_kind (k' : Kind) (name : str) : str := if decide (k = k') then get name else [] in
  {| o_rHome := of_kind Elara "r-home"%string; o_rPath := of_kind Elara "r-path"%string;
     o_rLibs := of_kind Elara "r-libs"%string; o_pandocPath := of_kind Elara "pandoc-path"%string;
     o_pythonHome := of_kind Carpo "python-home"%string; o_pythonPath := of_kind Carpo "python-path"%string;
     o_venvPath := of_kind Carpo "venv-path"%string;
     o_stataHome := of_kind Callisto "stata-home"%string; o_stataEdition := of_kind Callisto "stata-edition"%string;
     o_registrationIp := if bool_decide (get "registration-ip"%string = []) then "127.0.0.1"%string else get "registration-ip"%string;
     o_registrationPort := get "registration-port"%string;
     o_registrationId := get "registration-id"%string;
     o_key := get "key"%string;
     o_connectionFile := get "connection-file"%string |}.

(** ** The environment of the interpreter (engine.cpp, on POSIX) *)
Definition set_unless_empty (name value : str) (env : environment) : environment :=
  if bool_decide (value = []) then env else <[name := value]> env.

Definition prepend_path (dir : str) (env : environment) : environment :=
  if bool_decide (dir = []) then env
  else <[("PATH"%string : str) := dir ++ ":"%char :: default [] (env !! ("PATH"%string : str))]> env.

Definition elara_environment (o : CliOptions) (env : environment) : environment :=
  let env := set_unless_empty "R_HOME"%string (o_rHome o) env in
  let env := prepend_path (o_rPath o) env in
  let env := set_unless_empty "R_LIBS_USER"%string (o_rLibs o) (set_unless_empty "R_LIBS"%string (o_rLibs o) env) in
  let env := set_unless_empty "RSTUDIO_PANDOC"%string (o_pandocPath o) env in
  prepend_path (o_pandocPath o) env.

Definition carpo_environment (o : CliOptions) (env : environment) : environment :=
  let env := set_unless_empty "PYTHONHOME"%string (o_pythonHome o) env in
  let env := set_unless_empty "PYTHONPATH"%string (o_pythonPath o) env in
  set_unless_empty "CARPO_VENV_PATH"%string (o_venvPath o) env.

Definition callisto_environment (o : CliOptions) (env : environment) : environment :=
  let env := set_unless_empty "STATA_HOME"%string (o_stataHome o) env in
  set_unless_empty "CALLISTO_STATA_EDITION"%string (o_stataEdition o) env.

Definition setupEnvironment (k : Kind) : CliOptions -> environment -> environment :=
  match k with Elara => elara_environment | Carpo => carpo_environment | Callisto => callisto_environment end.

(** ** The main function of a kernel *)
Definition makeKernelConfiguration (key : str) : KernelConfiguration :=
  newKernelConfiguration (newCommonConfiguration key).

Definition registration_of (o : CliOptions) : RegistrationConfiguration :=
  {| registration_common := newCommonConfiguration (o_key o); r_kernelId := o_registrationId o;
     m_registrationIp := o_registrationIp o; m_registrationPort := o_registrationPort o |}.

(** What is started: [None] for [registers] in the connection-file mode. *)
Record Plan := {
  config : KernelConfiguration;
  registers : option RegistrationConfiguration;
  kernel_environment : environment
}.

Section Main.
Context `{J : JsonLib}.

Definition standalone (o : CliOptions) : bool := negb (bool_decide (o_connectionFile o = [])).

(** JOVIAN_SUPERVISED is set for the kernels that ask the host questions. *)
Definition supervised_environment (k : Kind) (env : environment) : environment :=
  match k with
  | Carpo => env
  | _ => <[("JOVIAN_SUPERVISED"%string : str) := ("1"%string : str)]> env
  end.

(** [main] up to [server.start]; [Ok None] ends with the exit code 1.
    [file_content] is what reading a file gives. *)
Definition plan (k : Kind) (argv : list str) (file_content : str -> str) (env : environment) : result (option Plan) :=
  let o := toCliOptions k (parseArgs argv) in
  if negb (standalone o) && (bool_decide (o_registrationPort o = []) || bool_decide (o_key o = [])) then Ok None
  else
    let env := if standalone o then env else supervised_environment k env in
    if standalone o then
      match loadConfiguration (file_content (o_connectionFile o)) with
      | Ok (IsKernel config) => Ok (Some {| config := config; registers := None; kernel_environment := setupEnvironment k o env |})
      | Undefined => Undefined
      | _ => Ok None
      end
    else Ok (Some {| config := makeKernelConfiguration (o_key o); registers := Some (registration_of o);
                     kernel_environment := setupEnvironment k o env |}).

(** [Server::start]: the kernel is made (its interpreter, its sockets bound),
    [on_ready] is called, and the server runs until it is stopped.  An exception
    goes on unless the kernel was reported ready. *)
Definition Server_start {C} (make : result C) (on_ready : option (C -> result unit)) (run : C -> result unit) : result unit :=
  match make with
  | Ok c =>
      match (match on_ready with Some f => f c | None => Ok tt end) with
      | Ok _ =>
          match run c with
          | Throw w => match on_ready with Some _ => Ok tt | None => Throw w end
          | r => r
          end
      | r => r
      end
  | Throw w => Throw w
  | Undefined => Undefined
  end.

Definition exit_code (r : result unit) : Z := match r with Ok _ => 0 | _ => 1 end.

(** What registering does. *)
Definition register `{Ossl : OpenSSL} (regis : RegistrationConfiguration) (network : frames -> option frames) (bound : KernelConfiguration) : result unit :=
  let? auth := makeAuthentication "hmac-sha256"%string (m_key (registration_common regis)) in
  snd (sendConnectionInfo regis bound auth Strict network).

(** [main]: the exit code.  [make] is the construction of the kernel, its
    sockets bound; [network] is how the supervisor's socket answers. *)
Definition main `{Ossl : OpenSSL} (k : Kind) (argv : list str) (file_content : str -> str) (env : environment)
    (make : Plan -> result KernelConfiguration) (network : frames -> option frames) (run : KernelConfiguration -> result unit) : result Z :=
  let? p := plan k argv file_content env in
  match p with
  | None => Ok 1
  | Some p =>
      Ok (exit_code (Server_start (make p)
        (Some (fun bound => match registers p with None => Ok tt | Some regis => register regis network bound end)) run))
  end.
End Main.

(** ** The supervisor's main function *)

(** "--name value", or "--name" alone. *)
Fixpoint parse_switches (argv : list str) (args : gmap str str) : gmap str str :=
  match argv with
  | [] => args
  | flag :: rest =>
      if starts_with "--"%string flag then
        match rest with
        | v :: rest' =>
            if starts_with "--"%string v then parse_switches rest (<[drop 2 flag := []]> args)
            else parse_switches rest' (<[drop 2 flag := v]> args)
        | [] => <[drop 2 flag := []]> args
        end
      else parse_switches rest args
  end.

Definition supervisor_args (argv : list str) : gmap str str := parse_switches (tail argv) ∅.

(** [std::stol]. *)
Definition stol (s : str) : result Z :=
  let (sign, digits) := sign_of (skip_blanks s) in
  match digits with
  | c :: _ =>
      match digit c with
      | Some _ =>
          let n := sign * digits_value 0 digits in
          if (- 2 ^ 63 <=? n) && (n <? 2 ^ 63) then Ok n else Throw "stol"%string
      | None => Throw "stol"%string
      end
  | [] => Throw "stol"%string
  end.

Record Supervisor := {
  kernelExePaths : list (str * str);
  supervisorIp : str;
  token : str;
  idleShutdownMinutes : Z
}.

(** Up to the start of the servers: [Ok None] is the exit code 1; an exception
    is caught by nobody.  [siblingExePath] gives the path beside the program. *)
Definition supervisor_start (argv : list str) (siblingExePath : str -> str) (file_exists : str -> bool)
    (fromEnv : option str) (newToken : result str) : result (option Supervisor) :=
  let args := supervisor_args argv in
  let path_of (flag name : str) : str := match args !! flag with Some path => path | None => siblingExePath name end in
  let kernelExePath := path_of "kernel-exe"%string "elara"%string in
  let pythonKernelExePath := path_of "python-kernel-exe"%string "carpo"%string in
  let stataKernelExePath := path_of "stata-kernel-exe"%string "callisto"%string in
  if negb (file_exists kernelExePath) then Ok None
  else
    let paths := [("r"%string : str, kernelExePath)]
                 ++ (if file_exists pythonKernelExePath then [("python"%string : str, pythonKernelExePath)] else [])
                 ++ (if file_exists stataKernelExePath then [("stata"%string : str, stataKernelExePath)] else []) in
    let? token := match args !! ("no-auth"%string : str) with
                  | Some _ => Ok []
                  | None => match fromEnv with Some (c :: t) => Ok (c :: t) | _ => newToken end
                  end in
    let? minutes := match args !! ("idle-shutdown-minutes"%string : str) with Some v => stol v | None => Ok 0 end in
    Ok (Some {| kernelExePaths := paths;
                supervisorIp := match args !! ("registration-ip"%string : str) with Some ip => ip | None => "127.0.0.1"%string end;
                token := token; idleShutdownMinutes := minutes |}).

(** *** Activity *)
Record Activity := { m_lastMs : Z; m_connections : Z }.

Definition newActivity (now : Z) : Activity := {| m_lastMs := now; m_connections := 0 |}.
Definition touch (now : Z) (a : Activity) : Activity := {| m_lastMs := now; m_connections := m_connections a |}.
Definition connectionOpened (now : Z) (a : Activity) : Activity :=
  touch now {| m_lastMs := m_lastMs a; m_connections := m_connections a + 1 |}.
Definition connectionClosed (now : Z) (a : Activity) : Activity :=
  touch now {| m_lastMs := m_lastMs a; m_connections := m_connections a - 1 |}.
Definition openConnections (a : Activity) : Z := m_connections a.
Definition idleMs (now : Z) (a : Activity) : Z := now - m_lastMs a.

(** What happens while the main thread waits: a client does something, or the
    main thread wakes, and finds a shutdown requested or not. *)
Inductive Event :=
| Touched (now : Z)
| Opened (now : Z)
| Closed (now : Z)
| Wakes (now : Z) (shutdownRequested : bool).

Definition client_event (e : Event) (a : Activity) : Activity :=
  match e with
  | Touched now => touch now a
  | Opened now => connectionOpened now a
  | Closed now => connectionClosed now a
  | Wakes _ _ => a
  end.

(** The loop: how it ended. *)
Inductive Ending := Requested | Idle (now : Z).

Definition idle_limit (minutes : Z) : result Z := if minutes * 60 * 1000 <? 2 ^ 63 then Ok (minutes * 60 * 1000) else Undefined.

Fixpoint main_loop (minutes : Z) (events : list Event) (a : Activity) : result (option Ending) :=
  match events with
  | [] => Ok None
  | Wakes now requested :: events =>
      if requested then Ok (Some Requested)
      else if (0 <? minutes) && (openConnections a <=? 0) then
        let? limit := idle_limit minutes in
        if limit <=? idleMs now a then Ok (Some (Idle now)) else main_loop minutes events a
      else main_loop minutes events a
  | e :: events => main_loop minutes events (client_event e a)
  end.

(** ** What the supervisor starts is what registers *)
Section Agreement.

Definition is_flag (flag : str) : bool := starts_with "--"%string flag && negb (str_eqb flag "-f"%string).

(** The parser undoes the argument list: each pair with a value is set. *)
Lemma parse_pairs_options pairs : Forall (fun fv : str * str => is_flag fv.1 = true) pairs -> forall args,
  parse_pairs (pairs ≫= fun fv => if bool_decide (fv.2 = []) then [] else [fv.1; fv.2]) args
  = fold_left (fun args fv => if bool_decide (fv.2 = []) then args else <[drop 2 fv.1 := fv.2]> args) pairs args.
Proof.
  induction 1 as [|[flag v] pairs Hf _ IH]; intros args; [done |]. cbn [mbind list_bind fst snd fold_left].
  case_bool_decide as Hv; [by rewrite <- IH |]. cbn [app parse_pairs].
  unfold is_flag in Hf. cbn [fst] in Hf. apply andb_true_iff in Hf as [H1 H2%negb_true_iff]. by rewrite H2, H1, <- IH.
Qed.

Definition set_options (pairs : list (str * str)) (args : gmap str str) : gmap str str :=
  fold_left (fun args fv => if bool_decide (fv.2 = []) then args else <[drop 2 fv.1 := fv.2]> args) pairs args.

Lemma option_of_other pairs : forall args name, name ∉ ((fun fv : str * str => drop 2 fv.1) <$> pairs) ->
  option_of (set_options pairs args) name = option_of args name.
Proof.
  induction pairs as [|[f v] pairs IH]; intros args name Hn; [done |]. cbn in Hn |- *.
  apply not_elem_of_cons in Hn as [Hne Hn]. rewrite IH by done. case_bool_decide; [done |].
  unfold option_of. by rewrite lookup_insert_ne by congruence.
Qed.

Lemma option_of_set pairs fv : forall args,
  NoDup ((fun fv : str * str => drop 2 fv.1) <$> pairs) ->
  (forall fv, fv ∈ pairs -> args !! drop 2 fv.1 = None) ->
  fv ∈ pairs -> option_of (set_options pairs args) (drop 2 fv.1) = fv.2.
Proof.
  induction pairs as [|[f w] pairs IH]; intros args Hnd Hnone Hin; [by apply elem_of_nil in Hin |].
  cbn [fmap list_fmap fst] in Hnd. apply NoDup_cons in Hnd as [Hf Hnd]. unfold set_options. cbn [fold_left fst snd].
  apply elem_of_cons in Hin as [-> | Hin].
  - pose proof (Hnone (f, w) ltac:(by left)) as Hn. cbn [fst snd] in Hn |- *. fold (set_options pairs).
    etrans; [by apply option_of_other |]. unfold option_of. case_bool_decide as Hw; [by rewrite Hn, Hw | by rewrite lookup_insert_eq].
  - apply IH; [done | | done]. intros fv' Hfv'. case_bool_decide; [apply Hnone; by right |].
    rewrite lookup_insert_ne; [apply Hnone; by right |]. intros Heq. apply Hf. rewrite Heq. by apply (list_elem_of_fmap_2 (fun fv : str * str => drop 2 fv.1)).
Qed.

Lemma parse_command_line options : explicitArgs options = [] -> parseArgs (argv options) = set_options (toArgPairs options) ∅.
Proof.
  intros He. unfold parseArgs, argv, commandArguments. rewrite He. cbn [tail]. rewrite bool_decide_eq_true_2 by done. cbn [negb].
  apply parse_pairs_options. repeat (apply Forall_cons; split; [by vm_compute |]). by apply Forall_nil.
Qed.

Definition flag_names : list str :=
  ["r-home"%string : str; "r-path"%string : str; "r-libs"%string : str; "pandoc-path"%string : str; "python-home"%string : str;
   "python-path"%string : str; "venv-path"%string : str; "stata-home"%string : str; "stata-edition"%string : str;
   "registration-ip"%string : str; "registration-port"%string : str; "registration-id"%string : str; "key"%string : str].

Lemma flag_names_distinct : NoDup flag_names.
Proof. refine (bool_decide_unpack (NoDup flag_names) _). vm_compute. exact I. Qed.

(** The options a kernel parses are the ones it was started with. *)
Lemma parsed_options options fv : explicitArgs options = [] -> fv ∈ toArgPairs options ->
  option_of (parseArgs (argv options)) (drop 2 fv.1) = fv.2.
Proof.
  intros He Hin. rewrite parse_command_line by done. apply option_of_set; [| intros; apply lookup_empty | done].
  change ((fun fv : str * str => drop 2 fv.1) <$> toArgPairs options) with flag_names. apply flag_names_distinct.
Qed.

Lemma no_connection_file options : explicitArgs options = [] -> option_of (parseArgs (argv options)) "connection-file"%string = [].
Proof.
  intros He. rewrite parse_command_line by done. etrans; [apply option_of_other | done].
  change ((fun fv : str * str => drop 2 fv.1) <$> toArgPairs options) with flag_names.
  refine (bool_decide_unpack (_ ∉ flag_names) _). vm_compute. exact I.
Qed.

Lemma parsed_pair options flag v : explicitArgs options = [] -> (flag, v) ∈ toArgPairs options ->
  option_of (parseArgs (argv options)) (drop 2 flag) = v.
Proof. intros He Hin. by apply (parsed_options options (flag, v)). Qed.

(** What the options of a kernel become in its own process. *)
Definition received (k : Kind) (options : KernelProcessOptions) : CliOptions :=
  let of_kind (k' : Kind) (v : str) : str := if decide (k = k') then v else [] in
  {| o_rHome := of_kind Elara (rHome options); o_rPath := of_kind Elara (rPath options); o_rLibs := of_kind Elara (rLibs options);
     o_pandocPath := of_kind Elara (pandocPath options); o_pythonHome := of_kind Carpo (pythonHome options);
     o_pythonPath := of_kind Carpo (pythonPath options); o_venvPath := of_kind Carpo (venvPath options);
     o_stataHome := of_kind Callisto (stataHome options); o_stataEdition := of_kind Callisto (stataEdition options);
     o_registrationIp := if bool_decide (registrationIp options = []) then "127.0.0.1"%string else registrationIp options;
     o_registrationPort := registrationPort options; o_registrationId := registrationId options; o_key := key options;
     o_connectionFile := [] |}.

Ltac given options He flag name v :=
  let G := fresh "G" in
  assert (G : option_of (parseArgs (argv options)) name%string = v)
    by (apply (parsed_pair options flag%string v He); unfold toArgPairs; repeat (first [by left | right]));
  rewrite ?G; clear G.

Lemma options_received k options : explicitArgs options = [] -> toCliOptions k (parseArgs (argv options)) = received k options.
Proof.
  intros He. unfold toCliOptions, received. rewrite no_connection_file by done.
  given options He "--r-home" "r-home" (rHome options). given options He "--r-path" "r-path" (rPath options).
  given options He "--r-libs" "r-libs" (rLibs options). given options He "--pandoc-path" "pandoc-path" (pandocPath options).
  given options He "--python-home" "python-home" (pythonHome options). given options He "--python-path" "python-path" (pythonPath options).
  given options He "--venv-path" "venv-path" (venvPath options). given options He "--stata-home" "stata-home" (stataHome options).
  given options He "--stata-edition" "stata-edition" (stataEdition options).
  given options He "--registration-ip" "registration-ip" (registrationIp options).
  given options He "--registration-port" "registration-port" (registrationPort options).
  given options He "--registration-id" "registration-id" (registrationId options). given options He "--key" "key" (key options).
  done.
Qed.

Section Registers.
Context `{JL : JsonLaws} `{OL : OpenSSLLaws}.

Definition planned (k : Kind) (options : KernelProcessOptions) (env : environment) : Plan :=
  {| config := makeKernelConfiguration (key options);
     registers := Some (registration_of (received k options));
     kernel_environment := setupEnvironment k (received k options) (supervised_environment k env) |}.

Lemma plan_supervised k options file_content env :
  explicitArgs options = [] -> registrationPort options <> [] -> key options <> [] ->
  plan k (argv options) file_content env = Ok (Some (planned k options env)).
Proof.
  intros He Hp Hk. unfold plan. rewrite options_received by done. unfold standalone. cbn [received o_connectionFile o_registrationPort o_key].
  rewrite (bool_decide_eq_true_2 ([] = [])) by done. rewrite (bool_decide_eq_false_2 (registrationPort options = [])) by done.
  by rewrite (bool_decide_eq_false_2 (key options = [])) by done.
Qed.

Lemma authentication key : EVP_MAC_fetch = true -> EVP_MAC_CTX_new = true ->
  makeAuthentication "hmac-sha256"%string key = Ok (OpensslAuthentication "SHA256"%string key).
Proof. intros H1 H2. unfold makeAuthentication, newOpensslAuthentication. by rewrite H1, H2. Qed.

(** C36: a kernel the supervisor starts registers with it.  From the options of
    the process, through its command line, the kernel's parser (whatever the
    values look like) and its main function, to the two halves of the
    registration: the kernel's configuration has the key, it registers at the
    address it was given under the id it was given, and a supervisor that waits
    for that id with that key gets the kernel's bound ports and the program
    runs; one that waits for another id refuses it and the program exits
    with 1, as it does when there is no answer. *)
Theorem launch_registers k options file_content env make run bound expected msg_id date id :
  explicitArgs options = [] -> registrationPort options <> [] -> key options <> [] ->
  EVP_MAC_fetch = true -> EVP_MAC_CTX_new = true ->
  make (planned k options env) = Ok bound -> run bound <> Undefined ->
  storable (registration_content (registration_of (received k options)) bound) -> id <> DELIMITER ->
  plan k (argv options) file_content env = Ok (Some (planned k options env))
  /\ m_registrationPort (registration_of (received k options)) = registrationPort options
  /\ exists wire answer effects outcome,
       handleRegistration (OpensslAuthentication "SHA256"%string (key options)) (key options) expected msg_id date (id :: wire) = (effects, outcome)
       /\ fst (sendConnectionInfo (registration_of (received k options)) bound (OpensslAuthentication "SHA256"%string (key options))
                 Strict (fun _ => Some answer)) = [wire]
       /\ delivered effects = [(id, answer)]
       /\ (expected = [] \/ expected = registrationId options ->
            outcome = Ok (Some (registered (key options) (registrationId options) (m_controlPort bound) (m_shellPort bound)
                                 (m_stdinPort bound) (m_iopubPort bound) (m_hbPort bound)))
            /\ main k (argv options) file_content env make (fun _ => Some answer) run = Ok 0)
       /\ (expected <> [] -> expected <> registrationId options ->
            outcome = Ok None /\ main k (argv options) file_content env make (fun _ => Some answer) run = Ok 1)
       /\ main k (argv options) file_content env make (fun _ => None) run = Ok 1.
Proof.
  intros He Hp Hk Hf Hc Hmake Hrun Hst Hid. split; [by apply plan_supervised |]. split; [done |].
  destruct (registration_agrees "SHA256"%string (key options) (registration_of (received k options)) bound Strict expected msg_id date id
    Hst Hid) as (wire & answer & effects & outcome & Hsend & Hhandle & Hdel & Hyes & Hno).
  exists wire, answer, effects, outcome. change (r_kernelId (registration_of (received k options))) with (registrationId options) in *.
  assert (Hmain : forall network r, snd (sendConnectionInfo (registration_of (received k options)) bound
      (OpensslAuthentication "SHA256"%string (key options)) Strict network) = r ->
    main k (argv options) file_content env make network run
    = Ok (match r with Ok _ => 0 | _ => 1 end)).
  { intros network r Hr. unfold main. rewrite plan_supervised by done. rewrite Hmake. cbn [planned registers Server_start].
    unfold register. cbn [registration_of registration_common newCommonConfiguration m_key received o_key].
    rewrite authentication by done. rewrite Hr. destruct r as [[] | w |]; [| done | done].
    by destruct (run bound) as [[] | w |]. }
  split; [exact Hhandle |]. split; [by rewrite Hsend |]. split; [done |]. split; [| split].
  - intros Hexp. destruct (Hyes Hexp) as [Ho Hread]. split; [exact Ho |]. apply (Hmain _ (Ok tt)). rewrite Hsend. exact Hread.
  - intros H1 H2. destruct (Hno H1 H2) as [Ho Hread]. split; [exact Ho |]. erewrite Hmain; [| rewrite Hsend; exact Hread]. done.
  - rewrite (Hmain (fun _ => None) _ eq_refl). unfold sendConnectionInfo. by destruct (connectionInfo _ _ _ _).
Qed.
End Registers.

End Agreement.

(** ** The idle supervisor *)
Section IdleShutdown.

(** The connections of the events, and when a client was last heard of. *)
Fixpoint connections (events : list Event) : Z :=
  match events with
  | [] => 0
  | Opened _ :: events => 1 + connections events
  | Closed _ :: events => connections events - 1
  | _ :: events => connections events
  end.

Definition client_time (e : Event) : option Z :=
  match e with Touched now | Opened now | Closed now => Some now | Wakes _ _ => None end.

Definition last_heard (started : Z) (events : list Event) : Z := List.last (omap client_time events) started.

(** A wake that finds the supervisor idle for the minutes given. *)
Definition idle_at (started minutes : Z) (before : list Event) (now : Z) : Prop :=
  connections before <= 0 /\ last_heard started before + minutes * 60 * 1000 <= now.

Definition ends_at (started minutes : Z) (before : list Event) (now : Z) (requested : bool) : Prop :=
  requested = true \/ (0 < minutes /\ idle_at started minutes before now).

(** The first wake that ends the loop. *)
Definition first_end (started minutes : Z) (events : list Event) (ending : option Ending) : Prop :=
  match ending with
  | None => forall before now requested after, events = before ++ Wakes now requested :: after -> ~ ends_at started minutes before now requested
  | Some how => exists before now requested after, events = before ++ Wakes now requested :: after
      /\ (forall b n r rest, before = b ++ Wakes n r :: rest -> ~ ends_at started minutes b n r)
      /\ ends_at started minutes before now requested
      /\ how = if requested then Requested else Idle now
  end.

Definition activity_after (started : Z) (events : list Event) : Activity :=
  {| m_lastMs := last_heard started events; m_connections := connections events |}.

Lemma exists_last_or_nil {A} (l : list A) : l = [] \/ exists l' x, l = l' ++ [x].
Proof. destruct l as [|a l]; [by left | right]. destruct (exists_last (l := a :: l)) as (l' & x & E); [done | by exists l', x]. Qed.

Lemma connections_app a b : connections (a ++ b) = connections a + connections b.
Proof. induction a as [|x a IH]; [done |]. destruct x; cbn [app connections]; rewrite IH; lia. Qed.

Lemma activity_snoc started events e : client_event e (activity_after started events) = activity_after started (events ++ [e]).
Proof.
  unfold activity_after, last_heard. rewrite connections_app, omap_app.
  destruct e; cbn; rewrite ?List.last_last, ?app_nil_r, ?Z.add_0_r; try done.
Qed.

Lemma main_loop_from started minutes later : minutes * 60 * 1000 < 2 ^ 63 -> forall earlier,
  (forall b n r rest, earlier = b ++ Wakes n r :: rest -> ~ ends_at started minutes b n r) ->
  exists ending, main_loop minutes later (activity_after started earlier) = Ok ending
  /\ first_end started minutes (earlier ++ later) ending.
Proof.
  intros Hm. induction later as [|e later IH]; intros earlier Hno.
  { exists None. split; [done |]. rewrite app_nil_r. intros b n r rest. apply Hno. }
  assert (Hgo : (forall n r, e = Wakes n r -> ~ ends_at started minutes earlier n r) ->
    exists ending, main_loop minutes later (client_event e (activity_after started earlier)) = Ok ending
    /\ first_end started minutes (earlier ++ e :: later) ending).
  { intros He. rewrite activity_snoc. destruct (IH (earlier ++ [e])) as (ending & E & F).
    - intros b n r rest Heq. destruct (exists_last_or_nil rest) as [-> | (rest' & x & ->)].
      + apply app_inj_tail in Heq as [-> ->]. by apply He.
      + rewrite app_comm_cons, app_assoc in Heq. apply app_inj_tail in Heq as [Heq _]. by eapply Hno.
    - exists ending. split; [exact E |]. by rewrite <- app_assoc in F. }
  destruct e as [now | now | now | now requested]; try (apply Hgo; discriminate). cbn [main_loop].
  assert (Hend : ends_at started minutes earlier now requested ->
    first_end started minutes (earlier ++ Wakes now requested :: later) (Some (if requested then Requested else Idle now))).
  { intros He. by exists earlier, now, requested, later. }
  destruct requested; [exists (Some Requested); split; [done |]; apply Hend; by left |].
  unfold openConnections, idleMs, idle_limit. cbn [activity_after m_connections m_lastMs].
  rewrite (proj2 (Z.ltb_lt (minutes * 60 * 1000) _) Hm).
  destruct (0 <? minutes) eqn:E0, (connections earlier <=? 0) eqn:E1; cbn [andb];
    try (apply Hgo; intros n r [= <- <-] [? | (? & ? & ?)]; lia).
  destruct (minutes * 60 * 1000 <=? now - last_heard started earlier) eqn:E2.
  - exists (Some (Idle now)). split; [done |]. apply Hend. right. apply Z.leb_le in E1, E2. apply Z.ltb_lt in E0.
    split; [done |]. split; [done | lia].
  - apply Hgo. intros n r [= <- <-] [? | (? & ? & ?)]; [done |]. apply Z.leb_gt in E2. lia.
Qed.

(** When the supervisor stops by itself.  Its main thread's loop ends at the
    first wake that finds a shutdown requested, or, given a number of minutes,
    finds no connection open and nothing done by a client for that long (since
    the start when there was none); at no other wake, and never by itself when
    no minutes are given. *)
Theorem idle_shutdown started minutes events : minutes * 60 * 1000 < 2 ^ 63 ->
  exists ending, main_loop minutes events (newActivity started) = Ok ending /\ first_end started minutes events ending.
Proof.
  intros Hm. apply (main_loop_from started minutes events Hm []). intros b n r rest Heq. by destruct b.
Qed.

End IdleShutdown.

(** ** Witnesses and examples *)
Section Examples.

Definition sample_options : KernelProcessOptions :=
  {| kernelExePath := "/opt/elara"%string; rHome := "--odd"%string; rPath := []; rLibs := "-f"%string; pandocPath := []; pythonHome := [];
     pythonPath := []; venvPath := []; stataHome := []; stataEdition := []; workingDirectory := []; explicitArgs := [];
     extraEnv := []; interruptBySignal := false; registrationIp := []; registrationPort := "5555"%string;
     registrationId := "kernel-1"%string; key := "secret"%string |}.

Lemma launch_registers_witness : exists answer : frames,
  main (J := Concrete.concrete) (Ossl := Stub.stub) Elara (argv sample_options) (fun _ => []) ∅ (fun p => Ok example_ports) (fun _ => Some answer)
    (fun _ => Ok tt) = Ok 0.
Proof.
  destruct (launch_registers (JL := Concrete.concrete_laws) (OL := Stub.stub_laws) Elara sample_options (fun _ => []) ∅ (fun p => Ok example_ports)
    (fun _ => Ok tt) example_ports "kernel-1"%string [] [] "socket"%string) as (_ & _ & wire & answer & effects & outcome & _ & _ & _ & Hyes & _);
    try done.
  exists answer. apply Hyes. by right.
Defined.

(** The values of the options are not mistaken for flags. *)
Example odd_values : o_rHome (toCliOptions Elara (parseArgs (argv sample_options))) = "--odd"%string
  /\ o_rLibs (toCliOptions Elara (parseArgs (argv sample_options))) = "-f"%string
  /\ o_connectionFile (toCliOptions Elara (parseArgs (argv sample_options))) = [].
Proof. by vm_compute. Qed.

Lemma idle_shutdown_witness :
  main_loop 1 [Opened 1000; Wakes 70000 false; Closed 80000; Wakes 139000 false; Wakes 144000 false] (newActivity 0) = Ok (Some (Idle 144000))
  /\ exists ending, main_loop 1 [Opened 1000; Wakes 70000 false] (newActivity 0) = Ok ending
     /\ first_end 0 1 [Opened 1000; Wakes 70000 false] ending.
Proof. split; [by vm_compute |]. apply (idle_shutdown 0 1 [Opened 1000; Wakes 70000 false]). lia. Defined.

(** A number of minutes that is not one is an exception nobody catches, after
    the registration listener was started. *)
Example minutes_not_a_number :
  supervisor_start ["themisto"%string : str; "--idle-shutdown-minutes"%string : str] (fun name => name) (fun _ => true) None (Ok ("t"%string : str))
  = Throw "stol"%string.
Proof. by vm_compute. Qed.

(** --no-auth turns the check off whatever follows it. *)
Example no_auth_with_a_value :
  option_map token (match supervisor_start ["themisto"%string : str; "--no-auth"%string : str; "false"%string : str]
    (fun name => name) (fun _ => true) None (Ok ("t"%string : str)) with Ok s => s | _ => None end) = Some [].
Proof. by vm_compute. Qed.

End Examples.
