(* ===== verification/DynLib.v ===== *)
(** * The libraries of R and Python: elara/r/r_dynlib.cpp, carpo/py/py_dynlib.cpp

    Neither is linked with: the library is found and opened when the kernel
    starts, and every function of its C interface is looked up by name and kept
    in a pointer, through which the code calls it by macros of the functions'
    own names.  The state is these pointers ([Api]); the system (the
    environment, directories, the dynamic loader) is an argument.  The POSIX
    code and that of Windows are both here, by [platform]. *)

From Stdlib Require Import Ascii String ZArith Lia.
From stdpp Require Import base list gmap strings.
From S2P Require Import Prelude StataCode Access Registration.

Local Open Scope Z_scope.

Inductive platform := Linux | MacOS | Windows.

Inductive file_kind := Regular | Directory | OtherFile.

(** A handle, an address: numbers.  [dlerror] is what the loader says of the
    last failure (on Windows, FormatMessage of GetLastError). *)
Record System := {
  getenv : str -> option str;
  directory_iterator : str -> list (str * file_kind);
  dlopen : str -> option nat;
  dlsym : nat -> str -> option nat;
  dlerror : option str
}.

(** The pointers that are not null, by name. *)
Record Api := { g_loaded : bool; pointers : gmap str nat; g_hasWindowsEmbeddingApi : bool }.

Definition set_pointer (pointer : str) (a : option nat) (s : Api) : Api :=
  {| g_loaded := g_loaded s; pointers := partial_alter (fun _ => a) pointer (pointers s); g_hasWindowsEmbeddingApi := g_hasWindowsEmbeddingApi s |}.

Definition loaded (s : Api) : Api :=
  {| g_loaded := true; pointers := pointers s; g_hasWindowsEmbeddingApi := g_hasWindowsEmbeddingApi s |}.

Definition set_embedding (b : bool) (s : Api) : Api :=
  {| g_loaded := g_loaded s; pointers := pointers s; g_hasWindowsEmbeddingApi := b |}.

Definition strip_line_end (message : str) : str :=
  take (length message - length (take_while_end (fun c => char_eqb c newline || char_eqb c carriage_return) message)) message.

(** [formatLastError] *)
Definition formatLastError (os : System) : str := strip_line_end (match dlerror os with Some m => m | None => "unknown error"%string end).

Definition p_ (name : str) : str := "p_"%string ++ name.

Section Resolve.
Context (os : System) (missing : str -> str) (handle : nat).

Definition resolve (name pointer : str) (s : Api) : result unit * Api :=
  match dlsym os handle name with
  | None => (Throw (missing name), s)
  | Some a => (Ok tt, set_pointer pointer (Some a) s)
  end.

Definition tryResolve (name pointer : str) (s : Api) : bool * Api :=
  let a := dlsym os handle name in (bool_decide (is_Some a), set_pointer pointer a s).

(** The [resolve]s of a list, one after the other. *)
Fixpoint resolve_all (names : list (str * str)) (s : Api) : result unit * Api :=
  match names with
  | [] => (Ok tt, s)
  | (name, pointer) :: names =>
      match resolve name pointer s with
      | (Ok _, s) => resolve_all names s
      | other => other
      end
  end.

(** Each kept or set to null, missing or not. *)
Definition resolve_optional (names : list (str * str)) (s : Api) : Api :=
  fold_left (fun s np => snd (tryResolve np.1 np.2 s)) names s.

(** [&&]: up to the first that is missing. *)
Fixpoint resolve_while (names : list (str * str)) (s : Api) : bool * Api :=
  match names with
  | [] => (true, s)
  | (name, pointer) :: names => match tryResolve name pointer s with (true, s) => resolve_while names s | other => other end
  end.
End Resolve.

(** The pointer of a name. *)
Definition named (names : list str) : list (str * str) := (fun n => (n, p_ n)) <$> names.

(** *** What is set *)
Section Stages.
Context (os : System) (missing : str -> str) (handle : nat).

(** The pointers of [names] are those the library gives, null where it has
    none, and the others are as before. *)
Record stage (names : list (str * str)) (s s' : Api) : Prop := {
  stage_set n q : (n, q) ∈ names -> pointers s' !! q = dlsym os handle n;
  stage_kept q : q ∉ names.*2 -> pointers s' !! q = pointers s !! q;
  stage_loaded : g_loaded s' = g_loaded s
}.

Lemma stage_nil s : stage [] s s.
Proof. split; [intros n q H; by apply elem_of_nil in H | done | done]. Qed.

Lemma stage_app l1 l2 s s1 s2 : NoDup (l1 ++ l2).*2 -> stage l1 s s1 -> stage l2 s1 s2 -> stage (l1 ++ l2) s s2.
Proof.
  intros Hd [S1 K1 L1] [S2 K2 L2]. rewrite fmap_app, NoDup_app in Hd. destruct Hd as (_ & Hd & _). split; [| | congruence].
  - intros n q [H | H]%elem_of_app; [| by apply S2]. rewrite K2; [by apply S1 |]. apply Hd, list_elem_of_fmap. by exists (n, q).
  - intros q. rewrite fmap_app, not_elem_of_app. intros [H1 H2]. by rewrite K2, K1.
Qed.

Lemma stage_one n q s : stage [(n, q)] s (set_pointer q (dlsym os handle n) s).
Proof.
  split; [| | done]; cbn.
  - intros n' q' H. apply list_elem_of_singleton in H as [= -> ->]. apply lookup_partial_alter_eq.
  - intros q' H. rewrite list_elem_of_singleton in H. by rewrite lookup_partial_alter_ne.
Qed.

Lemma stage_cons n q l s s2 : NoDup (q :: l.*2) -> stage l (set_pointer q (dlsym os handle n) s) s2 -> stage ((n, q) :: l) s s2.
Proof. intros Hd H. apply (stage_app [(n, q)] l _ _ _ Hd (stage_one n q s) H). Qed.

(** All of a list are found, or the first that is missing is named. *)
Lemma resolve_all_spec names : forall s, NoDup names.*2 ->
  match resolve_all os missing handle names s with
  | (Ok _, s') => stage names s s' /\ forall n, n ∈ names.*1 -> is_Some (dlsym os handle n)
  | (Throw what, s') => g_loaded s' = g_loaded s
      /\ exists before n q after, names = before ++ (n, q) :: after /\ dlsym os handle n = None /\ what = missing n
         /\ forall n', n' ∈ before.*1 -> is_Some (dlsym os handle n')
  | (Undefined, _) => False
  end.
Proof.
  induction names as [|[n q] names IH]; intros s Hd; cbn [resolve_all].
  - split; [apply stage_nil |]. intros n H. by apply elem_of_nil in H.
  - unfold resolve. destruct (dlsym os handle n) as [a|] eqn:E.
    + specialize (IH (set_pointer q (Some a) s)). apply NoDup_cons in Hd as [Hq Hd]. specialize (IH Hd).
      destruct (resolve_all os missing handle names (set_pointer q (Some a) s)) as [[u | what |] s'].
      * destruct IH as [H1 H2]. rewrite <- E in H1. split; [apply stage_cons; [by constructor | done] |].
        intros n' [-> | H]%elem_of_cons; [cbn; by rewrite E; eexists | by apply H2].
      * destruct IH as (H1 & before & n' & q' & after & -> & Hn & Hw & Hb). split; [done |].
        exists ((n, q) :: before), n', q', after. split; [done |]. split; [done |]. split; [done |].
        intros m [-> | H]%elem_of_cons; [cbn; by rewrite E; eexists | by apply Hb].
      * done.
    + split; [done |]. exists [], n, q, names. split; [done |]. split; [done |]. split; [done |]. intros n' H. by apply elem_of_nil in H.
Qed.

Lemma resolve_optional_stage names : forall s, NoDup names.*2 -> stage names s (resolve_optional os handle names s).
Proof.
  unfold resolve_optional. induction names as [|[n q] names IH]; intros s Hd; cbn [fold_left fst snd tryResolve]; [apply stage_nil |].
  apply stage_cons; [done |]. apply NoDup_cons in Hd as [_ Hd]. by apply IH.
Qed.

Lemma resolve_while_kept names : forall s b s', resolve_while os handle names s = (b, s') ->
  (forall q, q ∉ names.*2 -> pointers s' !! q = pointers s !! q) /\ g_loaded s' = g_loaded s.
Proof.
  induction names as [|[n q] names IH]; intros s b s'; cbn [resolve_while]; [by intros [= _ <-] |]. unfold tryResolve.
  assert (forall a q', q' ∉ ((n, q) :: names).*2 -> pointers (set_pointer q a s) !! q' = pointers s !! q') as Hs.
  { intros a q' Hq. cbn in Hq |- *. apply not_elem_of_cons in Hq as [Hq _]. by rewrite lookup_partial_alter_ne. }
  case_bool_decide; [| intros [= _ <-]; split; [apply Hs | done]]. intros [H1 H2]%IH. split; [| by rewrite H2].
  intros q' Hq. rewrite H1; [by apply Hs |]. cbn in Hq. by apply not_elem_of_cons in Hq as [_ ?].
Qed.
End Stages.

(** ** R *)
Module R.

Local Coercion lift (l : list string) : list str := (fun s => String.list_ascii_of_string s) <$> l.

Definition functions : list str :=
  ["Rf_initEmbeddedR"; "Rf_endEmbeddedR"; "Rf_cons"; "Rf_lcons"; "Rf_install"; "Rf_mkString"; "Rf_mkChar"; "Rf_eval"; "R_tryEval";
   "R_PreserveObject"; "R_curErrorBuf"; "Rf_classgets"; "Rf_namesgets"; "Rf_allocVector"; "Rf_xlength"; "XLENGTH"; "Rf_isNull";
   "Rf_isString"; "Rf_length"; "Rf_lang1"; "Rf_ScalarInteger"; "Rf_ScalarLogical"; "Rf_inherits"; "R_ParseVector"; "R_MakeExternalPtr";
   "R_RegisterCFinalizerEx"; "R_ExternalPtrAddr"; "R_registerRoutines"; "R_getEmbeddingDllInfo"; "R_tryCatchError"; "STRING_ELT";
   "SET_STRING_ELT"; "R_CHAR"; "RAW"; "VECTOR_ELT"; "SET_VECTOR_ELT"; "LOGICAL_ELT"; "INTEGER_ELT"; "Rf_protect"; "Rf_unprotect"; "TYPEOF";
   "REAL_ELT"; "SET_INTEGER_ELT"; "SET_REAL_ELT"; "SET_LOGICAL_ELT"; "Rf_getAttrib"; "Rf_translateCharUTF8"; "Rf_mkCharLenCE"; "R_IsNA";
   "GEcurrentDevice"; "run_Rmainloop"; "SETCDR"; "R_ReleaseObject"]%string.

Definition optional_functions : list str := ["R_ProcessEvents"; "R_checkActivity"; "R_runHandlers"; "R_InputHandlers"]%string.

Definition data : list str := ["R_GlobalEnv"; "R_NilValue"; "R_NaString"; "R_NaReal"; "R_NaInt"; "R_Visible"; "R_Srcref"]%string.

Definition unix_data : list str :=
  ["ptr_R_WriteConsole"; "ptr_R_WriteConsoleEx"; "ptr_R_ReadConsole"; "R_Outputfile"; "R_Consolefile"]%string.

Definition windows_functions : list str :=
  ["R_setStartTime"; "R_DefParamsEx"; "R_common_command_line"; "R_SetParams"; "R_set_command_line_arguments"; "setup_Rmainloop";
   "get_R_HOME"; "getRUser"]%string.

Definition interruptFlag : str := "p_interruptFlag"%string.

(** The names that [#define] makes calls through pointers of. *)
Definition macros (p : platform) : list str :=
  (["Rf_initEmbeddedR"; "Rf_endEmbeddedR"; "Rf_cons"; "Rf_lcons"; "Rf_install"; "Rf_mkString"; "Rf_mkChar"; "Rf_eval"; "R_tryEval";
   "R_PreserveObject"; "R_curErrorBuf"; "Rf_classgets"; "Rf_namesgets"; "Rf_allocVector"; "Rf_xlength"; "XLENGTH"; "Rf_isNull";
   "Rf_isString"; "Rf_length"; "Rf_lang1"; "Rf_ScalarInteger"; "Rf_ScalarLogical"; "Rf_inherits"; "R_ParseVector"; "R_MakeExternalPtr";
   "R_RegisterCFinalizerEx"; "R_ExternalPtrAddr"; "R_registerRoutines"; "R_getEmbeddingDllInfo"; "R_tryCatchError"; "STRING_ELT";
   "SET_STRING_ELT"; "R_CHAR"; "RAW"; "VECTOR_ELT"; "SET_VECTOR_ELT"; "LOGICAL_ELT"; "INTEGER_ELT"; "Rf_protect"; "Rf_unprotect"; "TYPEOF";
   "REAL_ELT"; "SET_INTEGER_ELT"; "SET_REAL_ELT"; "SET_LOGICAL_ELT"; "Rf_getAttrib"; "Rf_translateCharUTF8"; "Rf_mkCharLenCE"; "R_IsNA";
   "GEcurrentDevice"; "run_Rmainloop"; "SETCDR"; "R_ReleaseObject";
   "R_GlobalEnv"; "R_NilValue"; "R_NaString"; "R_NaReal"; "R_NaInt"]%string : list str)
  ++ match p with
     | Windows => []
     | _ => (["ptr_R_WriteConsole"; "ptr_R_WriteConsoleEx"; "ptr_R_ReadConsole"; "R_Outputfile"; "R_Consolefile"]%string : list str)
     end.

(** The pointers used by their own names. *)
Definition direct : list str := ["R_Visible"; "R_Srcref"]%string.

Section Load.
Context (os : System) (p : platform).

Definition r_home : option str := getenv os "R_HOME"%string.

(** The path, and the handle. *)
Definition openRLibrary : str * option nat :=
  match p with
  | Windows => ("R.dll"%string : str, dlopen os "R.dll"%string)
  | _ =>
      match r_home with
      | None | Some [] => ([], None)
      | Some home =>
          let outPath := home ++ match p with MacOS => "/lib/libR.dylib"%string | _ => "/lib/libR.so"%string end in
          (outPath, dlopen os outPath)
      end
  end.

Definition describeOpenFailure (path : str) : str :=
  match p with
  | Windows =>
      "Could not load "%string ++ path ++ " ("%string ++ formatLastError os
      ++ "). Is R installed? Checked PATH and R_HOME="%string ++ default ("(not set)"%string : str) r_home
      ++ ". Install R from https://cran.r-project.org, or make sure R_HOME/the R bin directory is configured correctly."%string
  | _ =>
      let reason := default ("unknown error"%string : str) (dlerror os) in
      match r_home with
      | None | Some [] =>
          "R_HOME is not set -- elara needs a working R installation to run. Please install R from https://cran.r-project.org and make sure R_HOME is set, or configure the R installation path in settings."%string
      | Some home =>
          "Could not load "%string ++ path ++ " ("%string ++ reason ++ "). Is R installed at '"%string ++ home ++ "'?"%string
          ++ match p with
             | MacOS => []
             | _ => " If this R was built from source, it needs to have been configured with --enable-R-shlib, or no libR.so exists at all (only a static libR.a baked into the R executable)."%string
             end
      end
  end.

Definition missing_symbol (libPath name : str) : str :=
  "'"%string ++ libPath ++ "' was loaded but is missing the expected symbol '"%string ++ name
  ++ "' -- this usually means an incompatible or corrupted R installation. Try reinstalling R from https://cran.r-project.org."%string.

(** What is looked up on one platform only. *)
Definition load_windows (handle : nat) (s : Api) : Api :=
  let s := set_pointer interruptFlag (dlsym os handle "UserBreak"%string) s in
  let (all, s) := resolve_while os handle (named windows_functions) s in
  set_embedding all s.

Definition load_unix (handle : nat) (libPath : str) (s : Api) : result unit * Api :=
  match resolve_all os (missing_symbol libPath) handle (named unix_data) s with
  | (Ok _, s) =>
      let s := set_pointer (p_ "R_Interactive"%string) (dlsym os handle "R_Interactive"%string) s in
      (Ok tt, set_pointer interruptFlag (dlsym os handle "R_interrupts_pending"%string) s)
  | other => other
  end.

Definition load_platform (handle : nat) (libPath : str) (s : Api) : result unit * Api :=
  match p with Windows => (Ok tt, load_windows handle s) | _ => load_unix handle libPath s end.

Definition loadRApi (s : Api) : result unit * Api :=
  if g_loaded s then (Ok tt, s) else
  let (libPath, handle) := openRLibrary in
  match handle with
  | None => (Throw (describeOpenFailure (if bool_decide (libPath = []) then "R's shared library"%string else libPath)), s)
  | Some handle =>
      match resolve_all os (missing_symbol libPath) handle (named functions) s with
      | (Ok _, s) =>
          let s := resolve_optional os handle (named optional_functions) s in
          match resolve_all os (missing_symbol libPath) handle (named data) s with
          | (Ok _, s) =>
              match load_platform handle libPath s with
              | (Ok _, s) => (Ok tt, loaded s)
              | other => other
              end
          | other => other
          end
      | other => other
      end
  end.
End Load.

(** *** What loading gives *)
Definition required (p : platform) : list str := functions ++ data ++ match p with Windows => [] | _ => unix_data end.

(** What is set before the part that depends on the platform, and with it. *)
Definition common : list (str * str) := named functions ++ named optional_functions ++ named data.

Definition unix_all : list (str * str) :=
  common ++ named unix_data ++ [("R_Interactive"%string : str, p_ "R_Interactive"%string); ("R_interrupts_pending"%string : str, interruptFlag)].

Lemma names_distinct : NoDup unix_all.*2 /\ NoDup (named functions).*2 /\ NoDup (named optional_functions).*2
  /\ NoDup (named data).*2 /\ NoDup (named unix_data).*2
  /\ NoDup (named functions ++ named optional_functions).*2 /\ NoDup common.*2 /\ NoDup (common ++ named unix_data).*2.
Proof. repeat split; apply (bool_decide_unpack _); vm_compute; exact I. Qed.

(** Every name used is among those looked up, under its own name; and so is
    what is needed. *)
Lemma used_names p : Forall (fun n => (n, p_ n) ∈ (match p with Windows => common | _ => unix_all end) /\ n ∈ required p) (macros p ++ direct).
Proof. destruct p; apply (bool_decide_unpack _); vm_compute; exact I. Qed.

Lemma windows_apart : Forall (fun q => q <> interruptFlag /\ q ∉ (named windows_functions).*2) ((fun n => p_ n) <$> (macros Windows ++ direct)).
Proof. apply (bool_decide_unpack _); vm_compute; exact I. Qed.

Lemma named_names l : (named l).*1 = l.
Proof. unfold named. induction l as [|n l IH]; cbn; [done | by f_equal]. Qed.

Lemma load_unix_spec os path h s s1 : stage os h common s s1 ->
  match load_unix os h path s1 with
  | (Ok _, s') => stage os h unix_all s s' /\ forall n, n ∈ unix_data -> is_Some (dlsym os h n)
  | (Throw what, s') => g_loaded s' = g_loaded s /\ exists name, name ∈ unix_data /\ dlsym os h name = None /\ what = missing_symbol path name
  | (Undefined, _) => False
  end.
Proof.
  intros S1. destruct names_distinct as (D1 & _ & _ & _ & D5 & _ & _ & D8). unfold load_unix.
  pose proof (resolve_all_spec os (missing_symbol path) h (named unix_data) s1 D5) as H.
  destruct (resolve_all os (missing_symbol path) h (named unix_data) s1) as [[u | what |] s2]; [| | done].
  - destruct H as [S2 Hu]. rewrite named_names in Hu. split; [| done]. pose proof (stage_app os h _ _ _ _ _ D8 S1 S2) as S3.
    unfold unix_all. rewrite app_assoc. eapply stage_app; [rewrite <- app_assoc; exact D1 | exact S3 |].
    apply stage_cons; [apply (bool_decide_unpack _); vm_compute; exact I | apply stage_one].
  - destruct H as (H & before & n & q & after & Hn & Hd & Hw & _). split; [by rewrite H, (stage_loaded _ _ _ _ _ S1) |].
    exists n. split; [| done]. rewrite <- (named_names unix_data), Hn, fmap_app. apply elem_of_app. right. by left.
Qed.

Lemma load_windows_spec os h s s1 : stage os h common s s1 -> g_loaded (load_windows os h s1) = g_loaded s
  /\ forall name, name ∈ macros Windows ++ direct -> pointers (load_windows os h s1) !! p_ name = dlsym os h name.
Proof.
  intros S1. unfold load_windows. set (s2 := set_pointer interruptFlag _ s1).
  destruct (resolve_while os h (named windows_functions) s2) as [b s3] eqn:E. destruct (resolve_while_kept _ _ _ _ _ _ E) as [K L].
  split; [cbn; rewrite L; cbn; apply (stage_loaded _ _ _ _ _ S1) |]. intros name Hname.
  pose proof (used_names Windows) as Hall. rewrite Forall_forall in Hall. destruct (Hall name Hname) as [H1 _].
  pose proof windows_apart as Hw. rewrite Forall_forall in Hw.
  destruct (Hw (p_ name)) as [W1 W2]; [apply list_elem_of_fmap; by exists name |]. cbn. rewrite K by done. unfold s2. cbn.
  rewrite lookup_partial_alter_ne by done. by rewrite (stage_set _ _ _ _ _ S1 name).
Qed.

(** After a stage of the load: every name used is bound, or the one missing is
    named. *)
Definition bound (os : System) (p : platform) (path : str) (h : nat) (s : Api) (r : result unit * Api) : Prop :=
  match r with
  | (Ok _, s') => g_loaded s' = g_loaded s
      /\ forall name, name ∈ macros p ++ direct -> exists a, dlsym os h name = Some a /\ pointers s' !! p_ name = Some a
  | (Throw what, s') => g_loaded s' = g_loaded s /\ exists name, name ∈ required p /\ dlsym os h name = None /\ what = missing_symbol path name
  | (Undefined, _) => False
  end.

Lemma load_unix_bound os p path h s s1 : p <> Windows -> stage os h common s s1 -> (forall n, n ∈ functions ++ data -> is_Some (dlsym os h n)) ->
  bound os p path h s (load_unix os h path s1).
Proof.
  intros Hp S1 Hf. assert (required p = (functions ++ data) ++ unix_data) as Hr by (rewrite <- app_assoc; by destruct p).
  assert (forall n, n ∈ macros p ++ direct -> (n, p_ n) ∈ unix_all /\ n ∈ required p) as Hall
    by (pose proof (used_names p) as H; rewrite Forall_forall in H; by destruct p).
  unfold bound. rewrite Hr. pose proof (load_unix_spec os path h s s1 S1) as H. destruct (load_unix os h path s1) as [[u | what |] s']; [| | done].
  - destruct H as [S' Hu]. split; [exact (stage_loaded _ _ _ _ _ S') |]. intros name Hname. destruct (Hall name Hname) as [H1 H2].
    rewrite (stage_set _ _ _ _ _ S' name) by done. rewrite Hr in H2. apply elem_of_app in H2 as [H2 | H2].
    + destruct (Hf name H2) as [a ->]. by exists a.
    + destruct (Hu name H2) as [a ->]. by exists a.
  - destruct H as (H1 & name & H2 & H3). split; [done |]. exists name. split; [| done]. apply elem_of_app. by right.
Qed.

Lemma load_platform_bound os p path h s s1 : stage os h common s s1 -> (forall n, n ∈ functions ++ data -> is_Some (dlsym os h n)) ->
  bound os p path h s (load_platform os p h path s1).
Proof.
  intros S1 Hf. destruct p; [by apply load_unix_bound | by apply load_unix_bound |].
  destruct (load_windows_spec os h s s1 S1) as [L W]. cbn [load_platform bound]. split; [done |]. intros name Hname.
  pose proof (used_names Windows) as Hall. rewrite Forall_forall in Hall. destruct (Hall name Hname) as [_ H2].
  rewrite W by done. unfold required in H2. rewrite app_nil_r in H2. destruct (Hf name H2) as [a ->]. by exists a.
Qed.

Lemma missing_required p l names before n q after : named l = names -> names = before ++ (n, q) :: after ->
  (forall n, n ∈ l -> n ∈ required p) -> n ∈ required p.
Proof.
  intros <- Hn Hl. apply Hl. rewrite <- (named_names l), Hn, fmap_app. apply elem_of_app. right. by left.
Qed.

(** The load of R's library is all or nothing.  When it succeeds, R_HOME
    names the installation, its library is open, and every name of R's C
    interface that the code calls (the macros) is bound to the library's symbol
    of that same name, and a second load does nothing; otherwise the loader is
    as unloaded as before and the message says which library did not open, or
    which needed symbol it lacks. *)
Theorem r_api_complete os p s : g_loaded s = false ->
  match loadRApi os p s with
  | (Ok _, s') => loadRApi os p s' = (Ok tt, s')
      /\ exists path h, openRLibrary os p = (path, Some h)
         /\ forall name, name ∈ macros p ++ direct -> exists a, dlsym os h name = Some a /\ pointers s' !! p_ name = Some a
  | (Throw what, s') => g_loaded s' = false
      /\ ((exists path, openRLibrary os p = (path, None)
             /\ what = describeOpenFailure os p (if bool_decide (path = []) then "R's shared library"%string else path))
          \/ exists path h name, openRLibrary os p = (path, Some h) /\ name ∈ required p /\ dlsym os h name = None /\ what = missing_symbol path name)
  | (Undefined, _) => False
  end.
Proof.
  intros Hl. unfold loadRApi at 1. rewrite Hl. destruct (openRLibrary os p) as [path [h |]] eqn:Ho.
  2: { split; [done |]. left. by exists path. }
  destruct names_distinct as (_ & D2 & D3 & D4 & _ & D6 & D7 & _).
  pose proof (resolve_all_spec os (missing_symbol path) h (named functions) s D2) as H1.
  destruct (resolve_all os (missing_symbol path) h (named functions) s) as [[u1 | what |] s1]; [| | done].
  2: { destruct H1 as (H1 & before & n & q & after & Hn & Hd & Hw & _). split; [by rewrite H1 |]. right. exists path, h, n.
       split; [done |]. split; [| done]. eapply (missing_required p functions); [reflexivity | exact Hn |].
       intros m Hm. unfold required. apply elem_of_app. by left. }
  destruct H1 as [S1 Hf1]. rewrite named_names in Hf1. pose proof (resolve_optional_stage os h (named optional_functions) s1 D3) as S2.
  set (s2 := resolve_optional os h (named optional_functions) s1) in *.
  pose proof (stage_app os h _ _ _ _ _ D6 S1 S2) as S12.
  pose proof (resolve_all_spec os (missing_symbol path) h (named data) s2 D4) as H3.
  destruct (resolve_all os (missing_symbol path) h (named data) s2) as [[u3 | what |] s3]; [| | done].
  2: { destruct H3 as (H3 & before & n & q & after & Hn & Hd & Hw & _). split; [by rewrite H3, (stage_loaded _ _ _ _ _ S12) |].
       right. exists path, h, n. split; [done |]. split; [| done]. eapply (missing_required p data); [reflexivity | exact Hn |].
       intros m Hm. unfold required. rewrite !elem_of_app. right. by left. }
  destruct H3 as [S3 Hf3]. rewrite named_names in Hf3.
  assert (stage os h common s s3) as S by (unfold common; rewrite app_assoc; eapply stage_app; [rewrite <- app_assoc; exact D7 | exact S12 | exact S3]).
  pose proof (load_platform_bound os p path h s s3 S) as H4.
  destruct (load_platform os p h path s3) as [[u4 | what |] s4]; cbn [bound] in H4.
  - destruct H4 as [_ H4]; [intros n [Hn | Hn]%elem_of_app; [by apply Hf1 | by apply Hf3] |]. split; [done |]. exists path, h. split; [done |]. exact H4.
  - destruct H4 as (H4 & name & H5); [intros n [Hn | Hn]%elem_of_app; [by apply Hf1 | by apply Hf3] |]. split; [by rewrite H4 |].
    right. exists path, h, name. split; [done | exact H5].
  - apply H4. intros n [Hn | Hn]%elem_of_app; [by apply Hf1 | by apply Hf3].
Qed.

(** What is called, or written, through the pointers. *)
Inductive Use := Called (a : nat) (arguments : list Z) | Wrote (a : nat) (value : Z) | RanHandlers (a handlers activity : nat).

(** R's events, and on Unix its input handlers; [activity] is what
    [R_checkActivity] gives. *)
Definition serviceREvents (activity : nat) (s : Api) : list Use :=
  match pointers s !! p_ "R_ProcessEvents"%string with Some a => [Called a []] | None => [] end
  ++ match pointers s !! p_ "R_checkActivity"%string, pointers s !! p_ "R_runHandlers"%string, pointers s !! p_ "R_InputHandlers"%string with
     | Some check, Some run, Some handlers => [Called check [0; 1]; RanHandlers run handlers activity]
     | _, _, _ => []
     end.

Definition clearRInterrupt (s : Api) : list Use :=
  match pointers s !! interruptFlag with Some a => [Wrote a 0] | None => [] end.

Definition requestRInterrupt (s : Api) : bool * list Use :=
  match pointers s !! interruptFlag with None => (false, []) | Some a => (true, [Wrote a 1]) end.
End R.

(** ** Python *)
Module Py.

Local Coercion lift (l : list string) : list str := (fun s => String.list_ascii_of_string s) <$> l.

Record Candidate := { fileName : str; major : Z; minor : Z }.

Definition ends_with (suffix s : str) : bool := starts_with (rev suffix) (rev s).

(** [max_element]: the first of those with the highest minor version. *)
Definition newer (best c : Candidate) : Candidate := if minor best <? minor c then c else best.

Definition newest (found : list Candidate) : option Candidate :=
  match found with [] => None | c :: rest => Some (fold_left newer rest c) end.

Fixpoint collect (found : list (result Candidate)) : result (list Candidate) :=
  match found with
  | [] => Ok []
  | c :: found => let? c := c in let? found := collect found in Ok (c :: found)
  end.

(** What a directory holds, in the order the system gives; [candidate] says what
    a file's name is ([stoi] throws when the number does not fit). *)
Definition find_newest (candidate : str -> option (result Candidate)) (entries : list (str * file_kind)) : result (option Candidate) :=
  let? found := collect (omap (fun e => match e.2 with Regular => candidate e.1 | _ => None end) entries) in
  Ok (newest found).

(** *** On Windows *)

(** [None]: not a version; [major] is one digit. *)
Definition parseVersionSuffix (digits : str) : option (result (Z * Z)) :=
  match digits with
  | d :: ((_ :: _) as rest) =>
      if isdigit d && forallb isdigit rest then Some (let? m := stoi rest in Ok (code d - 48, m)) else None
  | _ => None
  end.

Definition dll_candidate (name : str) : option (result Candidate) :=
  let lower := tolower <$> name in
  let prefix : str := "python3"%string in
  let suffix : str := ".dll"%string in
  if (length lower <=? length prefix + length suffix)%nat then None
  else if negb (starts_with prefix lower) then None
  else if negb (ends_with suffix lower) then None
  else
    let digits := "3"%char :: take (length lower - length prefix - length suffix) (drop (length prefix) lower) in
    (fun r => let? (ma, mi) := r in Ok {| fileName := name; major := ma; minor := mi |}) <$> parseVersionSuffix digits.

(** *** On POSIX *)

Definition so_candidate (name : str) : option (result Candidate) :=
  let prefix : str := "libpython3."%string in
  if negb (starts_with prefix name) then None
  else
    let rest := drop (length prefix) name in
    let digits := take_while isdigit rest in
    let afterDigits := drop (length digits) rest in
    if bool_decide (digits = []) then None
    else if starts_with ".so"%string afterDigits || str_eqb afterDigits ".dylib"%string || starts_with ".dylib"%string afterDigits
    then Some (let? m := stoi digits in Ok {| fileName := name; major := 3; minor := m |})
    else None.

Definition functions : list str :=
  ["Py_Initialize"; "Py_IsInitialized"; "Py_FinalizeEx"; "PyErr_Occurred"; "PyErr_Fetch"; "PyErr_NormalizeException"; "PyErr_Clear";
   "PyErr_SetString"; "PyObject_Str"; "PyObject_GetAttrString"; "PyObject_CallObject"; "Py_IncRef"; "Py_DecRef"; "PyUnicode_FromString";
   "PyUnicode_AsUTF8String"; "PyBytes_AsString"; "PyTuple_New"; "PyTuple_SetItem"; "PyTuple_GetItem"; "PyDict_New"; "PyDict_GetItemString";
   "PyDict_SetItemString"; "PyList_Size"; "PyList_GetItem"; "PyLong_AsLong"; "PyLong_FromLong"; "PyImport_AddModule"; "PyModule_GetDict";
   "PyRun_String"; "PyCFunction_NewEx"; "PyEval_SaveThread"; "PyEval_RestoreThread"; "PyGILState_Ensure"; "PyGILState_Release"]%string.

(** Python's None is the object [_Py_NoneStruct] itself. *)
Definition data : list (str * str) :=
  [("_Py_NoneStruct"%string : str, p_ "Py_None"%string); ("PyExc_RuntimeError"%string : str, p_ "PyExc_RuntimeError"%string)].

(** The names that [#define] makes calls through pointers of, and the symbol
    each is. *)
Definition macros : list (str * str) :=
  ((fun n => (n, n)) <$> (["Py_Initialize"; "Py_IsInitialized"; "Py_FinalizeEx"; "PyErr_Occurred"; "PyErr_Fetch"; "PyErr_NormalizeException";
   "PyErr_Clear"; "PyErr_SetString"; "PyObject_Str"; "PyObject_GetAttrString"; "PyObject_CallObject"; "Py_IncRef"; "Py_DecRef";
   "PyUnicode_FromString"; "PyUnicode_AsUTF8String"; "PyBytes_AsString"; "PyTuple_New"; "PyTuple_SetItem"; "PyTuple_GetItem"; "PyDict_New";
   "PyDict_GetItemString"; "PyDict_SetItemString"; "PyList_Size"; "PyList_GetItem"; "PyLong_AsLong"; "PyLong_FromLong"; "PyImport_AddModule";
   "PyModule_GetDict"; "PyRun_String"; "PyCFunction_NewEx"; "PyEval_SaveThread"; "PyEval_RestoreThread"; "PyGILState_Ensure";
   "PyGILState_Release"; "PyExc_RuntimeError"]%string : list str))
  ++ [("Py_None"%string : str, "_Py_NoneStruct"%string : str)].

Section Load.
Context (os : System) (p : platform).

Definition findNewestCandidate (dir : str) : result (option Candidate) :=
  find_newest (match p with Windows => dll_candidate | _ => so_candidate end) (directory_iterator os dir).

(** The first directory that has one. *)
Fixpoint first_with (libDirs : list str) : result (option (str * Candidate)) :=
  match libDirs with
  | [] => Ok None
  | dir :: libDirs =>
      let? c := findNewestCandidate dir in
      match c with Some c => Ok (Some (dir, c)) | None => first_with libDirs end
  end.

Definition multiarch : str := "-linux-gnu"%string.

(** [lib], [lib64], and Debian's multiarch directories. *)
Definition libDirs (pythonHome : str) : list str :=
  let lib := pythonHome ++ "/lib"%string in
  [lib; pythonHome ++ "/lib64"%string]
  ++ omap (fun e => match e.2 with
                    | Directory => if (length multiarch <? length e.1)%nat && ends_with multiarch e.1 then Some (lib ++ "/"%char :: e.1) else None
                    | _ => None
                    end) (directory_iterator os lib).

(** The path, and the handle: no path when there is no candidate. *)
Definition openPyLibrary (pythonHome : str) : result (str * option nat) :=
  match p with
  | Windows =>
      let? c := findNewestCandidate pythonHome in
      match c with
      | None => Ok ([], None)
      | Some c => let outPath := pythonHome ++ "\"%char :: fileName c in Ok (outPath, dlopen os outPath)
      end
  | _ =>
      if bool_decide (pythonHome = []) then Ok ([], None)
      else
        let? found := first_with (libDirs pythonHome) in
        match found with
        | None => Ok ([], None)
        | Some (libDir, c) => let outPath := libDir ++ "/"%char :: fileName c in Ok (outPath, dlopen os outPath)
        end
  end.

Definition describeOpenFailure (pythonHome path : str) : str :=
  match p with
  | Windows =>
      if bool_decide (path = []) then
        "No python3NN.dll was found directly under python_home ('"%string ++ pythonHome
        ++ "'). Is Python installed there? Configure python_home to the directory containing pythonXY.dll (e.g. the root of a CPython install), or install Python from https://www.python.org."%string
      else "Could not load "%string ++ path ++ " ("%string ++ formatLastError os ++ ") from python_home='"%string ++ pythonHome ++ "'."%string
  | _ =>
      let reason := default ("unknown error"%string : str) (dlerror os) in
      if bool_decide (path = []) then
        "No libpython3.*.so*/.dylib was found under '"%string ++ pythonHome
        ++ "/lib' (or lib64/, lib/<arch>-linux-gnu/). Is Python installed at '"%string ++ pythonHome
        ++ "'? Configure python_home to a Python installation prefix (the directory containing lib/libpython3.*), or install Python from https://www.python.org."%string
      else "Could not load "%string ++ path ++ " ("%string ++ reason ++ ")."%string
  end.

Definition missing_symbol (libPath name : str) : str :=
  "'"%string ++ libPath ++ "' was loaded but is missing the expected symbol '"%string ++ name
  ++ "' -- this usually means an incompatible or corrupted Python installation. Try reinstalling Python from https://www.python.org."%string.

Definition loadPyApi (pythonHome : str) (s : Api) : result unit * Api :=
  if g_loaded s then (Ok tt, s) else
  match openPyLibrary pythonHome with
  | Ok (libPath, Some handle) =>
      match resolve_all os (missing_symbol libPath) handle (named functions ++ data) s with
      | (Ok _, s) => (Ok tt, loaded s)
      | other => other
      end
  | Ok (libPath, None) => (Throw (describeOpenFailure pythonHome libPath), s)
  | Throw what => (Throw what, s)
  | Undefined => (Undefined, s)
  end.
End Load.

(** *** What the search finds *)

(** A file name is that of Python 3.m's shared library. *)
Definition library_version (name : str) (m : Z) : Prop :=
  exists ds rest, name = ("libpython3."%string : str) ++ ds ++ rest /\ ds <> [] /\ forallb isdigit ds = true
    /\ (starts_with ".so"%string rest = true \/ starts_with ".dylib"%string rest = true) /\ m = digits_value 0 ds.

Lemma digits_nonneg ds : forall acc, 0 <= acc -> 0 <= digits_value acc ds.
Proof.
  induction ds as [|c ds IH]; intros acc H; cbn [digits_value]; [done |]. unfold digit. case_match eqn:E; [| done].
  apply IH. case_match; [| done]. simplify_eq. lia.
Qed.

Lemma stoi_digits ds : ds <> [] -> forallb isdigit ds = true ->
  stoi ds = (if digits_value 0 ds <? 2 ^ 31 then Ok (digits_value 0 ds) else Throw "stoi"%string).
Proof.
  destruct ds as [|c ds]; [done |]. intros _ H. cbn [forallb] in H. apply andb_true_iff in H as [Hc _].
  assert (digit c = Some (code c - 48)) as Hd by (unfold digit; unfold isdigit in Hc; by rewrite Hc).
  unfold stoi. rewrite digit_head by (by eexists). rewrite bool_decide_eq_false_2 by (by rewrite Hd).
  pose proof (digits_nonneg (c :: ds) 0 ltac:(lia)) as Hn. rewrite Z.mul_1_l.
  rewrite (proj2 (Z.leb_le (- 2 ^ 31) _)) by lia. done.
Qed.

Lemma take_while_app_stop f a b : forallb f a = true -> match b with c :: _ => f c = false | [] => True end -> take_while f (a ++ b) = a.
Proof.
  induction a as [|c a IH]; cbn.
  - destruct b as [|c b]; [done |]. cbn. by intros _ ->.
  - intros [-> H]%andb_true_iff Hb. f_equal. by apply IH.
Qed.

Lemma so_candidate_spec name :
  match so_candidate name with
  | None => forall m, ~ library_version name m
  | Some r => exists m, library_version name m
      /\ r = (if m <? 2 ^ 31 then Ok {| fileName := name; major := 3; minor := m |} else Throw "stoi"%string)
  end.
Proof.
  unfold so_candidate. destruct (starts_with "libpython3."%string name) eqn:Hp; cbn [negb].
  2: { intros m (ds & rest & -> & _). by rewrite starts_with_app in Hp. }
  apply starts_with_spec in Hp as [t ->]. rewrite drop_app_length.
  destruct (take_while_split isdigit t) as (rest & Ht & Hr). pose proof (take_while_all isdigit t) as Hall.
  set (digits := take_while isdigit t) in *. rewrite Ht. rewrite drop_app_length.
  assert (forall m, library_version (("libpython3."%string : str) ++ digits ++ rest) m -> digits <> [] /\ m = digits_value 0 digits
    /\ (starts_with ".so"%string rest = true \/ starts_with ".dylib"%string rest = true)) as Huniq.
  { intros m (ds & rest' & Heq & Hne & Hds & Hrest & ->). apply app_inv_head in Heq.
    assert (ds = digits) as ->; [| by apply app_inv_head in Heq as ->].
    rewrite <- Ht in Heq. unfold digits. rewrite Heq. symmetry. apply take_while_app_stop; [done |].
    destruct Hrest as [[u ->]%starts_with_spec | [u ->]%starts_with_spec]; reflexivity. }
  case_bool_decide as Hd; [intros m Hm; by apply Huniq in Hm as [? _] |].
  destruct (starts_with ".so"%string rest || str_eqb rest ".dylib"%string || starts_with ".dylib"%string rest) eqn:E.
  - exists (digits_value 0 digits). split.
    + exists digits, rest. split; [done |]. split; [done |]. split; [done |]. split; [| done].
      apply orb_true_iff in E as [E | E]; [| by right]. apply orb_true_iff in E as [E | E]; [by left | right].
      apply str_eqb_eq in E as ->. reflexivity.
    + rewrite stoi_digits by done. by destruct (_ <? _).
  - intros m Hm. apply Huniq in Hm as (_ & _ & Hm). apply orb_false_iff in E as [E E2]. apply orb_false_iff in E as [E1 _].
    destruct Hm; congruence.
Qed.

Lemma library_version_unique name m m' : library_version name m -> library_version name m' -> m = m'.
Proof.
  intros H H'. pose proof (so_candidate_spec name) as Hs.
  destruct H as (ds & rest & -> & Hne & Hds & Hrest & ->), H' as (ds' & rest' & Heq & Hne' & Hds' & Hrest' & ->).
  apply app_inv_head in Heq. clear Hs. f_equal.
  rewrite <- (take_while_app_stop isdigit ds rest Hds) by (destruct Hrest as [[u ->]%starts_with_spec | [u ->]%starts_with_spec]; reflexivity).
  rewrite <- (take_while_app_stop isdigit ds' rest' Hds') by (destruct Hrest' as [[u ->]%starts_with_spec | [u ->]%starts_with_spec]; reflexivity).
  by rewrite Heq.
Qed.

Lemma newest_spec found c : newest found = Some c -> c ∈ found /\ forall c', c' ∈ found -> minor c' <= minor c.
Proof.
  destruct found as [|b rest]; [done |]. cbn [newest]. intros [= <-].
  assert (forall b, fold_left newer rest b ∈ b :: rest /\ minor b <= minor (fold_left newer rest b)
    /\ forall c', c' ∈ rest -> minor c' <= minor (fold_left newer rest b)) as H.
  { clear b. induction rest as [|x rest IH]; intros b; cbn [fold_left].
    - split; [by left |]. split; [lia |]. intros c' H. by apply elem_of_nil in H.
    - destruct (IH (newer b x)) as (H1 & H2 & H3).
      assert (minor b <= minor (newer b x) /\ minor x <= minor (newer b x) /\ (newer b x = b \/ newer b x = x)) as (H4 & H5 & H6)
        by (unfold newer; destruct (Z.ltb_spec (minor b) (minor x)); (split; [lia |]; split; [lia |]); by auto).
      split; [| split; [lia |]].
      + apply elem_of_cons in H1 as [-> | H1]; [destruct H6 as [-> | ->]; [by left | by right; left] | by right; right].
      + intros c' [-> | Hc]%elem_of_cons; [lia | by apply H3]. }
  destruct (H b) as (H1 & H2 & H3). split; [done |]. by intros c' [-> | Hc]%elem_of_cons; [| apply H3].
Qed.

Lemma collect_ok l : (forall r, r ∈ l -> exists c, r = Ok c) -> exists cs, collect l = Ok cs /\ l = Ok <$> cs.
Proof.
  induction l as [|r l IH]; intros H; [by exists [] |]. destruct (H r) as [c ->]; [by left |].
  destruct IH as (cs & E & ->); [intros r Hr; apply H; by right |]. exists (c :: cs). cbn. by rewrite E.
Qed.

(** The versions of a directory's files, which all fit an [int]. *)
Definition present (os : System) (dir name : str) (m : Z) : Prop := (name, Regular) ∈ directory_iterator os dir /\ library_version name m.

Definition fits (os : System) (dir : str) : Prop := forall name m, present os dir name m -> m < 2 ^ 31.

(** The newest of a directory, if it has any. *)
Lemma findNewestCandidate_spec os p dir : p <> Windows -> fits os dir ->
  (findNewestCandidate os p dir = Ok None /\ forall name m, ~ present os dir name m)
  \/ exists c, findNewestCandidate os p dir = Ok (Some c) /\ present os dir (fileName c) (minor c)
     /\ forall name m, present os dir name m -> m <= minor c.
Proof.
  intros Hp Hf. assert (findNewestCandidate os p dir = find_newest so_candidate (directory_iterator os dir)) as -> by (unfold findNewestCandidate; by destruct p).
  unfold find_newest. set (l := omap _ _).
  assert (forall r, r ∈ l <-> exists name m, present os dir name m /\ r = Ok {| fileName := name; major := 3; minor := m |}) as Hl.
  { intros r. unfold l. rewrite list_elem_of_omap. split.
    - intros ([name kind] & Hin & Hr). cbn in Hr. destruct kind; [| done ..]. pose proof (so_candidate_spec name) as Hs. rewrite Hr in Hs.
      destruct Hs as (m & Hm & ->). assert (present os dir name m) as Hpr by done. exists name, m. split; [done |].
      by rewrite (proj2 (Z.ltb_lt m _) (Hf _ _ Hpr)).
    - intros (name & m & [Hin Hm] & ->). exists (name, Regular). split; [done |]. cbn. pose proof (so_candidate_spec name) as Hs.
      destruct (so_candidate name) as [r|]; [| by apply Hs in Hm]. destruct Hs as (m' & Hm' & ->).
      rewrite (library_version_unique _ _ _ Hm' Hm). by rewrite (proj2 (Z.ltb_lt m _) (Hf _ _ (conj Hin Hm))). }
  destruct (collect_ok l) as (cs & -> & Hcs); [intros r (name & m & _ & ->)%Hl; by eexists |].
  assert (forall c, c ∈ cs <-> exists name m, present os dir name m /\ c = {| fileName := name; major := 3; minor := m |}) as Hc.
  { intros c. split.
    - intros Hin. destruct (proj1 (Hl (Ok c))) as (name & m & Hpr & [= ->]); [rewrite Hcs; by apply list_elem_of_fmap_2 | by exists name, m].
    - intros (name & m & Hpr & ->). assert (Ok {| fileName := name; major := 3; minor := m |} ∈ l) as Hin by (apply Hl; by exists name, m).
      rewrite Hcs in Hin. by apply list_elem_of_fmap in Hin as (? & [= <-] & ?). }
  destruct (newest cs) as [c|] eqn:E.
  - right. exists c. split; [done |]. apply newest_spec in E as [Hin Hmax]. apply Hc in Hin as (name & m & Hpr & ->). split; [done |].
    intros name' m' Hpr'. apply (Hmax {| fileName := name'; major := 3; minor := m' |}), Hc. by exists name', m'.
  - left. split; [done |]. intros name m Hpr. destruct cs as [|c cs]; [| done].
    by assert (({| fileName := name; major := 3; minor := m |} : Candidate) ∈ ([] : list Candidate)) as ?%elem_of_nil by (apply Hc; by exists name, m).
Qed.

(** The library that is chosen: of the first directory that has one, the newest. *)
Definition chosen (os : System) (pythonHome path : str) : Prop :=
  exists before dir after name m, libDirs os pythonHome = before ++ dir :: after
    /\ (forall dir', dir' ∈ before -> forall name m, ~ present os dir' name m)
    /\ present os dir name m /\ (forall name' m', present os dir name' m' -> m' <= m)
    /\ path = dir ++ "/"%char :: name.

Lemma first_with_spec os p dirs : p <> Windows -> (forall dir, dir ∈ dirs -> fits os dir) ->
  (first_with os p dirs = Ok None /\ forall dir, dir ∈ dirs -> forall name m, ~ present os dir name m)
  \/ exists dir c before after, first_with os p dirs = Ok (Some (dir, c)) /\ dirs = before ++ dir :: after
     /\ (forall dir', dir' ∈ before -> forall name m, ~ present os dir' name m)
     /\ present os dir (fileName c) (minor c) /\ forall name m, present os dir name m -> m <= minor c.
Proof.
  intros Hp. induction dirs as [|dir dirs IH]; intros Hf; cbn [first_with].
  - left. split; [done |]. intros dir H. by apply elem_of_nil in H.
  - destruct (findNewestCandidate_spec os p dir Hp) as [[-> Hn] | (c & -> & Hc & Hmax)]; [apply Hf; by left | |].
    + destruct IH as [[-> H] | (d & c & before & after & -> & -> & H1 & H2)]; [intros d Hd; apply Hf; by right | |].
      * left. split; [done |]. by intros d [-> | Hd]%elem_of_cons; [| apply H].
      * right. exists d, c, (dir :: before), after. split; [done |]. split; [done |]. split; [| done].
        by intros d' [-> | Hd]%elem_of_cons; [| apply H1].
    + right. exists dir, c, [], dirs. split; [done |]. split; [done |]. split; [| done]. intros d Hd. by apply elem_of_nil in Hd.
Qed.

Lemma py_names_distinct : NoDup (named functions ++ data).*2.
Proof. apply (bool_decide_unpack _); vm_compute; exact I. Qed.

Lemma py_used_names : Forall (fun ns => (ns.2, p_ ns.1) ∈ named functions ++ data) macros.
Proof. apply (bool_decide_unpack _); vm_compute; exact I. Qed.


End Py.

(** ** The hypotheses can hold *)
Module Toy.

Definition listing (dir : str) : list (str * file_kind) :=
  if str_eqb dir "/usr/lib"%string then
    [("libpython3.9.so.1.0"%string : str, Regular); ("libpython3.so"%string : str, Regular); ("libpython3.11.so.1.0"%string : str, Regular);
     ("x86_64-linux-gnu"%string : str, Directory)]
  else if str_eqb dir "/usr/lib/x86_64-linux-gnu"%string then [("libpython3.12.so"%string : str, Regular)]
  else [].

(** A system whose libraries have every symbol but [lacks]. *)
Definition system (lacks : option str) : System := {|
  getenv name := if str_eqb name "R_HOME"%string then Some ("/opt/R"%string : str) else None;
  directory_iterator := listing;
  dlopen path := if bool_decide (path ∈ [("/opt/R/lib/libR.so"%string : str); ("/usr/lib/libpython3.11.so.1.0"%string : str)]) then Some 1%nat else None;
  dlsym _ name := if bool_decide (lacks = Some name) then None else Some (length name);
  dlerror := None
|}.

Definition unloaded : Api := {| g_loaded := false; pointers := ∅; g_hasWindowsEmbeddingApi := false |}.

Lemma r_loads : fst (R.loadRApi (system None) Linux unloaded) = Ok tt.
Proof. vm_compute. reflexivity. Qed.

Lemma r_api_complete_witness : exists a, pointers (snd (R.loadRApi (system None) Linux unloaded)) !! p_ "Rf_cons"%string = Some a.
Proof.
  pose proof (R.r_api_complete (system None) Linux unloaded eq_refl) as H. pose proof r_loads as Hl.
  destruct (R.loadRApi (system None) Linux unloaded) as [[u | what |] s']; [| discriminate Hl | contradiction].
  destruct H as (_ & path & h & _ & H). destruct (H "Rf_cons"%string) as (a & _ & Ha).
  - apply (bool_decide_unpack _). vm_compute. exact I.
  - exists a. exact Ha.
Defined.

(** The first symbol that is missing is named, and nothing is loaded. *)
Example r_without_event_loop : fst (R.loadRApi (system (Some ("R_checkActivity"%string : str))) Linux unloaded) = Ok tt
  /\ fst (R.loadRApi (system (Some ("R_NilValue"%string : str))) Linux unloaded) = Throw (R.missing_symbol "/opt/R/lib/libR.so"%string "R_NilValue"%string)
  /\ g_loaded (snd (R.loadRApi (system (Some ("R_NilValue"%string : str))) Linux unloaded)) = false.
Proof. repeat split; vm_compute; reflexivity. Qed.

(** R before 4.2 has no versioned start on Windows. *)
Example old_r_on_windows :
  let os lacks := {| getenv := getenv (system None); directory_iterator := listing; dlopen := fun _ => Some 1%nat; dlsym := dlsym (system lacks); dlerror := None |} in
  g_hasWindowsEmbeddingApi (snd (R.loadRApi (os (Some ("R_DefParamsEx"%string : str))) Windows unloaded)) = false
  /\ g_hasWindowsEmbeddingApi (snd (R.loadRApi (os None) Windows unloaded)) = true.
Proof. split; vm_compute; reflexivity. Qed.

Lemma toy_fits dir : Py.fits (system None) dir.
Proof.
  intros name m [Hin Hm]. cbn in Hin. unfold listing in Hin. pose proof (Py.so_candidate_spec name) as Hs.
  assert (forall m', Py.so_candidate name = Some (Ok {| Py.fileName := name; Py.major := 3; Py.minor := m' |}) -> m' < 2 ^ 31 -> m < 2 ^ 31) as Hfit.
  { intros m' E Hlt. rewrite E in Hs. destruct Hs as (m2 & H2 & Heq). rewrite (Py.library_version_unique _ _ _ Hm H2).
    destruct (Z.ltb_spec m2 (2 ^ 31)); [done | discriminate Heq]. }
  destruct (str_eqb dir _); [| destruct (str_eqb dir _); [| by apply elem_of_nil in Hin]].
  - repeat (apply elem_of_cons in Hin as [[= ->] | Hin]); [by eapply (Hfit 9) | | by eapply (Hfit 11) | by apply elem_of_nil in Hin].
    by apply Hs in Hm.
  - repeat (apply elem_of_cons in Hin as [[= ->] | Hin]); [by eapply (Hfit 12) | by apply elem_of_nil in Hin].
Qed.

Lemma py_loads : fst (Py.loadPyApi (system None) Linux "/usr"%string unloaded) = Ok tt.
Proof. vm_compute. reflexivity. Qed.


(** The newest version is a number: 3.11 is newer than 3.9, and so on Windows,
    where neither the stable interface's library nor a debug build counts. *)
Example newest_is_numeric :
  Py.openPyLibrary (system None) Linux "/usr"%string = Ok ("/usr/lib/libpython3.11.so.1.0"%string : str, Some 1%nat)
  /\ Py.find_newest Py.dll_candidate
       [("python3.dll"%string : str, Regular); ("python39.dll"%string : str, Regular); ("Python314.DLL"%string : str, Regular); ("python315_d.dll"%string : str, Regular)]
     = Ok (Some {| Py.fileName := "Python314.DLL"%string; Py.major := 3; Py.minor := 14 |}).
Proof. split; vm_compute; reflexivity. Qed.

(** Any file whose name goes on after ".so" counts as a library, such as the
    helper that a debug package puts beside it; and a number that no [int] holds
    ends the search with [stoi]'s exception. *)
Example not_a_library :
  Py.find_newest Py.so_candidate [("libpython3.12.so.1.0-gdb.py"%string : str, Regular); ("libpython3.12.so.1.0"%string : str, Regular)]
  = Ok (Some {| Py.fileName := "libpython3.12.so.1.0-gdb.py"%string; Py.major := 3; Py.minor := 12 |})
  /\ Py.find_newest Py.so_candidate [("libpython3.12.so"%string : str, Regular); ("libpython3.99999999999.so"%string : str, Regular)]
  = Throw "stoi"%string.
Proof. split; vm_compute; reflexivity. Qed.
End Toy.
