(* ===== verification/RHeap.v ===== *)
(** * R's memory as the kernel's C++ uses it: elara/r/rtools.hpp

    R's objects are collected: any allocation may free what is not reachable
    from the protection stack, the preserved objects and R's own roots (Writing
    R Extensions, 5.9.1).  Here R's heap is a map from addresses to objects, an
    allocation first runs a collector - any that keeps what is reachable - and
    using an address that was freed is [Undefined].  Addresses are not used
    again, so a dangling one stays so.

    R itself (its collector, parser and evaluator) is the class [RRuntime]; the
    calls of rtools.hpp, and the code that parses a cell, are written in the
    monad [M], with C++'s exceptions as [Throw]s that keep the memory. *)

From Stdlib Require Import Ascii String ZArith Lia.
From stdpp Require Import base gmap list strings.
From S2P Require Import Prelude.
Local Open Scope jovian_scope.

Abbreviation loc := nat.

(** ** Objects *)

(** What an object is.  A symbol holds its value in the base environment;
    [Own] is R's own: a function, an environment, with what it refers to. *)
Inductive Data :=
| NILSXP
| SYMSXP (name : str) (value : loc)
| LISTSXP (car cdr : loc)
| LANGSXP (car cdr : loc)
| CHARSXP (s : str)
| STRSXP (elems : list loc)
| VECSXP (elems : list loc)
| INTSXP (values : list Z)
| Own (refers : list loc).

Definition refs (o : Data) : list loc :=
  match o with
  | NILSXP | CHARSXP _ | INTSXP _ => []
  | SYMSXP _ v => [v]
  | LISTSXP a d | LANGSXP a d => [a; d]
  | STRSXP es | VECSXP es => es
  | Own rs => rs
  end.

(** An object R's code cannot change (R's values are copied when they are
    shared). *)
Definition is_value (o : Data) : bool := match o with SYMSXP _ _ | Own _ => false | _ => true end.

Abbreviation Heap := (gmap loc Data).

(** The memory: the objects, the next address, the protection stack (its top
    first), the preserved objects, the symbols; and the statics of rtools.hpp,
    of which [jv_call] is one per number of arguments (a static of a template). *)
Record Mem := {
  heap : Heap;
  next : loc;
  pp_stack : list loc;
  preserved : list loc;
  symbols : list (str * loc);
  env : loc;
  jv_call : gmap nat loc
}.

Definition R_NilValue : loc := 0.
Definition R_GlobalEnv : loc := 1.
Definition R_BlankString : loc := 2.

Definition roots (m : Mem) : list loc := R_NilValue :: R_GlobalEnv :: R_BlankString :: (symbols m).*2 ++ pp_stack m ++ preserved m.

Inductive reach (h : Heap) (rs : list loc) : loc -> Prop :=
| reach_root l : l ∈ rs -> reach h rs l
| reach_ref l o r : reach h rs l -> h !! l = Some o -> r ∈ refs o -> reach h rs r.

Definition closed (h : Heap) : Prop := forall l o, h !! l = Some o -> forall r, r ∈ refs o -> is_Some (h !! r).

Definition live (m : Mem) (l : loc) : Prop := is_Some (heap m !! l).

(** The elements of a character vector are strings. *)
Definition is_char (h : Heap) (l : loc) : Prop := exists s, h !! l = Some (CHARSXP s).
Definition chars_of (o : Data) : list loc := match o with STRSXP es => es | _ => [] end.

Record wf (m : Mem) : Prop := {
  wf_closed : closed (heap m);
  wf_roots : forall l, l ∈ roots m -> live m l;
  wf_next : forall l, live m l -> l < next m;
  wf_chars : forall l o, heap m !! l = Some o -> forall c, c ∈ chars_of o -> is_char (heap m) c;
  wf_blank : is_char (heap m) R_BlankString;
  wf_symbols : forall n l, (n, l) ∈ symbols m -> exists v, heap m !! l = Some (SYMSXP n v);
  wf_env : env m = R_NilValue \/ env m ∈ preserved m;
  wf_jv_call : forall n l, jv_call m !! n = Some l -> l ∈ preserved m
}.

Definition set_heap h m := Build_Mem h (next m) (pp_stack m) (preserved m) (symbols m) (env m) (jv_call m).
Definition set_next n m := Build_Mem (heap m) n (pp_stack m) (preserved m) (symbols m) (env m) (jv_call m).
Definition set_stack s m := Build_Mem (heap m) (next m) s (preserved m) (symbols m) (env m) (jv_call m).
Definition set_preserved p m := Build_Mem (heap m) (next m) (pp_stack m) p (symbols m) (env m) (jv_call m).
Definition set_symbols s m := Build_Mem (heap m) (next m) (pp_stack m) (preserved m) s (env m) (jv_call m).
Definition set_env e m := Build_Mem (heap m) (next m) (pp_stack m) (preserved m) (symbols m) e (jv_call m).
Definition set_jv_call n l m := Build_Mem (heap m) (next m) (pp_stack m) (preserved m) (symbols m) (env m) (<[n := l]> (jv_call m)).

(** What a run of R's code leaves: the C code's protected objects, and those
    preserved, are still there, and a value is the same while it is there. *)
Record ran (m m' : Mem) : Prop := {
  ran_wf : wf m';
  ran_stack : pp_stack m' = pp_stack m;
  ran_preserved : preserved m ⊆ preserved m';
  ran_symbols : symbols m ⊆ symbols m';
  ran_next : next m <= next m';
  ran_values : forall l o, heap m !! l = Some o -> is_value o = true -> live m' l -> heap m' !! l = Some o;
  ran_fresh : forall l, live m' l -> live m l \/ next m <= l;
  ran_env : env m <> R_NilValue -> env m' = env m;
  ran_jv_call : jv_call m ⊆ jv_call m'
}.

(** ** R itself *)

Class RRuntime := {
  (** what the collector keeps, of a heap and its roots; the address about to be
      used tells one allocation from another *)
  collect : loc -> Heap -> list loc -> Heap;
  collect_keeps : forall t h rs l, reach h rs l -> collect t h rs !! l = h !! l;
  collect_only : forall t h rs, collect t h rs ⊆ h;
  collect_closed : forall t h rs, closed h -> closed (collect t h rs);
  (** the value, or an error *)
  R_tryEval_ : Mem -> loc -> Mem * option loc;
  (** the parsed expressions, unless the text does not parse *)
  R_ParseVector_ : Mem -> loc -> Mem * option loc;
  R_curErrorBuf : Mem -> str;
  tryEval_ran : forall m e, wf m -> reach (heap m) (roots m) e -> ran m (R_tryEval_ m e).1;
  tryEval_value : forall m e v, wf m -> reach (heap m) (roots m) e -> (R_tryEval_ m e).2 = Some v -> live (R_tryEval_ m e).1 v;
  parse_ran : forall m e, wf m -> reach (heap m) (roots m) e -> ran m (R_ParseVector_ m e).1;
  parse_value : forall m e v, wf m -> reach (heap m) (roots m) e -> (R_ParseVector_ m e).2 = Some v ->
    exists es, heap (R_ParseVector_ m e).1 !! v = Some (VECSXP es)
}.

(** ** The monad *)

Definition M (A : Type) : Type := Mem -> Mem * result A.

#[export] Instance M_ret : MRet M := fun A a m => (m, Ok a).
#[export] Instance M_bind : MBind M := fun A B k c m =>
  match c m with (m', Ok a) => k a m' | (m', Throw w) => (m', Throw w) | (m', Undefined) => (m', Undefined) end.

Definition throw {A} (what : str) : M A := fun m => (m, Throw what).
Definition undefined {A} : M A := fun m => (m, Undefined).
Definition catch {A} (c : M A) (handler : str -> M A) : M A := fun m =>
  match c m with (m', Throw w) => handler w m' | r => r end.
Definition get : M Mem := fun m => (m, Ok m).
Definition modify (f : Mem -> Mem) : M unit := fun m => (f m, Ok tt).

Definition liveb (m : Mem) (l : loc) : bool := match heap m !! l with Some _ => true | None => false end.

(** A pointer the code uses. *)
Definition use (l : loc) : M Data := fun m => match heap m !! l with Some o => (m, Ok o) | None => (m, Undefined) end.

Section RHeap.
Context `{R : RRuntime}.

(** A new object: R's constructors keep what it will refer to. *)
Definition alloc (o : Data) : M loc := fun m =>
  if forallb (liveb m) (refs o) then
    (set_next (S (next m)) (set_heap (<[next m := o]> (collect (next m) (heap m) (roots m ++ refs o))) m), Ok (next m))
  else (m, Undefined).

Definition PROTECT (l : loc) : M unit := fun m =>
  if liveb m l then (set_stack (l :: pp_stack m) m, Ok tt) else (m, Undefined).

(** [UNPROTECT] of more than there is: R's error, a jump. *)
Definition UNPROTECT (n : nat) : M unit := fun m =>
  if n <=? length (pp_stack m) then (set_stack (drop n (pp_stack m)) m, Ok tt) else (m, Undefined).

Definition R_PreserveObject (l : loc) : M unit := fun m =>
  if liveb m l then (set_preserved (l :: preserved m) (set_heap (collect (next m) (heap m) (l :: roots m)) m), Ok tt) else (m, Undefined).

Fixpoint find_symbol (name : str) (ss : list (str * loc)) : option loc :=
  match ss with [] => None | (n, l) :: rest => if str_eqb n name then Some l else find_symbol name rest end.

Definition Rf_install (name : str) : M loc := fun m =>
  match find_symbol name (symbols m) with
  | Some l => (m, Ok l)
  | None => (s ← alloc (SYMSXP name R_NilValue); modify (fun m => set_symbols ((name, s) :: symbols m) m) ;; mret s) m
  end.

Definition Rf_cons (car cdr : loc) : M loc := alloc (LISTSXP car cdr).
Definition Rf_lcons (car cdr : loc) : M loc := alloc (LANGSXP car cdr).
Definition Rf_mkChar (s : str) : M loc := alloc (CHARSXP s).
Definition Rf_mkString (s : str) : M loc := c ← Rf_mkChar s; alloc (STRSXP [c]).
Definition Rf_ScalarInteger (n : Z) : M loc := alloc (INTSXP [n]).

Definition R_tryEval (e : loc) : M (option loc) := fun m =>
  if liveb m e then let (m', v) := R_tryEval_ m e in (m', Ok v) else (m, Undefined).
Definition R_ParseVector (text : loc) : M (option loc) := fun m =>
  if liveb m text then let (m', v) := R_ParseVector_ m text in (m', Ok v) else (m, Undefined).

(** [SETCDR] of a symbol: its value. *)
Definition SETCDR (symbol value : loc) : M unit :=
  o ← use symbol; _ ← use value;
  match o with
  | SYMSXP name _ => modify (fun m => set_heap (<[symbol := SYMSXP name value]> (heap m)) m)
  | _ => undefined
  end.

(** Two arguments of a C++ call: the compiler chooses which is made first. *)
Definition arguments {A B} (left_first : bool) (a : M A) (b : M B) : M (A * B) :=
  if left_first then x ← a; y ← b; mret (x, y) else y ← b; x ← a; mret (x, y).

(** ** rtools.hpp *)

Fixpoint rPairlist (head : loc) (tail : list loc) : M loc :=
  match tail with
  | [] => Rf_cons head R_NilValue
  | t :: ts => PROTECT head ;; rest ← rPairlist t ts; head ← Rf_cons head rest; UNPROTECT 1 ;; mret head
  end.

Definition rCall (head : loc) (tail : list loc) : M loc :=
  match tail with
  | [] => Rf_lcons head R_NilValue
  | t :: ts => PROTECT head ;; rest ← rPairlist t ts; head ← Rf_lcons head rest; UNPROTECT 1 ;; mret head
  end.

Definition s_colons : str := "::"%string.
Definition s_base : str := "base"%string.

Definition baseFunction (name : str) : M loc :=
  c ← Rf_install s_colons; b ← Rf_install s_base; n ← Rf_install name; rCall c [b; n].

Definition s_as_environment : str := "as.environment"%string.
Definition s_tools : str := "tools:jovian"%string.
Definition s_get0 : str := "get0"%string.
Definition s_jv_call : str := ".jv.call"%string.

Definition elaraEnvironment (left_first : bool) : M loc :=
  m ← get;
  if env m =? R_NilValue then
    '(f, s) ← arguments left_first (baseFunction s_as_environment) (Rf_mkString s_tools);
    call ← rCall f [s]; PROTECT call ;; found ← R_tryEval call; UNPROTECT 1 ;;
    match found with
    | Some found => R_PreserveObject found ;; modify (set_env found) ;; mret found
    | None => mret R_NilValue
    end
  else mret (env m).

Definition elaraFunction (left_first : bool) (name : str) : M loc :=
  env ← elaraEnvironment left_first;
  if env =? R_NilValue then mret R_NilValue
  else
    '(f, s) ← arguments left_first (baseFunction s_get0) (Rf_mkString name);
    call ← rCall f [s; env]; PROTECT call ;; fn ← R_tryEval call; UNPROTECT 1 ;;
    mret (default R_NilValue fn).

Definition not_loaded (f : str) : str :=
  ("R evaluation of .jv.call("%string : str) ++ [ascii_of_nat 34] ++ f ++ [ascii_of_nat 34] ++ (", ...) failed: the kernel's R code (tools:jovian) is not loaded"%string : str).
Definition failed (f error : str) : str :=
  ("R evaluation of .jv.call("%string : str) ++ [ascii_of_nat 34] ++ f ++ [ascii_of_nat 34] ++ (", ...) failed: "%string : str) ++ error.

(** The function [.jv.call], looked up once for each number of arguments. *)
Definition find_jv_call (left_first : bool) (f : str) (n : nat) : M loc :=
  m ← get;
  match jv_call m !! n with
  | Some l => mret l
  | None =>
      fn ← elaraFunction left_first s_jv_call;
      if fn =? R_NilValue then throw (not_loaded f) else R_PreserveObject fn ;; modify (set_jv_call n fn) ;; mret fn
  end.

Definition invokeHeraFn (left_first : bool) (f : str) (args : list loc) : M loc :=
  jv ← find_jv_call left_first f (length args);
  name ← Rf_mkString f; call ← rCall jv (name :: args); PROTECT call ;;
  result ← R_tryEval call; UNPROTECT 1 ;;
  match result with
  | Some v => mret v
  | None => m ← get; throw (failed f (R_curErrorBuf m))
  end.


(** The arguments of the debugger's evaluation in a frame (debugger_r.cpp):
    nothing protects the one made first. *)
Definition evaluate_args (left_first : bool) (expression : str) (frame : loc) : M loc :=
  '(s, rest) ← arguments left_first (Rf_mkString expression) (Rf_cons frame R_NilValue); Rf_cons s rest.

(** ** What is kept *)

Lemma reach_incl h rs rs' l : (forall r, r ∈ rs -> reach h rs' r) -> reach h rs l -> reach h rs' l.
Proof. intros Hi. induction 1 as [l Hl | l o r _ IH Ho Hr]; [by apply Hi | by apply (reach_ref _ _ l o)]. Qed.

(** Nothing reachable from [rs] is changed. *)
Definition same (h h' : Heap) (rs : list loc) : Prop := forall l, reach h rs l -> h' !! l = h !! l.

Lemma same_reach h h' rs l : same h h' rs -> reach h rs l -> reach h' rs l.
Proof.
  intros Hs. induction 1 as [l Hl | l o r Hl IH Ho Hr]; [by apply reach_root |].
  apply (reach_ref _ _ l o); [done | by rewrite Hs | done].
Qed.

Lemma same_incl h h' rs rs' : (forall r, r ∈ rs -> reach h rs' r) -> same h h' rs' -> same h h' rs.
Proof. intros Hi Hs l Hl. by apply Hs, (reach_incl _ rs). Qed.

Lemma same_trans h1 h2 h3 rs rs' :
  same h1 h2 rs -> same h2 h3 rs' -> (forall r, r ∈ rs -> reach h2 rs' r) -> same h1 h3 rs.
Proof.
  intros H12 H23 Hi l Hl. rewrite H23; [by apply H12 |]. apply (reach_incl _ rs); [done |]. by apply (same_reach h1).
Qed.

Lemma same_live h h' rs l : same h h' rs -> reach h rs l -> is_Some (h !! l) -> is_Some (h' !! l).
Proof. intros Hs Hr. by rewrite Hs. Qed.

Lemma liveb_live m l : liveb m l = true <-> live m l.
Proof. unfold liveb, live. destruct (heap m !! l); by split. Qed.

Lemma live_all m ls : (forall l, l ∈ ls -> live m l) -> forallb (liveb m) ls = true.
Proof. intros H. apply forallb_forall. intros l Hl. apply liveb_live, H. by apply list_elem_of_In. Qed.

(** What an operation that runs no R code keeps: all but the stack, the symbols
    and the heap, of which it keeps what is reachable from [rs]. *)
Record kept (rs : list loc) (m m' : Mem) : Prop := {
  kept_wf : wf m';
  kept_stack : pp_stack m' = pp_stack m;
  kept_preserved : preserved m' = preserved m;
  kept_symbols : symbols m ⊆ symbols m';
  kept_next : next m <= next m';
  kept_values : forall l o, heap m !! l = Some o -> live m' l -> heap m' !! l = Some o;
  kept_fresh : forall l, live m' l -> live m l \/ next m <= l;
  kept_env : env m' = env m;
  kept_jv_call : jv_call m' = jv_call m;
  kept_same : same (heap m) (heap m') (roots m ++ rs)
}.

Lemma roots_symbols m m' :
  symbols m ⊆ symbols m' -> pp_stack m ⊆ pp_stack m' -> preserved m ⊆ preserved m' -> roots m ⊆ roots m'.
Proof.
  intros Hy Hs Hp l. unfold roots. rewrite !elem_of_cons, !elem_of_app, !list_elem_of_fmap. intros [? | [? | [? | [(x & -> & Hx) | [? | ?]]]]]; eauto 10.
Qed.

Lemma kept_roots rs m m' : kept rs m m' -> roots m ⊆ roots m'.
Proof. intros []. apply roots_symbols; [done | by rewrite kept_stack0 | by rewrite kept_preserved0]. Qed.

Lemma kept_live rs m m' l : kept rs m m' -> l ∈ roots m ++ rs -> live m l -> live m' l.
Proof. intros K Hl. apply (same_live _ _ _ _ (kept_same _ _ _ K)). by apply reach_root. Qed.

Lemma kept_trans rs rs' m1 m2 m3 :
  wf m1 -> kept rs m1 m2 -> kept rs' m2 m3 -> (forall r, r ∈ rs -> reach (heap m2) (roots m2 ++ rs') r) -> kept rs m1 m3.
Proof.
  intros Hm1 K1 K2 Hr. pose proof (kept_roots _ _ _ K1) as Hi. destruct K1, K2. constructor; try congruence.
  - by trans (symbols m2).
  - lia.
  - intros l o Ho Hl. assert (Hl2 : live m2 l).
    { destruct (kept_fresh1 l Hl) as [? | Hn]; [done |]. specialize (wf_next m1 Hm1 l (mk_is_Some _ _ Ho)). lia. }
    by apply kept_values1; [apply kept_values0 |].
  - intros l Hl. destruct (kept_fresh1 l Hl) as [H2 | H2]; [by apply kept_fresh0 | right; lia].
  - apply (same_trans _ (heap m2) _ _ (roots m2 ++ rs')); [done .. |].
    intros r [H | H]%elem_of_app; [| by apply Hr]. apply reach_root, elem_of_app. left. by apply Hi.
Qed.

Lemma kept_weaken rs rs' m m' : kept rs m m' -> rs' ⊆ rs -> kept rs' m m'.
Proof.
  intros [] Hi. constructor; try done. apply (same_incl _ _ _ (roots m ++ rs)); [| done].
  intros r [H | H]%elem_of_app; apply reach_root, elem_of_app; auto.
Qed.

(** ** The operations *)

Definition returns {A} (c : M A) (m : Mem) (Q : Mem -> A -> Prop) : Prop := exists m' a, c m = (m', Ok a) /\ Q m' a.

Lemma returns_ret {A} (a : A) m (Q : Mem -> A -> Prop) : Q m a -> returns (mret a) m Q.
Proof. intros H. by exists m, a. Qed.

Lemma returns_bind {A B} (c : M A) (k : A -> M B) m (Q : Mem -> B -> Prop) :
  returns c m (fun m' a => returns (k a) m' Q) -> returns (c ≫= k) m Q.
Proof. intros (m' & a & Hc & m2 & b & Hk & H). exists m2, b. split; [| done]. unfold mbind, M_bind. by rewrite Hc. Qed.

Lemma returns_mono {A} (c : M A) m (Q Q' : Mem -> A -> Prop) : returns c m Q -> (forall m' a, Q m' a -> Q' m' a) -> returns c m Q'.
Proof. intros (m' & a & Hc & H) HQ. exists m', a. auto. Qed.

Lemma elem_roots m l :
  l ∈ roots m <-> l = R_NilValue \/ l = R_GlobalEnv \/ l = R_BlankString \/ l ∈ (symbols m).*2 \/ l ∈ pp_stack m \/ l ∈ preserved m.
Proof. unfold roots. by rewrite !elem_of_cons, !elem_of_app. Qed.

Lemma chars_refs o c : c ∈ chars_of o -> c ∈ refs o.
Proof. by destruct o; cbn; intros; try (by apply not_elem_of_nil in H). Qed.

Lemma returns_alloc o m (Q : Mem -> loc -> Prop) :
  wf m -> (forall r, r ∈ refs o -> live m r) -> (forall c, c ∈ chars_of o -> is_char (heap m) c) ->
  (forall m', kept (refs o) m m' -> symbols m' = symbols m -> heap m' !! next m = Some o -> next m' = S (next m) -> Q m' (next m)) ->
  returns (alloc o) m Q.
Proof.
  intros Hm Hr Hch HQ. unfold returns, alloc. rewrite (live_all m (refs o) Hr). eexists _, _. split; [done |].
  set (h := collect (next m) (heap m) (roots m ++ refs o)).
  assert (Hold : forall l, reach (heap m) (roots m ++ refs o) l -> h !! l = heap m !! l) by (intros l Hl; by apply collect_keeps).
  assert (Hnew : h !! next m = None).
  { apply eq_None_not_Some. intros [x Hx]. pose proof (lookup_weaken _ _ _ _ Hx (collect_only _ _ _)) as Hx'.
    specialize (wf_next m Hm (next m) (mk_is_Some _ _ Hx')). lia. }
  assert (Hsame : same (heap m) (<[next m := o]> h) (roots m ++ refs o)).
  { intros l Hl. rewrite lookup_insert_ne; [by apply Hold |]. intros <-. pose proof (Hold _ Hl) as Hx. rewrite Hnew in Hx.
    enough (is_Some (heap m !! next m)) as [y Hy] by congruence.
    assert (Hall : forall x, reach (heap m) (roots m ++ refs o) x -> live m x).
    { induction 1 as [x Hin | x ox r _ IH Ho Hin]; [| by apply (wf_closed m Hm x ox)].
      apply elem_of_app in Hin as [? | ?]; [by apply (wf_roots m Hm) | by apply Hr]. }
    by apply Hall. }
  assert (Hlive : forall l, l ∈ roots m ++ refs o -> is_Some (heap m !! l)).
  { intros l [Hl | Hl]%elem_of_app; [by apply (wf_roots m Hm) | by apply Hr]. }
  assert (Hcl : closed (<[next m := o]> h)).
  { intros l ol Hl r Hrl. destruct (decide (r = next m)) as [-> | Hne]; [rewrite lookup_insert_eq; eauto |].
    rewrite lookup_insert_ne by done. destruct (decide (l = next m)) as [-> | Hl'].
    - rewrite lookup_insert_eq in Hl. simplify_eq. rewrite Hold; [by apply Hr |]. apply reach_root, elem_of_app. auto.
    - rewrite lookup_insert_ne in Hl by done. by apply (collect_closed _ _ _ (wf_closed m Hm) l ol). }
  apply HQ; [| done | by cbn; rewrite lookup_insert_eq | done].
  constructor; cbn; try done; [| lia | |].
  2: { intros l ol Hol [o' Hl]. cbn in *. destruct (decide (l = next m)) as [-> | Hne]; [specialize (wf_next m Hm _ (mk_is_Some _ _ Hol)); lia |].
       rewrite lookup_insert_ne in Hl |- * by done. rewrite Hl. by rewrite (lookup_weaken _ _ _ _ Hl (collect_only _ _ _)) in Hol. }
  2: { intros l [ol Hl]. cbn in Hl. destruct (decide (l = next m)) as [-> | Hne]; [by right |]. left.
       rewrite lookup_insert_ne in Hl by done. exists ol. apply (lookup_weaken _ _ _ _ Hl (collect_only _ _ _)). }
  assert (Hkeep : forall l, reach (heap m) (roots m ++ refs o) l -> is_char (heap m) l -> is_char (<[next m := o]> h) l).
  { intros l Hl [s Hs]. exists s. by rewrite Hsame. }
  constructor; cbn; [done | | | | | | apply (wf_env m Hm) | apply (wf_jv_call m Hm)].
  3: { intros l ol Hl c Hc. destruct (decide (l = next m)) as [-> | Hne].
       - rewrite lookup_insert_eq in Hl. simplify_eq. apply Hkeep; [| by apply Hch]. apply reach_root, elem_of_app. right. by apply chars_refs.
       - rewrite lookup_insert_ne in Hl by done. pose proof (lookup_weaken _ _ _ _ Hl (collect_only _ _ _)) as Hl'.
         destruct (wf_chars m Hm l ol Hl' c Hc) as [s Hs]. exists s.
         destruct (collect_closed (next m) _ (roots m ++ refs o) (wf_closed m Hm) l ol Hl c (chars_refs _ _ Hc)) as [oc Hoc]. fold h in Hoc.
         pose proof (lookup_weaken _ _ _ _ Hoc (collect_only _ _ _)) as Hoc'. rewrite Hs in Hoc'. simplify_eq.
         rewrite lookup_insert_ne; [done |]. intros <-. by rewrite Hnew in Hoc. }
  3: { apply Hkeep; [| apply (wf_blank m Hm)]. apply reach_root, elem_of_app. left. apply elem_roots. tauto. }
  3: { intros n l Hin. destruct (wf_symbols m Hm n l Hin) as [v Hv]. exists v. rewrite Hsame; [done |].
       apply reach_root, elem_of_app. left. apply elem_roots. do 3 right. left. apply list_elem_of_fmap. by exists (n, l). }
  - intros l Hl. unfold live. cbn. rewrite Hsame; [by apply (wf_roots m Hm) |]. apply reach_root, elem_of_app. by left.
  - intros l [ol Hl]. cbn in Hl. destruct (decide (l = next m)) as [-> | Hne]; [lia |]. rewrite lookup_insert_ne in Hl by done.
    pose proof (lookup_weaken _ _ _ _ Hl (collect_only _ _ _)) as Hl'. specialize (wf_next m Hm l (mk_is_Some _ _ Hl')). lia.
Qed.


Definition push (l : loc) (m : Mem) : Mem := set_stack (l :: pp_stack m) m.
Definition pop (n : nat) (m : Mem) : Mem := set_stack (drop n (pp_stack m)) m.

Lemma returns_PROTECT l m (Q : Mem -> unit -> Prop) : live m l -> Q (push l m) tt -> returns (PROTECT l) m Q.
Proof. intros Hl HQ. unfold returns, PROTECT. rewrite (proj2 (liveb_live _ _) Hl). by eexists _, _. Qed.

Lemma returns_UNPROTECT n m (Q : Mem -> unit -> Prop) : n <= length (pp_stack m) -> Q (pop n m) tt -> returns (UNPROTECT n) m Q.
Proof. intros Hl HQ. unfold returns, UNPROTECT. rewrite (proj2 (Nat.leb_le _ _) Hl). by eexists _, _. Qed.

Lemma wf_push l m : wf m -> live m l -> wf (push l m).
Proof.
  intros [] Hl. constructor; try done. intros x. rewrite elem_roots. cbn. rewrite elem_of_cons.
  intros H. destruct (decide (x = l)) as [-> | Hn]; [done |]. apply wf_roots0, elem_roots. naive_solver.
Qed.

Lemma wf_shrink s m : wf m -> s ⊆ pp_stack m -> wf (set_stack s m).
Proof.
  intros [] Hs. constructor; try done. intros x. rewrite elem_roots. cbn. intros H. apply wf_roots0, elem_roots.
  destruct H as [? | [? | [? | [? | [? | ?]]]]]; auto 10.
Qed.

(** What is done between a [PROTECT] and its [UNPROTECT]. *)
Lemma kept_bracket l rs m m' :
  live m l -> kept rs (push l m) m' -> kept (l :: rs) m (pop 1 m').
Proof.
  intros Hl [Hw Hs Hp Hy Hn ? ? He Hj Hk]. cbn in *. constructor; try done.
  - apply wf_shrink; [done |]. rewrite Hs. set_solver.
  - cbn. by rewrite Hs.
  - apply (same_incl _ _ _ (roots (push l m) ++ rs)); [| done]. intros r Hr. apply reach_root. revert Hr.
    rewrite !elem_of_app, elem_of_cons, !elem_roots. cbn. rewrite elem_of_cons. naive_solver.
Qed.

(** ** A call, as R's evaluator reads it *)

Fixpoint list_at (h : Heap) (l : loc) (args : list loc) : Prop :=
  match args with
  | [] => l = R_NilValue
  | a :: rest => exists t, h !! l = Some (LISTSXP a t) /\ list_at h t rest
  end.

Definition call_at (h : Heap) (l head : loc) (args : list loc) : Prop :=
  exists t, h !! l = Some (LANGSXP head t) /\ list_at h t args.

Lemma list_at_reach h args : forall l a, list_at h l args -> a ∈ args -> reach h [l] a.
Proof.
  induction args as [| b args IH]; intros l a Hl Ha; [by apply not_elem_of_nil in Ha |].
  destruct Hl as (t & Hl & Ht). apply elem_of_cons in Ha as [-> | Ha].
  - apply (reach_ref _ _ l (LISTSXP b t)); [by apply reach_root, list_elem_of_singleton | done | cbn; set_solver].
  - apply (reach_incl _ [t]); [| by apply IH]. intros r ->%list_elem_of_singleton.
    apply (reach_ref _ _ l (LISTSXP b t)); [by apply reach_root, list_elem_of_singleton | done | cbn; set_solver].
Qed.

Lemma list_at_same h h' args : forall l, list_at h l args -> same h h' [l] -> list_at h' l args.
Proof.
  induction args as [| a args IH]; intros l Hl Hs; [done |]. destruct Hl as (t & Hl & Ht).
  exists t. split; [rewrite Hs; [done | by apply reach_root, list_elem_of_singleton] |]. apply IH; [done |].
  apply (same_incl _ _ _ [l]); [| done]. intros r ->%list_elem_of_singleton.
  apply (reach_ref _ _ l (LISTSXP a t)); [by apply reach_root, list_elem_of_singleton | done | cbn; set_solver].
Qed.

Lemma list_at_live h l a args : list_at h l (a :: args) -> is_Some (h !! l).
Proof. intros (t & H & _). eauto. Qed.

Lemma reach_root_of m rs l : l ∈ rs -> reach (heap m) (roots m ++ rs) l.
Proof. intros H. apply reach_root, elem_of_app. by right. Qed.

Lemma live_nil m : wf m -> live m R_NilValue.
Proof. intros Hm. apply (wf_roots m Hm). unfold roots. set_solver. Qed.

(** A cell in front of a list that is made while the head is protected. *)
Lemma cell_made (c : loc -> loc -> Data) (head t : loc) (ts : list loc) (m : Mem) :
  (forall a d, refs (c a d) = [a; d]) -> wf m -> live m head ->
  (forall a d, chars_of (c a d) = []) ->
  returns (rPairlist t ts) (push head m) (fun m' l => kept (t :: ts) (push head m) m' /\ list_at (heap m') l (t :: ts)) ->
  returns (PROTECT head ;; rest ← rPairlist t ts; cell ← alloc (c head rest); UNPROTECT 1 ;; mret cell) m
    (fun m' l => kept (head :: t :: ts) m m' /\ exists rest, heap m' !! l = Some (c head rest) /\ list_at (heap m') rest (t :: ts)).
Proof.
  intros Hc Hm Hh Hch Hr. apply returns_bind, returns_PROTECT; [done |]. apply returns_bind.
  eapply returns_mono; [exact Hr |]. intros m2 rest [K Hl]. cbv beta. apply returns_bind.
  assert (Hh2 : live m2 head) by (apply (kept_live _ _ _ _ K); [rewrite elem_of_app, elem_roots; cbn; set_solver | done]).
  apply returns_alloc; rewrite ?Hc, ?Hch; [apply (kept_wf _ _ _ K) | | by intros ? ?%not_elem_of_nil |].
  { intros r [-> | ->%list_elem_of_singleton]%elem_of_cons; [done |]. by apply (list_at_live _ _ t ts). }
  intros m3 K3 _ Hl3 _. apply returns_bind.
  assert (Ks : kept (t :: ts) (push head m) m3).
  { refine (kept_trans _ [head; rest] _ m2 _ (wf_push _ _ Hm Hh) K K3 _). intros r Hr'.
    apply (reach_incl _ [rest]); [intros x ->%list_elem_of_singleton; apply reach_root_of; set_solver |].
    by apply (list_at_reach _ (t :: ts)). }
  apply returns_UNPROTECT; [rewrite (kept_stack _ _ _ Ks); cbn; lia |]. apply returns_ret. split; [by apply kept_bracket |].
  exists rest. split; [done |]. apply (list_at_same (heap m2)); [done |].
  apply (same_incl _ _ _ (roots m2 ++ [head; rest])); [| apply (kept_same _ _ _ K3)].
  intros r ->%list_elem_of_singleton. apply reach_root_of. set_solver.
Qed.

Lemma last_cell_made (c : loc -> loc -> Data) (head : loc) (m : Mem) :
  (forall a d, refs (c a d) = [a; d]) -> wf m -> live m head -> (forall a d, chars_of (c a d) = []) ->
  returns (alloc (c head R_NilValue)) m (fun m' l => kept [head] m m' /\ heap m' !! l = Some (c head R_NilValue)).
Proof.
  intros Hc Hm Hh Hch. apply returns_alloc; rewrite ?Hc, ?Hch; [done | | by intros ? ?%not_elem_of_nil |].
  - intros r [-> | ->%list_elem_of_singleton]%elem_of_cons; [done | by apply live_nil].
  - intros m' K _ Hl _. split; [apply (kept_weaken _ _ _ _ K); set_solver | done].
Qed.

Lemma rPairlist_made tail : forall head m,
  wf m -> live m head -> (forall a, a ∈ tail -> live m a) ->
  returns (rPairlist head tail) m (fun m' l => kept (head :: tail) m m' /\ list_at (heap m') l (head :: tail)).
Proof.
  induction tail as [| t ts IH]; intros head m Hm Hh Ht; cbn [rPairlist].
  - eapply returns_mono; [by apply (last_cell_made LISTSXP) |]. intros m' l [K Hl]. split; [done | by exists R_NilValue].
  - eapply returns_mono; [apply (cell_made LISTSXP); [done .. |] |].
    + apply (IH t (push head m)); [by apply wf_push | apply Ht; set_solver | intros a Ha; apply Ht; set_solver].
    + by intros m' l [K Hl].
Qed.

(** Whatever the collector frees, the call is made of its arguments, which
    nobody else need protect, and nothing that was reachable is changed. *)
Lemma rCall_made (head : loc) (tail : list loc) (m : Mem) :
  wf m -> live m head -> (forall a, a ∈ tail -> live m a) ->
  returns (rCall head tail) m (fun m' l => kept (head :: tail) m m' /\ call_at (heap m') l head tail).
Proof.
  intros Hm Hh Ht. destruct tail as [| t ts]; cbn [rCall].
  - eapply returns_mono; [by apply (last_cell_made LANGSXP) |]. intros m' l [K Hl]. split; [done | by exists R_NilValue].
  - eapply returns_mono; [apply (cell_made LANGSXP); [done .. |] |].
    + apply (rPairlist_made ts t (push head m)); [by apply wf_push | apply Ht; set_solver | intros a Ha; apply Ht; set_solver].
    + by intros m' l [K Hl].
Qed.


Definition string_at (h : Heap) (l : loc) (text : str) : Prop := exists c, h !! l = Some (STRSXP [c]) /\ h !! c = Some (CHARSXP text).

Lemma string_at_same h h' l text : string_at h l text -> same h h' [l] -> string_at h' l text.
Proof.
  intros (c & Hl & Hc) Hs. exists c. rewrite !Hs; [done | | by apply reach_root, list_elem_of_singleton].
  apply (reach_ref _ _ l (STRSXP [c])); [by apply reach_root, list_elem_of_singleton | done | cbn; set_solver].
Qed.

Lemma kept_refl m : wf m -> kept [] m m.
Proof. constructor; auto. done. Qed.

Lemma Rf_mkString_made text m :
  wf m -> returns (Rf_mkString text) m (fun m' l => kept [] m m' /\ string_at (heap m') l text).
Proof.
  intros Hm. apply returns_bind, returns_alloc; [done | by intros ? ?%not_elem_of_nil .. |]. intros m1 K1 _ H1 _.
  apply returns_alloc; [apply (kept_wf _ _ _ K1) | | |].
  - cbn. intros r ->%list_elem_of_singleton. by eexists.
  - cbn. intros r ->%list_elem_of_singleton. by eexists.
  - intros m2 K2 _ H2 _. cbn [refs] in *. split; [apply (kept_trans _ [next m] _ m1); [done .. | set_solver] |].
    exists (next m). split; [done |]. rewrite (kept_same _ _ _ K2); [done |]. apply reach_root_of. set_solver.
Qed.

Lemma find_symbol_in name ss l : find_symbol name ss = Some l -> (name, l) ∈ ss.
Proof.
  induction ss as [| [n x] ss IH]; cbn; [done |]. destruct (str_eqb n name) eqn:E.
  - intros [= ->]. apply str_eqb_eq in E as ->. apply elem_of_cons. by left.
  - intros H. apply elem_of_cons. right. by apply IH.
Qed.

(** A symbol is the one there is, or a new one. *)
Lemma Rf_install_made name m :
  wf m -> returns (Rf_install name) m (fun m' l => kept [] m m' /\ (name, l) ∈ symbols m' /\ exists v, heap m' !! l = Some (SYMSXP name v)).
Proof.
  intros Hm. unfold returns, Rf_install. destruct (find_symbol name (symbols m)) as [l |] eqn:Hf.
  - eexists _, _. split; [done |]. pose proof (find_symbol_in _ _ _ Hf) as Hin. split; [by apply kept_refl |]. split; [done |].
    by apply (wf_symbols m Hm).
  - apply returns_bind, returns_alloc; [done | | by intros ? ?%not_elem_of_nil |].
    { cbn. intros r ->%list_elem_of_singleton. by apply live_nil. }
    intros m' K Hsym Hl _. eexists _, _. split; [done |].
    assert (Hw : wf (set_symbols ((name, next m) :: symbols m') m')).
    { destruct (kept_wf _ _ _ K). constructor; cbn; auto.
      - intros l Hr. destruct (decide (l = next m)) as [-> | Hn]; [by eexists |]. apply wf_roots0, elem_roots.
        apply elem_roots in Hr. cbn in Hr. rewrite elem_of_cons in Hr. tauto.
      - intros n l [[= -> ->] | Hin]%elem_of_cons; [by eexists | by apply wf_symbols0]. }
    destruct K. split; [| split; [cbn; apply elem_of_cons; by left | by eexists]].
    constructor; cbn; auto.
    + intros x Hx. apply elem_of_cons. right. by apply kept_symbols0.
    + apply (same_incl _ _ _ (roots m ++ refs (SYMSXP name R_NilValue))); [| done]. intros r Hr. apply reach_root.
      apply elem_of_app. left. by rewrite app_nil_r in Hr.
Qed.

Lemma returns_SETCDR s name u v m (Q : Mem -> unit -> Prop) :
  wf m -> heap m !! s = Some (SYMSXP name u) -> live m v ->
  (forall m', ran m m' -> symbols m' = symbols m -> heap m' !! s = Some (SYMSXP name v) -> Q m' tt) -> returns (SETCDR s v) m Q.
Proof.
  intros Hm Hs [o Ho] HQ. unfold returns, SETCDR, use, mbind, M_bind. rewrite Hs, Ho. eexists _, _. split; [done |].
  set (h := <[s := SYMSXP name v]> (heap m)).
  assert (Heq : h !! s = Some (SYMSXP name v)) by apply lookup_insert_eq.
  assert (Hne : forall l, l <> s -> h !! l = heap m !! l) by (intros l Hl; by apply lookup_insert_ne).
  assert (Hl : forall l, live m l -> is_Some (h !! l)).
  { intros l H. destruct (decide (l = s)) as [-> | Hn]; [by eexists | by rewrite Hne]. }
  assert (Hb : forall l, is_Some (h !! l) -> live m l).
  { intros l H. destruct (decide (l = s)) as [-> | Hn]; [by eexists | by rewrite Hne in H]. }
  apply HQ; [| done | done]. constructor; cbn; auto.
  - destruct Hm. constructor; cbn; auto.
    + intros l ol Hol r Hr. apply Hl. destruct (decide (l = s)) as [-> | Hn].
      * rewrite Heq in Hol. simplify_eq. cbn in Hr. apply list_elem_of_singleton in Hr as ->. by eexists.
      * rewrite Hne in Hol by done. by apply (wf_closed0 l ol).
    + intros l Hr. apply Hl. by apply wf_roots0.
    + intros l ol Hol c Hc. destruct (decide (l = s)) as [-> | Hn]; [rewrite Heq in Hol; simplify_eq; by apply not_elem_of_nil in Hc |].
      rewrite Hne in Hol by done. destruct (wf_chars0 l ol Hol c Hc) as [t Ht]. exists t. rewrite Hne; [done | congruence].
    + destruct wf_blank0 as [t Ht]. exists t. rewrite Hne; [done | congruence].
    + intros n l Hin. destruct (wf_symbols0 n l Hin) as [w Hw]. destruct (decide (l = s)) as [-> | Hn].
      * exists v. rewrite Heq. congruence.
      * exists w. by rewrite Hne.
  - intros l ol Hol Hv _. rewrite Hne; [done |]. intros ->. rewrite Hs in Hol. by simplify_eq.
Qed.

(** ** Runs of R's code, and what the C code holds through them *)

Lemma ran_refl m : wf m -> ran m m.
Proof. constructor; auto. Qed.

Lemma kept_ran rs m m' : kept rs m m' -> ran m m'.
Proof. intros []. constructor; auto. - by rewrite kept_preserved0. - by rewrite kept_jv_call0. Qed.

Lemma ran_trans m1 m2 m3 : (forall l, live m1 l -> l < next m1) -> ran m1 m2 -> ran m2 m3 -> ran m1 m3.
Proof.
  intros Hn [] []. constructor; try done; try congruence.
  - by trans (preserved m2).
  - by trans (symbols m2).
  - lia.
  - intros l o Ho Hv Hl. assert (Hl2 : live m2 l).
    { destruct (ran_fresh1 l Hl) as [? | H]; [done |]. specialize (Hn l (mk_is_Some _ _ Ho)). lia. }
    apply ran_values1; [by apply ran_values0 | done | done].
  - intros l Hl. destruct (ran_fresh1 l Hl) as [H | H]; [by apply ran_fresh0 | right; lia].
  - intros H. rewrite ran_env1; [by apply ran_env0 | by rewrite ran_env0].
  - by trans (jv_call m2).
Qed.

(** [m'] comes after [m], with [ls] protected besides (the last first). *)
Definition holds (ls : list loc) (m m' : Mem) : Prop := ran (set_stack (ls ++ pp_stack m) m) m'.

Lemma holds_refl m : wf m -> holds [] m m.
Proof. intros Hm. unfold holds. constructor; auto. Qed.

Lemma holds_step ls m m1 m2 : wf m -> holds ls m m1 -> ran m1 m2 -> holds ls m m2.
Proof. intros Hm H1 H2. refine (ran_trans _ m1 _ _ H1 H2). intros l Hl. by apply (wf_next m Hm). Qed.

Lemma holds_push ls m m' l : holds ls m m' -> live m' l -> holds (l :: ls) m (push l m').
Proof. intros [] Hl. constructor; auto; cbn in *. - by apply wf_push. - by rewrite ran_stack0. Qed.

Lemma holds_pop ls ls' m m' : holds (ls ++ ls') m m' -> holds ls' m (pop (length ls) m').
Proof.
  intros []. cbn in *. assert (Hd : drop (length ls) (pp_stack m') = ls' ++ pp_stack m).
  { rewrite ran_stack0, <- app_assoc. by rewrite drop_app_length. }
  constructor; auto; cbn.
  apply wf_shrink; [done |]. intros x Hx. rewrite Hd in Hx. rewrite ran_stack0, <- app_assoc. apply elem_of_app. by right.
Qed.

Lemma holds_ran m m' : holds [] m m' -> ran m m'.
Proof. intros []. constructor; auto. Qed.

Lemma holds_wf ls m m' : holds ls m m' -> wf m'.
Proof. apply ran_wf. Qed.

Lemma holds_stack ls m m' : holds ls m m' -> pp_stack m' = ls ++ pp_stack m.
Proof. apply ran_stack. Qed.

Lemma returns_UNPROTECT_held {A} ls ls' (k : M A) m m' (Q : Mem -> A -> Prop) :
  holds (ls ++ ls') m m' -> (holds ls' m (pop (length ls) m') -> returns k (pop (length ls) m') Q) ->
  returns (UNPROTECT (length ls) ;; k) m' Q.
Proof.
  intros H HQ. apply returns_bind, returns_UNPROTECT; [rewrite (holds_stack _ _ _ H), !length_app; lia |]. by apply HQ, holds_pop.
Qed.

Lemma ran_roots m m' : ran m m' -> roots m ⊆ roots m'.
Proof. intros []. apply roots_symbols; [done | by rewrite ran_stack0 | done]. Qed.

Lemma ran_value m m' l o : ran m m' -> l ∈ roots m -> heap m !! l = Some o -> is_value o = true -> heap m' !! l = Some o.
Proof. intros Hr Hl Ho Hv. apply (ran_values _ _ Hr); [done .. |]. apply (wf_roots _ (ran_wf _ _ Hr)). by apply (ran_roots m). Qed.

Definition strings_at (h : Heap) (l : loc) (texts : list str) : Prop :=
  exists cs, h !! l = Some (STRSXP cs) /\ Forall2 (fun c s => h !! c = Some (CHARSXP s)) cs texts.

Lemma ran_strings m m' l texts : ran m m' -> l ∈ roots m -> strings_at (heap m) l texts -> strings_at (heap m') l texts.
Proof.
  intros Hr Hl (cs & Hc & Ht). pose proof (ran_value _ _ _ _ Hr Hl Hc eq_refl) as Hc'. exists cs. split; [done |].
  assert (Hcs : forall c, c ∈ cs -> live m' c) by (intros c Hin; by apply (wf_closed _ (ran_wf _ _ Hr) l (STRSXP cs))).
  clear Hc Hc'. induction Ht as [| c s cs texts Hs Ht IH]; [constructor |]. constructor.
  - apply (ran_values _ _ Hr); [done | done | apply Hcs; set_solver].
  - apply IH. intros c' Hin. apply Hcs. set_solver.
Qed.

Lemma ran_string m m' l text : ran m m' -> l ∈ roots m -> string_at (heap m) l text -> string_at (heap m') l text.
Proof.
  intros Hr Hl (c & Hc & Ht). destruct (ran_strings m m' l [text] Hr Hl) as (cs & Hcs & Hf).
  - exists [c]. split; [done |]. by constructor; [| constructor].
  - inversion Hf as [| c' s' cs' ? Hc' Hnil]; subst. inversion Hnil; subst. by exists c'.
Qed.

Lemma returns_tryEval m e (Q : Mem -> option loc -> Prop) :
  wf m -> reach (heap m) (roots m) e -> live m e ->
  (forall m' v, R_tryEval_ m e = (m', v) -> ran m m' -> (forall x, v = Some x -> live m' x) -> Q m' v) -> returns (R_tryEval e) m Q.
Proof.
  intros Hm Hr Hl HQ. pose proof (tryEval_ran m e Hm Hr) as H1. pose proof (fun x => tryEval_value m e x Hm Hr) as H2.
  unfold returns, R_tryEval. rewrite (proj2 (liveb_live m e) Hl). destruct (R_tryEval_ m e) as [m' v] eqn:He. eexists _, _.
  split; [done |]. apply HQ; [done .. |]. intros x ->. by apply H2.
Qed.

Lemma returns_parse m e (Q : Mem -> option loc -> Prop) :
  wf m -> e ∈ roots m ->
  (forall m' v, R_ParseVector_ m e = (m', v) -> ran m m' -> (forall x, v = Some x -> exists es, heap m' !! x = Some (VECSXP es)) -> Q m' v) ->
  returns (R_ParseVector e) m Q.
Proof.
  intros Hm Hr HQ. assert (Hre : reach (heap m) (roots m) e) by by apply reach_root.
  pose proof (parse_ran m e Hm Hre) as H1. pose proof (fun x => parse_value m e x Hm Hre) as H2.
  unfold returns, R_ParseVector. rewrite (proj2 (liveb_live m e) (wf_roots m Hm e Hr)).
  destruct (R_ParseVector_ m e) as [m' v] eqn:He. eexists _, _. split; [done |]. apply HQ; [done .. |]. intros x ->. by apply H2.
Qed.

(** ** A call of the kernel's R code *)

(** The memory R evaluates a call in: [call] is [jv(f, args...)], protected,
    and nothing that was reachable is changed. *)
Record calling (m m1 : Mem) (call jv : loc) (f : str) (args : list loc) : Prop := {
  calling_wf : wf m1;
  calling_stack : pp_stack m1 = call :: pp_stack m;
  calling_holds : holds [call] m m1;
  calling_same : same (heap m) (heap m1) (roots m);
  calling_call : exists name, call_at (heap m1) call jv (name :: args) /\ string_at (heap m1) name f
}.

Definition answered {A} (r : Mem * result A) (m m2 : Mem) (a : result A) : Prop := r = (m2, a) /\ wf m2 /\ pp_stack m2 = pp_stack m.

Lemma ran_pop m0 m1 m2 call s : ran m1 m2 -> pp_stack m1 = call :: s -> pp_stack m0 = s -> wf (pop 1 m2) /\ pp_stack (pop 1 m2) = pp_stack m0.
Proof.
  intros Hr H1 H0. assert (H2 : pp_stack m2 = call :: s) by (rewrite (ran_stack _ _ Hr); done). unfold pop.
  split; [apply wf_shrink; [apply (ran_wf _ _ Hr) |]; rewrite H2; set_solver | cbn; rewrite H2, H0; done].
Qed.

Ltac inn := rewrite ?elem_of_app, ?elem_of_cons, ?list_elem_of_singleton; tauto.

Lemma kept_nil_roots m m' : kept [] m m' -> same (heap m) (heap m') (roots m).
Proof. intros K. pose proof (kept_same _ _ _ K) as H. by rewrite app_nil_r in H. Qed.

Lemma kept_same_of rs rs' m m' : kept rs m m' -> rs' ⊆ roots m ++ rs -> same (heap m) (heap m') rs'.
Proof. intros K Hi. apply (same_incl _ _ _ (roots m ++ rs)); [| apply (kept_same _ _ _ K)]. intros r Hr. by apply reach_root, Hi. Qed.

(** The call is made, of arguments its caller protects. *)
Lemma call_built (f : str) (args : list loc) (jv : loc) (m : Mem) :
  wf m -> jv ∈ roots m -> (forall a, a ∈ args -> a ∈ roots m) ->
  returns (name ← Rf_mkString f; call ← rCall jv (name :: args); PROTECT call ;; mret call) m (fun m1 call => calling m m1 call jv f args).
Proof.
  intros Hm Hjv Ha. apply returns_bind.
  eapply returns_mono; [by apply Rf_mkString_made |]. intros ma name [Ka Hn]. cbv beta.
  assert (Hin : forall l, l ∈ roots m -> live ma l).
  { intros l Hl. apply (kept_live _ _ _ _ Ka); [inn | by apply (wf_roots m Hm)]. }
  apply returns_bind. eapply returns_mono; [apply (rCall_made jv (name :: args) ma) |].
  { apply (kept_wf _ _ _ Ka). }
  { by apply Hin. }
  { intros a [-> | Hx]%elem_of_cons; [destruct Hn as (c & Hn & _); by eexists | by apply Hin, Ha]. }
  intros mb call [Kb Hc]. cbv beta. assert (Hlive : live mb call) by (destruct Hc as (t & Ht & _); by eexists).
  apply returns_bind, returns_PROTECT; [done |]. apply returns_ret. constructor.
  - apply wf_push; [apply (kept_wf _ _ _ Kb) | done].
  - cbn. by rewrite (kept_stack _ _ _ Kb), (kept_stack _ _ _ Ka).
  - apply holds_push; [| done]. apply (holds_step _ m ma); [done | | apply (kept_ran _ _ _ Kb)].
    apply (holds_step _ m m); [done | by apply holds_refl | apply (kept_ran _ _ _ Ka)].
  - apply (same_trans _ (heap ma) _ _ (roots ma ++ jv :: name :: args)); [by apply kept_nil_roots | apply (kept_same _ _ _ Kb) |].
    intros r Hr. apply reach_root, elem_of_app. left. by apply (kept_roots _ _ _ Ka).
  - exists name. split; [done |]. apply (string_at_same (heap ma)); [done |].
    apply (kept_same_of _ _ _ _ Kb). intros r ->%list_elem_of_singleton. inn.
Qed.

(** The protected call evaluated. *)
Lemma call_evaluated (m m1 : Mem) (call : loc) (s : list loc) :
  wf m1 -> pp_stack m1 = call :: s -> forall m2 v, R_tryEval_ m1 call = (m2, v) ->
  R_tryEval call m1 = (m2, Ok v) /\ UNPROTECT 1 m2 = (pop 1 m2, Ok tt) /\ wf (pop 1 m2) /\ pp_stack (pop 1 m2) = s
  /\ forall x, v = Some x -> live (pop 1 m2) x.
Proof.
  intros Hw Hs m2 v He. assert (Hr : call ∈ roots m1) by (apply elem_roots; rewrite Hs; inn).
  assert (Hreach : reach (heap m1) (roots m1) call) by by apply reach_root.
  pose proof (tryEval_ran _ _ Hw Hreach) as Hran. rewrite He in Hran. cbn in Hran.
  assert (H2 : pp_stack m2 = call :: s) by (by rewrite (ran_stack _ _ Hran)).
  unfold R_tryEval, UNPROTECT. rewrite (proj2 (liveb_live m1 call) (wf_roots _ Hw _ Hr)), He, H2.
  split; [done |]. split; [unfold pop; by rewrite H2 |]. split; [| split].
  - apply wf_shrink; [apply (ran_wf _ _ Hran) |]. rewrite H2. intros x Hx. cbn in Hx. inn.
  - cbn. by rewrite H2.
  - intros x ->. pose proof (tryEval_value _ _ x Hw Hreach) as Hl. rewrite He in Hl. by apply Hl.
Qed.

Lemma bind_assoc {A B C} (c : M A) (k : A -> M B) (k' : B -> M C) m : ((c ≫= k) ≫= k') m = (c ≫= fun a => k a ≫= k') m.
Proof. unfold mbind, M_bind. by destruct (c m) as [m' []]. Qed.

Lemma bind_ok {A B} (c : M A) (k : A -> M B) m m' a : c m = (m', Ok a) -> (c ≫= k) m = k a m'.
Proof. intros H. unfold mbind, M_bind. by rewrite H. Qed.

Lemma invokeHeraFn_called (left_first : bool) (f : str) (args : list loc) (jv : loc) (m : Mem) :
  wf m -> jv_call m !! length args = Some jv -> (forall a, a ∈ args -> a ∈ pp_stack m) ->
  exists m1 call, calling m m1 call jv f args /\
    let (m2, v) := R_tryEval_ m1 call in
    answered (invokeHeraFn left_first f args m) m (pop 1 m2)
      (match v with Some v => Ok v | None => Throw (failed f (R_curErrorBuf (pop 1 m2))) end)
    /\ forall x, v = Some x -> live (pop 1 m2) x.
Proof.
  intros Hm Hjv Ha.
  assert (Hj : jv ∈ roots m) by (apply elem_roots; pose proof (wf_jv_call m Hm _ _ Hjv); tauto).
  destruct (call_built f args jv m Hm Hj) as (m1 & call & Hb & C).
  { intros a Hx. apply elem_roots. specialize (Ha a Hx). tauto. }
  exists m1, call. split; [done |]. destruct (R_tryEval_ m1 call) as [m2 v] eqn:He.
  destruct (call_evaluated m m1 call (pp_stack m) (calling_wf _ _ _ _ _ _ C) (calling_stack _ _ _ _ _ _ C) m2 v He) as (Ht & Hu & Hw & Hs & Hv).
  split; [| done]. split; [| done].
  assert (Hinv : invokeHeraFn left_first f args m
    = ((name ← Rf_mkString f; call ← rCall jv (name :: args); PROTECT call ;; mret call) ≫= fun call =>
       result ← R_tryEval call; UNPROTECT 1 ;; match result with Some v => mret v | None => m ← get; throw (failed f (R_curErrorBuf m)) end) m).
  { unfold invokeHeraFn, find_jv_call. rewrite (bind_ok _ _ _ m jv); [| by rewrite (bind_ok get _ m m m), Hjv].
    unfold mbind, M_bind, mret, M_ret. destruct (Rf_mkString f m) as [? [name | |]]; [| done ..].
    destruct (rCall jv (name :: args) _) as [? [c | |]]; [| done ..]. by destruct (PROTECT c _) as [? []]. }
  rewrite Hinv, (bind_ok _ _ _ _ _ Hb), (bind_ok _ _ _ _ _ Ht), (bind_ok _ _ _ _ _ Hu). by destruct v.
Qed.


End RHeap.

(** ** Sample runtimes *)
Module Toy.
Definition elem (l : loc) (ls : list loc) : bool := existsb (Nat.eqb l) ls.

Lemma elem_spec l ls : elem l ls = true <-> l ∈ ls.
Proof.
  unfold elem. rewrite existsb_exists, list_elem_of_In. split.
  - by intros (x & Hx & ->%Nat.eqb_eq).
  - intros H. exists l. split; [done | by apply Nat.eqb_eq].
Qed.

(** One round of marking, and as many as there are objects. *)
Definition mark (h : Heap) (ls : list loc) : list loc :=
  fold_left (fun acc r => if elem r acc then acc else r :: acc) (ls ≫= fun l => match h !! l with Some o => refs o | None => [] end) ls.
Definition marked (h : Heap) (rs : list loc) : list loc := Nat.iter (size h) (mark h) rs.

(** Frees everything that cannot be reached, at every allocation
    ([gctorture()]); the marking is checked before it is used. *)
Definition torture (t : loc) (h : Heap) (rs : list loc) : Heap :=
  let ls := marked h rs in
  if forallb (fun r => elem r ls) rs && forallb (fun l => match h !! l with Some o => forallb (fun r => elem r ls) (refs o) | None => true end) ls
  then filter (fun kv => elem kv.1 ls = true) h else h.

Lemma torture_keeps t h rs l : reach h rs l -> torture t h rs !! l = h !! l.
Proof.
  intros Hl. unfold torture. destruct (forallb _ rs && forallb _ _) eqn:Hc; [| done].
  apply andb_true_iff in Hc as [H1 H2]. rewrite forallb_forall in H1, H2.
  assert (Hin : elem l (marked h rs) = true).
  { induction Hl as [l Hl | l o r _ IH Ho Hr]; [by apply H1, list_elem_of_In |].
    apply elem_spec, list_elem_of_In in IH. specialize (H2 l IH). rewrite Ho in H2. rewrite forallb_forall in H2. by apply H2, list_elem_of_In. }
  destruct (h !! l) as [o |] eqn:Ho; [by apply map_lookup_filter_Some_2 |]. apply map_lookup_filter_None. by left.
Qed.

Lemma torture_only t h rs : torture t h rs ⊆ h.
Proof. unfold torture. destruct (_ && _); [apply map_filter_subseteq | done]. Qed.

Lemma torture_closed t h rs : closed h -> closed (torture t h rs).
Proof.
  intros Hh. unfold torture. destruct (forallb _ rs && forallb _ _) eqn:Hc; [| done].
  apply andb_true_iff in Hc as [_ H2]. rewrite forallb_forall in H2.
  intros l o [Ho Hl]%map_lookup_filter_Some r Hr. destruct (Hh l o Ho r Hr) as [o' Ho']. exists o'.
  apply map_lookup_filter_Some_2; [done |]. cbn in *. apply elem_spec, list_elem_of_In in Hl. specialize (H2 l Hl). rewrite Ho in H2.
  rewrite forallb_forall in H2. by apply H2, list_elem_of_In.
Qed.

(** A small R: the environment and the functions looked up are one object,
    a call of it is the value NULL, other objects are their own values; a
    text parses as itself, twice, and "bad" is an error. *)
Definition text_of (m : Mem) (l : loc) : str :=
  match heap m !! l with
  | Some (STRSXP [c]) => match heap m !! c with Some (CHARSXP s) => s | _ => [] end
  | _ => []
  end.

Definition bad : str := "bad"%string.

Definition tryEval (m : Mem) (e : loc) : Mem * option loc :=
  (m, match heap m !! e with
      | Some (LANGSXP f args) =>
          if f =? R_GlobalEnv then
            match heap m !! args with
            | Some (LISTSXP name _) => if str_eqb (text_of m name) bad then None else Some R_NilValue
            | _ => Some R_NilValue
            end
          else Some R_GlobalEnv
      | Some _ => if str_eqb (text_of m e) bad then None else Some e
      | None => None
      end).

Definition parse (m : Mem) (e : loc) : Mem * option loc :=
  if liveb m e then (set_next (S (next m)) (set_heap (<[next m := VECSXP [e; e]]> (heap m)) m), Some (next m)) else (m, None).

Lemma live_reach m l : wf m -> reach (heap m) (roots m) l -> live m l.
Proof. intros Hm. induction 1 as [l Hl | l o r _ IH Ho Hr]; [by apply (wf_roots m Hm) | by apply (wf_closed m Hm l o)]. Qed.

Lemma tryEval_toy m e v : wf m -> reach (heap m) (roots m) e -> (tryEval m e).2 = Some v -> live (tryEval m e).1 v.
Proof.
  intros Hm He Hv. unfold tryEval in Hv. cbn in *. destruct (live_reach m e Hm He) as [o Ho]. rewrite Ho in Hv.
  assert (Hg : live m R_GlobalEnv) by (apply (wf_roots m Hm), elem_roots; tauto).
  pose proof (live_nil m Hm) as Hn. unfold live in *. destruct o; repeat case_match; simplify_eq; eauto.
Qed.

Lemma parse_fresh m : wf m -> heap m !! next m = None.
Proof. intros Hm. apply eq_None_not_Some. intros H. pose proof (wf_next m Hm (next m) H). lia. Qed.

Lemma parse_toy m e : wf m -> reach (heap m) (roots m) e -> ran m (parse m e).1.
Proof.
  intros Hm He. unfold parse. case_match; [| by apply ran_refl]. pose proof (parse_fresh m Hm) as Hf.
  pose proof (live_reach m e Hm He) as Hl.
  assert (Hold : forall l, live m l -> <[next m := VECSXP [e; e]]> (heap m) !! l = heap m !! l).
  { intros l Hll. apply lookup_insert_ne. intros <-. unfold live in Hll. rewrite Hf in Hll. by destruct Hll. }
  constructor; cbn; try done; [| lia | |].
  - constructor; cbn; [| | | | | | apply (wf_env m Hm) | apply (wf_jv_call m Hm)].
    6: { intros n l Hin. destruct (wf_symbols m Hm n l Hin) as [v Hv]. exists v. rewrite Hold; [done | by eexists]. }
    4: { intros l o Ho c Hc. assert (Hl' : heap m !! l = Some o).
         { destruct (decide (l = next m)) as [-> | Hn]; [rewrite lookup_insert_eq in Ho; simplify_eq; by apply not_elem_of_nil in Hc |].
           by rewrite lookup_insert_ne in Ho. }
         destruct (wf_chars m Hm l o Hl' c Hc) as [s Hs]. exists s. rewrite Hold; [done | by eexists]. }
    4: { destruct (wf_blank m Hm) as [s Hs]. exists s. rewrite Hold; [done | by eexists]. }
    + intros l o Ho r Hr. assert (Hlr : live m r).
      { destruct (decide (l = next m)) as [-> | Hn].
        - rewrite lookup_insert_eq in Ho. simplify_eq. cbn in Hr. apply elem_of_cons in Hr as [-> | ->%list_elem_of_singleton]; done.
        - rewrite lookup_insert_ne in Ho by done. by apply (wf_closed m Hm l o). }
      by rewrite Hold.
    + intros l Hr. unfold live. cbn. pose proof (wf_roots m Hm l Hr) as Hlv. by rewrite Hold.
    + intros l [o Ho]. cbn in Ho. destruct (decide (l = next m)) as [-> | Hn]; [lia |]. rewrite lookup_insert_ne in Ho by done.
      specialize (wf_next m Hm l (mk_is_Some _ _ Ho)). lia.
  - intros l o Ho _ _. rewrite Hold; [done | by eexists].
  - intros l [o Ho]. cbn in Ho. destruct (decide (l = next m)) as [-> | Hn]; [by right |].
    rewrite lookup_insert_ne in Ho by done. left. by eexists.
Qed.

Lemma parse_value_toy m e v : wf m -> reach (heap m) (roots m) e -> (parse m e).2 = Some v ->
  exists es, heap (parse m e).1 !! v = Some (VECSXP es).
Proof. intros _ _. unfold parse. case_match; [| done]. intros [= <-]. cbn. rewrite lookup_insert_eq. eauto. Qed.

Definition no_text : str := "there is no package called 'x'"%string.

Definition gentle : RRuntime :=
  {| collect := fun _ h _ => h; collect_keeps := fun _ _ _ _ _ => eq_refl; collect_only := fun _ h _ => reflexivity h;
     collect_closed := fun _ _ _ H => H; R_tryEval_ := tryEval; R_ParseVector_ := parse; R_curErrorBuf := fun _ => no_text;
     tryEval_ran := fun m e Hm _ => ran_refl m Hm; tryEval_value := tryEval_toy; parse_ran := parse_toy; parse_value := parse_value_toy |}.

Definition harsh : RRuntime :=
  {| collect := torture; collect_keeps := torture_keeps; collect_only := torture_only;
     collect_closed := torture_closed; R_tryEval_ := tryEval; R_ParseVector_ := parse; R_curErrorBuf := fun _ => no_text;
     tryEval_ran := fun m e Hm _ => ran_refl m Hm; tryEval_value := tryEval_toy; parse_ran := parse_toy; parse_value := parse_value_toy |}.

(** R as it starts: NULL, the global environment, the empty string, the
    symbols of base and two objects of ours that are protected. *)
Definition started : Mem :=
  {| heap := list_to_map [(0, NILSXP); (1, Own []); (2, CHARSXP []); (3, SYMSXP s_colons 0); (4, SYMSXP s_base 0);
                          (5, SYMSXP s_as_environment 0); (6, SYMSXP s_get0 0); (7, CHARSXP bad); (8, STRSXP [7]); (9, INTSXP [4%Z])];
     next := 10; pp_stack := [9; 8]; preserved := []; symbols := [(s_colons, 3); (s_base, 4); (s_as_environment, 5); (s_get0, 6)];
     env := R_NilValue; jv_call := ∅ |}.

(** ... and when [.jv.call] has been found for two arguments. *)
Definition loaded : Mem := set_jv_call 2 1 (set_env 1 (set_preserved [1] started)).

Definition charb (m : Mem) (l : loc) : bool := match heap m !! l with Some (CHARSXP _) => true | _ => false end.

Lemma charb_char m l : charb m l = true -> is_char (heap m) l.
Proof. unfold charb, is_char. destruct (heap m !! l) as [[] |]; eauto; done. Qed.

Definition symbolb (m : Mem) (nl : str * loc) : bool :=
  match heap m !! nl.2 with Some (SYMSXP n _) => str_eqb n nl.1 | _ => false end.

Definition wfb (m : Mem) : bool :=
  forallb (fun kv => forallb (liveb m) (refs kv.2)) (map_to_list (heap m)) && forallb (liveb m) (roots m)
  && forallb (fun kv => Nat.ltb kv.1 (next m)) (map_to_list (heap m))
  && forallb (fun kv => forallb (charb m) (chars_of kv.2)) (map_to_list (heap m)) && charb m R_BlankString && forallb (symbolb m) (symbols m) && ((env m =? R_NilValue) || elem (env m) (preserved m))
  && forallb (fun kv => elem kv.2 (preserved m)) (map_to_list (jv_call m)).

Lemma wfb_wf m : wfb m = true -> wf m.
Proof.
  unfold wfb. rewrite !andb_true_iff, !forallb_forall. intros [[[[[[[H1 H2] H3] H6] H7] H8] H4] H5]. constructor.
  - intros l o Ho r Hr. specialize (H1 (l, o)). rewrite forallb_forall in H1. apply (liveb_live m r), H1; [| by apply list_elem_of_In].
    by apply list_elem_of_In, elem_of_map_to_list.
  - intros l Hl. by apply liveb_live, H2, list_elem_of_In.
  - intros l [o Ho]. apply Nat.ltb_lt, (H3 (l, o)). by apply list_elem_of_In, elem_of_map_to_list.
  - intros l o Ho c Hc. specialize (H6 (l, o)). rewrite forallb_forall in H6. apply charb_char, H6; [| by apply list_elem_of_In].
    by apply list_elem_of_In, elem_of_map_to_list.
  - by apply charb_char.
  - intros n l Hin. specialize (H8 (n, l) (proj1 (list_elem_of_In _ _) Hin)). unfold symbolb in H8. cbn in H8.
    destruct (heap m !! l) as [[] |]; try done. apply str_eqb_eq in H8 as ->. eauto.
  - apply orb_true_iff in H4 as [H | H]; [left; by apply Nat.eqb_eq | right; by apply elem_spec].
  - intros n l Hl. apply elem_spec, (H5 (n, l)). by apply list_elem_of_In, elem_of_map_to_list.
Qed.

Lemma loaded_wf : wf loaded.
Proof. apply wfb_wf. vm_compute. reflexivity. Qed.

Definition f_name : str := ".jv.repl.parse"%string.

(** A collection in the wrong place frees the head of the lookup's call, or
    its argument, whichever the compiler makes first. *)
Example first_call_dangles :
  (invokeHeraFn (R := harsh) true f_name [8; 9] started).2 = Undefined
  /\ (invokeHeraFn (R := harsh) false f_name [8; 9] started).2 = Undefined
  /\ (invokeHeraFn (R := gentle) true f_name [8; 9] started).2 = Ok R_NilValue.
Proof. split; [| split]; vm_compute; reflexivity. Qed.

Example evaluate_args_dangle :
  (evaluate_args (R := harsh) true f_name R_GlobalEnv started).2 = Undefined
  /\ (evaluate_args (R := harsh) false f_name R_GlobalEnv started).2 = Undefined.
Proof. split; vm_compute; reflexivity. Qed.

(** Once it has been found, the calls are sound under the same collector. *)
Example later_calls :
  (invokeHeraFn (R := harsh) true f_name [8; 9] loaded).2 = Ok R_NilValue
  /\ (invokeHeraFn (R := harsh) true bad [8; 9] loaded).2 = Throw (failed bad no_text)
  /\ pp_stack (invokeHeraFn (R := harsh) true bad [8; 9] loaded).1 = [9; 8].
Proof. split; [| split]; vm_compute; reflexivity. Qed.
End Toy.
