(* ===== verification/RJson.v ===== *)
(** * Values of R to and from JSON (elara/r/routine.cpp)

    What R code of the kernel hands over - display data, comm messages, the
    report of an object - arrives as R values and leaves as JSON, and the other
    way round: [sexpToJson], [jsonToSexp], and the base64 text of raw vectors.

    An R value is a [sexp]: its type's constructor with its elements and the
    attributes the code looks at.  A string is its UTF-8 text (what
    Rf_translateCharUTF8 gives); integers and logicals are 32-bit, with
    INT_MIN for NA; a double is a [spec_float], apart from NA_real_, a NaN of
    its own.  A JSON value is a [basic_json], with a constructor for each
    value_t of the library.  Reading an element that a vector does not have is
    [Undefined]; an R error is [Throw].

    Section Base64 has the text of raw vectors and the decoder that it is
    proved against. *)

From Stdlib Require Import Ascii String ZArith Lia SpecFloat.
From stdpp Require Import base list strings pretty sorting.
From S2P Require Import Prelude Utf8.

Local Open Scope Z_scope.
Local Open Scope jovian_scope.

(** ** The data *)

Definition double := spec_float.
Definition double_prec : Z := 53.
Definition double_emax : Z := 1024.

(** [static_cast<double>(z)] *)
Definition double_of_int (z : Z) : double := binary_normalize double_prec double_emax z 0 false.

(** [std::isfinite] *)
Definition isfinite (f : double) : bool :=
  match f with S754_zero _ | S754_finite _ _ _ => true | S754_infinity _ | S754_nan => false end.

Inductive real :=
| NA_REAL
| Real (f : double).

Definition NA_INTEGER : Z := - 2 ^ 31.
Definition NA_LOGICAL : Z := NA_INTEGER.
Definition INT_MAX : Z := 2 ^ 31 - 1.

(** A string of a character vector: [None] is NA_character_. *)
Abbreviation rstring := (option str).

(** The attributes that are looked at; [row_names] only when they are strings. *)
Record attributes := {
  names : option (list rstring);
  class : list str;
  levels : option (list rstring);
  dim : option (list Z);
  row_names : option (list rstring)
}.

Definition no_attributes : attributes :=
  {| names := None; class := []; levels := None; dim := None; row_names := None |}.

Definition named (ns : list rstring) : attributes :=
  {| names := Some ns; class := []; levels := None; dim := None; row_names := None |}.

(** An atomic vector's elements, by the type of the vector. *)
Inductive atomic :=
| LGLSXP (v : list Z)
| INTSXP (v : list Z)
| REALSXP (v : list real)
| STRSXP (v : list rstring).

Inductive sexp :=
| R_NilValue
| Atomic (v : atomic) (a : attributes)
| RAWSXP (bytes : str)
| VECSXP (v : list sexp) (a : attributes)
(** functions, environments, symbols, ... *)
| Other.

Inductive basic_json :=
| Null
| Boolean (b : bool)
| Number_integer (z : Z)
| Number_unsigned (z : Z)
| Number_float (f : double)
| String (s : str)
| Array (l : list basic_json)
| Object (m : list (str * basic_json))
| Discarded.

(** ** Elements *)

Definition translate (s : rstring) : str := default ("NA"%string : str) s.

Definition XLENGTH_atomic (v : atomic) : nat :=
  match v with LGLSXP v => length v | INTSXP v => length v | REALSXP v => length v | STRSXP v => length v end.

(** [Rf_xlength] *)
Definition XLENGTH (x : sexp) : nat :=
  match x with
  | R_NilValue => 0
  | Atomic v _ => XLENGTH_atomic v
  | RAWSXP bytes => length bytes
  | VECSXP v _ => length v
  | Other => 1
  end%nat.

(** An element of a vector: outside of it, whatever the memory holds. *)
Definition elt {A} (v : list A) (i : nat) : result A :=
  match v !! i with Some x => Ok x | None => Undefined end.

Definition inherits (a : attributes) (c : str) : bool := existsb (str_eqb c) (class a).

Definition json_string (s : rstring) : basic_json := match s with Some s => String s | None => Null end.

Definition atomicElement (x : atomic) (i : nat) (levels : option (list rstring)) : result basic_json :=
  match x with
  | LGLSXP v => let? z := elt v i in Ok (if z =? NA_LOGICAL then Null else Boolean (negb (z =? 0)))
  | INTSXP v =>
      let? z := elt v i in
      Ok (if z =? NA_INTEGER then Null
          else match levels with
               | Some ls =>
                   if (1 <=? z) && (z <=? Z.of_nat (length ls))
                   then match ls !! Z.to_nat (z - 1) with Some s => String (translate s) | None => Null end
                   else Null
               | None => Number_integer z
               end)
  | REALSXP v =>
      let? r := elt v i in
      Ok (match r with Real f => if isfinite f then Number_float f else Null | NA_REAL => Null end)
  | STRSXP v => let? s := elt v i in Ok (json_string s)
  end.

Definition factor_levels (a : attributes) : option (list rstring) :=
  if inherits a "factor"%string then levels a else None.

(** A loop that pushes one value per index, in order. *)
Fixpoint mapR {A B} (f : A -> result B) (l : list A) : result (list B) :=
  match l with
  | [] => Ok []
  | x :: l => let? y := f x in let? ys := mapR f l in Ok (y :: ys)
  end.

(** The results of conversions, as the loop meets them. *)
Definition all_ok {B} (l : list (result B)) : result (list B) := mapR (fun r => r) l.
Arguments all_ok : simpl never.

Definition atomicElements (v : atomic) (a : attributes) : result (list basic_json) :=
  mapR (fun i => atomicElement v i (factor_levels a)) (seq 0 (XLENGTH_atomic v)).

(** ** base64 *)
Section Base64.

Definition base64_chars : str := "ABCDEFGHIJKLMNOPQRSTUVWXYZabcdefghijklmnopqrstuvwxyz0123456789+/"%string.

(** [chars[v & 63]] *)
Definition base64_char (v : Z) : byte := nth (Z.to_nat (Z.land v 63)) base64_chars "A"%char.

Fixpoint base64Encode (data : str) : str :=
  match data with
  | a :: b :: c :: rest =>
      let v := Z.lor (Z.lor (Z.shiftl (code a) 16) (Z.shiftl (code b) 8)) (code c) in
      [base64_char (Z.shiftr v 18); base64_char (Z.shiftr v 12); base64_char (Z.shiftr v 6); base64_char v]
      ++ base64Encode rest
  | [a; b] =>
      let v := Z.lor (Z.shiftl (code a) 16) (Z.shiftl (code b) 8) in
      [base64_char (Z.shiftr v 18); base64_char (Z.shiftr v 12); base64_char (Z.shiftr v 6); "="%char]
  | [a] =>
      let v := Z.shiftl (code a) 16 in
      [base64_char (Z.shiftr v 18); base64_char (Z.shiftr v 12); "="%char; "="%char]
  | [] => []
  end.

End Base64.

(** ** R values as JSON *)
Section ToJson.
(** [json::parse(text, nullptr, false)]: [Discarded] when the text is not JSON. *)
Context (parse : str -> basic_json).
(** What NULL becomes: an empty object, or null. *)
Context (nullAsObject : bool).

Definition null_json : basic_json := if nullAsObject then Object [] else Null.

(** A column of a data frame: a list, with its elements converted, an atomic
    vector, or anything else. *)
Inductive column :=
| ListColumn (elements : list (result basic_json))
| AtomicColumn (v : atomic) (a : attributes)
| OtherColumn.

(** [row[name] = ...] for one column *)
Definition row_column (r : nat) (name : str) (c : column) (row : list (str * basic_json)) : result (list (str * basic_json)) :=
  match c with
  | ListColumn elements => let? e := elt elements r in let? j := e in Ok (map_set name j row)
  | AtomicColumn v a =>
      let? j := atomicElement v r (factor_levels a) in
      Ok (match j with Null => row | _ => map_set name j row end)
  | OtherColumn => Ok row
  end.

(** [STRING_ELT(names, i)]: an R error when there are none. *)
Definition no_names : str := "STRING_ELT() can only be applied to a 'character vector', not a 'NULL'"%string.
Definition name_at (ns : option (list rstring)) (i : nat) : result str :=
  match ns with Some ns => let? s := elt ns i in Ok (translate s) | None => Throw no_names end.

Fixpoint row_columns (r c : nat) (ns : option (list rstring)) (columns : list column) (row : list (str * basic_json)) :
  result (list (str * basic_json)) :=
  match columns with
  | [] => Ok row
  | column :: rest =>
      let? name := name_at ns c in
      let? row := row_column r name column row in
      row_columns r (S c) ns rest row
  end.

Definition data_row (a : attributes) (columns : list column) (r : nat) : result basic_json :=
  let? row := match row_names a with
              | Some rn => if decide (r < length rn)%nat
                           then let? s := elt rn r in Ok (map_set ("_row"%string : str) (json_string s) [])
                           else Ok []
              | None => Ok []
              end in
  let? row := row_columns r 0 (names a) columns row in
  Ok (Object row).

(** An object of a named list: [out[name] = ...] in the list's order. *)
Fixpoint named_members (i : nat) (ns : option (list rstring)) (elements : list (result basic_json)) (out : list (str * basic_json)) :
  result (list (str * basic_json)) :=
  match elements with
  | [] => Ok out
  | e :: rest =>
      let? name := name_at ns i in
      let? j := e in
      named_members (S i) ns rest (map_set name j out)
  end.

(** [x[r + c * nrow]] for every row and column *)
Definition matrix_rows (v : atomic) (a : attributes) (nrow ncol : nat) : result (list basic_json) :=
  mapR (fun r => let? row := mapR (fun c => atomicElement v (r + c * nrow) (factor_levels a)) (seq 0 ncol) in Ok (Array row))
       (seq 0 nrow).

Definition atomic_json (v : atomic) (a : attributes) : result basic_json :=
  match dim a with
  | Some [nrow; ncol] => let? rows := matrix_rows v a (Z.to_nat nrow) (Z.to_nat ncol) in Ok (Array rows)
  | _ =>
      if (XLENGTH_atomic v =? 1)%nat && negb (inherits a "AsIs"%string) then atomicElement v 0 (factor_levels a)
      else let? l := atomicElements v a in Ok (Array l)
  end.

Fixpoint sexpToJson (x : sexp) : result basic_json :=
  match x with
  | R_NilValue => Ok null_json
  | Atomic v a =>
      match v with
      | STRSXP [s] => if inherits a "json"%string then Ok (parse (translate s)) else atomic_json v a
      | _ => atomic_json v a
      end
  | RAWSXP bytes => Ok (String (base64Encode bytes))
  | VECSXP v a =>
      if inherits a "data.frame"%string then
        let columns := List.map (fun column =>
          match column with
          | VECSXP elements _ => ListColumn (List.map sexpToJson elements)
          | Atomic v a => AtomicColumn v a
          | _ => OtherColumn
          end) v in
        let rows := match v with [] => 0%nat | first :: _ => XLENGTH first end in
        let? out := mapR (data_row a columns) (seq 0 rows) in
        Ok (Array out)
      else
        match names a with
        | Some _ => let? m := named_members 0 (names a) (List.map sexpToJson v) [] in Ok (Object m)
        | None => let? l := all_ok (List.map sexpToJson v) in Ok (Array l)
        end
  | Other => Ok Null
  end.

End ToJson.

Section FromR.
Context (parse : str -> basic_json) (parse_strict : str -> result basic_json).

(** [jsonFromR]: JSON text is parsed, another value converted with NULL as {}. *)
Definition jsonFromR (x : sexp) : result basic_json :=
  match x with
  | Atomic (STRSXP [s]) a =>
      match names a with
      | None => parse_strict (translate s)
      | Some _ => sexpToJson parse true x
      end
  | _ => sexpToJson parse true x
  end.

(** [toJson]: the text, NULL as {} unless asked for "null". *)
Definition toJson (dump : basic_json -> str) (x null_ : sexp) : result str :=
  let nullAsObject := match null_ with
                      | Atomic (STRSXP [s]) _ => negb (str_eqb (translate s) "null"%string)
                      | _ => true
                      end in
  let? j := sexpToJson parse nullAsObject x in Ok (dump j).
End FromR.

(** ** JSON as R values *)

Definition is_number_float (e : basic_json) : bool := match e with Number_float _ => true | _ => false end.
Definition is_number (e : basic_json) : bool :=
  match e with Number_integer _ | Number_unsigned _ | Number_float _ => true | _ => false end.
Definition is_boolean (e : basic_json) : bool := match e with Boolean _ => true | _ => false end.
Definition is_string (e : basic_json) : bool := match e with String _ => true | _ => false end.
Definition is_null (e : basic_json) : bool := match e with Null => true | _ => false end.
(** null, a string, a boolean or a number (or binary, which no text gives) *)
Definition is_primitive (e : basic_json) : bool := is_null e || is_string e || is_boolean e || is_number e.

Definition fitsInteger (e : basic_json) : bool :=
  match e with
  | Number_unsigned z => z <=? INT_MAX
  | Number_integer z => (NA_INTEGER <? z) && (z <=? INT_MAX)
  | _ => false
  end.

(** [get<std::int64_t>()] and [get<double>()] of a number *)
Definition get_int64 (e : basic_json) : Z := match e with Number_integer z | Number_unsigned z => z | _ => 0 end.
Definition get_double (e : basic_json) : double :=
  match e with Number_integer z | Number_unsigned z => double_of_int z | Number_float f => f | _ => S754_zero false end.

(** An R string: none can hold a zero byte. *)
Definition embedded_nul : str := "embedded nul in string"%string.
Definition mkCharUtf8 (s : str) : result rstring :=
  if existsb (char_eqb nul) s then Throw embedded_nul else Ok (Some s).

(** ** printf's "%.15g"

    The value is [num / den].  Its exponent [x] is that of its first of 15
    significant digits, which are rounded to the nearest, ties to even. *)
Section Printf.

Fixpoint decimal_exponent_up (fuel : nat) (num den : Z) : Z :=
  match fuel with
  | O => 0
  | S fuel => if num <? den * 10 then 0 else 1 + decimal_exponent_up fuel num (den * 10)
  end.

Fixpoint decimal_exponent_down (fuel : nat) (num den : Z) : Z :=
  match fuel with
  | O => 0
  | S fuel => if den <=? num then 0 else decimal_exponent_down fuel (num * 10) den - 1
  end.

(** 1.8e308 and 4.9e-324 are the bounds of a double. *)
Definition decimal_exponent (num den : Z) : Z :=
  if den <=? num then decimal_exponent_up 330 num den else decimal_exponent_down 330 num den.

Definition round_half_even (num den : Z) : Z :=
  let q := num / den in
  let r := num - q * den in
  if (den <? 2 * r) || ((den =? 2 * r) && Z.odd q) then q + 1 else q.

(** The 15 digits as a number, and the exponent. *)
Definition significant (num den : Z) : Z * Z :=
  let x := decimal_exponent num den in
  let d := round_half_even (num * 10 ^ Z.max 0 (14 - x)) (den * 10 ^ Z.max 0 (x - 14)) in
  if d =? 10 ^ 15 then (10 ^ 14, x + 1) else (d, x).

Fixpoint strip_zeros (l : str) : str :=
  match l with c :: rest => if char_eqb c "0"%char then strip_zeros rest else l | [] => [] end.

(** Digits after the point, without trailing zeros; nothing when none is left. *)
Definition fraction (digits : str) : str :=
  match rev (strip_zeros (rev digits)) with [] => [] | ds => "."%char :: ds end.

Definition exponent_text (x : Z) : str :=
  (if x <? 0 then "-"%char else "+"%char) :: (if Z.abs x <? 10 then ["0"%char] else []) ++ to_string (Z.abs x).

Definition general (d x : Z) : str :=
  let digits := to_string d in
  if (x <? -4) || (15 <=? x) then take 1 digits ++ fraction (drop 1 digits) ++ "e"%char :: exponent_text x
  else if x <? 0 then "0"%char :: fraction (replicate (Z.to_nat (- x - 1)) "0"%char ++ digits)
  else take (Z.to_nat (x + 1)) digits ++ fraction (drop (Z.to_nat (x + 1)) digits).

Definition minus (s : bool) (text : str) : str := if s then "-"%char :: text else text.

Definition printf_15g (f : double) : str :=
  match f with
  | S754_zero s => minus s ["0"%char]
  | S754_infinity s => minus s "inf"%string
  | S754_nan => "nan"%string
  | S754_finite s m e =>
      let (d, x) := significant (Zpos m * 2 ^ Z.max 0 e) (2 ^ Z.max 0 (- e)) in minus s (general d x)
  end.
End Printf.

Definition scalarText (dump : basic_json -> str) (e : basic_json) : str :=
  match e with
  | String s => s
  | Boolean b => if b then "TRUE"%string else "FALSE"%string
  | Number_float f => printf_15g f
  | _ => dump e
  end.

(** The type of the vector an array of scalars becomes. *)
Inductive vector_type := LGL | INT | REAL | STR.

Definition all_non_null (p : basic_json -> bool) (l : list basic_json) : bool :=
  forallb (fun e => is_null e || p e) l.

(** [None]: not all scalars, or empty. *)
Definition type_of_array (l : list basic_json) : option vector_type :=
  if (0 <? length l)%nat && forallb is_primitive l then
    Some (if all_non_null is_boolean l then LGL
          else if all_non_null fitsInteger l then INT
          else if all_non_null is_number l then REAL
          else if all_non_null is_string l then STR
          else if existsb is_string l then STR else REAL)
  else None.

Definition lgl_element (e : basic_json) : Z :=
  match e with Boolean b => if b then 1 else 0 | _ => NA_LOGICAL end.
Definition int_element (e : basic_json) : Z :=
  if is_null e then NA_INTEGER else get_int64 e.
Definition real_element (e : basic_json) : real :=
  match e with
  | Null => NA_REAL
  | Boolean b => Real (double_of_int (if b then 1 else 0))
  | _ => Real (get_double e)
  end.

Section FromJson.
Context (dump : basic_json -> str).

Definition str_element (e : basic_json) : result rstring :=
  if is_null e then Ok None else mkCharUtf8 (scalarText dump e).

Definition array_vector (t : vector_type) (l : list basic_json) : result atomic :=
  match t with
  | LGL => Ok (LGLSXP (lgl_element <$> l))
  | INT => Ok (INTSXP (int_element <$> l))
  | REAL => Ok (REALSXP (real_element <$> l))
  | STR => let? v := mapR str_element l in Ok (STRSXP v)
  end.

(** Names are made as their members are converted. *)
Fixpoint object_members (ms : list (str * result sexp)) : result (list sexp * list rstring) :=
  match ms with
  | [] => Ok ([], [])
  | (k, v) :: rest =>
      let? v := v in
      let? k := mkCharUtf8 k in
      let? (vs, ks) := object_members rest in
      Ok (v :: vs, k :: ks)
  end.

Definition scalar (v : atomic) : sexp := Atomic v no_attributes.

Fixpoint jsonToSexp (j : basic_json) : result sexp :=
  match j with
  | Boolean b => Ok (scalar (LGLSXP [if b then 1 else 0]))
  | Number_integer z | Number_unsigned z =>
      Ok (scalar (if fitsInteger j then INTSXP [z] else REALSXP [Real (get_double j)]))
  | Number_float f => Ok (scalar (REALSXP [Real f]))
  | String s => let? c := mkCharUtf8 s in Ok (scalar (STRSXP [c]))
  | Object m =>
      let? (vs, ks) := object_members (List.map (fun kv => (fst kv, jsonToSexp (snd kv))) m) in
      Ok (VECSXP vs (named ks))
  | Array l =>
      match type_of_array l with
      | Some t => let? v := array_vector t l in Ok (Atomic v no_attributes)
      | None => let? vs := all_ok (List.map jsonToSexp l) in Ok (VECSXP vs no_attributes)
      end
  | Null | Discarded => Ok R_NilValue
  end.

(** [fromJson]: JSON text as an R value. *)
Definition fromJson (parse : str -> basic_json) (text_ : str) : result sexp :=
  match parse text_ with Discarded => Ok R_NilValue | j => jsonToSexp j end.
End FromJson.

(** ** base64, against a decoder

    [base64Decode] is RFC 4648's strict decoder: groups of four characters,
    the padding only at the end, the unused bits zero. *)
Fixpoint index_of (c : byte) (l : str) : option Z :=
  match l with [] => None | d :: l => if char_eqb c d then Some 0 else Z.succ <$> index_of c l end.

Definition base64_value (c : byte) : option Z := index_of c base64_chars.

Fixpoint base64Decode (s : str) : option str :=
  match s with
  | [] => Some []
  | [c1; c2; c3; c4] =>
      x1 ← base64_value c1; x2 ← base64_value c2;
      if char_eqb c3 "="%char then
        if char_eqb c4 "="%char && (x2 mod 16 =? 0) then Some [chr (x1 * 4 + x2 / 16)] else None
      else
        x3 ← base64_value c3;
        if char_eqb c4 "="%char then
          if x3 mod 4 =? 0 then Some [chr (x1 * 4 + x2 / 16); chr (x2 * 16 + x3 / 4)] else None
        else x4 ← base64_value c4; Some [chr (x1 * 4 + x2 / 16); chr (x2 * 16 + x3 / 4); chr (x3 * 64 + x4)]
  | c1 :: c2 :: c3 :: c4 :: rest =>
      x1 ← base64_value c1; x2 ← base64_value c2; x3 ← base64_value c3; x4 ← base64_value c4;
      d ← base64Decode rest;
      Some (chr (x1 * 4 + x2 / 16) :: chr (x2 * 16 + x3 / 4) :: chr (x3 * 64 + x4) :: d)
  | _ => None
  end.

Lemma base64_char_value v : base64_value (base64_char v) = Some (v mod 64).
Proof.
  unfold base64_char. change 63 with (Z.ones 6). rewrite Z.land_ones by lia. change (2 ^ 6) with 64.
  pose proof (Z.mod_pos_bound v 64 ltac:(lia)) as H. revert H. generalize (v mod 64). intros z Hz.
  rewrite <- (Z2Nat.id z) at 2 by lia. assert (Z.to_nat z < 64)%nat as H by lia. revert H. generalize (Z.to_nat z). clear.
  assert (forallb (fun n => bool_decide (base64_value (nth n base64_chars "A"%char) = Some (Z.of_nat n))) (seq 0 64) = true) as H
    by (vm_compute; reflexivity).
  intros n Hn. rewrite List.forallb_forall in H. specialize (H n). apply bool_decide_eq_true in H; [exact H |].
  apply in_seq. lia.
Qed.

Lemma base64_char_not_pad v : char_eqb (base64_char v) "="%char = false.
Proof. apply char_eqb_neq. intros E. pose proof (base64_char_value v) as H. by rewrite E in H. Qed.

Lemma bytes_3 a b c : 0 <= a < 256 -> 0 <= b < 256 -> 0 <= c < 256 ->
  Z.lor (Z.lor (Z.shiftl a 16) (Z.shiftl b 8)) c = a * 65536 + b * 256 + c.
Proof.
  intros Ha Hb Hc. rewrite !Z.shiftl_mul_pow2 by lia. change (2 ^ 16) with 65536. change (2 ^ 8) with 256.
  assert (forall x y n, 0 <= n -> 0 <= y < 2 ^ n -> Z.lor (x * 2 ^ n) y = x * 2 ^ n + y) as Hor.
  { intros x y n Hn Hy. symmetry. apply Z.add_nocarry_lor, Z.bits_inj'. intros j Hj. rewrite Z.land_spec, Z.bits_0.
    destruct (Z.ltb_spec j n); [by rewrite Z.mul_pow2_bits_low |].
    rewrite <- (Z.mod_small y (2 ^ n)) by done. rewrite Z.mod_pow2_bits_high by lia. by rewrite andb_false_r. }
  pose proof (Hor a (b * 256) 16 ltac:(lia) ltac:(lia)) as H1. change (2 ^ 16) with 65536 in H1. rewrite H1.
  replace (a * 65536 + b * 256) with ((a * 256 + b) * 2 ^ 8) by lia. rewrite Hor by lia. lia.
Qed.

Lemma bytes_2 a b : 0 <= a < 256 -> 0 <= b < 256 ->
  Z.lor (Z.shiftl a 16) (Z.shiftl b 8) = a * 65536 + b * 256.
Proof. intros Ha Hb. rewrite <- (Z.lor_0_r (Z.lor _ _)), bytes_3 by lia. lia. Qed.

Lemma decode_first v c : 0 <= v < 2 ^ 24 -> code c = v / 65536 ->
  chr ((Z.shiftr v 18) mod 64 * 4 + (Z.shiftr v 12) mod 64 / 16) = c.
Proof.
  intros Hv Hc. apply code_inj. rewrite code_chr, Hc, !Z.shiftr_div_pow2 by lia.
  change (2 ^ 18) with 262144. change (2 ^ 12) with 4096. Z.div_mod_to_equations. lia.
Qed.

Lemma decode_second v c : 0 <= v < 2 ^ 24 -> code c = v / 256 mod 256 ->
  chr ((Z.shiftr v 12) mod 64 * 16 + (Z.shiftr v 6) mod 64 / 4) = c.
Proof.
  intros Hv Hc. apply code_inj. rewrite code_chr, Hc, !Z.shiftr_div_pow2 by lia.
  change (2 ^ 12) with 4096. change (2 ^ 6) with 64. Z.div_mod_to_equations. lia.
Qed.

Lemma decode_third v c : 0 <= v < 2 ^ 24 -> code c = v mod 256 ->
  chr ((Z.shiftr v 6) mod 64 * 64 + v mod 64) = c.
Proof.
  intros Hv Hc. apply code_inj. rewrite code_chr, Hc, !Z.shiftr_div_pow2 by lia.
  change (2 ^ 6) with 64. Z.div_mod_to_equations. lia.
Qed.

Lemma list_three_ind {A} (P : list A -> Prop) :
  P [] -> (forall a, P [a]) -> (forall a b, P [a; b]) -> (forall a b c l, P l -> P (a :: b :: c :: l)) -> forall l, P l.
Proof.
  intros H0 H1 H2 H3. fix IH 1. intros [|a [|b [|c l]]]; [exact H0 | apply H1 | apply H2 | apply H3, IH].
Qed.

Lemma decode_group c1 c2 c3 c4 rest x1 x2 x3 x4 d :
  base64_value c1 = Some x1 -> base64_value c2 = Some x2 -> base64_value c3 = Some x3 -> base64_value c4 = Some x4 ->
  char_eqb c3 "="%char = false -> char_eqb c4 "="%char = false -> base64Decode rest = Some d ->
  base64Decode (c1 :: c2 :: c3 :: c4 :: rest)
  = Some (chr (x1 * 4 + x2 / 16) :: chr (x2 * 16 + x3 / 4) :: chr (x3 * 64 + x4) :: d).
Proof.
  intros H1 H2 H3 H4 P3 P4 Hd. destruct rest as [|c rest].
  - injection Hd as <-. cbn [base64Decode]. by rewrite H1, H2, P3, H3, P4, H4.
  - cbn [base64Decode]. rewrite H1, H2, H3, H4. cbn [mbind option_bind]. cbn [base64Decode] in Hd. by rewrite Hd.
Qed.

(** The text of a raw vector is the base64 of its bytes: a strict
    decoder gives them back, and it has four characters for every three bytes
    begun, all of them of the alphabet or padding. *)
Theorem base64_roundtrip data :
  base64Decode (base64Encode data) = Some data
  /\ length (base64Encode data) = (4 * ((length data + 2) / 3))%nat.
Proof.
  induction data as [| a | a b | a b c rest [IH IHl]] using list_three_ind; [done | | |].
  - split; [| done]. cbn [base64Encode base64Decode]. rewrite !base64_char_value. cbn [mbind option_bind].
    pose proof (code_range a). rewrite !(Z.shiftl_mul_pow2 _ 16) by lia. change (2 ^ 16) with 65536.
    assert (Z.shiftr (code a * 65536) 12 mod 64 mod 16 =? 0 = true) as Hz.
    { rewrite Z.shiftr_div_pow2 by lia. change (2 ^ 12) with 4096. apply Z.eqb_eq. Z.div_mod_to_equations. lia. }
    cbn [char_eqb Ascii.eqb Bool.eqb andb]. rewrite Hz. repeat f_equal. apply decode_first; [lia |]. by rewrite Z.div_mul.
  - split; [| done]. cbn [base64Encode base64Decode]. rewrite !base64_char_value, base64_char_not_pad. cbn [mbind option_bind].
    pose proof (code_range a). pose proof (code_range b). rewrite bytes_2 by lia.
    assert (Z.shiftr (code a * 65536 + code b * 256) 6 mod 64 mod 4 =? 0 = true) as Hz.
    { rewrite Z.shiftr_div_pow2 by lia. change (2 ^ 6) with 64. apply Z.eqb_eq. Z.div_mod_to_equations. lia. }
    cbn [char_eqb Ascii.eqb Bool.eqb andb]. rewrite Hz. repeat f_equal.
    + apply decode_first; [lia |]. Z.div_mod_to_equations. lia.
    + apply decode_second; [lia |]. Z.div_mod_to_equations. lia.
  - pose proof (code_range a). pose proof (code_range b). pose proof (code_range c). split.
    + cbn [base64Encode]. cbn [app]. erewrite decode_group by (apply base64_char_value || apply base64_char_not_pad || exact IH).
      rewrite bytes_3 by lia. repeat f_equal.
      * apply decode_first; [lia |]. Z.div_mod_to_equations. lia.
      * apply decode_second; [lia |]. Z.div_mod_to_equations. lia.
      * apply decode_third; [lia |]. Z.div_mod_to_equations. lia.
    + cbn [base64Encode length app]. rewrite IHl. replace (S (S (S (length rest))) + 2)%nat with (length rest + 2 + 1 * 3)%nat by lia.
      rewrite Nat.div_add by lia. lia.
Qed.

(** ** Well-formed values

    What R keeps true of its own values, where the conversion relies on it: a
    matrix has as many elements as its dimensions say, a list as many names as
    elements, text of class "json" is JSON - and a data frame's columns have at
    least the length of the first one, which R does not promise (a first column
    that is a matrix counts all its elements, a column that is a data frame its
    own columns). *)
Fixpoint sexp_rect_nested (P : sexp -> Prop) (Hnull : P R_NilValue) (Hatomic : forall v a, P (Atomic v a))
  (Hraw : forall b, P (RAWSXP b)) (Hother : P Other) (Hlist : forall v a, Forall P v -> P (VECSXP v a)) (x : sexp) : P x :=
  match x with
  | R_NilValue => Hnull
  | Atomic v a => Hatomic v a
  | RAWSXP b => Hraw b
  | Other => Hother
  | VECSXP v a =>
      Hlist v a ((fix all l : Forall P l := match l with
        | [] => List.Forall_nil _
        | y :: l => List.Forall_cons _ _ _ (sexp_rect_nested P Hnull Hatomic Hraw Hother Hlist y) (all l) end) v)
  end.

Fixpoint json_rect_nested (P : basic_json -> Prop) (Hnull : P Null) (Hbool : forall b, P (Boolean b))
  (Hint : forall z, P (Number_integer z)) (Huns : forall z, P (Number_unsigned z)) (Hfloat : forall f, P (Number_float f))
  (Hstr : forall s, P (String s)) (Hdisc : P Discarded) (Harr : forall l, Forall P l -> P (Array l))
  (Hobj : forall m, Forall (fun kv => P (snd kv)) m -> P (Object m)) (j : basic_json) : P j :=
  let rec := json_rect_nested P Hnull Hbool Hint Huns Hfloat Hstr Hdisc Harr Hobj in
  match j with
  | Null => Hnull | Boolean b => Hbool b | Number_integer z => Hint z | Number_unsigned z => Huns z
  | Number_float f => Hfloat f | String s => Hstr s | Discarded => Hdisc
  | Array l => Harr l ((fix all l : Forall P l := match l with
      | [] => List.Forall_nil _ | y :: l => List.Forall_cons _ _ _ (rec y) (all l) end) l)
  | Object m => Hobj m ((fix all m : Forall (fun kv => P (snd kv)) m := match m with
      | [] => List.Forall_nil _ | kv :: m => List.Forall_cons _ _ _ (rec (snd kv)) (all m) end) m)
  end.

(** [P] of every element, for a predicate defined by recursion. *)
Definition all_of {A} (P : A -> Prop) (l : list A) : Prop := fold_right (fun x Q => P x /\ Q) True l.

Lemma all_of_Forall {A} (P : A -> Prop) l : all_of P l <-> Forall P l.
Proof. unfold all_of. induction l as [|x l IH]; cbn; [by rewrite Forall_nil |]. by rewrite Forall_cons, IH. Qed.

Definition int_range (z : Z) : Prop := NA_INTEGER <= z <= INT_MAX.

Definition wf_elements (v : atomic) : Prop :=
  match v with LGLSXP l | INTSXP l => Forall int_range l | REALSXP _ | STRSXP _ => True end.

Definition wf_dim (v : atomic) (a : attributes) : Prop :=
  match dim a with
  | Some [nrow; ncol] => 0 <= nrow /\ 0 <= ncol /\ Z.of_nat (XLENGTH_atomic v) = nrow * ncol
  | _ => True
  end.

Definition frame_rows (v : list sexp) : nat := match v with [] => 0 | first :: _ => XLENGTH first end.

Definition wf_frame (v : list sexp) (a : attributes) : Prop :=
  exists ns, names a = Some ns /\ length ns = length v
  /\ Forall (fun c => match c with VECSXP _ _ | Atomic _ _ => (frame_rows v <= XLENGTH c)%nat | _ => True end) v.

Fixpoint wf_json (j : basic_json) : Prop :=
  match j with
  | Number_integer z => - 2 ^ 63 <= z < 2 ^ 63
  | Number_unsigned z => 0 <= z < 2 ^ 64
  | Number_float f => isfinite f = true
  | Array l => all_of wf_json l
  | Object m => sorted m /\ all_of (fun kv => wf_json (snd kv)) m
  | Discarded => False
  | Null | Boolean _ | String _ => True
  end.

Section Typing.
Context (parse : str -> basic_json) (dump : basic_json -> str).

Fixpoint wf (x : sexp) : Prop :=
  match x with
  | Atomic v a =>
      wf_elements v
      /\ match v with
         | STRSXP [s] => if inherits a "json"%string then parse (translate s) <> Discarded else wf_dim v a
         | _ => wf_dim v a
         end
  | VECSXP v a =>
      all_of wf v
      /\ (if inherits a "data.frame"%string then wf_frame v a
          else match names a with Some ns => length ns = length v | None => True end)
  | _ => True
  end.

(** The parser gives JSON, or says that the text is none; the text of a number
    has no zero byte. *)
Definition parser_typed : Prop := forall s, parse s = Discarded \/ wf_json (parse s).
Definition dump_printable : Prop := forall e, is_number e = true -> Forall (fun c => c <> nul) (dump e).

(** A JSON value of which every string can be an R string. *)
Definition no_nul (s : str) : Prop := Forall (fun c => c <> nul) s.
Fixpoint r_strings (j : basic_json) : Prop :=
  match j with
  | String s => no_nul s
  | Array l => all_of r_strings l
  | Object m => all_of (fun kv => no_nul (fst kv) /\ r_strings (snd kv)) m
  | _ => True
  end.

Lemma elt_ok {A} (v : list A) i : (i < length v)%nat -> exists x, elt v i = Ok x /\ v !! i = Some x.
Proof. intros H. apply lookup_lt_is_Some in H as [x Hx]. exists x. unfold elt. by rewrite Hx. Qed.

Lemma mapR_ok {A B} (f : A -> result B) (P : B -> Prop) l :
  Forall (fun x => exists y, f x = Ok y /\ P y) l -> exists ys, mapR f l = Ok ys /\ Forall P ys.
Proof.
  induction 1 as [|x l (y & Hy & HP) _ (ys & Hys & HPs)]; cbn; [by exists [] |]. rewrite Hy, Hys. exists (y :: ys). split; [done |]. by constructor.
Qed.

Lemma mapR_seq_ok {B} (f : nat -> result B) (P : B -> Prop) n :
  (forall i, (i < n)%nat -> exists y, f i = Ok y /\ P y) -> exists ys, mapR f (seq 0 n) = Ok ys /\ Forall P ys.
Proof. intros H. apply mapR_ok, Forall_forall. intros i Hi. apply elem_of_seq in Hi. apply H. lia. Qed.

Lemma all_ok_map {A B} (f : A -> result B) (P : B -> Prop) l :
  Forall (fun x => exists y, f x = Ok y /\ P y) l -> exists ys, all_ok (List.map f l) = Ok ys /\ Forall P ys.
Proof. intros H. unfold all_ok. apply mapR_ok. induction H; cbn; by constructor. Qed.

Lemma map_set_all {V} (P : V -> Prop) k v (m : list (str * V)) :
  P v -> Forall (fun kv => P kv.2) m -> Forall (fun kv => P kv.2) (map_set k v m).
Proof.
  intros Hv Hm. rewrite Forall_forall in *. intros nv H. destruct (map_set_in _ _ _ _ H) as [-> | [[_ H'] | H']]; [done | by apply Hm ..].
Qed.

Lemma atomicElement_ok v i ls : wf_elements v -> (i < XLENGTH_atomic v)%nat ->
  exists j, atomicElement v i ls = Ok j /\ wf_json j.
Proof.
  intros Hv Hi. destruct v as [v|v|v|v]; cbn in *; destruct (elt_ok v i Hi) as (z & Hz & Hl); rewrite Hz.
  - destruct (z =? _); eexists; split; done.
  - rewrite Forall_forall in Hv. specialize (Hv z (list_elem_of_lookup_2 _ _ _ Hl)).
    destruct (z =? _); [by eexists |]. destruct ls as [ls|].
    + destruct (_ && _); [| by eexists]. by destruct (ls !! _); eexists.
    + eexists. split; [done |]. cbn. unfold int_range, NA_INTEGER, INT_MAX in Hv. lia.
  - destruct z as [|f]; [by eexists |]. destruct (isfinite f) eqn:E; by eexists.
  - destruct z; by eexists.
Qed.

Lemma atomic_json_ok v a : wf_elements v -> wf_dim v a -> exists j, atomic_json v a = Ok j /\ wf_json j.
Proof.
  intros Hv Hd. assert (exists j, (if (XLENGTH_atomic v =? 1)%nat && negb (inherits a "AsIs"%string) then atomicElement v 0 (factor_levels a)
      else let? l := atomicElements v a in Ok (Array l)) = Ok j /\ wf_json j) as Hplain.
  { destruct (_ =? 1)%nat eqn:E; [apply Nat.eqb_eq in E; destruct (inherits a "AsIs"%string); cbn [andb negb] |].
    2: { apply atomicElement_ok; [done | lia]. }
    all: destruct (mapR_seq_ok (fun i => atomicElement v i (factor_levels a)) wf_json (XLENGTH_atomic v)) as (l & El & Hl);
      [intros i Hi; by apply atomicElement_ok |].
    all: unfold atomicElements; rewrite El; eexists; split; [done |]; by apply all_of_Forall. }
  unfold atomic_json. unfold wf_dim in Hd. destruct (dim a) as [[|nrow [|ncol [|]]]|]; try exact Hplain.
  destruct Hd as (Hr & Hc & Hn). unfold matrix_rows.
  match goal with |- context [mapR ?f (seq 0 ?n)] => destruct (mapR_seq_ok f wf_json n) as (l & El & Hl) end.
  - intros r Hi. match goal with |- context [mapR ?f (seq 0 ?n)] => destruct (mapR_seq_ok f wf_json n) as (row & Er & Hrow) end.
    + intros c Hj. apply atomicElement_ok; [done |]. nia.
    + rewrite Er. eexists. split; [done |]. by apply all_of_Forall.
  - rewrite El. eexists. split; [done |]. by apply all_of_Forall.
Qed.

Definition converted (r : result basic_json) : Prop := exists j, r = Ok j /\ wf_json j.

Definition wf_members (m : list (str * basic_json)) : Prop := sorted m /\ Forall (fun kv => wf_json kv.2) m.

Lemma wf_members_object m : wf_members m -> wf_json (Object m).
Proof. intros [Hs Hm]. split; [exact Hs |]. by apply all_of_Forall. Qed.

Lemma wf_members_set k j m : wf_json j -> wf_members m -> wf_members (map_set k j m).
Proof. intros Hj [Hs Hm]. split; [by apply map_set_sorted | by apply map_set_all]. Qed.

Lemma wf_members_nil : wf_members [].
Proof. by split; [| constructor]. Qed.

Lemma named_members_ok ns es i out : Forall converted es -> (i + length es <= length ns)%nat -> wf_members out ->
  exists m, named_members i (Some ns) es out = Ok m /\ wf_members m.
Proof.
  intros He. revert i out. induction He as [|e es (j & -> & Hj) _ IH]; intros i out Hi Ho; cbn; [by exists out |].
  cbn in Hi. destruct (elt_ok ns i ltac:(lia)) as (s & -> & _). apply IH; [lia |]. by apply wf_members_set.
Qed.

(** A column that has the [rows] elements that are read of it. *)
Definition column_ok (rows : nat) (c : column) : Prop :=
  match c with
  | ListColumn es => Forall converted es /\ (rows <= length es)%nat
  | AtomicColumn v a => wf_elements v /\ (rows <= XLENGTH_atomic v)%nat
  | OtherColumn => True
  end.

Lemma row_column_ok rows r name c row : column_ok rows c -> (r < rows)%nat -> wf_members row ->
  exists row', row_column r name c row = Ok row' /\ wf_members row'.
Proof.
  intros Hc Hr Hrow. destruct c as [es | v a |]; cbn.
  - destruct Hc as [He Hl]. destruct (elt_ok es r ltac:(lia)) as (e & -> & Hin). rewrite Forall_forall in He.
    destruct (He e (list_elem_of_lookup_2 _ _ _ Hin)) as (j & -> & Hj). eexists. split; [done |]. by apply wf_members_set.
  - destruct Hc as [Hv Hl]. destruct (atomicElement_ok v r (factor_levels a) Hv ltac:(lia)) as (j & -> & Hj).
    eexists. split; [done |]. destruct j; (done || by apply wf_members_set).
  - by exists row.
Qed.

Lemma row_columns_ok rows r ns cs c row : Forall (column_ok rows) cs -> (r < rows)%nat -> (c + length cs <= length ns)%nat ->
  wf_members row -> exists row', row_columns r c (Some ns) cs row = Ok row' /\ wf_members row'.
Proof.
  intros Hc Hr. revert c row. induction Hc as [|column cs Hcol _ IH]; intros c row Hl Hrow; cbn; [by exists row |].
  cbn in Hl. destruct (elt_ok ns c ltac:(lia)) as (s & -> & _).
  destruct (row_column_ok rows r (translate s) column row Hcol Hr Hrow) as (row' & -> & Hrow'). apply IH; [lia | done].
Qed.

Lemma data_row_ok rows r ns a cs : Forall (column_ok rows) cs -> names a = Some ns -> length ns = length cs -> (r < rows)%nat ->
  exists j, data_row a cs r = Ok j /\ wf_json j.
Proof.
  intros Hc Hns Hl Hr. unfold data_row. rewrite Hns.
  assert (exists row, match row_names a with
              | Some rn => if decide (r < length rn)%nat
                           then let? s := elt rn r in Ok (map_set ("_row"%string : str) (json_string s) [])
                           else Ok []
              | None => Ok []
              end = Ok row /\ wf_members row) as (row & -> & Hrow).
  { destruct (row_names a) as [rn|]; [| exists []; split; [done | apply wf_members_nil]].
    destruct (decide _) as [Hrn|]; [| exists []; split; [done | apply wf_members_nil]].
    destruct (elt_ok rn r Hrn) as (s & -> & _). eexists. split; [done |]. apply wf_members_set; [by destruct s | apply wf_members_nil]. }
  destruct (row_columns_ok rows r ns cs 0 row Hc Hr ltac:(lia) Hrow) as (row' & -> & Hrow').
  eexists. split; [done |]. by apply wf_members_object.
Qed.

(** Of a list, also the conversions of its elements: a list column of a data
    frame is read element by element. *)
Lemma sexpToJson_ok n x : parser_typed -> wf x ->
  converted (sexpToJson parse n x)
  /\ match x with VECSXP v _ => Forall converted (List.map (sexpToJson parse n) v) | _ => True end.
Proof.
  intros Hp. induction x as [| v a | b | | v a IH] using sexp_rect_nested; intros Hwf; cbn [sexpToJson].
  - split; [| done]. exists (null_json n). split; [done |]. unfold null_json. by destruct n.
  - split; [| done]. destruct Hwf as [Hv Hd]. destruct v as [v|v|v|[|s [|]]]; try (by apply atomic_json_ok).
    destruct (inherits a "json"%string); [| by apply atomic_json_ok].
    eexists. split; [done |]. by destruct (Hp (translate s)).
  - split; [by eexists | done].
  - split; [by eexists | done].
  - destruct Hwf as [Hall Ha]. apply all_of_Forall in Hall.
    assert (Forall converted (List.map (sexpToJson parse n) v)) as Hes.
    { clear Ha. induction IH; cbn; [constructor |]. apply Forall_cons in Hall as [? ?]. constructor; naive_solver. }
    split; [| exact Hes]. destruct (inherits a "data.frame"%string).
    + destruct Ha as (ns & Hns & Hl & Hcols).
      match goal with |- context [data_row a ?columns] => assert (Forall (column_ok (frame_rows v)) columns) as Hc end.
      { apply Forall_fmap, Forall_forall. intros c Hc. rewrite Forall_forall in Hall, Hcols, IH.
        specialize (Hcols c Hc). specialize (IH c Hc (Hall c Hc)). specialize (Hall c Hc).
        destruct c as [| w b | | w b |]; cbn -[sexpToJson]; try done.
        - split; [apply Hall | exact Hcols].
        - split; [apply IH | by rewrite length_map]. }
      match goal with |- context [mapR ?f (seq 0 ?k)] => destruct (mapR_seq_ok f wf_json k) as (l & El & Hlj) end.
      * intros r Hr. eapply data_row_ok; [exact Hc | exact Hns | by rewrite length_map | exact Hr].
      * rewrite El. eexists. split; [done |]. by apply all_of_Forall.
    + destruct (names a) as [ns|].
      * destruct (named_members_ok ns _ 0 [] Hes) as (m & Em & Hm); [rewrite length_map; lia | apply wf_members_nil |].
        rewrite Em. eexists. split; [done |]. by apply wf_members_object.
      * destruct (all_ok_map (sexpToJson parse n) wf_json v) as (l & El & Hlj).
        { clear -Hes. induction v; inversion Hes; subst; constructor; auto. }
        rewrite El. eexists. split; [done |]. by apply all_of_Forall.
Qed.

(** ** JSON as R values *)

Lemma no_nul_app s t : no_nul s -> no_nul t -> no_nul (s ++ t).
Proof. apply Forall_app_2. Qed.

Lemma no_nul_cons c s : c <> nul -> no_nul s -> no_nul (c :: s).
Proof. by constructor. Qed.

Lemma pretty_char_not_nul m : pretty_N_char m <> nul.
Proof. unfold pretty_N_char. repeat case_match; done. Qed.

Lemma to_string_no_nul z : no_nul (to_string z).
Proof. apply to_string_Forall; [apply pretty_char_not_nul | by right]. Qed.

Lemma strip_zeros_no_nul l : no_nul l -> no_nul (strip_zeros l).
Proof. induction 1 as [|c l Hc Hl IH]; cbn; [constructor |]. destruct (char_eqb c _); [exact IH | by constructor]. Qed.

Lemma fraction_no_nul l : no_nul l -> no_nul (fraction l).
Proof.
  intros H. unfold fraction. assert (no_nul (rev (strip_zeros (rev l)))) as Hr.
  { apply Forall_rev, strip_zeros_no_nul, Forall_rev, H. }
  destruct (rev _); [constructor | by constructor].
Qed.

Lemma printf_no_nul f : no_nul (printf_15g f).
Proof.
  assert (forall s t, no_nul t -> no_nul (minus s t)) as Hminus by (intros [] t Ht; [by constructor | done]).
  assert (forall d x, no_nul (general d x)) as Hgeneral.
  { intros d x. pose proof (to_string_no_nul d) as Hd. unfold general.
    destruct (_ || _); [| destruct (x <? 0)].
    - repeat apply no_nul_app; [by apply Forall_take | apply fraction_no_nul; by apply Forall_drop |].
      unfold exponent_text. apply no_nul_cons; [done |]. apply no_nul_cons; [by destruct (_ <? _) |].
      apply no_nul_app; [destruct (_ <? _); repeat constructor; done | apply to_string_no_nul].
    - apply no_nul_cons; [done |]. apply fraction_no_nul, no_nul_app; [apply Forall_replicate; done | done].
    - apply no_nul_app; [by apply Forall_take | apply fraction_no_nul; by apply Forall_drop]. }
  destruct f as [s|s| |s m e]; cbn -[significant minus].
  - apply Hminus. repeat constructor; done.
  - apply Hminus. repeat constructor; done.
  - repeat constructor; done.
  - destruct (significant _ _) as [d x]. by apply Hminus.
Qed.

Lemma mkCharUtf8_ok s : no_nul s -> mkCharUtf8 s = Ok (Some s).
Proof.
  intros H. unfold mkCharUtf8. destruct (existsb _ s) eqn:E; [| done]. apply existsb_exists in E as (c & Hc & Ec).
  apply char_eqb_eq in Ec as <-. unfold no_nul in H. rewrite Forall_forall in H. destruct (H nul); [by apply list_elem_of_In | done].
Qed.

Lemma scalarText_no_nul e : dump_printable -> is_primitive e = true -> is_null e = false -> r_strings e -> no_nul (scalarText dump e).
Proof.
  intros Hd Hp Hn Hr. destruct e; try done; cbn.
  - destruct b; repeat constructor; done.
  - by apply Hd.
  - by apply Hd.
  - apply printf_no_nul.
Qed.

Lemma fits_range e : fitsInteger e = true -> wf_json e -> int_range (get_int64 e).
Proof.
  unfold int_range, NA_INTEGER, INT_MAX. destruct e; cbn; try done.
  - rewrite andb_true_iff, Z.ltb_lt, Z.leb_le. unfold NA_INTEGER, INT_MAX. lia.
  - rewrite Z.leb_le. unfold INT_MAX. lia.
Qed.

Lemma array_vector_ok l t : dump_printable -> Forall wf_json l -> Forall r_strings l -> type_of_array l = Some t ->
  exists v, array_vector dump t l = Ok v /\ wf_elements v.
Proof.
  intros Hd Hw Hr Ht. unfold type_of_array in Ht. destruct ((0 <? length l)%nat && forallb is_primitive l) eqn:E; [| done].
  apply andb_true_iff in E as [_ Hp]. rewrite List.forallb_forall in Hp.
  rewrite Forall_forall in Hw. rewrite Forall_forall in Hr.
  assert (int_range NA_INTEGER) as Hna by (unfold int_range, NA_INTEGER, INT_MAX; lia).
  destruct (all_non_null is_boolean l); [injection Ht as <- | destruct (all_non_null fitsInteger l) eqn:Ei; [injection Ht as <- |]].
  - eexists. split; [done |]. apply Forall_fmap, Forall_forall. intros e He. cbn. destruct e as [|[]| | | | | | |]; unfold int_range; cbn; unfold NA_LOGICAL, NA_INTEGER, INT_MAX; lia.
  - eexists. split; [done |]. apply Forall_fmap, Forall_forall. intros e He. unfold compose, int_element.
    unfold all_non_null in Ei. rewrite List.forallb_forall in Ei. pose proof He as He'. apply list_elem_of_In in He'.
    specialize (Ei e He'). destruct (is_null e); [done |]. apply fits_range; [done | by apply Hw].
  - assert (array_vector dump t l = Ok (REALSXP (real_element <$> l)) \/ t = STR) as [-> | ->];
      [destruct t; [destruct (all_non_null is_number l), (all_non_null is_string l), (existsb is_string l); done .. | by left | by right] | by eexists |].
    destruct (mapR_ok (str_element dump) (fun _ => True) l) as (v & Ev & _); [| eexists; cbn [array_vector]; by rewrite Ev].
    apply Forall_forall. intros e He. unfold str_element. destruct (is_null e) eqn:En; [by eexists |].
    rewrite mkCharUtf8_ok; [by eexists |]. apply scalarText_no_nul; [done | apply Hp; by apply list_elem_of_In | done | by apply Hr].
Qed.

Lemma jsonToSexp_ok j : dump_printable -> wf_json j -> r_strings j -> exists x, jsonToSexp dump j = Ok x /\ wf x.
Proof.
  intros Hd. induction j as [| b | z | z | f | s | | l IH | m IH] using json_rect_nested; intros Hw Hr; cbn [jsonToSexp].
  - by eexists.
  - eexists. split; [done |]. cbn. split; [| done]. repeat constructor; unfold int_range, NA_INTEGER, INT_MAX; destruct b; lia.
  - eexists. split; [done |]. destruct (fitsInteger _) eqn:E; [| done].
    split; [| done]. repeat constructor; apply (fits_range _ E Hw).
  - eexists. split; [done |]. destruct (fitsInteger _) eqn:E; [| done].
    split; [| done]. repeat constructor; apply (fits_range _ E Hw).
  - by eexists.
  - rewrite mkCharUtf8_ok by done. by eexists.
  - destruct Hw.
  - cbn in Hw, Hr. apply all_of_Forall in Hw, Hr. destruct (type_of_array l) as [t|] eqn:Et.
    + destruct (array_vector_ok l t Hd Hw Hr Et) as (v & -> & Hv). eexists. split; [done |]. split; [done |].
      by destruct v as [| | |[|? []]].
    + destruct (all_ok_map (jsonToSexp dump) wf l) as (xs & Ex & Hxs).
      { clear Et. induction IH; [constructor |]. apply Forall_cons in Hw as [? ?]. apply Forall_cons in Hr as [? ?]. constructor; auto. }
      rewrite Ex. eexists. split; [done |]. split; [by apply all_of_Forall | done].
  - destruct Hw as [_ Hw]. cbn in Hr. apply all_of_Forall in Hw, Hr.
    assert (exists xs ks, object_members (List.map (fun kv => (kv.1, jsonToSexp dump kv.2)) m) = Ok (xs, ks)
      /\ Forall wf xs /\ length ks = length xs) as (xs & ks & E & Hxs & Hl).
    { induction IH as [|kv m IHx _ IHm]; [by exists [], [] |]. apply Forall_cons in Hw as [Hw1 Hw]. apply Forall_cons in Hr as [[Hk Hr1] Hr].
      destruct (IHx Hw1 Hr1) as (x & Ex & Hx). destruct (IHm Hw Hr) as (xs & ks & E & Hxs & Hl).
      cbn [List.map object_members fst snd]. rewrite Ex, mkCharUtf8_ok, E by done. exists (x :: xs), (Some kv.1 :: ks). cbn. auto. }
    rewrite E. eexists. split; [done |]. split; [by apply all_of_Forall | done].
Qed.


(** ** What survives a round trip

    The text of a value, read back: a number without a sign is unsigned. *)
Fixpoint reread (j : basic_json) : basic_json :=
  match j with
  | Number_integer z => if z <? 0 then Number_integer z else Number_unsigned z
  | Array l => Array (List.map reread l)
  | Object m => Object (List.map (fun kv => (fst kv, reread (snd kv))) m)
  | _ => j
  end.

Fixpoint utf8_strings (j : basic_json) : Prop :=
  match j with
  | String s => utf8 s
  | Array l => all_of utf8_strings l
  | Object m => all_of (fun kv => utf8 (fst kv) /\ utf8_strings (snd kv)) m
  | _ => True
  end.

(** The library reads the text it writes. *)
Definition parse_dump : Prop := forall j, wf_json j -> utf8_strings j -> parse (dump j) = reread j.

Definition plain_string (s : str) : Prop := no_nul s /\ utf8 s.

(** Elements with a JSON of their own: no NaN or infinity, TRUE as 1. *)
Definition plain_elements (v : atomic) : Prop :=
  match v with
  | LGLSXP l => Forall (fun z => z = 0 \/ z = 1 \/ z = NA_LOGICAL) l
  | INTSXP l => Forall int_range l
  | REALSXP l => Forall (fun r => match r with Real f => isfinite f = true | NA_REAL => True end) l
  | STRSXP l => Forall (fun s => match s with Some t => plain_string t | None => True end) l
  end.

(** Which elements are not NA. *)
Definition known (v : atomic) : list bool :=
  match v with
  | LGLSXP l => (fun z => negb (z =? NA_LOGICAL)) <$> l
  | INTSXP l => (fun z => negb (z =? NA_INTEGER)) <$> l
  | REALSXP l => (fun r => match r with Real _ => true | NA_REAL => false end) <$> l
  | STRSXP l => (fun s => match s with Some _ => true | None => false end) <$> l
  end.

Definition plain_atomic (v : atomic) : Prop :=
  plain_elements v /\ match v with LGLSXP (_ :: _ :: _) => True | _ => Exists (fun b => b = true) (known v) end.

(** What becomes an array or an object. *)
Definition container (x : sexp) : bool :=
  match x with VECSXP _ _ => true | Atomic v _ => negb (XLENGTH_atomic v =? 1)%nat | _ => false end.

(** Values without attributes but names: atomic vectors that are not all NA
    (logical ones may be) nor empty, lists whose names are sorted, and lists
    without names that are empty or hold more than scalars. *)
Fixpoint plain (x : sexp) : Prop :=
  match x with
  | R_NilValue => True
  | Atomic v a => a = no_attributes /\ plain_atomic v
  | VECSXP v a =>
      all_of plain v
      /\ ((a = no_attributes /\ (v = [] \/ Exists (fun x => container x = true) v))
          \/ exists ks, a = named (Some <$> ks) /\ length ks = length v
             /\ StronglySorted (fun a b => str_lt a b = true) ks /\ Forall plain_string ks)
  | RAWSXP _ | Other => False
  end.

(** The JSON of an atomic vector's elements. *)
Definition elements_json (v : atomic) : list basic_json :=
  match v with
  | LGLSXP l => (fun z => if z =? NA_LOGICAL then Null else Boolean (negb (z =? 0))) <$> l
  | INTSXP l => (fun z => if z =? NA_INTEGER then Null else Number_integer z) <$> l
  | REALSXP l => (fun r => match r with Real f => if isfinite f then Number_float f else Null | NA_REAL => Null end) <$> l
  | STRSXP l => json_string <$> l
  end.

Lemma elements_json_length v : length (elements_json v) = XLENGTH_atomic v.
Proof. destruct v; cbn; apply length_fmap. Qed.

Lemma atomicElement_json v i j : elements_json v !! i = Some j -> atomicElement v i None = Ok j.
Proof.
  destruct v as [l|l|l|l]; cbn; rewrite list_lookup_fmap; unfold elt; destruct (l !! i) as [x|]; cbn; intros [= <-]; done.
Qed.

Lemma mapR_seq_lookup {B} (f : nat -> result B) (l : list B) : forall k,
  (forall i x, l !! i = Some x -> f (k + i)%nat = Ok x) -> mapR f (seq k (length l)) = Ok l.
Proof.
  induction l as [|x l IH]; intros k H; cbn; [done |]. pose proof (H 0%nat x eq_refl) as H0. rewrite Nat.add_0_r in H0. rewrite H0.
  rewrite IH; [done |]. intros i y Hi. rewrite <- (H (S i) y Hi). f_equal. lia.
Qed.

Lemma atomic_json_plain v : atomic_json v no_attributes
  = match elements_json v with [j] => Ok j | l => Ok (Array l) end.
Proof.
  unfold atomic_json. cbn [dim no_attributes]. change (inherits no_attributes "AsIs"%string) with false. cbn [negb]. rewrite andb_true_r.
  change (factor_levels no_attributes) with (@None (list rstring)).
  assert (atomicElements v no_attributes = Ok (elements_json v)) as E.
  { unfold atomicElements. rewrite <- elements_json_length. apply mapR_seq_lookup. intros i x. apply atomicElement_json. }
  rewrite E, <- elements_json_length. destruct (elements_json v) as [|j [|j' l]] eqn:El; cbn [length Nat.eqb]; [done | | done].
  apply (atomicElement_json v 0 j). by rewrite El.
Qed.

Lemma all_non_null_false p l : Exists (fun e => is_null e = false /\ p e = false) l -> all_non_null p l = false.
Proof.
  unfold all_non_null. intros H. induction H as [e l [H1 H2] | e l _ IH]; cbn.
  - by rewrite H1, H2.
  - by rewrite IH, andb_false_r.
Qed.

Lemma all_non_null_true p l : Forall (fun e => is_null e = true \/ p e = true) l -> all_non_null p l = true.
Proof.
  unfold all_non_null. induction 1 as [|e l H _ IH]; cbn; [done |]. rewrite IH, andb_true_r, orb_true_iff. exact H.
Qed.

Lemma type_of_scalars l : l <> [] -> Forall (fun e => is_primitive e = true) l -> type_of_array l
  = Some (if all_non_null is_boolean l then LGL
          else if all_non_null fitsInteger l then INT
          else if all_non_null is_number l then REAL
          else if all_non_null is_string l then STR
          else if existsb is_string l then STR else REAL).
Proof.
  intros Hn Hp. unfold type_of_array. destruct l as [|e l]; [done |]. cbn [length Nat.ltb Nat.leb andb].
  assert (forallb is_primitive (e :: l) = true) as ->; [| done].
  rewrite List.forallb_forall. intros x Hx. rewrite Forall_forall in Hp. apply Hp. by apply list_elem_of_In.
Qed.

Lemma fmap_id_on {A B C} (f : A -> B) (g : B -> C) (h : A -> C) (l : list A) :
  Forall (fun x => g (f x) = h x) l -> g <$> (f <$> l) = h <$> l.
Proof. induction 1 as [|x l H _ IH]; cbn; [done |]. by rewrite H, IH. Qed.

Lemma fmap_back {A B} (f : A -> B) (g : B -> A) (l : list A) : Forall (fun x => g (f x) = x) l -> g <$> (f <$> l) = l.
Proof. induction 1 as [|x l H _ IH]; cbn; [done |]. by rewrite H, IH. Qed.

Lemma mapR_back {A B} (f : A -> B) (g : B -> result A) (l : list A) : Forall (fun x => g (f x) = Ok x) l -> mapR g (f <$> l) = Ok l.
Proof. induction 1 as [|x l H _ IH]; cbn; [done |]. by rewrite H, IH. Qed.

(** One element of each type, as read back. *)
Definition lgl_json (z : Z) : basic_json := if z =? NA_LOGICAL then Null else Boolean (negb (z =? 0)).
Definition int_json (z : Z) : basic_json := reread (if z =? NA_INTEGER then Null else Number_integer z).
Definition real_json (r : real) : basic_json :=
  match r with Real f => if isfinite f then Number_float f else Null | NA_REAL => Null end.

Lemma int_json_spec z : int_range z ->
  (z = NA_INTEGER /\ int_json z = Null)
  \/ (z <> NA_INTEGER /\ is_number (int_json z) = true /\ is_null (int_json z) = false /\ fitsInteger (int_json z) = true
      /\ is_boolean (int_json z) = false /\ get_int64 (int_json z) = z).
Proof.
  unfold int_range, int_json. intros H. destruct (Z.eqb_spec z NA_INTEGER) as [-> |]; [by left | right].
  cbn [reread]. destruct (Z.ltb_spec z 0); cbn [is_number is_null fitsInteger is_boolean get_int64]; repeat split; try done.
  - rewrite andb_true_iff, Z.ltb_lt, Z.leb_le. unfold NA_INTEGER, INT_MAX in *. lia.
  - apply Z.leb_le. lia.
Qed.

Definition read_elements (v : atomic) : list basic_json := reread <$> elements_json v.

Lemma read_elements_spec v : read_elements v
  = match v with
    | LGLSXP l => lgl_json <$> l | INTSXP l => int_json <$> l | REALSXP l => real_json <$> l | STRSXP l => json_string <$> l
    end.
Proof.
  unfold read_elements, elements_json. destruct v as [l|l|l|l]; apply fmap_id_on, Forall_forall; intros x _.
  - unfold lgl_json. by destruct (x =? _).
  - done.
  - unfold real_json. destruct x as [|f]; [done |]. by destruct (isfinite f).
  - by destruct x.
Qed.

Lemma read_elements_primitive v : Forall (fun e => is_primitive e = true) (read_elements v).
Proof.
  rewrite read_elements_spec. destruct v as [l|l|l|l]; apply Forall_fmap, Forall_forall; intros x _; cbn.
  - unfold lgl_json. by destruct (x =? _).
  - unfold int_json. destruct (x =? _); cbn; [done |]. by destruct (x <? 0).
  - destruct x as [|f]; cbn; [done |]. by destruct (isfinite f).
  - by destruct x.
Qed.

Lemma Exists_known {A} (f : A -> basic_json) (k : A -> bool) (P : A -> Prop) (Q : basic_json -> Prop) (l : list A) :
  Forall P l -> Exists (fun b => b = true) (k <$> l) -> (forall x, P x -> k x = true -> Q (f x)) -> Exists Q (f <$> l).
Proof.
  intros HP He HQ. apply Exists_exists. apply Exists_exists in He as (b & Hb & ->).
  apply list_elem_of_fmap in Hb as (x & Hx & Hin). rewrite Forall_forall in HP. exists (f x). split; [by apply list_elem_of_fmap_2 |].
  apply HQ; [by apply HP | done].
Qed.

Lemma vector_back v : plain_atomic v -> XLENGTH_atomic v <> 1%nat ->
  exists t, type_of_array (read_elements v) = Some t /\ array_vector dump t (read_elements v) = Ok v.
Proof.
  intros [He Hk] Hn. assert (read_elements v <> []) as Hne.
  { intros E. apply (f_equal length) in E. unfold read_elements in E. rewrite length_fmap, elements_json_length in E.
    destruct v as [[|? []]|[|]|[|]|[|]]; try done; by inversion Hk. }
  rewrite (type_of_scalars _ Hne (read_elements_primitive v)), read_elements_spec in *. clear Hne.
  destruct v as [l|l|l|l]; cbn in He.
  - rewrite all_non_null_true; [| apply Forall_fmap, Forall_forall; intros x _; cbn; unfold lgl_json; destruct (x =? _); auto].
    exists LGL. split; [done |]. cbn [array_vector]. do 2 f_equal. apply fmap_back. eapply Forall_impl; [exact He |].
    intros x [-> | [-> | ->]]; done.
  - assert (Exists (fun b => b = true) (known (INTSXP l))) as Hk' by exact Hk.
    rewrite (all_non_null_false is_boolean), (all_non_null_true fitsInteger).
    + exists INT. split; [done |]. cbn [array_vector]. do 2 f_equal. apply fmap_back. eapply Forall_impl; [exact He |].
      intros x Hx. unfold int_element. destruct (int_json_spec x Hx) as [[-> ->] | (_ & _ & -> & _ & _ & ->)]; done.
    + apply Forall_fmap. eapply Forall_impl; [exact He |]. intros x Hx. cbn.
      destruct (int_json_spec x Hx) as [[-> ->] | (_ & _ & _ & -> & _)]; auto.
    + eapply Exists_known; [exact He | exact Hk' |]. intros x Hx Hna%negb_true_iff%Z.eqb_neq.
      by destruct (int_json_spec x Hx) as [[-> _] | (_ & _ & -> & _ & -> & _)].
  - assert (Exists (fun e => is_number_float e = true) (real_json <$> l)) as Hf.
    { eapply Exists_known; [exact He | exact Hk |]. intros [|f] Hx; cbn; [done |]. intros _. by rewrite Hx. }
    rewrite (all_non_null_false is_boolean), (all_non_null_false fitsInteger), (all_non_null_true is_number).
    + exists REAL. split; [done |]. cbn [array_vector]. do 2 f_equal. apply fmap_back. eapply Forall_impl; [exact He |].
      intros [|f] Hx; [done |]. cbn. by rewrite Hx.
    + apply Forall_fmap, Forall_forall. intros [|f] _; cbn; [auto |]. destruct (isfinite f); auto.
    + eapply Exists_impl; [exact Hf |]. by intros [].
    + eapply Exists_impl; [exact Hf |]. by intros [].
  - assert (Exists (fun e => is_string e = true) (json_string <$> l)) as Hf.
    { eapply Exists_known; [exact He | exact Hk |]. by intros [s|]. }
    rewrite (all_non_null_false is_boolean), (all_non_null_false fitsInteger), (all_non_null_false is_number), (all_non_null_true is_string).
    + exists STR. split; [done |]. cbn [array_vector].
      assert (mapR (str_element dump) (json_string <$> l) = Ok l) as ->; [| done].
      apply mapR_back. eapply Forall_impl; [exact He |]. intros [s|] Hx; [| done]. unfold str_element. cbn. by rewrite mkCharUtf8_ok by apply Hx.
    + apply Forall_fmap, Forall_forall. intros [s|] _; cbn; auto.
    + eapply Exists_impl; [exact Hf |]. by intros [].
    + eapply Exists_impl; [exact Hf |]. by intros [].
    + eapply Exists_impl; [exact Hf |]. by intros [].
Qed.

Lemma scalar_back v j : plain_atomic v -> elements_json v = [j] -> jsonToSexp dump (reread j) = Ok (Atomic v no_attributes).
Proof.
  intros [He Hk] E. destruct v as [[|x []]|[|x []]|[|x []]|[|x []]]; cbn in E, He, Hk; try done; injection E as <-;
    apply Forall_cons in He as [Hx _]; apply Exists_cons in Hk as [Hk | Hk]; try (by inversion Hk).
  - apply negb_true_iff in Hk. rewrite Hk. apply Z.eqb_neq in Hk. by destruct Hx as [-> | [-> | ->]].
  - apply negb_true_iff, Z.eqb_neq in Hk. change (reread _) with (int_json x).
    destruct (int_json_spec x Hx) as [[-> _] | (_ & Hnum & Hnull & Hf & _ & Hg)]; [done |].
    destruct (int_json x); try done; cbn [get_int64] in Hg; subst; cbn [jsonToSexp]; by rewrite Hf.
  - destruct x as [|f]; [done |]. by rewrite Hx.
  - destruct x as [s|]; [| done]. cbn. by rewrite mkCharUtf8_ok by apply Hx.
Qed.

Lemma elements_json_good v : plain_elements v -> Forall (fun j => wf_json j /\ utf8_strings j) (elements_json v).
Proof.
  intros H. destruct v as [l|l|l|l]; cbn in H |- *; apply Forall_fmap; (eapply Forall_impl; [exact H |]); intros x Hx; cbn.
  - by destruct (x =? _).
  - destruct (x =? _); [done |]. unfold int_range, NA_INTEGER, INT_MAX in Hx. cbn. split; [lia | done].
  - destruct x as [|f]; [done |]. by rewrite Hx.
  - destruct x as [s|]; [| done]. by split; [| apply Hx].
Qed.

Lemma map_set_end {V} k (v : V) m : Forall (fun kv => str_lt kv.1 k = true) m -> map_set k v m = m ++ [(k, v)].
Proof.
  induction 1 as [|[k' v'] m H _ IH]; cbn; [done |]. cbn in H.
  destruct (str_eqb k k') eqn:E; [apply str_eqb_eq in E as ->; by rewrite str_lt_irrefl in H |].
  destruct (str_lt k k') eqn:E'; [| by rewrite IH].
  pose proof (str_lt_trans _ _ _ H E') as Hc. by rewrite str_lt_irrefl in Hc.
Qed.

Lemma named_members_sorted ns : forall ks js i out, drop i ns = Some <$> ks -> length ks = length js ->
  StronglySorted (fun a b => str_lt a b = true) ks ->
  Forall (fun kv => Forall (fun k => str_lt kv.1 k = true) ks) out ->
  named_members i (Some ns) (Ok <$> js) out = Ok (out ++ zip ks js).
Proof.
  induction ks as [|k ks IH]; intros [|j js] i out Hd Hl Hs Ho; try done; cbn; [by rewrite app_nil_r |].
  assert (ns !! i = Some (Some k)) as Hi.
  { rewrite <- (Nat.add_0_r i), <- lookup_drop, Hd. done. }
  unfold elt. rewrite Hi. change (translate (Some k)) with k. rewrite map_set_end.
  - rewrite IH.
    + by rewrite <- app_assoc.
    + replace (S i) with (i + 1)%nat by lia. by rewrite <- drop_drop, Hd.
    + by injection Hl.
    + by inversion Hs.
    + inversion Hs as [|? ? Hs' Hk]; subst. apply Forall_app. split; [| by repeat constructor].
      eapply Forall_impl; [exact Ho |]. by intros kv [_ H]%Forall_cons.
  - eapply Forall_impl; [exact Ho |]. by intros kv [H _]%Forall_cons.
Qed.

Lemma sorted_zip {V} (ks : list str) (js : list V) : length ks = length js ->
  StronglySorted (fun a b => str_lt a b = true) ks -> sorted (zip ks js).
Proof.
  revert js. induction ks as [|k ks IH]; intros [|j js] Hl Hs; cbn; try done. injection Hl as Hl.
  inversion Hs as [|? ? Hs' Hk]; subst. split; [| by apply IH].
  apply Forall_forall. intros [k' j'] Hin. apply elem_of_zip_l in Hin. rewrite Forall_forall in Hk. by apply Hk.
Qed.

Lemma object_members_back (m : list (str * result sexp)) vs : m.*2 = Ok <$> vs -> Forall no_nul m.*1 ->
  object_members m = Ok (vs, Some <$> m.*1).
Proof.
  revert vs. induction m as [|[k v] m IH]; intros [|x vs] E Hk; cbn in *; try done. injection E as -> E.
  apply Forall_cons in Hk as [Hk Hks]. rewrite mkCharUtf8_ok, (IH _ E Hks) by done. done.
Qed.

(** A plain value's JSON: a value of JSON's own, read back as the value. *)
Definition goes_back (x : sexp) : Prop :=
  exists j, sexpToJson parse false x = Ok j /\ (wf_json j /\ utf8_strings j) /\ is_primitive (reread j) = negb (container x)
  /\ jsonToSexp dump (reread j) = Ok x.

Lemma plain_list v : Forall goes_back v -> exists js, List.map (sexpToJson parse false) v = Ok <$> js
  /\ length js = length v /\ Forall (fun j => wf_json j /\ utf8_strings j) js
  /\ List.map (jsonToSexp dump) (List.map reread js) = Ok <$> v
  /\ is_primitive <$> List.map reread js = (fun x => negb (container x)) <$> v.
Proof.
  induction 1 as [|x v (j & E & Hj & Hp & Hb) _ (js & Ejs & Hl & Hjs & Hbs & Hps)]; [by exists [] |].
  exists (j :: js). cbn. rewrite E, Ejs, Hl, Hb, Hp. split; [done |]. split; [done |]. split; [by constructor |].
  split; [by f_equal | by f_equal].
Qed.

Lemma all_ok_Ok {B} (l : list B) : all_ok (Ok <$> l) = Ok l.
Proof. unfold all_ok. apply mapR_back, Forall_forall. done. Qed.

Lemma map_zip_snd {A B C} (f : B -> C) (l : list A) (k : list B) : length l = length k ->
  (List.map (fun kv => (fst kv, f (snd kv))) (zip l k)).*1 = l /\ (List.map (fun kv => (fst kv, f (snd kv))) (zip l k)).*2 = List.map f k.
Proof. revert k. induction l as [|x l IH]; intros [|y k] H; try done. cbn. injection H as H. destruct (IH k H) as [-> ->]. done. Qed.

Lemma plain_back x : plain x -> goes_back x.
Proof.
  induction x as [| v a | b | | v a IH] using sexp_rect_nested; intros H; [| | done | done |].
  - exists Null. done.
  - destruct H as [-> Hv]. pose proof (elements_json_good v (proj1 Hv)) as Hg.
    assert (sexpToJson parse false (Atomic v no_attributes) = atomic_json v no_attributes) as E.
    { cbn [sexpToJson]. destruct v as [|?|?|[|? []]]; reflexivity. }
    unfold goes_back. rewrite E, atomic_json_plain. cbn [container].
    destruct (decide (XLENGTH_atomic v = 1%nat)) as [Hl | Hl].
    + pose proof Hl as Hl'. rewrite <- elements_json_length in Hl'. destruct (elements_json v) as [|j []] eqn:Ej; try done.
      exists j. split; [done |]. split; [by apply Forall_cons in Hg as [? _] |]. split; [| by apply scalar_back].
      rewrite Hl. pose proof (read_elements_primitive v) as Hp. unfold read_elements in Hp. rewrite Ej in Hp. by apply Forall_cons in Hp as [? _].
    + exists (Array (elements_json v)). split; [| split; [| split]].
      * rewrite <- elements_json_length in Hl. by destruct (elements_json v) as [|? []].
      * apply Forall_and in Hg as [? ?]. by split; apply all_of_Forall.
      * cbn. by apply Nat.eqb_neq in Hl as ->.
      * destruct (vector_back v Hv Hl) as (t & Ht & Hb). cbn [reread jsonToSexp].
        change (List.map reread (elements_json v)) with (read_elements v). by rewrite Ht, Hb.
  - destruct H as [Hall Ha]. apply all_of_Forall in Hall.
    assert (Forall goes_back v) as Hv. { clear Ha. induction IH; [constructor |]. apply Forall_cons in Hall as [? ?]. constructor; auto. }
    destruct (plain_list v Hv) as (js & Ejs & Hl & Hjs & Hbs & Hps). apply Forall_and in Hjs as [Hw Hu].
    destruct Ha as [[-> Hc] | (ks & -> & Hlk & Hs & Hks)].
    + exists (Array js). split; [| split; [by split; apply all_of_Forall | split; [done |]]].
      * cbn [sexpToJson]. change (inherits no_attributes "data.frame"%string) with false. cbn [names no_attributes]. by rewrite Ejs, all_ok_Ok.
      * cbn [reread jsonToSexp]. assert (type_of_array (List.map reread js) = None) as ->; [| by rewrite Hbs, all_ok_Ok].
        unfold type_of_array. destruct Hc as [-> | Hc]; [by destruct js |].
        assert (forallb is_primitive (List.map reread js) = false) as ->; [| by rewrite andb_false_r].
        apply not_true_is_false. intros Hf. rewrite List.forallb_forall in Hf.
        apply Exists_exists in Hc as (x & Hx & Hcx). apply (list_elem_of_fmap_2 (fun x => negb (container x))) in Hx.
        rewrite <- Hps, Hcx in Hx. apply list_elem_of_fmap in Hx as (j & Hj & Hin). rewrite Hf in Hj; [done | by apply list_elem_of_In].
    + exists (Object (zip ks js)). rewrite <- Hl in Hlk. split; [| split; [split; [split |] | split; [done |]]].
      * cbn [sexpToJson]. change (inherits (named (Some <$> ks)) "data.frame"%string) with false. cbn [names named]. rewrite Ejs.
        rewrite (named_members_sorted (Some <$> ks) ks js 0 []); [done | done | done | done | constructor].
      * by apply sorted_zip.
      * apply all_of_Forall, Forall_forall. intros [k j] Hin. apply elem_of_zip_r in Hin. rewrite Forall_forall in Hw. by apply Hw.
      * apply all_of_Forall, Forall_forall. intros [k j] Hin. rewrite Forall_forall in Hu. rewrite Forall_forall in Hks.
        split; [apply Hks; by apply elem_of_zip_l in Hin | apply Hu; by apply elem_of_zip_r in Hin].
      * cbn [reread jsonToSexp]. rewrite List.map_map. cbn [fst snd].
        destruct (map_zip_snd (fun j => jsonToSexp dump (reread j)) ks js Hlk) as [H1 H2].
        rewrite (object_members_back _ v).
        -- by rewrite H1.
        -- rewrite H2, <- List.map_map. exact Hbs.
        -- rewrite H1. eapply Forall_impl; [exact Hks |]. by intros k [].
Qed.

(** C28: a value that R code sends as JSON text and reads back is the same.
    [.jv.json.read(.jv.json.write(x, null = "null"))] gives [x] for every plain
    value: NULL, vectors of the four types with their NAs, lists and named
    lists of these, nested. *)
Theorem json_roundtrip x : parse_dump -> plain x ->
  exists text, toJson parse dump x (scalar (STRSXP [Some ("null"%string : str)])) = Ok text
  /\ fromJson dump parse text = Ok x.
Proof.
  intros Hlaw Hx. destruct (plain_back x Hx) as (j & Ej & [Hw Hu] & _ & Hb). exists (dump j). split.
  - unfold toJson, scalar. change (negb (str_eqb _ _)) with false. by rewrite Ej.
  - unfold fromJson. rewrite (Hlaw j Hw Hu). by destruct (reread j).
Qed.

End Typing.

(** ** The hypotheses can hold

    A text for every value, without zero bytes: the digits of its number. *)
Definition double_tree (f : double) : bool + bool + unit + (bool * positive * Z) :=
  match f with
  | S754_zero s => inl (inl (inl s))
  | S754_infinity s => inl (inl (inr s))
  | S754_nan => inl (inr tt)
  | S754_finite s m e => inr (s, m, e)
  end.

Definition tree_double (t : bool + bool + unit + (bool * positive * Z)) : double :=
  match t with
  | inl (inl (inl s)) => S754_zero s
  | inl (inl (inr s)) => S754_infinity s
  | inl (inr _) => S754_nan
  | inr (s, m, e) => S754_finite s m e
  end.

Abbreviation leaf := (unit + bool + bool + Z + Z + str + (bool + bool + unit + (bool * positive * Z)))%type.

Fixpoint to_tree (j : basic_json) : gen_tree leaf :=
  match j with
  | Null => GenLeaf (inl (inl (inl (inl (inl (inl tt))))))
  | Discarded => GenLeaf (inl (inl (inl (inl (inl (inr false))))))
  | Boolean b => GenLeaf (inl (inl (inl (inl (inr b)))))
  | Number_integer z => GenLeaf (inl (inl (inl (inr z))))
  | Number_unsigned z => GenLeaf (inl (inl (inr z)))
  | String s => GenLeaf (inl (inr s))
  | Number_float f => GenLeaf (inr (double_tree f))
  | Array l => GenNode 0 (List.map to_tree l)
  | Object m => GenNode 1 (List.map (fun kv => GenNode 2 [GenLeaf (inl (inr (fst kv))); to_tree (snd kv)]) m)
  end.

Fixpoint of_tree (t : gen_tree leaf) : basic_json :=
  match t with
  | GenLeaf (inl (inl (inl (inl (inl (inl tt)))))) => Null
  | GenLeaf (inl (inl (inl (inl (inl (inr _)))))) => Discarded
  | GenLeaf (inl (inl (inl (inl (inr b))))) => Boolean b
  | GenLeaf (inl (inl (inl (inr z)))) => Number_integer z
  | GenLeaf (inl (inl (inr z))) => Number_unsigned z
  | GenLeaf (inl (inr s)) => String s
  | GenLeaf (inr f) => Number_float (tree_double f)
  | GenNode 0 l => Array (List.map of_tree l)
  | GenNode 1 m =>
      Object (List.map (fun kv => match kv with GenNode _ [GenLeaf (inl (inr k)); v] => (k, of_tree v) | _ => ([], Null) end) m)
  | GenNode _ _ => Null
  end.

Lemma of_to_tree j : of_tree (to_tree j) = j.
Proof.
  induction j as [| b | z | z | f | s | | l IH | m IH] using json_rect_nested; cbn; try done.
  - by destruct f.
  - f_equal. induction IH as [|x l H _ IHl]; cbn; [done |]. by rewrite H, IHl.
  - f_equal. induction IH as [|[k x] m H _ IHm]; cbn; [done |]. cbn in H. by rewrite H, IHm.
Qed.

Fixpoint digits (p : positive) : str :=
  match p with xH => [] | xO p => "0"%char :: digits p | xI p => "1"%char :: digits p end.

Fixpoint undigits (s : str) : positive :=
  match s with [] => xH | c :: s => if char_eqb c "0"%char then xO (undigits s) else xI (undigits s) end.

Lemma undigits_digits p : undigits (digits p) = p.
Proof. induction p; cbn; congruence. Qed.

Definition example_dump (j : basic_json) : str := digits (encode (to_tree j)).

Definition example_parse (s : str) : basic_json :=
  match decode (undigits s) with Some t => reread (of_tree t) | None => Discarded end.

Lemma example_parse_dump : parse_dump example_parse example_dump.
Proof. intros j _ _. unfold example_parse, example_dump. by rewrite undigits_digits, decode_encode, of_to_tree. Qed.

(** list(a = c(1L, NA), b = list("x", c(TRUE, FALSE)), n = NULL) *)
Definition example_value : sexp :=
  VECSXP [scalar (INTSXP [1; NA_INTEGER]);
          VECSXP [scalar (STRSXP [Some ("x"%string : str)]); scalar (LGLSXP [1; 0])] no_attributes;
          R_NilValue]
         (named [Some ("a"%string : str); Some ("b"%string : str); Some ("n"%string : str)]).

Lemma example_plain : plain example_value.
Proof.
  assert (forall c, 97 <= code c <= 122 -> plain_string [c]) as Hs.
  { intros c Hc. split; [constructor; [intros ->; by destruct Hc as [Hc _]; apply Hc | constructor] |].
    apply utf8_one. constructor. lia. }
  split.
  - split; [| split; [| split; [done |]]].
    + split; [done |]. split; [| left; reflexivity]. repeat constructor; unfold int_range, NA_INTEGER, INT_MAX; lia.
    + split; [| left; split; [done |]; right; right; left; reflexivity].
      split; [| split; [| done]].
      * split; [done |]. split; [| left; reflexivity]. constructor; [| constructor]. apply Hs. vm_compute. split; discriminate.
      * split; [done |]. split; [| done]. constructor; [auto | constructor; [auto | constructor]].
    + done.
  - right. exists ["a"%string : str; "b"%string : str; "n"%string : str]. split; [done |]. split; [done |]. split.
    + repeat constructor.
    + do 3 (constructor; [apply Hs; vm_compute; split; discriminate |]). constructor.
Qed.

Lemma json_roundtrip_witness : exists text,
  fromJson example_dump example_parse text = Ok example_value.
Proof.
  destruct (json_roundtrip example_parse example_dump example_value example_parse_dump example_plain) as (text & _ & H).
  exists text. exact H.
Defined.

(** Two texts of class "json". *)
Definition toy_parse (s : str) : basic_json :=
  if str_eqb s "{}"%string then Object [] else if str_eqb s "1"%string then Number_unsigned 1 else Discarded.

Definition factor_attributes (ls : list rstring) : attributes :=
  {| names := None; class := ["factor"%string : str]; levels := Some ls; dim := None; row_names := None |}.

(** data.frame(f = factor("u"), x = 1L:2L, row.names = c("r", "s")) with a
    list column. *)
Definition example_frame : sexp :=
  VECSXP [Atomic (INTSXP [1; NA_INTEGER]) (factor_attributes [Some ("u"%string : str)]);
          Atomic (INTSXP [1; 2]) no_attributes;
          VECSXP [R_NilValue; RAWSXP "Many hands"%string] no_attributes]
    {| names := Some [Some ("f"%string : str); Some ("x"%string : str); Some ("l"%string : str)];
       class := ["data.frame"%string : str]; levels := None; dim := None;
       row_names := Some [Some ("r"%string : str); Some ("s"%string : str)] |}.

Example example_frame_json : sexpToJson toy_parse false example_frame
  = Ok (Array [Object [("_row"%string : str, String "r"%string); ("f"%string : str, String "u"%string); ("l"%string : str, Null);
                       ("x"%string : str, Number_integer 1)];
               Object [("_row"%string : str, String "s"%string); ("l"%string : str, String "TWFueSBoYW5kcw=="%string);
                       ("x"%string : str, Number_integer 2)]]).
Proof. vm_compute. reflexivity. Qed.


(** A data frame in a data frame: its columns are taken for the rows of a list
    column.  Here one column, and two rows: the second is read past the end. *)
Example nested_data_frame_reads_past_the_end :
  let frame v ns := VECSXP v {| names := Some ns; class := ["data.frame"%string : str]; levels := None; dim := None; row_names := None |} in
  sexpToJson toy_parse false
    (frame [Atomic (INTSXP [1; 2]) no_attributes; frame [Atomic (INTSXP [3; 4]) no_attributes] [Some ("y"%string : str)]]
           [Some ("x"%string : str); Some ("d"%string : str)]) = Undefined.
Proof. vm_compute. reflexivity. Qed.

(** A first column that is a matrix: as many rows as it has elements. *)
Example matrix_column_reads_past_the_end :
  let matrix v := Atomic (INTSXP v) {| names := None; class := []; levels := None; dim := Some [2; 2]; row_names := None |} in
  sexpToJson toy_parse false
    (VECSXP [matrix [1; 2; 3; 4]; Atomic (INTSXP [5; 6]) no_attributes]
       {| names := Some [Some ("m"%string : str); Some ("x"%string : str)]; class := ["data.frame"%string : str];
          levels := None; dim := None; row_names := None |}) = Undefined.
Proof. vm_compute. reflexivity. Qed.

(** What does not come back: a list of scalars becomes a vector, and a vector of
    one NA is NULL. *)
Example scalars_become_a_vector :
  (let? j := sexpToJson toy_parse false (VECSXP [scalar (INTSXP [1]); scalar (LGLSXP [1])] no_attributes) in jsonToSexp example_dump j)
  = Ok (scalar (REALSXP [Real (double_of_int 1); Real (double_of_int 1)]))
  /\ (let? j := sexpToJson toy_parse false (scalar (STRSXP [None])) in jsonToSexp example_dump j) = Ok R_NilValue.
Proof. vm_compute. split; reflexivity. Qed.
