(* ===== verification/RDebugger.v ===== *)
(** * The R kernel's debugger (elara/r/debugger_r.cpp)

    [RDebugger]: Debug Adapter Protocol requests on R's browser().  A request is
    handled by the thread that read it: R's own when the kernel is idle, the
    control thread while a cell runs.  What needs R is then a job for R's
    thread, which takes it when it is stopped at a browser() prompt ([stopped]);
    the control thread waits for the job's promise.

    The members of the class are [t].  [request] and what it calls are
    computations of the monad [M] (a result or an exception, and the state).
    [stopped] is cut where its lock is free, into the steps of [stopped_step];
    a step of the control thread can come between any two of them.  What hera
    answers (the stack, the variables, the value of an expression) is an
    argument of the step that asks: the objects of R it refers to are [obj]. *)

From Stdlib Require Import Ascii String ZArith Lia.
From stdpp Require Import base list strings pretty sorting.
From S2P Require Import Prelude RJson Json Registration.

Local Open Scope Z_scope.
Local Open Scope jovian_scope.

(** ** MurmurHash2

    32-bit arithmetic; the bytes are taken four at a time. *)
Section Murmur.

Definition murmur_m : Z := 0x5bd1e995.

Definition mul32 (a b : Z) : Z := wrap_u32 (a * b).

Definition murmur_mix (h k : Z) : Z :=
  let k := mul32 k murmur_m in
  let k := Z.lxor k (Z.shiftr k 24) in
  let k := mul32 k murmur_m in
  Z.lxor (mul32 h murmur_m) k.

Definition murmur_final (h : Z) : Z :=
  let h := Z.lxor h (Z.shiftr h 13) in
  let h := mul32 h murmur_m in
  Z.lxor h (Z.shiftr h 15).

Fixpoint murmur_from (h : Z) (p : str) : Z :=
  match p with
  | a :: b :: c :: d :: rest =>
      murmur_from (murmur_mix h (Z.lor (Z.lor (Z.lor (code a) (Z.shiftl (code b) 8)) (Z.shiftl (code c) 16)) (Z.shiftl (code d) 24))) rest
  | [a; b; c] => mul32 (Z.lxor (Z.lxor (Z.lxor h (Z.shiftl (code c) 16)) (Z.shiftl (code b) 8)) (code a)) murmur_m
  | [a; b] => mul32 (Z.lxor (Z.lxor h (Z.shiftl (code b) 8)) (code a)) murmur_m
  | [a] => mul32 (Z.lxor h (code a)) murmur_m
  | [] => h
  end.

Definition murmur2 (data : str) (seed : Z) : Z :=
  murmur_final (murmur_from (Z.lxor seed (wrap_u32 (Z.of_nat (length data)))) data).

End Murmur.

Definition m_hashSeed : Z := 3339675911.

Section RDebugger.
Context `{J : JsonLib}.
(** R's objects, by identity, and its global environment. *)
Context {obj : Type} (R_GlobalEnv : obj).
(** JSON made of R values, as the program's json; the parser of the library. *)
Context (embed : basic_json -> json) (parse_json : str -> basic_json).

(** What is put off until R's thread is stopped. *)
Inductive Work :=
| StackTrace (req : json)
| Variables (req : json)
| Evaluate (req : json)
| InspectVariables (req : json).

(** What hera answers.  A failed call is NULL. *)
Record Answer := {
  a_frames : sexp;
  a_envs : option (list obj);
  a_rows : sexp;
  a_children : option (list (option obj));
  a_result : sexp;
  a_child : option obj
}.

Definition no_answer : Answer :=
  {| a_frames := R_NilValue; a_envs := None; a_rows := R_NilValue; a_children := None; a_result := R_NilValue; a_child := None |}.

(** What the debugger asks of the rest: an event for the client (and whether the
    text printed before goes out first), an interrupt of R, a file, the
    breakpoints in functions. *)
Inductive Effect :=
| Event (event : json) (flush : bool)
| RequestRInterrupt
| WriteFile (path text : str)
| ApplyBreakpoints (spec : list (str * list Z)).

Record t := {
  m_started : bool;
  m_seq : Z;
  m_tmpPrefix : str;
  m_breakpoints : list (str * list Z);
  m_breakpointsChanged : bool;
  m_stopped : bool;
  m_resume : str;
  m_lastResume : str;
  m_pauseRequested : bool;
  m_pausing : bool;
  m_calledFrom : bool;
  m_browsed : bool;
  m_locationPath : str;
  m_locationLine : Z;
  m_jobs : list (nat * Work);
  m_references : list (Z * obj);
  m_nextReference : Z;
  m_frames : list json;
  (** the promises: how many were made, and those with a value *)
  promises : nat;
  answered : list (nat * json);
  effects : list Effect
}.

Definition upd_started b s := Build_t b (m_seq s) (m_tmpPrefix s) (m_breakpoints s) (m_breakpointsChanged s) (m_stopped s) (m_resume s) (m_lastResume s) (m_pauseRequested s) (m_pausing s) (m_calledFrom s) (m_browsed s) (m_locationPath s) (m_locationLine s) (m_jobs s) (m_references s) (m_nextReference s) (m_frames s) (promises s) (answered s) (effects s).
Definition upd_seq n s := Build_t (m_started s) n (m_tmpPrefix s) (m_breakpoints s) (m_breakpointsChanged s) (m_stopped s) (m_resume s) (m_lastResume s) (m_pauseRequested s) (m_pausing s) (m_calledFrom s) (m_browsed s) (m_locationPath s) (m_locationLine s) (m_jobs s) (m_references s) (m_nextReference s) (m_frames s) (promises s) (answered s) (effects s).
Definition upd_breakpoints bs c s := Build_t (m_started s) (m_seq s) (m_tmpPrefix s) bs c (m_stopped s) (m_resume s) (m_lastResume s) (m_pauseRequested s) (m_pausing s) (m_calledFrom s) (m_browsed s) (m_locationPath s) (m_locationLine s) (m_jobs s) (m_references s) (m_nextReference s) (m_frames s) (promises s) (answered s) (effects s).
Definition upd_stopped b r s := Build_t (m_started s) (m_seq s) (m_tmpPrefix s) (m_breakpoints s) (m_breakpointsChanged s) b r (m_lastResume s) (m_pauseRequested s) (m_pausing s) (m_calledFrom s) (m_browsed s) (m_locationPath s) (m_locationLine s) (m_jobs s) (m_references s) (m_nextReference s) (m_frames s) (promises s) (answered s) (effects s).
Definition upd_lastResume r s := Build_t (m_started s) (m_seq s) (m_tmpPrefix s) (m_breakpoints s) (m_breakpointsChanged s) (m_stopped s) (m_resume s) r (m_pauseRequested s) (m_pausing s) (m_calledFrom s) (m_browsed s) (m_locationPath s) (m_locationLine s) (m_jobs s) (m_references s) (m_nextReference s) (m_frames s) (promises s) (answered s) (effects s).
Definition upd_pause q p s := Build_t (m_started s) (m_seq s) (m_tmpPrefix s) (m_breakpoints s) (m_breakpointsChanged s) (m_stopped s) (m_resume s) (m_lastResume s) q p (m_calledFrom s) (m_browsed s) (m_locationPath s) (m_locationLine s) (m_jobs s) (m_references s) (m_nextReference s) (m_frames s) (promises s) (answered s) (effects s).
Definition upd_calledFrom c s := Build_t (m_started s) (m_seq s) (m_tmpPrefix s) (m_breakpoints s) (m_breakpointsChanged s) (m_stopped s) (m_resume s) (m_lastResume s) (m_pauseRequested s) (m_pausing s) c (m_browsed s) (m_locationPath s) (m_locationLine s) (m_jobs s) (m_references s) (m_nextReference s) (m_frames s) (promises s) (answered s) (effects s).
Definition upd_browsed b s := Build_t (m_started s) (m_seq s) (m_tmpPrefix s) (m_breakpoints s) (m_breakpointsChanged s) (m_stopped s) (m_resume s) (m_lastResume s) (m_pauseRequested s) (m_pausing s) (m_calledFrom s) b (m_locationPath s) (m_locationLine s) (m_jobs s) (m_references s) (m_nextReference s) (m_frames s) (promises s) (answered s) (effects s).
Definition upd_location p l s := Build_t (m_started s) (m_seq s) (m_tmpPrefix s) (m_breakpoints s) (m_breakpointsChanged s) (m_stopped s) (m_resume s) (m_lastResume s) (m_pauseRequested s) (m_pausing s) (m_calledFrom s) (m_browsed s) p l (m_jobs s) (m_references s) (m_nextReference s) (m_frames s) (promises s) (answered s) (effects s).
Definition upd_jobs js n s := Build_t (m_started s) (m_seq s) (m_tmpPrefix s) (m_breakpoints s) (m_breakpointsChanged s) (m_stopped s) (m_resume s) (m_lastResume s) (m_pauseRequested s) (m_pausing s) (m_calledFrom s) (m_browsed s) (m_locationPath s) (m_locationLine s) js (m_references s) (m_nextReference s) (m_frames s) n (answered s) (effects s).
Definition upd_references rs n s := Build_t (m_started s) (m_seq s) (m_tmpPrefix s) (m_breakpoints s) (m_breakpointsChanged s) (m_stopped s) (m_resume s) (m_lastResume s) (m_pauseRequested s) (m_pausing s) (m_calledFrom s) (m_browsed s) (m_locationPath s) (m_locationLine s) (m_jobs s) rs n (m_frames s) (promises s) (answered s) (effects s).
Definition upd_frames fs s := Build_t (m_started s) (m_seq s) (m_tmpPrefix s) (m_breakpoints s) (m_breakpointsChanged s) (m_stopped s) (m_resume s) (m_lastResume s) (m_pauseRequested s) (m_pausing s) (m_calledFrom s) (m_browsed s) (m_locationPath s) (m_locationLine s) (m_jobs s) (m_references s) (m_nextReference s) fs (promises s) (answered s) (effects s).
Definition upd_answered a s := Build_t (m_started s) (m_seq s) (m_tmpPrefix s) (m_breakpoints s) (m_breakpointsChanged s) (m_stopped s) (m_resume s) (m_lastResume s) (m_pauseRequested s) (m_pausing s) (m_calledFrom s) (m_browsed s) (m_locationPath s) (m_locationLine s) (m_jobs s) (m_references s) (m_nextReference s) (m_frames s) (promises s) a (effects s).
Definition upd_effects e s := Build_t (m_started s) (m_seq s) (m_tmpPrefix s) (m_breakpoints s) (m_breakpointsChanged s) (m_stopped s) (m_resume s) (m_lastResume s) (m_pauseRequested s) (m_pausing s) (m_calledFrom s) (m_browsed s) (m_locationPath s) (m_locationLine s) (m_jobs s) (m_references s) (m_nextReference s) (m_frames s) (promises s) (answered s) e.

(** ** The monad *)
Definition M (A : Type) : Type := t -> result A * t.
Definition ret {A} (a : A) : M A := fun s => (Ok a, s).
Definition bind {A B} (m : M A) (f : A -> M B) : M B :=
  fun s => match m s with
           | (Ok a, s) => f a s
           | (Throw w, s) => (Throw w, s)
           | (Undefined, s) => (Undefined, s)
           end.
Definition lift {A} (r : result A) : M A := fun s => (r, s).
Definition gets {A} (f : t -> A) : M A := fun s => (Ok (f s), s).
Definition modify (f : t -> t) : M unit := fun s => (Ok tt, f s).
Notation "'let*' x ':=' m 'in' f" := (bind m (fun x => f)) (at level 10, x pattern, m at level 200, f at level 200).

Fixpoint mapM {A B} (f : A -> M B) (l : list A) : M (list B) :=
  match l with
  | [] => ret []
  | x :: l => let* y := f x in let* ys := mapM f l in ret (y :: ys)
  end.

Definition effect (e : Effect) : M unit := modify (fun s => upd_effects (effects s ++ [e]) s).

(** ** Responses and events *)

Definition response (request : json) (success : bool) (body : json) (message : str) : result json :=
  let? seq := value get_int request "seq"%string 0 in
  let? command := value get_str request "command"%string [] in
  let out := mk_object [("type"%string : str, mk_str "response"%string); ("seq"%string : str, mk_int 0);
                        ("request_seq"%string : str, mk_int seq); ("success"%string : str, mk_bool success);
                        ("command"%string : str, mk_str command); ("body"%string : str, body)] in
  Ok (if bool_decide (message = []) then out else insert_key out "message"%string (mk_str message)).

Definition event (name : str) (body : json) (onRThread : bool) : M unit :=
  let* n := gets (fun s => m_seq s + 1) in
  let* _ := modify (upd_seq n) in
  effect (Event (mk_object [("type"%string : str, mk_str "event"%string); ("seq"%string : str, mk_int n);
                            ("event"%string : str, mk_str name); ("body"%string : str, body)]) onRThread).

(** ** Cells and breakpoints *)

Definition cellPath (code_ : str) (s : t) : str := m_tmpPrefix s ++ to_string (murmur2 code_ m_hashSeed) ++ ".r"%string.

Definition breakpointLines (path : str) (s : t) : list Z := default [] (map_get path (m_breakpoints s)).

Definition applyBreakpoints : M unit :=
  fun s =>
    if negb (m_breakpointsChanged s) && bool_decide (m_breakpoints s = []) then (Ok tt, s)
    else (let* _ := modify (upd_breakpoints (m_breakpoints s) false) in effect (ApplyBreakpoints (m_breakpoints s))) s.

(** ** References to R's objects *)

Definition reference (object : obj) : M Z :=
  fun s => (Ok (m_nextReference s), upd_references (m_references s ++ [(m_nextReference s, object)]) (m_nextReference s + 1) s).

Definition globals_reference : Z := 0x7fffffff.

Definition referenced (id : Z) (s : t) : option obj :=
  if id =? globals_reference then Some R_GlobalEnv
  else snd <$> List.find (fun r => fst r =? id) (m_references s).

Definition clearReferences : M unit := modify (fun s => upd_frames [] (upd_references [] (m_nextReference s) s)).

(** ** What needs R *)

(** [sexpToJson(x, false)], as the program's json *)
Definition described (x : sexp) : result json := let? j := sexpToJson parse_json false x in Ok (embed j).

(** [std::filesystem::path::filename]: what follows the last slash. *)
Fixpoint filename (path : str) : str :=
  match path with
  | [] => []
  | c :: rest => if existsb (char_eqb "/"%char) rest then filename rest else if char_eqb "/"%char c then rest else path
  end.

Definition stack_frame (f : json) (env : obj) : M json :=
  let* id := reference env in
  let* name := lift (value get_str f "name"%string []) in
  let* line := lift (value get_int f "line"%string 0) in
  let* column := lift (value get_int f "column"%string 1) in
  let* path := lift (value get_str f "path"%string []) in
  let frame := mk_object [("id"%string : str, mk_int id); ("name"%string : str, mk_str name);
                          ("line"%string : str, mk_int line); ("column"%string : str, mk_int column)] in
  ret (if bool_decide (path = []) then frame
       else insert_key frame "source"%string
              (mk_object [("path"%string : str, mk_str path); ("name"%string : str, mk_str (filename path))])).

Definition frames_body (frames : list json) : json :=
  mk_object [("stackFrames"%string : str, mk_array frames); ("totalFrames"%string : str, mk_int (Z.of_nat (length frames)))].

Definition stackTrace (a : Answer) (req : json) : M json :=
  fun s =>
    if bool_decide (m_frames s = []) then
      (let* d := lift (described (a_frames a)) in
       let* frames :=
         match is_array d, a_envs a with
         | true, Some envs => mapM (fun fe => stack_frame fe.1 fe.2) (zip (elements d) envs)
         | _, _ => ret []
         end in
       let* _ := modify (upd_frames frames) in
       lift (response req true (frames_body frames) [])) s
    else lift (response req true (frames_body (m_frames s)) []) s.

(** A row, with a reference when it can be opened. *)
Definition variable_row (row : json) (child : option obj) : M json :=
  let* name := lift (value get_str row "name"%string []) in
  let* val := lift (value get_str row "value"%string []) in
  let* type := lift (value get_str row "type"%string []) in
  let* ref := match child with Some c => reference c | None => ret 0 end in
  ret (mk_object [("name"%string : str, mk_str name); ("value"%string : str, mk_str val);
                  ("type"%string : str, mk_str type); ("variablesReference"%string : str, mk_int ref)]).

Fixpoint variable_rows (rows : list json) (children : list (option obj)) : M (list json) :=
  match rows with
  | [] => ret []
  | row :: rows =>
      let* r := variable_row row (match children with c :: _ => c | [] => None end) in
      let* rs := variable_rows rows (tail children) in
      ret (r :: rs)
  end.

Definition variableRows (a : Answer) : M json :=
  let* d := lift (described (a_rows a)) in
  if is_array d then let* rows := variable_rows (elements d) (default [] (a_children a)) in ret (mk_array rows)
  else ret (mk_array []).

Definition variables_body (rows : json) : json := mk_object [("variables"%string : str, rows)].

Definition variables (a : Answer) (req : json) : M json :=
  let* args := lift (value any req "arguments"%string empty_object) in
  let* id := lift (value get_int args "variablesReference"%string 0) in
  let* object := gets (referenced id) in
  match object with
  | None => lift (response req false empty_object "no such variables reference"%string)
  | Some _ => let* rows := variableRows a in lift (response req true (variables_body rows) [])
  end.

Definition inspectVariables (a : Answer) (req : json) : M json :=
  let* rows := variableRows a in lift (response req true (variables_body rows) []).

(** (The frame is looked up, the global environment standing in, and handed to
    hera with the expression.) *)
Definition evaluate (a : Answer) (req : json) : M json :=
  let* args := lift (value any req "arguments"%string empty_object) in
  let* frame := lift (value get_int args "frameId"%string 0) in
  let* expression := lift (value get_str args "expression"%string []) in
  let* _ := lift (mkCharUtf8 expression) in
  let* d := lift (described (a_result a)) in
  let* text := lift (match get_str d with Some s => Ok s | None => dump Strict d end) in
  let* ref := match a_child a with Some c => reference c | None => ret 0 end in
  lift (response req true (mk_object [("result"%string : str, mk_str text); ("variablesReference"%string : str, mk_int ref)]) []).

Definition work (w : Work) (a : Answer) : M json :=
  match w with
  | StackTrace req => stackTrace a req
  | Variables req => variables a req
  | Evaluate req => evaluate a req
  | InspectVariables req => inspectVariables a req
  end.

Definition work_request (w : Work) : json :=
  match w with StackTrace req | Variables req | Evaluate req | InspectVariables req => req end.

(** ** Requests *)

(** What a request gives: a response, or a promise to wait for. *)
Inductive Reply :=
| Now (response : json)
| Promised (id : nat).

(** Work that needs R: done at once on R's thread; from another thread a job for
    R's thread when it is stopped, and otherwise not done at all. *)
Definition onRThread (on_r : bool) (a : Answer) (w : Work) : M Reply :=
  if on_r then let* j := work w a in ret (Now j)
  else fun s =>
    if m_stopped s then (Ok (Promised (promises s)), upd_jobs (m_jobs s ++ [(promises s, w)]) (S (promises s)) s)
    else (let* j := lift (response (work_request w) false empty_object "R is running: only answered when it is stopped"%string) in
          ret (Now j)) s.

(** The asker gives up after a minute: its job is withdrawn, unless R's thread
    has taken it. *)
Definition stop_waiting (id : nat) (s : t) : t := upd_jobs (List.filter (fun j => negb (fst j =? id)%nat) (m_jobs s)) (promises s) s.

Definition initialize_body : json :=
  mk_object [("supportsConfigurationDoneRequest"%string : str, mk_bool true);
             ("supportsEvaluateForHovers"%string : str, mk_bool true);
             ("supportsConditionalBreakpoints"%string : str, mk_bool false);
             ("supportsStepBack"%string : str, mk_bool false);
             ("supportsSetVariable"%string : str, mk_bool false);
             ("supportsTerminateRequest"%string : str, mk_bool false);
             ("exceptionBreakpointFilters"%string : str, mk_array [])].

Definition breakpoints_info (b : str * list Z) : json :=
  mk_object [("source"%string : str, mk_str b.1);
             ("breakpoints"%string : str, mk_array ((fun line => mk_object [("line"%string : str, mk_int line)]) <$> b.2))].

Definition debugInfo_body (s : t) : json :=
  mk_object [("isStarted"%string : str, mk_bool (m_started s)); ("hashMethod"%string : str, mk_str "Murmur2"%string);
             ("hashSeed"%string : str, mk_int m_hashSeed); ("tmpFilePrefix"%string : str, mk_str (m_tmpPrefix s));
             ("tmpFileSuffix"%string : str, mk_str ".r"%string);
             ("breakpoints"%string : str, mk_array (breakpoints_info <$> m_breakpoints s));
             ("stoppedThreads"%string : str, mk_array (if m_stopped s then [mk_int 1] else []));
             ("richRendering"%string : str, mk_bool false); ("exceptionPaths"%string : str, mk_array [])].

Definition scopes_body (frame : Z) : json :=
  let scope (name : str) (ref : Z) :=
    mk_object [("name"%string : str, mk_str name); ("variablesReference"%string : str, mk_int ref);
               ("expensive"%string : str, mk_bool false)] in
  mk_object [("scopes"%string : str, mk_array [scope "Locals"%string frame; scope "Globals"%string globals_reference])].

Definition threads_body : json :=
  mk_object [("threads"%string : str, mk_array [mk_object [("id"%string : str, mk_int 1); ("name"%string : str, mk_str "R"%string)]])].

(** [for (const auto& b : j)] *)
Definition iterated (j : json) : list json :=
  if is_array j then elements j else if is_object j then snd <$> members j else if is_null j then [] else [j].

Definition verified_breakpoint (path : str) (line : Z) : json :=
  mk_object [("verified"%string : str, mk_bool true); ("line"%string : str, mk_int line);
             ("source"%string : str, mk_object [("path"%string : str, mk_str path)])].

Definition set_breakpoints (path : str) (lines : list Z) (s : t) : t :=
  upd_breakpoints (if bool_decide (lines = []) then map_erase path (m_breakpoints s) else map_set path lines (m_breakpoints s)) true s.

(** The commands that let R go on, with what R's browser is told. *)
Definition resume_command (command : str) : option str :=
  if str_eqb command "continue"%string then Some ("c"%string : str)
  else if str_eqb command "next"%string then Some ("n"%string : str)
  else if str_eqb command "stepIn"%string then Some ("s"%string : str)
  else if str_eqb command "stepOut"%string then Some ("f"%string : str)
  else None.

Section Request.
(** On R's thread?  What hera would answer, and the files that can be read. *)
Context (on_r : bool) (a : Answer) (disk : str -> option str) (req : json).

Definition respond (success : bool) (body : json) (message : str) : M Reply :=
  let* j := lift (response req success body message) in ret (Now j).

Definition when_on_r (m : M unit) : M unit := if on_r then m else ret tt.

Definition attach : M Reply :=
  let* _ := modify (upd_started true) in
  let* reply := lift (response req true empty_object []) in
  let* _ := event "initialized"%string empty_object on_r in
  ret (Now reply).

Definition disconnect : M Reply :=
  let* _ := modify (upd_started false) in
  let* _ := modify (upd_breakpoints [] true) in
  let* _ := modify (fun s => if m_stopped s then upd_stopped true "c"%string s else s) in
  let* _ := when_on_r applyBreakpoints in
  respond true empty_object [].

Definition dumpCell (args : json) : M Reply :=
  let* code_ := lift (value get_str args "code"%string []) in
  let* path := gets (cellPath code_) in
  let* _ := effect (WriteFile path code_) in
  respond true (mk_object [("sourcePath"%string : str, mk_str path)]) [].

Definition source_path (args : json) : result str :=
  let? source := value any args "source"%string empty_object in value get_str source "path"%string [].

Definition setBreakpoints (args : json) : M Reply :=
  let* path := lift (source_path args) in
  let* list := lift (value any args "breakpoints"%string (mk_array [])) in
  let* lines := mapM (fun b => lift (value get_int b "line"%string 0)) (iterated list) in
  let* _ := modify (set_breakpoints path lines) in
  let* _ := when_on_r applyBreakpoints in
  respond true (mk_object [("breakpoints"%string : str, mk_array (verified_breakpoint path <$> lines))]) [].

Definition go_on (command input : str) : M Reply :=
  fun s =>
    if m_stopped s
    then (let* _ := modify (upd_stopped true input) in
          respond true (if str_eqb command "continue"%string
                        then mk_object [("allThreadsContinued"%string : str, mk_bool true)] else empty_object) []) s
    else respond false empty_object "not stopped"%string s.

Definition pause : M Reply :=
  fun s =>
    if m_stopped s then respond true empty_object [] s
    else (let* _ := modify (fun s => upd_pause true (m_pausing s) s) in
          let* _ := effect RequestRInterrupt in
          respond true empty_object []) s.

Definition scopes (args : json) : M Reply :=
  let* frame := lift (value get_int args "frameId"%string 0) in respond true (scopes_body frame) [].

Definition source (args : json) : M Reply :=
  let* path := lift (source_path args) in
  match disk path with
  | Some text => respond true (mk_object [("content"%string : str, mk_str text)]) []
  | None => respond false empty_object ("no such source: "%string ++ path)
  end.

Definition request : M Reply :=
  let* command := lift (value get_str req "command"%string []) in
  let* args := lift (value any req "arguments"%string empty_object) in
  let is_ (name : str) := str_eqb command name in
  if is_ "initialize"%string then respond true initialize_body []
  else if is_ "attach"%string || is_ "launch"%string then attach
  else if is_ "disconnect"%string || is_ "terminate"%string then disconnect
  else if is_ "configurationDone"%string then respond true empty_object []
  else if is_ "debugInfo"%string then let* body := gets debugInfo_body in respond true body []
  else if is_ "dumpCell"%string then dumpCell args
  else if is_ "setBreakpoints"%string then setBreakpoints args
  else if is_ "threads"%string then respond true threads_body []
  else
  match resume_command command with
  | Some input => go_on command input
  | None =>
  if is_ "pause"%string then pause
  else if is_ "stackTrace"%string then onRThread on_r a (StackTrace req)
  else if is_ "scopes"%string then scopes args
  else if is_ "variables"%string then onRThread on_r a (Variables req)
  else if is_ "evaluate"%string then onRThread on_r a (Evaluate req)
  else if is_ "inspectVariables"%string then onRThread on_r a (InspectVariables req)
  else if is_ "source"%string then source args
  else respond false empty_object ("not supported: "%string ++ command)
  end.
End Request.

(** ** R's console *)

Definition takePauseRequest (s : t) : bool * t :=
  (m_pauseRequested s, upd_pause false (m_pausing s || m_pauseRequested s) s).

Definition takeBrowsed (s : t) : bool * t := (m_browsed s, upd_browsed false s).

Definition is_digit (c : byte) : bool := (48 <=? code c) && (code c <=? 57).

(** [std::atoi], for a number that an int holds. *)
Definition atoi (s : str) : Z := let (sgn, s) := sign_of (skip_blanks s) in sgn * digits_value 0 s.

(** [line.rfind('#')]: what is before and after the last one. *)
Fixpoint split_last (c : byte) (s : str) : option (str * str) :=
  match s with
  | [] => None
  | x :: s' =>
      match split_last c s' with
      | Some (before, after) => Some (x :: before, after)
      | None => if char_eqb x c then Some ([], s') else None
      end
  end.

Definition debug_at : str := "debug at "%string.
Definition called_from : str := "Called from: "%string.

(** "<file name>#<line>", as trace() prints it *)
Definition trace_line (line : str) : option (str * Z) :=
  match split_last "#"%char line with
  | Some (file, number) =>
      if negb (bool_decide (file = [])) && negb (bool_decide (number = [])) && negb (existsb (char_eqb " "%char) line)
         && forallb is_digit number
      then Some (file, atoi number) else None
  | None => None
  end.

Definition in_cells (file : str) : bool := negb (existsb (fun c => char_eqb "/"%char c || char_eqb "\"%char c) file).

(** "debug at <path>#<line>: <expression>": the text from [debug_at] on *)
Definition browser_line (rest : str) : option (str * Z) :=
  match split_at "#"%char rest with
  | Some (path, after) =>
      match split_at ":"%char after with Some (number, _) => Some (path, atoi number) | None => None end
  | None => None
  end.

Definition consoleLine (line : str) (s : t) : bool * t :=
  match trace_line line with
  | Some (file, n) => (true, upd_location (if in_cells file then m_tmpPrefix s ++ file else file) n s)
  | None =>
      if starts_with called_from line then (true, upd_calledFrom true s)
      else if starts_with debug_at line then
        (true, match browser_line (drop (length debug_at) line) with Some (p, n) => upd_location p n s | None => s end)
      else (starts_with "debug: "%string line || starts_with "Browse["%string line, s)
  end.

(** ** Stopped at a browser() prompt

    Where R's thread is in [stopped], between two uses of the lock. *)
Inductive Stop :=
| Enter
(** stopped, about to tell the client why *)
| Announce (reason : str)
| Waiting
| Running (id : nat) (w : Work)
(** interrupted, or the debugger detached: about to leave with a command *)
| Leaving (command : str)
| Left (command : str)
(** the line for R's browser *)
| Answered (line : str).

Definition enter (s : t) : Stop * t :=
  let s := upd_browsed true s in
  if m_calledFrom s && negb (m_pausing s)
  then (Answered ("n"%string ++ [newline]), upd_lastResume "c"%string (upd_calledFrom false s))
  else
    let reason : str := if m_pausing s then "pause"%string
                        else if str_eqb (m_lastResume s) "c"%string then "breakpoint"%string else "step"%string in
    (Announce reason, upd_pause (m_pauseRequested s) false (upd_stopped true [] (upd_calledFrom false s))).

Definition thread_body (key : str) : json := mk_object [("threadId"%string : str, mk_int 1); (key, mk_bool true)].

Definition stopped_body (reason : str) : json :=
  mk_object [("reason"%string : str, mk_str reason); ("threadId"%string : str, mk_int 1);
             ("allThreadsStopped"%string : str, mk_bool true)].

(** The turn of the loop: a job, or the command to go on with, or after 50 ms
    with neither whether to leave. *)
Definition wait_turn (interruptRequested : bool) (s : t) : Stop * t :=
  match m_jobs s with
  | (id, w) :: jobs => (Running id w, upd_jobs jobs (promises s) s)
  | [] =>
      if bool_decide (m_resume s = []) then
        (if interruptRequested then Leaving "Q"%string else if m_started s then Waiting else Leaving "c"%string, s)
      else (Left (m_resume s), upd_stopped false [] s)
  end.

(** The answer of a request that will not be asked of R any more. *)
Definition unanswerable : json :=
  mk_object [("type"%string : str, mk_str "response"%string); ("success"%string : str, mk_bool false);
             ("message"%string : str, mk_str "R is running"%string)].

Definition leave (resume : str) (s : t) : t :=
  let s := upd_answered (answered s ++ ((fun j => (j.1, unanswerable)) <$> m_jobs s)) (upd_lastResume resume (upd_jobs [] (promises s) s)) in
  snd (event "continued"%string (thread_body "allThreadsContinued"%string) true (snd (clearReferences s))).

(** One step of R's thread in [stopped].  [None]: an exception, which leaves
    through the frames of R's interpreter. *)
Definition stopped_step (interruptRequested : bool) (a : Answer) (p : Stop) (s : t) : option (Stop * t) :=
  match p with
  | Enter => Some (enter s)
  | Announce reason => Some (Waiting, snd (event "stopped"%string (stopped_body reason) true s))
  | Waiting => Some (wait_turn interruptRequested s)
  | Running id w =>
      match work w a s with
      | (Ok j, s) => Some (Waiting, upd_answered (answered s ++ [(id, j)]) s)
      | _ => None
      end
  | Leaving command => Some (Left command, upd_stopped false (m_resume s) s)
  | Left command => Some (Answered (command ++ [newline]), leave command s)
  | Answered line => Some (Answered line, s)
  end.

(** The line for R's browser, when it fits: 0 is the end of input. *)
Definition browser_answer (line : str) (length_ : Z) : option str :=
  if length_ <? Z.of_nat (length line) + 1 then None else Some line.

(** ** Both threads *)

Inductive Step :=
(** R's thread in [stopped], with what hera answers and whether an interrupt is
    pending *)
| R (interruptRequested : bool) (a : Answer)
(** the control thread handles a request, or gives up waiting *)
| Control (disk : str -> option str) (req : json)
| GiveUp (id : nat).

Definition threads_step (p : Stop) (s : t) (e : Step) : option (Stop * t) :=
  match e with
  | R i a => stopped_step i a p s
  | Control disk req => Some (p, snd (request false no_answer disk req s))
  | GiveUp id => Some (p, stop_waiting id s)
  end.

Fixpoint run_threads (p : Stop) (s : t) (es : list Step) : option (Stop * t) :=
  match es with
  | [] => Some (p, s)
  | e :: es => match threads_step p s e with Some (p, s) => run_threads p s es | None => None end
  end.

(** As it is constructed. *)
Definition newDebugger (tmpPrefix : str) : t :=
  {| m_started := false; m_seq := 0; m_tmpPrefix := tmpPrefix; m_breakpoints := []; m_breakpointsChanged := false;
     m_stopped := false; m_resume := []; m_lastResume := "c"%string; m_pauseRequested := false; m_pausing := false;
     m_calledFrom := false; m_browsed := false; m_locationPath := []; m_locationLine := 0; m_jobs := [];
     m_references := []; m_nextReference := 1; m_frames := []; promises := 0; answered := []; effects := [] |}.

(** ** What the threads keep *)

Definition running (p : Stop) : list nat := match p with Running id _ => [id] | _ => [] end.

(** The promises that have a value, are being worked on, or wait, in this order. *)
Definition known_ids (p : Stop) (s : t) : list nat := (answered s).*1 ++ running p ++ (m_jobs s).*1.

Definition is_stopped (p : Stop) : bool :=
  match p with Announce _ | Waiting | Running _ _ | Leaving _ => true | Enter | Left _ | Answered _ => false end.

Definition outside (p : Stop) : bool := match p with Enter | Answered _ => true | _ => false end.

Record invariant (given_up : list nat) (p : Stop) (s : t) : Prop := {
  inv_order : StronglySorted lt (known_ids p s);
  inv_made : Forall (fun id => (id < promises s)%nat) (known_ids p s);
  inv_kept : forall id, (id < promises s)%nat -> id ∈ known_ids p s \/ id ∈ given_up;
  inv_stopped : m_stopped s = is_stopped p;
  inv_jobs : outside p = true -> m_jobs s = []
}.

(** What does not touch the promises. *)
Definition keeps (s s' : t) : Prop :=
  answered s' = answered s /\ m_jobs s' = m_jobs s /\ promises s' = promises s /\ m_stopped s' = m_stopped s.

Definition keeping {A} (m : M A) : Prop := forall s, keeps s (snd (m s)).

Lemma keeps_refl s : keeps s s.
Proof. done. Qed.

Lemma keeps_trans s1 s2 s3 : keeps s1 s2 -> keeps s2 s3 -> keeps s1 s3.
Proof. unfold keeps. intuition congruence. Qed.

Lemma keeping_ret {A} (a : A) : keeping (ret a).
Proof. done. Qed.

Lemma keeping_lift {A} (r : result A) : keeping (lift r).
Proof. done. Qed.

Lemma keeping_gets {A} (f : t -> A) : keeping (gets f).
Proof. done. Qed.

Lemma keeping_modify f : (forall s, keeps s (f s)) -> keeping (modify f).
Proof. done. Qed.

Lemma keeping_bind {A B} (m : M A) (f : A -> M B) : keeping m -> (forall a, keeping (f a)) -> keeping (bind m f).
Proof.
  intros Hm Hf s. unfold bind. specialize (Hm s). destruct (m s) as [[a|w|] s']; cbn in *; try done.
  eapply keeps_trans; [exact Hm | apply Hf].
Qed.

Lemma keeping_effect e : keeping (effect e).
Proof. done. Qed.

Lemma keeping_event name body b : keeping (event name body b).
Proof. unfold event. repeat (apply keeping_bind; [done | intros]). done. Qed.

Lemma keeping_mapM {A B} (f : A -> M B) l : (forall a, keeping (f a)) -> keeping (mapM f l).
Proof. intros H. induction l; cbn; [done |]. apply keeping_bind; [done | intros; apply keeping_bind; [done | done]]. Qed.

Create HintDb keeping.
#[local] Hint Resolve keeping_ret keeping_lift keeping_gets keeping_effect keeping_event keeping_mapM keeps_refl : keeping.

(** A sequence of computations that keep the promises. *)
Ltac keep :=
  repeat match goal with
         | |- keeping (bind _ _) => apply keeping_bind; [| intros]
         | |- keeping (modify _) => apply keeping_modify; intros; done
         | |- keeping (if ?b then _ else _) => destruct b
         | |- keeping (match ?x with _ => _ end) => destruct x
         | |- keeping (reference _) => intros ?; done
         | _ => solve [eauto with keeping]
         end.

Lemma keeping_variable_rows rows cs : keeping (variable_rows rows cs).
Proof. revert cs. induction rows as [|row rows IH]; intros cs; cbn; [done |]. unfold variable_row. keep. Qed.

Lemma keeping_variableRows a : keeping (variableRows a).
Proof. unfold variableRows. keep. apply keeping_variable_rows. Qed.

Lemma keeping_work w a : keeping (work w a).
Proof.
  destruct w as [req | req | req | req]; cbn.
  - intros s. unfold stackTrace. case_bool_decide as E; [clear E; revert s | done].
    match goal with |- forall s, keeps s (snd (?m s)) => change (keeping m) end.
    keep. apply keeping_mapM. intros fe. unfold stack_frame. keep.
  - unfold variables. keep. apply keeping_variableRows.
  - unfold evaluate. keep.
  - unfold inspectVariables. keep. apply keeping_variableRows.
Qed.
#[local] Hint Resolve keeping_work : keeping.

Lemma keeping_respond req b body msg : keeping (respond req b body msg).
Proof. unfold respond. keep. Qed.
#[local] Hint Resolve keeping_respond : keeping.

Lemma keeping_stopped_branch (m m' : M Reply) : (forall s, m_stopped s = true -> keeps s (snd (m s))) -> keeping m' ->
  keeping (fun s => if m_stopped s then m s else m' s).
Proof. intros H H' s. destruct (m_stopped s) eqn:E; [by apply H | apply H']. Qed.

Lemma keeps_resume r s : m_stopped s = true -> keeps s (upd_stopped true r s).
Proof. done. Qed.

Lemma keeping_go_on req command input : keeping (go_on req command input).
Proof.
  apply keeping_stopped_branch; [| apply keeping_respond]. intros s Hs.
  unfold bind at 1. cbn [modify]. eapply keeps_trans; [by apply (keeps_resume input) | apply keeping_respond].
Qed.

Lemma keeping_pause req : keeping (pause req).
Proof. apply keeping_stopped_branch; [intros; apply keeping_respond |]. keep. Qed.

Lemma keeping_disconnect req : keeping (disconnect false req).
Proof.
  unfold disconnect, when_on_r. keep. apply keeping_modify. intros s. destruct (m_stopped s) eqn:E; [by apply keeps_resume | done].
Qed.

(** A job is left for R's thread. *)
Definition adds_job (s s' : t) : Prop :=
  exists w, m_stopped s = true /\ m_jobs s' = m_jobs s ++ [(promises s, w)] /\ promises s' = S (promises s)
  /\ answered s' = answered s /\ m_stopped s' = m_stopped s.

Definition handled (m : M Reply) : Prop := forall s, keeps s (snd (m s)) \/ adds_job s (snd (m s)).

Lemma handled_keeping m : keeping m -> handled m.
Proof. intros Hm s. left. apply Hm. Qed.

Lemma handled_lift {A} (r : result A) f : (forall a, handled (f a)) -> handled (bind (lift r) f).
Proof. intros Hf s. unfold bind, lift. destruct r; [apply Hf | by left ..]. Qed.

Lemma handled_onRThread a w : handled (onRThread false a w).
Proof.
  intros s. unfold onRThread. destruct (m_stopped s) eqn:E; [right; exists w; done | left].
  unfold bind, lift. by destruct (response _ _ _ _).
Qed.

Lemma control_request a disk req : handled (request false a disk req).
Proof.
  unfold request. apply handled_lift. intros command. apply handled_lift. intros args. cbv zeta.
  repeat match goal with |- context [if ?b then _ else _] => destruct b end;
    try destruct (resume_command command); first [apply handled_onRThread | apply handled_keeping].
  all: first [apply keeping_respond | apply keeping_go_on | apply keeping_pause | apply keeping_disconnect | idtac].
  all: unfold attach, dumpCell, setBreakpoints, scopes, source, when_on_r; keep.
Qed.

Lemma known_keeps p p' s s' : keeps s s' -> running p = running p' -> known_ids p' s' = known_ids p s.
Proof. intros (Ha & Hj & _ & _) Hr. unfold known_ids. by rewrite Ha, Hj, Hr. Qed.

Lemma invariant_keeps g p p' s s' : keeps s s' -> running p = running p' -> is_stopped p = is_stopped p' ->
  (outside p' = true -> outside p = true) -> invariant g p s -> invariant g p' s'.
Proof.
  intros Hk Hr Hs Ho [H1 H2 H3 H4 H5]. pose proof (known_keeps _ p' _ _ Hk Hr) as E. destruct Hk as (Ha & Hj & Hp & Hst).
  split; rewrite ?E, ?Hp, ?Hj, ?Hst; try done; [congruence | auto].
Qed.

Lemma sorted_snoc l n : StronglySorted lt l -> Forall (fun i => (i < n)%nat) l -> StronglySorted lt (l ++ [n]).
Proof.
  induction 1 as [|x l Hl IH Hx]; intros H; cbn; [repeat constructor |]. apply Forall_cons in H as [Hxn Hn].
  constructor; [by apply IH |]. apply Forall_app. split; [exact Hx | by repeat constructor].
Qed.

Lemma known_add p s w : known_ids p (upd_jobs (m_jobs s ++ [(promises s, w)]) (S (promises s)) s) = known_ids p s ++ [promises s].
Proof. unfold known_ids. cbn. by rewrite fmap_app, !app_assoc. Qed.

Lemma invariant_adds g p s s' : adds_job s s' -> invariant g p s -> invariant g p s'.
Proof.
  intros (w & Hs & Hj & Hp & Ha & Hst) [H1 H2 H3 H4 H5].
  assert (known_ids p s' = known_ids p s ++ [promises s]) as E.
  { unfold known_ids. rewrite Hj, Ha, fmap_app, !app_assoc. done. }
  split; rewrite ?E, ?Hp, ?Hst; try done.
  - by apply sorted_snoc.
  - apply Forall_app. split; [| repeat constructor; lia]. eapply Forall_impl; [exact H2 |]. cbn. lia.
  - intros id Hid. rewrite elem_of_app, list_elem_of_singleton. destruct (decide (id = promises s)); [by left; right |].
    destruct (H3 id ltac:(lia)); auto.
  - intros Ho. rewrite H4 in Hs. by destruct p.
Qed.

Lemma sublist_sorted l l' : l' `sublist_of` l -> StronglySorted lt l -> StronglySorted lt l'.
Proof.
  induction 1 as [|x l1 l2 Hsub IH | x l1 l2 Hsub IH]; intros Hs; [done | |]; inversion Hs as [|? ? Hs' Hx]; subst.
  - constructor; [by apply IH |]. rewrite Forall_forall in *. intros y Hy. apply Hx. by eapply elem_of_sublist.
  - by apply IH.
Qed.

Lemma known_stop_waiting p s id : known_ids p (stop_waiting id s) `sublist_of` known_ids p s.
Proof.
  unfold known_ids. cbn. apply sublist_app; [done |]. apply sublist_app; [done |].
  generalize (m_jobs s). intros js. induction js as [|j js IH]; cbn; [done |]. destruct (negb _); cbn; by constructor.
Qed.

Lemma known_stop_waiting_other p s id id' : id' ∈ known_ids p s -> id' <> id -> id' ∈ known_ids p (stop_waiting id s).
Proof.
  unfold known_ids. cbn. rewrite !elem_of_app. intros [H | [H | H]] Hne; [by left | by right; left | right; right].
  apply list_elem_of_fmap in H as (j & -> & Hj). apply list_elem_of_fmap. exists j. split; [done |].
  apply list_elem_of_In, List.filter_In. split; [by apply list_elem_of_In |]. apply negb_true_iff, Nat.eqb_neq. congruence.
Qed.

Lemma invariant_stop_waiting g p s id : invariant g p s -> invariant (id :: g) p (stop_waiting id s).
Proof.
  intros [H1 H2 H3 H4 H5]. split.
  - eapply sublist_sorted; [apply known_stop_waiting | done].
  - rewrite Forall_forall in *. intros i Hi. apply H2. eapply elem_of_sublist; [exact Hi | apply known_stop_waiting].
  - intros i Hi. destruct (decide (i = id)) as [-> |]; [right; by left |]. destruct (H3 i Hi) as [H | H]; [| right; by right].
    left. by apply known_stop_waiting_other.
  - done.
  - intros Ho. cbn. by rewrite (H5 Ho).
Qed.

Lemma invariant_more g g' p s : (forall i, i ∈ g -> i ∈ g') -> invariant g p s -> invariant g' p s.
Proof. intros Hg [H1 H2 H3 H4 H5]. split; try done. intros i Hi. destruct (H3 i Hi); auto. Qed.

Lemma leave_spec c s : answered (leave c s) = answered s ++ ((fun j => (j.1, unanswerable)) <$> m_jobs s)
  /\ m_jobs (leave c s) = [] /\ promises (leave c s) = promises s /\ m_stopped (leave c s) = m_stopped s.
Proof.
  unfold leave. set (s1 := upd_answered _ _).
  destruct (keeping_event "continued"%string (thread_body "allThreadsContinued"%string) true (snd (clearReferences s1))) as (-> & -> & -> & ->).
  done.
Qed.

Lemma invariant_stopped_step g i a p s p' s' : stopped_step i a p s = Some (p', s') -> invariant g p s -> invariant g p' s'.
Proof.
  intros H Hinv. destruct p as [| reason | | id w | c | c | line]; cbn [stopped_step] in H.
  - injection H as H. unfold enter in H. destruct Hinv as [H1 H2 H3 H4 H5]. specialize (H5 eq_refl).
    destruct (_ && _); injection H as <- <-; by split.
  - injection H as <- <-. apply (invariant_keeps g (Announce reason) Waiting s); [apply keeping_event | done ..].
  - injection H as H. unfold wait_turn in H. destruct (m_jobs s) as [|[id w] js] eqn:Ej.
    + destruct (bool_decide (m_resume s = [])).
      * injection H as <- <-. destruct i; [| destruct (m_started s)]; by apply (invariant_keeps g Waiting _ s).
      * injection H as <- <-. destruct Hinv as [H1 H2 H3 H4 H5]. by split.
    + injection H as <- <-. destruct Hinv as [H1 H2 H3 H4 H5]. unfold known_ids in *. rewrite Ej in *. by split.
  - destruct (work w a s) as [[j|?|] s2] eqn:Ew; [| done ..]. injection H as <- <-.
    pose proof (keeping_work w a s) as Hk. rewrite Ew in Hk. cbn in Hk.
    pose proof (invariant_keeps g (Running id w) (Running id w) s s2 Hk eq_refl eq_refl ltac:(done) Hinv) as [H1 H2 H3 H4 H5].
    unfold known_ids in *. cbn [running] in *.
    split; cbn; rewrite ?fmap_app, <- ?app_assoc; try done.
  - injection H as <- <-. destruct Hinv as [H1 H2 H3 H4 H5]. by split.
  - injection H as <- <-. destruct (leave_spec c s) as (Ha & Hj & Hp & Hst). destruct Hinv as [H1 H2 H3 H4 H5].
    assert (known_ids (Answered (c ++ [newline])) (leave c s) = known_ids (Left c) s) as E.
    { unfold known_ids. rewrite Ha, Hj. cbn. rewrite fmap_app, app_nil_r. f_equal. by rewrite <- list_fmap_compose. }
    split; rewrite ?E, ?Hp, ?Hst, ?Hj; done.
  - by injection H as <- <-.
Qed.

Definition given_up (es : list Step) : list nat := omap (fun e => match e with GiveUp id => Some id | _ => None end) es.

Lemma invariant_run es : forall g p s p' s', run_threads p s es = Some (p', s') -> invariant g p s -> invariant (g ++ given_up es) p' s'.
Proof.
  induction es as [|e es IH]; intros g p s p' s' H Hinv; cbn in H.
  - injection H as <- <-. by rewrite app_nil_r.
  - destruct (threads_step p s e) as [[p1 s1]|] eqn:E; [| done].
    assert (invariant (g ++ given_up [e]) p1 s1) as H1.
    { destruct e as [i a | disk req | id]; cbn in E |- *; rewrite ?app_nil_r.
      - by eapply invariant_stopped_step.
      - injection E as <- <-. destruct (control_request no_answer disk req s) as [Hk | Hk];
          [by apply (invariant_keeps g p p s) | by eapply invariant_adds].
      - injection E as <- <-. apply (invariant_more (id :: g)); [| by apply invariant_stop_waiting]. intros i. set_solver. }
    specialize (IH _ _ _ _ _ H H1). rewrite <- app_assoc in IH.
    replace (given_up (e :: es)) with (given_up [e] ++ given_up es); [done |]. cbn. by destruct e.
Qed.


(** ** R goes on *)

(** Work that needs R does not touch the command to go on with. *)
Definition same_resume {A} (m : M A) : Prop := forall s, m_resume (snd (m s)) = m_resume s.

Lemma same_bind {A B} (m : M A) (f : A -> M B) : same_resume m -> (forall a, same_resume (f a)) -> same_resume (bind m f).
Proof.
  intros Hm Hf s. unfold bind. specialize (Hm s). destruct (m s) as [[a|w|] s']; cbn in *; try done. rewrite <- Hm. apply Hf.
Qed.

Lemma same_mapM {A B} (f : A -> M B) l : (forall a, same_resume (f a)) -> same_resume (mapM f l).
Proof. intros H. induction l; cbn; [done |]. apply same_bind; [done | intros; apply same_bind; done]. Qed.

Ltac same :=
  repeat match goal with
         | |- same_resume (bind _ _) => apply same_bind; [| intros]
         | |- same_resume (if ?b then _ else _) => destruct b
         | |- same_resume (match ?x with _ => _ end) => destruct x
         | _ => solve [intros ?; reflexivity]
         end.

Lemma same_variable_rows rows cs : same_resume (variable_rows rows cs).
Proof. revert cs. induction rows as [|row rows IH]; intros cs; cbn; [done |]. unfold variable_row. same. apply IH. Qed.

Lemma same_work w a : same_resume (work w a).
Proof.
  destruct w as [req | req | req | req]; cbn.
  - intros s. unfold stackTrace. case_bool_decide as E; [clear E; revert s | done].
    match goal with |- forall s, m_resume (snd (?m s)) = m_resume s => change (same_resume m) end.
    same. apply same_mapM. intros fe. unfold stack_frame. same.
  - unfold variables, variableRows. same. apply same_variable_rows.
  - unfold evaluate. same.
  - unfold inspectVariables, variableRows. same. apply same_variable_rows.
Qed.

(** Hera's answer [a] can be put in words for the work [w]. *)
Definition answers (a : Answer) (w : Work) : Prop := forall s, exists j, fst (work w a s) = Ok j.

(** A client that continues or steps gets R going.  Once the command is
    there and no more requests come, R's thread does the jobs that wait, in
    their order, and then hands R's browser the command: two steps a job and
    two more.  It is no longer stopped, and forgets R's objects. *)
Theorem stopped_resumes s ras : m_resume s <> [] ->
  Forall (fun j => Forall (fun ia => answers (snd ia) (snd j)) ras) (m_jobs s) ->
  length ras = (2 * length (m_jobs s) + 2)%nat ->
  exists s', run_threads Waiting s ((fun ia => R (fst ia) (snd ia)) <$> ras) = Some (Answered (m_resume s ++ [newline]), s')
  /\ (answered s').*1 = (answered s).*1 ++ (m_jobs s).*1 /\ m_stopped s' = false /\ m_jobs s' = [] /\ m_references s' = [].
Proof.
  intros Hc. remember (m_jobs s) as js eqn:Ej. revert s ras Hc Ej. induction js as [|[id w] js IH]; intros s ras Hc Ej Hw Hl.
  - destruct ras as [|[i1 a1] [|[i2 a2] []]]; try done. cbn [fmap list_fmap run_threads threads_step stopped_step fst snd].
    unfold wait_turn. rewrite <- Ej. rewrite bool_decide_eq_false_2 by done. cbn [stopped_step].
    set (s1 := upd_stopped false [] s). exists (leave (m_resume s) s1).
    destruct (leave_spec (m_resume s) s1) as (Ha & Hj & _ & Hst). split; [done |]. rewrite Ha, Hj, Hst, fmap_app. unfold s1. cbn. rewrite <- Ej.
    by rewrite !app_nil_r.
  - destruct ras as [|[i1 a1] [|[i2 a2] ras]]; try (cbn in Hl; lia). apply Forall_cons in Hw as [Hw Hws].
    cbn [fmap list_fmap run_threads threads_step fst snd]. cbn [stopped_step]. unfold wait_turn. rewrite <- Ej. cbn [stopped_step].
    set (s1 := upd_jobs js (promises s) s). apply Forall_cons in Hw as [_ Hw]. apply Forall_cons in Hw as [Hw _]. cbn in Hw.
    destruct (Hw s1) as [j Hj]. pose proof (keeping_work w a2 s1) as (Ka & Kj & Kp & Ks). pose proof (same_work w a2 s1) as Kr.
    destruct (work w a2 s1) as [r s2] eqn:Ew. cbn in Hj. subst r. cbn [snd] in *.
    destruct (IH (upd_answered (answered s2 ++ [(id, j)]) s2) ras) as (s' & E & H1 & H2 & H3 & H4).
    + cbn. by rewrite Kr.
    + cbn. by rewrite Kj.
    + eapply Forall_impl; [exact Hws |]. cbn. intros x H. by apply Forall_cons in H as [_ [_ H]%Forall_cons].
    + cbn in Hl. cbn. lia.
    + exists s'. cbn [fmap list_fmap] in E. cbn in Kr. rewrite <- Kr. split; [exact E |]. rewrite H1. cbn. rewrite Ka, fmap_app. cbn.
      by rewrite <- app_assoc.
Qed.

(** ** Breakpoints *)

Lemma mapM_lift {A B} (f : A -> result B) l s : mapM (fun x => lift (f x)) l s = (mapR f l, s).
Proof.
  induction l as [|x l IH]; cbn; [done |]. unfold bind at 1. cbn. destruct (f x); [| done ..].
  rewrite IH. by destruct (mapR f l).
Qed.

Lemma breakpoints_set path lines s path' :
  breakpointLines path' (set_breakpoints path lines s) = if str_eqb path path' then lines else breakpointLines path' s.
Proof.
  unfold breakpointLines, set_breakpoints. cbn [m_breakpoints upd_breakpoints]. case_bool_decide as E; [rewrite map_get_erase | rewrite map_get_set];
    destruct (str_eqb path path'); subst; done.
Qed.

Lemma cellPath_same s s' code_ : m_tmpPrefix s' = m_tmpPrefix s -> cellPath code_ s' = cellPath code_ s.
Proof. unfold cellPath. by intros ->. Qed.

Definition breakpoint_lines (args : json) (lines : list Z) : Prop :=
  exists list, value any args "breakpoints"%string (mk_array []) = Ok list
  /\ mapR (fun b => value get_int b "line"%string 0) (iterated list) = Ok lines.

(** Goes to the branch of a literal command. *)
Ltac command :=
  cbv zeta;
  repeat match goal with
         | |- context [str_eqb ?x ?y] => let v := eval vm_compute in (str_eqb x y) in change (str_eqb x y) with v
         end;
  cbn [orb]; cbv iota.

Lemma respond_state req b body msg s : snd (respond req b body msg s) = s.
Proof. unfold respond, bind, lift. by destruct (response _ _ _ _). Qed.

(** Breakpoints a client sets on a cell's file are the cell's.
    [dumpCell] writes a cell's code to the path that the cell is run from; after
    [setBreakpoints] on that path the cell's breakpoints are the lines of the
    request, and those of every other file are what they were; on R's thread
    they are in force at once, otherwise at the end of the cell. *)
Theorem breakpoints_apply on_r a disk req args code_ s : value any req "arguments"%string empty_object = Ok args ->
  (value get_str req "command"%string [] = Ok ("dumpCell"%string : str) -> value get_str args "code"%string [] = Ok code_ ->
   effects (snd (request on_r a disk req s)) = effects s ++ [WriteFile (cellPath code_ s) code_])
  /\ (forall lines, value get_str req "command"%string [] = Ok ("setBreakpoints"%string : str) ->
      source_path args = Ok (cellPath code_ s) -> breakpoint_lines args lines ->
      let s' := snd (request on_r a disk req s) in
      breakpointLines (cellPath code_ s') s' = lines
      /\ (forall path, path <> cellPath code_ s -> breakpointLines path s' = breakpointLines path s)
      /\ m_breakpointsChanged s' = negb on_r
      /\ effects s' = effects s ++ (if on_r then [ApplyBreakpoints (m_breakpoints s')] else [])).
Proof.
  intros Ha. split.
  - intros Hc Hcode. unfold request, bind at 1, lift at 1. rewrite Hc. unfold bind at 1, lift at 1. rewrite Ha. command.
    unfold dumpCell, bind at 1, lift at 1. rewrite Hcode. unfold bind at 1, gets at 1. unfold bind at 1. cbn [effect modify].
    by rewrite respond_state.
  - intros lines Hc Hp (list & Hlist & Hlines). cbv zeta.
    assert (snd (request on_r a disk req s) = snd (when_on_r on_r applyBreakpoints (set_breakpoints (cellPath code_ s) lines s))) as ->.
    { unfold request, bind at 1, lift at 1. rewrite Hc. unfold bind at 1, lift at 1. rewrite Ha. command.
      unfold setBreakpoints, bind at 1, lift at 1. rewrite Hp. unfold bind at 1, lift at 1. rewrite Hlist.
      unfold bind at 1. rewrite mapM_lift, Hlines. unfold bind at 1. cbn [modify]. unfold bind at 1.
      destruct on_r; unfold when_on_r, ret; [| by rewrite respond_state]. unfold applyBreakpoints.
      cbn [m_breakpointsChanged set_breakpoints upd_breakpoints negb andb bind modify effect]. by rewrite respond_state. }
    set (path := cellPath code_ s). set (s1 := set_breakpoints path lines s).
    assert (forall p, breakpointLines p s1 = if str_eqb path p then lines else breakpointLines p s) as Hset by (intros p; apply breakpoints_set).
    assert (breakpointLines path s1 = lines /\ forall p, p <> path -> breakpointLines p s1 = breakpointLines p s) as [H1 H2].
    { split; [by rewrite Hset, str_eqb_refl |]. intros p Hne. rewrite Hset. destruct (str_eqb path p) eqn:E; [| done].
      apply str_eqb_eq in E. congruence. }
    destruct on_r; [split; [exact H1 | split; [exact H2 | done]] |].
    split; [exact H1 | split; [exact H2 | split; [done |]]]. cbn. by rewrite app_nil_r.
Qed.

(** ** What R's browser prints *)

Lemma pretty_char_digit m : is_digit (pretty_N_char m) = true.
Proof. unfold pretty_N_char. repeat case_match; done. Qed.

Lemma to_string_digits n : 0 <= n -> Forall (fun c => is_digit c = true) (to_string n).
Proof. intros H. apply to_string_Forall; [apply pretty_char_digit | by left]. Qed.

Lemma not_in_digits c n : 0 <= n -> is_digit c = false -> c ∉ to_string n.
Proof. intros Hn Hc Hin. pose proof (to_string_digits n Hn) as H. rewrite Forall_forall in H. specialize (H c Hin). congruence. Qed.

Lemma atoi_to_string n : 0 < n < 2 ^ 31 -> atoi (to_string n) = n /\ to_string n <> [].
Proof.
  intros H. pose proof (stoi_to_string n H) as E. unfold stoi in E. unfold atoi.
  destruct (sign_of (skip_blanks (to_string n))) as [sgn t] eqn:Es. destruct t as [|c rest]; [done |].
  case_bool_decide; [done |]. destruct (_ && _); [| done]. split; [congruence |]. intros E0. by rewrite E0 in Es.
Qed.

Lemma split_last_app c a b : c ∉ b -> split_last c (a ++ c :: b) = Some (a, b).
Proof.
  intros Hb. assert (forall l, c ∉ l -> split_last c l = None) as Hn.
  { induction l as [|x l IH]; intros Hl; cbn; [done |]. apply not_elem_of_cons in Hl as [Hx Hl]. rewrite (IH Hl).
    destruct (char_eqb x c) eqn:E; [apply char_eqb_eq in E; congruence | done]. }
  induction a as [|x a IH]; cbn; [by rewrite (Hn _ Hb), char_eqb_refl | by rewrite IH].
Qed.

Lemma existsb_none c l : c ∉ l -> existsb (char_eqb c) l = false.
Proof.
  intros H. apply not_true_is_false. intros E. apply existsb_exists in E as (x & Hx & E). apply char_eqb_eq in E as <-.
  by apply H, list_elem_of_In.
Qed.

Lemma trace_line_space line : existsb (char_eqb " "%char) line = true -> trace_line line = None.
Proof.
  intros H. unfold trace_line. destruct (split_last _ line) as [[file number]|]; [| done]. by rewrite H, andb_false_r.
Qed.

(** The lines R's browser prints of its own while debugging tell where R
    is and are not shown: "debug at <path>#<line>: ..." (a path may have any
    character but the separator, a colon too), and a breakpoint's
    "<file>#<line>", the file being one of the cells' unless it has a slash.
    What the program prints is shown, when it has no '#' and is not like the
    browser's. *)
Theorem browser_lines s :
  (forall path n expr, "#"%char ∉ path -> 0 < n < 2 ^ 31 ->
     consoleLine (debug_at ++ path ++ "#"%char :: to_string n ++ ":"%char :: expr) s = (true, upd_location path n s))
  /\ (forall file n, file <> [] -> " "%char ∉ file -> 0 < n < 2 ^ 31 ->
     consoleLine (file ++ "#"%char :: to_string n) s
     = (true, upd_location (if in_cells file then m_tmpPrefix s ++ file else file) n s))
  /\ (forall line, "#"%char ∉ line ->
     Forall (fun p => starts_with p line = false) [called_from; debug_at; "debug: "%string : str; "Browse["%string : str] ->
     consoleLine line s = (false, s)).
Proof.
  split; [| split].
  - intros path n expr Hp Hn. unfold consoleLine. rewrite trace_line_space by (apply existsb_exists; exists " "%char; split; [do 5 right; by left | done]).
    assert (starts_with debug_at (debug_at ++ path ++ "#"%char :: to_string n ++ ":"%char :: expr) = true) as -> by (apply starts_with_app).
    rewrite drop_app_length. unfold browser_line. rewrite split_at_app by done.
    rewrite split_at_app by (apply not_in_digits; [lia | done]). by destruct (atoi_to_string n Hn) as [-> _].
  - intros file n Hf Hs Hn. unfold consoleLine, trace_line. rewrite split_last_app by (apply not_in_digits; [lia | done]).
    destruct (atoi_to_string n Hn) as [-> Hne]. rewrite !bool_decide_eq_false_2 by done. rewrite existsb_none.
    + assert (forallb is_digit (to_string n) = true) as ->; [| done].
      rewrite List.forallb_forall. intros c Hc. pose proof (to_string_digits n ltac:(lia)) as H. rewrite Forall_forall in H.
      apply H. by apply list_elem_of_In.
    + rewrite elem_of_app, elem_of_cons. intros [H | [H | H]]; [done | done |]. by apply (not_in_digits " "%char n ltac:(lia)) in H.
  - intros line Hh Hp. unfold consoleLine, trace_line.
    assert (split_last "#"%char line = None) as ->.
    { clear Hp. induction line as [|x l IH]; cbn; [done |]. apply not_elem_of_cons in Hh as [Hx Hl]. rewrite (IH Hl).
      destruct (char_eqb x _) eqn:E; [apply char_eqb_eq in E; congruence | done]. }
    apply Forall_cons in Hp as [H1 Hp]. apply Forall_cons in Hp as [H2 Hp]. apply Forall_cons in Hp as [H3 Hp]. apply Forall_cons in Hp as [H4 _].
    by rewrite H1, H2, H3, H4.
Qed.

End RDebugger.

(** ** The hypotheses can hold *)

Definition example_embed (j : basic_json) : json (JsonLib := Concrete.concrete) :=
  match j with String s => mk_str s | _ => null end.

Abbreviation example_debugger := (newDebugger (J := Concrete.concrete) (obj := unit) "/tmp/elara_debug_7/"%string).

Definition example_request (command : str) (arguments : list (str * json (JsonLib := Concrete.concrete))) : json :=
  mk_object [("seq"%string : str, mk_int 4); ("command"%string : str, mk_str command);
             ("arguments"%string : str, mk_object arguments)].

(** Stopped, asked for a stack and for variables, told to go on; the asker of
    the second gives up. *)
Definition example_steps : list (Step (J := Concrete.concrete) (obj := unit)) :=
  [R false no_answer; R false no_answer; Control (fun _ => None) (example_request "stackTrace"%string []);
   Control (fun _ => None) (example_request "inspectVariables"%string []); R false no_answer; GiveUp 1; R false no_answer;
   Control (fun _ => None) (example_request "continue"%string []); R false no_answer; R false no_answer].

Abbreviation example_run := (run_threads (J := Concrete.concrete) tt example_embed (fun _ => Null) Enter example_debugger example_steps).

Definition example_end : t (J := Concrete.concrete) := match example_run with Some (_, s) => s | None => example_debugger end.

Lemma example_ends : example_run = Some (Answered ("c"%string ++ [newline]), example_end).
Proof. vm_compute. reflexivity. Qed.


Definition waiting_debugger : t (J := Concrete.concrete) :=
  upd_stopped true "n"%string (upd_jobs [(0%nat, InspectVariables (example_request "inspectVariables"%string []))] 1 example_debugger).

Lemma stopped_resumes_witness : exists s',
  run_threads (J := Concrete.concrete) tt example_embed (fun _ => Null) Waiting waiting_debugger
    ((fun ia => R (fst ia) (snd ia)) <$> replicate 4 (false, no_answer)) = Some (Answered ("n"%string ++ [newline]), s').
Proof.
  destruct (stopped_resumes (J := Concrete.concrete) tt example_embed (fun _ => Null) waiting_debugger
    (replicate 4 (false, no_answer))) as (s' & H & _); [done | | done | by exists s'].
  constructor; [| constructor]. apply Forall_replicate. intros s. eexists. vm_compute. reflexivity.
Defined.

Lemma breakpoints_apply_witness :
  let path := cellPath "f <- function(x) x"%string example_debugger in
  let req := example_request "setBreakpoints"%string
    [("source"%string : str, mk_object [("path"%string : str, mk_str path)]);
     ("breakpoints"%string : str, mk_array [mk_object [("line"%string : str, mk_int 1)]])] in
  breakpointLines path (snd (request (J := Concrete.concrete) tt example_embed (fun _ => Null) true no_answer (fun _ => None) req example_debugger)) = [1].
Proof.
  intros path req.
  destruct (breakpoints_apply (J := Concrete.concrete) tt example_embed (fun _ => Null) true no_answer (fun _ => None) req
    (mk_object [("source"%string : str, mk_object [("path"%string : str, mk_str path)]);
     ("breakpoints"%string : str, mk_array [mk_object [("line"%string : str, mk_int 1)]])])
    "f <- function(x) x"%string example_debugger) as [_ H].
  - vm_compute. reflexivity.
  - destruct (H [1]) as [H1 _]; [vm_compute; reflexivity .. | | exact H1].
    exists (mk_array [mk_object [("line"%string : str, mk_int 1)]]). split; vm_compute; reflexivity.
Defined.

(** The text Jupyter clients name a cell by. *)
Example murmur2_print : murmur2 "print(1)"%string m_hashSeed = 3773950048.
Proof. vm_compute. reflexivity. Qed.

(** A request with a frame that is no number: the exception leaves through R's
    own frames. *)
Example malformed_job_unwinds_R :
  stopped_step (J := Concrete.concrete) tt example_embed (fun _ => Null) false no_answer
    (Running 0 (Evaluate (example_request "evaluate"%string [("frameId"%string : str, mk_str "1"%string)]))) example_debugger = None.
Proof. vm_compute. reflexivity. Qed.

(** A line of the program's own that looks like a breakpoint's is taken from its
    output, and moves the place where R is said to be. *)
Example output_taken_for_a_location :
  let (hidden, s) := consoleLine "issue#12"%string example_debugger in
  hidden = true /\ m_locationLine s = 12.
Proof. vm_compute. split; reflexivity. Qed.
