(* ===== verification/Interpreter.v ===== *)
(** * The base of every interpreter: core/execution/interpreter.cpp

    What an interpreter publishes, and the coalescing of its text output: small
    writes are held per stream and go out as one message.  The state of the
    object is [Interpreter]; the calls of the publisher and of the stdin sender
    are recorded in [published] and [asked], in their order.  The time of
    [steady_clock] is an argument, in milliseconds. *)

From Stdlib Require Import Ascii ZArith Lia.
From S2P Require Import Prelude StataCode Json.
Local Open Scope Z_scope.

(** ** Settings *)

(** [std::strtol(value, &end, 10)] with the whole text consumed. *)
Fixpoint digits_value (acc : Z) (s : str) : option Z :=
  match s with
  | [] => Some acc
  | c :: rest => if isdigit c then digits_value (10 * acc + (code c - 48)) rest else None
  end.

Definition long_max : Z := 2 ^ 63 - 1.

Definition strtol_all (value : str) : option Z :=
  let s := skip_space value in
  let (negative, ds) := match s with
                        | c :: rest => if char_eqb c "-"%char then (true, rest)
                                       else if char_eqb c "+"%char then (false, rest) else (false, s)
                        | [] => (false, s)
                        end in
  match ds with
  | [] => None
  | _ => match digits_value 0 ds with
         | Some n => Some (clamp (if negative then - n else n) (- long_max - 1) long_max)
         | None => None
         end
  end.

Definition streamSetting (env : option str) (fallback minimum : Z) : Z :=
  match env with
  | None | Some [] => fallback
  | Some value =>
      match strtol_all value with
      | Some parsed => if minimum <=? parsed then parsed else fallback
      | None => fallback
      end
  end.

Section Interpreter.
Context `{J : JsonLib}.

(** The settings of this process: [kStreamFlushInterval], [kStreamFlushBytes]. *)
Context (env_ms env_bytes : option str).
Definition kStreamFlushInterval : Z := streamSetting env_ms 50 0.
Definition kStreamFlushBytes : Z := streamSetting env_bytes (16 * 1024) 1.

Record RequestContext := { ctx_id : list str; ctx_header : json }.

Record PendingStream := { name : str; text : str; context : RequestContext }.

Record Publication := {
  p_context : RequestContext;
  p_type : str;
  p_metadata : json;
  p_content : json
}.

Record Interpreter := {
  m_executionCount : Z;
  m_requestContext : RequestContext;
  m_allowStdin : bool;
  has_publisher : bool;
  has_stdin : bool;
  m_streamPending : list PendingStream;
  m_streamPendingBytes : Z;
  (** [None] is [time_point{}]: nothing was flushed yet *)
  m_streamLastFlush : option Z;
  flusher_started : bool;
  m_streamQuit : bool;
  published : list Publication;
  asked : list Publication
}.

Definition set_streams (pending : list PendingStream) (bytes : Z) (i : Interpreter) : Interpreter :=
  {| m_executionCount := m_executionCount i; m_requestContext := m_requestContext i; m_allowStdin := m_allowStdin i;
     has_publisher := has_publisher i; has_stdin := has_stdin i; m_streamPending := pending;
     m_streamPendingBytes := bytes; m_streamLastFlush := m_streamLastFlush i; flusher_started := flusher_started i;
     m_streamQuit := m_streamQuit i; published := published i; asked := asked i |}.

Definition set_last_flush (t : option Z) (i : Interpreter) : Interpreter :=
  {| m_executionCount := m_executionCount i; m_requestContext := m_requestContext i; m_allowStdin := m_allowStdin i;
     has_publisher := has_publisher i; has_stdin := has_stdin i; m_streamPending := m_streamPending i;
     m_streamPendingBytes := m_streamPendingBytes i; m_streamLastFlush := t; flusher_started := flusher_started i;
     m_streamQuit := m_streamQuit i; published := published i; asked := asked i |}.

Definition start_flusher (i : Interpreter) : Interpreter :=
  {| m_executionCount := m_executionCount i; m_requestContext := m_requestContext i; m_allowStdin := m_allowStdin i;
     has_publisher := has_publisher i; has_stdin := has_stdin i; m_streamPending := m_streamPending i;
     m_streamPendingBytes := m_streamPendingBytes i; m_streamLastFlush := m_streamLastFlush i; flusher_started := true;
     m_streamQuit := m_streamQuit i; published := published i; asked := asked i |}.

(** A call of [m_publisher]. *)
Definition publish (p : Publication) (i : Interpreter) : Interpreter :=
  {| m_executionCount := m_executionCount i; m_requestContext := m_requestContext i; m_allowStdin := m_allowStdin i;
     has_publisher := has_publisher i; has_stdin := has_stdin i; m_streamPending := m_streamPending i;
     m_streamPendingBytes := m_streamPendingBytes i; m_streamLastFlush := m_streamLastFlush i;
     flusher_started := flusher_started i; m_streamQuit := m_streamQuit i;
     published := published i ++ [p]; asked := asked i |}.

Definition stream_message (s : PendingStream) : Publication :=
  {| p_context := context s; p_type := "stream"%string; p_metadata := empty_object;
     p_content := with_keys null [("name"%string : str, mk_str (name s)); ("text"%string : str, mk_str (text s))] |}.

Definition flushStreamsLocked (now : Z) (i : Interpreter) : Interpreter :=
  let pending := m_streamPending i in
  let i := set_streams [] 0 i in
  if bool_decide (pending = []) || negb (has_publisher i) then i
  else fold_left (fun i s => publish (stream_message s) i) pending (set_last_flush (Some now) i).

Definition flushStreams (now : Z) (i : Interpreter) : Interpreter := flushStreamsLocked now i.

(** The entry of the stream [n], made at the end when there is none, with
    [t] added. *)
Fixpoint append_text (n t : str) (ctx : RequestContext) (pending : list PendingStream) : list PendingStream :=
  match pending with
  | [] => [{| name := n; text := t; context := ctx |}]
  | p :: rest =>
      if str_eqb (name p) n then {| name := name p; text := text p ++ t; context := context p |} :: rest
      else p :: append_text n t ctx rest
  end.

Definition publishStream (n t : str) (now : Z) (i : Interpreter) : Interpreter :=
  if negb (has_publisher i) || bool_decide (t = []) then i
  else
    let i := if flusher_started i then i else start_flusher i in
    let i := if bool_decide (m_streamPending i = []) && bool_decide (m_streamLastFlush i = None)
             then set_last_flush (Some (now - kStreamFlushInterval)) i else i in
    let ctx := m_requestContext i in
    let i := match m_streamPending i with
             | front :: _ => if negb (bool_decide (ctx_header (context front) = ctx_header ctx))
                             then flushStreamsLocked now i else i
             | [] => i
             end in
    let i := set_streams (append_text n t ctx (m_streamPending i))
                         (m_streamPendingBytes i + Z.of_nat (length t)) i in
    let due := match m_streamLastFlush i with Some last => kStreamFlushInterval <=? now - last | None => true end in
    if (kStreamFlushBytes <=? m_streamPendingBytes i) || due then flushStreamsLocked now i else i.

(** One turn of the flusher thread's loop, at the time [now]: it waits (nothing
    changes) while nothing is pending or the text is not due. *)
Definition streamFlusherTurn (now : Z) (i : Interpreter) : Interpreter :=
  if m_streamQuit i then i
  else if bool_decide (m_streamPending i = []) then i
  else match m_streamLastFlush i with
       | Some last => if last + kStreamFlushInterval <=? now then flushStreamsLocked now i else i
       | None => flushStreamsLocked now i
       end.

(** ** What is published *)
Definition publication (msg_type : str) (content : json) (i : Interpreter) : Interpreter :=
  if has_publisher i
  then publish {| p_context := m_requestContext i; p_type := msg_type; p_metadata := empty_object; p_content := content |} i
  else i.

Definition buildDisplayContent (data metadata transient : json) : json :=
  with_keys null [("data"%string : str, data); ("metadata"%string : str, metadata); ("transient"%string : str, transient)].

Definition displayData (data metadata transient : json) (now : Z) (i : Interpreter) : Interpreter :=
  publication "display_data"%string (buildDisplayContent data metadata transient) (flushStreams now i).

Definition updateDisplayData (data metadata transient : json) (now : Z) (i : Interpreter) : Interpreter :=
  publication "update_display_data"%string (buildDisplayContent data metadata transient) (flushStreams now i).

Definition publishExecutionInput (code_ : str) (execution_count : Z) (i : Interpreter) : Interpreter :=
  publication "execute_input"%string
    (with_keys null [("code"%string : str, mk_str code_); ("execution_count"%string : str, mk_int execution_count)]) i.

Definition publishExecutionResult (execution_count : Z) (data metadata : json) (now : Z) (i : Interpreter) : Interpreter :=
  publication "execute_result"%string
    (with_keys null [("execution_count"%string : str, mk_int execution_count); ("data"%string : str, data);
                     ("metadata"%string : str, metadata)]) (flushStreams now i).

Definition publishExecutionError (ename evalue : str) (trace_back : list str) (now : Z) (i : Interpreter) : Interpreter :=
  publication "error"%string
    (with_keys null [("ename"%string : str, mk_str ename); ("evalue"%string : str, mk_str evalue);
                     ("traceback"%string : str, mk_array (mk_str <$> trace_back))]) (flushStreams now i).

Definition clearOutput (wait : bool) (now : Z) (i : Interpreter) : Interpreter :=
  publication "clear_output"%string (with_keys null [("wait"%string : str, mk_bool wait)]) (flushStreams now i).

Definition publishDebugEvent (event : json) (flushOutput : bool) (now : Z) (i : Interpreter) : Interpreter :=
  publication "debug_event"%string event (if flushOutput then flushStreams now i else i).

Definition ask (p : Publication) (i : Interpreter) : Interpreter :=
  {| m_executionCount := m_executionCount i; m_requestContext := m_requestContext i; m_allowStdin := m_allowStdin i;
     has_publisher := has_publisher i; has_stdin := has_stdin i; m_streamPending := m_streamPending i;
     m_streamPendingBytes := m_streamPendingBytes i; m_streamLastFlush := m_streamLastFlush i;
     flusher_started := flusher_started i; m_streamQuit := m_streamQuit i;
     published := published i; asked := asked i ++ [p] |}.

Definition inputRequest (prompt : str) (pwd : bool) (ui : json) (now : Z) (i : Interpreter) : Interpreter :=
  let i := flushStreams now i in
  if has_stdin i then
    let content := with_keys null [("prompt"%string : str, mk_str prompt); ("password"%string : str, mk_bool pwd)] in
    let content := if is_null ui then content else insert_key content "jovian_ui"%string ui in
    ask {| p_context := m_requestContext i; p_type := "input_request"%string; p_metadata := empty_object;
           p_content := content |} i
  else i.

(** ** Running a request *)
Record ExecuteRequestConfig := { silent : bool; store_history : bool; allow_stdin : bool }.

Definition set_request (ctx : RequestContext) (allow : bool) (count : Z) (i : Interpreter) : Interpreter :=
  {| m_executionCount := count; m_requestContext := ctx; m_allowStdin := allow;
     has_publisher := has_publisher i; has_stdin := has_stdin i; m_streamPending := m_streamPending i;
     m_streamPendingBytes := m_streamPendingBytes i; m_streamLastFlush := m_streamLastFlush i;
     flusher_started := flusher_started i; m_streamQuit := m_streamQuit i;
     published := published i; asked := asked i |}.

Definition setRequestContext (ctx : RequestContext) (i : Interpreter) : Interpreter :=
  set_request ctx (m_allowStdin i) (m_executionCount i) i.

(** [executeRequest] up to the call of the language's [executeRequestImpl]. *)
Definition executeRequest (ctx : RequestContext) (code_ : str) (config : ExecuteRequestConfig) (i : Interpreter) : Interpreter :=
  let i := set_request ctx (allow_stdin config) (m_executionCount i) i in
  if silent config then i
  else
    let i := set_request ctx (allow_stdin config) (m_executionCount i + 1) i in
    publishExecutionInput code_ (m_executionCount i) i.

(** The callback it hands over: what reaches the kernel's own callback. *)
Definition callback_impl (execution_count : Z) (reply : json) (now : Z) (i : Interpreter) : result json * Interpreter :=
  (set_key reply "execution_count"%string (mk_int execution_count), flushStreams now i).

(** The default [debugRequestImpl] and [internalRequestImpl]. *)
Definition debugRequestImpl (request : json) : result json :=
  let? seq := value get_int request "seq"%string 0 in
  let? command := value get_str request "command"%string [] in
  Ok (mk_object [("type"%string : str, mk_str "response"%string); ("seq"%string : str, mk_int 0);
                 ("request_seq"%string : str, mk_int seq); ("success"%string : str, mk_bool false);
                 ("command"%string : str, mk_str command);
                 ("message"%string : str, mk_str "this kernel has no debugger"%string)]).

Definition internalRequestImpl (message : json) : json :=
  with_keys null [("status"%string : str, mk_str "error"%string);
                  ("what"%string : str, mk_str "internal request not supported"%string)].

(** ** The registry of the process's interpreter *)
Definition registerInterpreter {I : Type} (new_interpreter : I) (registered : option I) : bool * option I :=
  match registered with Some _ => (false, registered) | None => (true, Some new_interpreter) end.

Definition getInterpreter {I : Type} (registered : option I) : result I :=
  match registered with
  | Some i => Ok i
  | None => Throw "adrastea::getInterpreter() called before any Interpreter registered itself"%string
  end.

(** ** Any use of the object *)
Inductive Call :=
| SetContext (ctx : RequestContext)
| Stream (n t : str) (now : Z)
| Flush (now : Z)
| FlusherTurn (now : Z)
| Display (data metadata transient : json) (now : Z)
| UpdateDisplay (data metadata transient : json) (now : Z)
| ExecutionResult (count : Z) (data metadata : json) (now : Z)
| ExecutionError (ename evalue : str) (trace_back : list str) (now : Z)
| ClearOutput (wait : bool) (now : Z)
| DebugEvent (event : json) (flushOutput : bool) (now : Z)
| Input (prompt : str) (pwd : bool) (ui : json) (now : Z).

Definition run (i : Interpreter) (c : Call) : Interpreter :=
  match c with
  | SetContext ctx => setRequestContext ctx i
  | Stream n t now => publishStream n t now i
  | Flush now => flushStreams now i
  | FlusherTurn now => streamFlusherTurn now i
  | Display d m t now => displayData d m t now i
  | UpdateDisplay d m t now => updateDisplayData d m t now i
  | ExecutionResult c d m now => publishExecutionResult c d m now i
  | ExecutionError e v t now => publishExecutionError e v t now i
  | ClearOutput w now => clearOutput w now i
  | DebugEvent e f now => publishDebugEvent e f now i
  | Input p w u now => inputRequest p w u now i
  end.

Definition run_calls (calls : list Call) (i : Interpreter) : Interpreter := fold_left run calls i.

End Interpreter.

(** ** What a call publishes

    A call adds to what was published and asked, and nothing it publishes is a
    status. *)
Section Published.
Context `{J : JsonLib} (env_ms env_bytes : option str).

Definition status_type : str := "status"%string.

Definition adds (i i' : Interpreter) : Prop :=
  (exists new, published i' = published i ++ new /\ Forall (fun p => p_type p <> status_type) new)
  /\ exists new, asked i' = asked i ++ new.

#[export] Instance adds_preorder : PreOrder adds.
Proof.
  split.
  - intros i. split; exists []; by rewrite app_nil_r.
  - intros i1 i2 i3 [(n1 & E1 & F1) (m1 & G1)] [(n2 & E2 & F2) (m2 & G2)]. split.
    + exists (n1 ++ n2). rewrite E2, E1, <- app_assoc. split; [done | by apply Forall_app].
    + exists (m1 ++ m2). by rewrite G2, G1, <- app_assoc.
Qed.

Lemma adds_same i i' : published i' = published i -> asked i' = asked i -> adds i i'.
Proof. intros E1 E2. split; exists []; by rewrite app_nil_r. Qed.

Lemma adds_publish p i : p_type p <> status_type -> adds i (publish p i).
Proof. intros H. split; [exists [p]; split; [done | by constructor] | exists []; by rewrite app_nil_r]. Qed.

Lemma adds_flush now i : adds i (flushStreamsLocked now i).
Proof.
  unfold flushStreamsLocked. destruct (_ || _); [by apply adds_same |].
  assert (H : forall pending j, adds i j -> adds i (fold_left (fun i s => publish (stream_message s) i) pending j)).
  { intros pending. induction pending as [|s pending IH]; intros j Hj; [done |]. cbn [fold_left]. apply IH.
    etrans; [exact Hj |]. by apply adds_publish. }
  apply H. by apply adds_same.
Qed.

Lemma adds_publication (ty : str) co i : ty <> status_type -> adds i (publication ty co i).
Proof. intros H. unfold publication. destruct (has_publisher i); [by apply adds_publish | done]. Qed.

Lemma adds_publishStream n t now i : adds i (publishStream env_ms env_bytes n t now i).
Proof.
  unfold publishStream. destruct (_ || _); [done |].
  set (i1 := if flusher_started i then i else start_flusher i).
  assert (H1 : adds i i1) by (unfold i1; destruct (flusher_started i); [done | by apply adds_same]).
  set (i2 := if bool_decide (m_streamPending i1 = []) && bool_decide (m_streamLastFlush i1 = None)
             then set_last_flush (Some (now - kStreamFlushInterval env_ms)) i1 else i1).
  assert (H2 : adds i i2) by (unfold i2; destruct (_ && _); [etrans; [exact H1 | by apply adds_same] | done]).
  set (i3 := match m_streamPending i2 with
             | [] => i2
             | front :: _ => if negb (bool_decide (ctx_header (context front) = ctx_header (m_requestContext i2)))
                             then flushStreamsLocked now i2 else i2
             end).
  assert (H3 : adds i i3).
  { unfold i3. destruct (m_streamPending i2); [done |]. destruct (negb _); [etrans; [exact H2 | apply adds_flush] | done]. }
  set (i4 := set_streams _ _ i3). assert (H4 : adds i i4) by (etrans; [exact H3 | by apply adds_same]).
  destruct (_ || _); [etrans; [exact H4 | apply adds_flush] | done].
Qed.

Lemma adds_run i c : adds i (run env_ms env_bytes i c).
Proof.
  destruct c; cbn [run];
    try (unfold displayData, updateDisplayData, publishExecutionResult, publishExecutionError, clearOutput, flushStreams;
         etrans; [apply adds_flush | by apply adds_publication]).
  - by apply adds_same.
  - apply adds_publishStream.
  - apply adds_flush.
  - unfold streamFlusherTurn. repeat (case_match; try done); apply adds_flush.
  - unfold publishDebugEvent. destruct flushOutput; [etrans; [apply adds_flush |] |]; by apply adds_publication.
  - unfold inputRequest. etrans; [apply adds_flush |]. unfold flushStreams.
    destruct (has_stdin _); [| done]. split; [exists []; by rewrite app_nil_r |]. by eexists [_].
Qed.

Lemma adds_execute ctx code_ config i : adds i (executeRequest ctx code_ config i).
Proof.
  unfold executeRequest. destruct (silent config); [by apply adds_same |].
  etrans; [| by apply adds_publication]. by apply adds_same.
Qed.

End Published.

(** ** What the coalescing promises *)
Section Streams.
Context `{L : JsonLaws} (env_ms env_bytes : option str).
Abbreviation Run := (run env_ms env_bytes).
Abbreviation RunCalls := (run_calls env_ms env_bytes).

Definition str_member (p : Publication) (k : str) : option str := find (p_content p) k ≫= get_str.

(** The text of the stream [n] that a publication of the request [h] shows. *)
Definition shown (n : str) (h : json) (p : Publication) : str :=
  if bool_decide (p_type p = "stream"%string /\ str_member p "name"%string = Some n /\ ctx_header (p_context p) = h)
  then default [] (str_member p "text"%string) else [].

Definition all_shown (n : str) (h : json) (ps : list Publication) : str := ps ≫= shown n h.

(** The text the calls wrote to the stream [n] while the request [h] was the
    current one ([ctx] is the current header). *)
Fixpoint written (n : str) (h ctx : json) (calls : list Call) : str :=
  match calls with
  | [] => []
  | SetContext c :: rest => written n h (ctx_header c) rest
  | Stream n' t _ :: rest => (if bool_decide (n' = n /\ ctx = h) then t else []) ++ written n h ctx rest
  | _ :: rest => written n h ctx rest
  end.

Definition entry_text (n : str) (h : json) (s : PendingStream) : str :=
  if bool_decide (name s = n /\ ctx_header (context s) = h) then text s else [].

Definition pending_text (n : str) (h : json) (pending : list PendingStream) : str := pending ≫= entry_text n h.

Definition size (pending : list PendingStream) : Z := Z.of_nat (length (pending ≫= text)).

Record coherent (pending : list PendingStream) : Prop := {
  coherent_names : NoDup (name <$> pending);
  coherent_request : forall p q, p ∈ pending -> q ∈ pending -> ctx_header (context p) = ctx_header (context q)
}.

Lemma shown_stream n h s : shown n h (stream_message s) = entry_text n h s.
Proof.
  unfold shown, entry_text, str_member, stream_message. cbn [p_type p_content p_context].
  find_key. cbn [mbind option_bind]. rewrite !get_str_mk. cbn [default].
  repeat case_bool_decide; naive_solver.
Qed.

Lemma published_flush now i : has_publisher i = true ->
  let i' := flushStreamsLocked now i in
  published i' = published i ++ (stream_message <$> m_streamPending i) /\ m_streamPending i' = []
  /\ m_streamPendingBytes i' = 0 /\ has_publisher i' = true /\ m_requestContext i' = m_requestContext i.
Proof.
  intros Hp. unfold flushStreamsLocked. case_bool_decide as He; cbn [orb].
  - rewrite He. cbn. by rewrite app_nil_r.
  - cbn. rewrite Hp. cbn [negb].
    assert (H : forall pending j, has_publisher j = true -> m_streamPending j = [] -> m_streamPendingBytes j = 0 ->
      let i' := fold_left (fun i s => publish (stream_message s) i) pending j in
      published i' = published j ++ (stream_message <$> pending) /\ m_streamPending i' = []
      /\ m_streamPendingBytes i' = 0 /\ has_publisher i' = true /\ m_requestContext i' = m_requestContext j).
    { intros pending. induction pending as [|s pending IH]; intros j H1 H2 H3; cbn.
      - by rewrite app_nil_r.
      - destruct (IH (publish (stream_message s) j)) as (E1 & E2 & E3 & E4 & E5); [done.. |].
        cbn in *. rewrite E1, <- app_assoc. done. }
    by apply (H (m_streamPending i) (set_last_flush (Some now) (set_streams [] 0 i))).
Qed.

Lemma pending_text_shown n h pending : all_shown n h (stream_message <$> pending) = pending_text n h pending.
Proof.
  unfold all_shown, pending_text. induction pending as [|s pending IH]; [done |].
  rewrite fmap_cons, !bind_cons, shown_stream. by f_equal.
Qed.

Lemma append_text_spec n t ctx pending : coherent pending ->
  (forall p, p ∈ pending -> ctx_header (context p) = ctx_header ctx) ->
  coherent (append_text n t ctx pending)
  /\ (forall p, p ∈ append_text n t ctx pending -> ctx_header (context p) = ctx_header ctx)
  /\ size (append_text n t ctx pending) = size pending + Z.of_nat (length t)
  /\ forall m h, pending_text m h (append_text n t ctx pending)
       = pending_text m h pending ++ (if bool_decide (n = m /\ ctx_header ctx = h) then t else []).
Proof.
  intros [Hnd _] Hall.
  assert (H : NoDup (name <$> append_text n t ctx pending)
    /\ (forall x, x ∈ (name <$> append_text n t ctx pending) -> x = n \/ x ∈ (name <$> pending))
    /\ (forall p, p ∈ append_text n t ctx pending -> ctx_header (context p) = ctx_header ctx)
    /\ size (append_text n t ctx pending) = size pending + Z.of_nat (length t)
    /\ forall m h, pending_text m h (append_text n t ctx pending)
       = pending_text m h pending ++ (if bool_decide (n = m /\ ctx_header ctx = h) then t else [])).
  { induction pending as [|p pending IH].
    - cbn [append_text]. split; [| split; [| split; [| split]]].
      + cbn. repeat constructor. apply not_elem_of_nil.
      + intros x. cbn. rewrite elem_of_cons, elem_of_nil. tauto.
      + intros p Hp. apply list_elem_of_singleton in Hp as ->. done.
      + unfold size. cbn. by rewrite app_nil_r.
      + intros m h. unfold pending_text, entry_text. cbn. by rewrite app_nil_r.
    - rewrite fmap_cons in Hnd. apply NoDup_cons in Hnd as [Hp Hnd]. cbn [append_text].
      assert (Hpc : ctx_header (context p) = ctx_header ctx) by (apply Hall; left).
      destruct (str_eqb (name p) n) eqn:En.
      + apply str_eqb_eq in En. split; [| split; [| split; [| split]]].
        * rewrite fmap_cons. by constructor.
        * intros x. rewrite !fmap_cons, !elem_of_cons. tauto.
        * intros q. rewrite elem_of_cons. intros [-> | Hq]; [done |]. apply Hall. by right.
        * unfold size. rewrite !bind_cons, !length_app. cbn [text]. rewrite length_app. lia.
        * intros m h. unfold pending_text. rewrite !bind_cons.
          assert (Hrest : n = m -> (pending ≫= entry_text m h) = []).
          { intros <-. clear -Hp En. induction pending as [|q pending IH]; [done |].
            rewrite fmap_cons, not_elem_of_cons in Hp. rewrite bind_cons, IH by tauto.
            unfold entry_text. rewrite bool_decide_false; [done | naive_solver]. }
          unfold entry_text at 1 3. cbn [name context text]. rewrite En, Hpc.
          case_bool_decide as Hb; [| by rewrite app_nil_r].
          rewrite Hrest by tauto. by rewrite !app_nil_r.
      + destruct IH as (I1 & I2 & I3 & I4 & I5); [done | intros q Hq; apply Hall; by right |].
        split; [| split; [| split; [| split]]].
        * rewrite fmap_cons. constructor; [| done]. intros Hin. apply I2 in Hin as [E | Hin]; [| done].
          rewrite E, str_eqb_refl in En. done.
        * intros x. rewrite !fmap_cons, !elem_of_cons. intros [-> | Hx]; [tauto |]. apply I2 in Hx. tauto.
        * intros q. rewrite elem_of_cons. intros [-> | Hq]; [done | by apply I3].
        * unfold size in *. rewrite !bind_cons, !length_app. lia.
        * intros m h. unfold pending_text in *. rewrite !bind_cons, I5. by rewrite app_assoc. }
  destruct H as (H1 & _ & H3 & H4 & H5). split; [| done]. split; [done |].
  intros p q Hp Hq. by rewrite (H3 p Hp), (H3 q Hq).
Qed.

Lemma kStreamFlushBytes_pos : 1 <= kStreamFlushBytes env_bytes.
Proof.
  unfold kStreamFlushBytes, streamSetting. destruct env_bytes as [[|c v]|]; try lia.
  destruct (strtol_all (c :: v)) as [p|]; [| lia]. destruct (Z.leb_spec 1 p); lia.
Qed.

(** The object after some calls. [ctx] is the header when they started. *)
Record invariant (ctx : json) (calls : list Call) (i : Interpreter) : Prop := {
  inv_text : forall n h, all_shown n h (published i) ++ pending_text n h (m_streamPending i) = written n h ctx calls;
  inv_coherent : coherent (m_streamPending i);
  inv_bytes : m_streamPendingBytes i = size (m_streamPending i);
  inv_bound : m_streamPendingBytes i < kStreamFlushBytes env_bytes;
  inv_publisher : has_publisher i = true
}.

Fixpoint current (ctx : json) (calls : list Call) : json :=
  match calls with [] => ctx | SetContext c :: rest => current (ctx_header c) rest | _ :: rest => current ctx rest end.

Lemma written_app n h calls c : forall ctx,
  written n h ctx (calls ++ [c]) = written n h ctx calls ++ written n h (current ctx calls) [c].
Proof.
  induction calls as [|d calls IH]; intros ctx; [done |]. destruct d; cbn [app written current]; rewrite ?IH; try done.
  by rewrite app_assoc.
Qed.

Lemma all_shown_app n h a b : all_shown n h (a ++ b) = all_shown n h a ++ all_shown n h b.
Proof. apply bind_app. Qed.

(** A state with nothing pending. *)
Lemma invariant_flushed ctx calls now i :
  has_publisher i = true ->
  (forall n h, all_shown n h (published i) ++ pending_text n h (m_streamPending i) = written n h ctx calls) ->
  invariant ctx calls (flushStreamsLocked now i) /\ m_streamPending (flushStreamsLocked now i) = [].
Proof.
  intros Hp Ht. destruct (published_flush now i Hp) as (E1 & E2 & E3 & E4 & E5).
  split; [| done]. split.
  - intros n h. rewrite E1, E2, all_shown_app, pending_text_shown, app_nil_r. apply Ht.
  - rewrite E2. split; [constructor | intros p q Hq; by apply elem_of_nil in Hq].
  - by rewrite E3, E2.
  - rewrite E3. pose proof kStreamFlushBytes_pos. lia.
  - done.
Qed.
Lemma publication_shown n h i (msg_type : str) content : msg_type <> ("stream"%string : str) ->
  all_shown n h (published (publication msg_type content i)) = all_shown n h (published i).
Proof.
  intros Hm. unfold publication. destruct (has_publisher i); [| done]. cbn [publish published].
  rewrite all_shown_app. unfold all_shown at 2. cbn. unfold shown. cbn [p_type].
  rewrite bool_decide_false by (by intros [? _]). by rewrite !app_nil_r.
Qed.

Lemma publication_invariant ctx calls i (msg_type : str) content : msg_type <> ("stream"%string : str) ->
  invariant ctx calls i -> invariant ctx calls (publication msg_type content i).
Proof.
  intros Hm [I1 I2 I3 I4 I5]. split; [intros n h; rewrite publication_shown by done | ..];
    unfold publication; rewrite I5; done.
Qed.

Lemma streams_flush_invariant ctx calls now i : invariant ctx calls i -> invariant ctx calls (flushStreamsLocked now i).
Proof. intros [I1 _ _ _ I5]. by apply invariant_flushed. Qed.

Lemma publishStream_invariant ctx calls n t now i :
  invariant ctx calls i -> ctx_header (m_requestContext i) = current ctx calls ->
  invariant ctx (calls ++ [Stream n t now]) (publishStream env_ms env_bytes n t now i)
  /\ m_requestContext (publishStream env_ms env_bytes n t now i) = m_requestContext i.
Proof.
  intros I Hctx. unfold publishStream. rewrite (inv_publisher _ _ _ I). cbn [negb orb].
  case_bool_decide as Ht.
  { split; [| done]. destruct I as [I1 I2 I3 I4 I5]. split; try done. intros m h.
    rewrite written_app, I1. cbn. subst t. destruct (bool_decide _); by rewrite app_nil_r. }
  set (i1 := if flusher_started i then i else start_flusher i).
  set (i2 := if bool_decide (m_streamPending i1 = []) && bool_decide (m_streamLastFlush i1 = None)
             then set_last_flush (Some (now - kStreamFlushInterval env_ms)) i1 else i1).
  assert (I2 : invariant ctx calls i2 /\ m_requestContext i2 = m_requestContext i).
  { assert (invariant ctx calls i1 /\ m_requestContext i1 = m_requestContext i) as [? ?]
      by (unfold i1; destruct (flusher_started i); [done |]; by destruct I).
    unfold i2. destruct (_ && _); [| done]. split; [| done]. by destruct H. }
  generalize dependent i2. clear i1. intros i2 [I2 Hr2]. rewrite Hr2. set (c := m_requestContext i) in *.
  set (i3 := match m_streamPending i2 with
             | [] => i2
             | front :: _ => if negb (bool_decide (ctx_header (context front) = ctx_header c))
                             then flushStreamsLocked now i2 else i2
             end).
  assert (I3 : invariant ctx calls i3 /\ m_requestContext i3 = c
               /\ forall p, p ∈ m_streamPending i3 -> ctx_header (context p) = ctx_header c).
  { unfold i3. destruct (m_streamPending i2) as [|front rest] eqn:Hpend.
    - rewrite Hpend. split; [done |]. split; [done |]. intros p Hp. by apply elem_of_nil in Hp.
    - case_bool_decide as Hh; cbn [negb].
      + split; [done |]. split; [done |]. intros p Hp. rewrite Hpend in Hp.
        rewrite <- Hh. apply (coherent_request _ (inv_coherent _ _ _ I2)); rewrite Hpend; [done | left].
      + destruct (published_flush now i2 (inv_publisher _ _ _ I2)) as (_ & E2 & _ & _ & E5).
        split; [by apply streams_flush_invariant |]. split; [congruence |]. rewrite E2. intros p Hp. by apply elem_of_nil in Hp. }
  generalize dependent i3. intros i3 (I3 & Hr3 & Hall). destruct I3 as [J1 J2 J3 J4 J5].
  destruct (append_text_spec n t c (m_streamPending i3) J2 Hall) as (A1 & _ & A3 & A4).
  set (i4 := set_streams _ _ i3).
  assert (T4 : forall m h, all_shown m h (published i4) ++ pending_text m h (m_streamPending i4)
                = written m h ctx (calls ++ [Stream n t now])).
  { intros m h. cbn [i4 set_streams published m_streamPending]. rewrite A4, app_assoc, J1, written_app.
    cbn [written]. rewrite app_nil_r, Hctx. done. }
  destruct (_ || _) eqn:Hdue.
  - split; [by apply invariant_flushed |]. destruct (published_flush now i4 J5) as (_ & _ & _ & _ & E5). by rewrite E5.
  - apply orb_false_iff in Hdue as [Hb%Z.leb_gt _]. split; [| done].
    split; try done. cbn. by rewrite A3, J3.
Qed.

Lemma run_invariant ctx calls c i : invariant ctx calls i ->
  ctx_header (m_requestContext i) = current ctx calls ->
  invariant ctx (calls ++ [c]) (Run i c) /\ ctx_header (m_requestContext (Run i c)) = current ctx (calls ++ [c]).
Proof.
  intros I Hctx.
  assert (Hcur : match c with SetContext x => current ctx (calls ++ [c]) = ctx_header x
                 | _ => current ctx (calls ++ [c]) = current ctx calls end).
  { clear. revert ctx. induction calls as [|d calls IH]; intros ctx; [by destruct c |]. cbn [app].
    destruct d; cbn [current]; apply IH. }
  assert (Hsame : (forall n h, written n h (current ctx calls) [c] = []) -> forall j, invariant ctx calls j ->
            invariant ctx (calls ++ [c]) j).
  { intros Hw j [I1 I2 I3 I4 I5]. split; try done. intros n h. by rewrite I1, written_app, Hw, app_nil_r. }
  assert (Hreq : forall now j, has_publisher j = true ->
            m_requestContext (flushStreamsLocked now j) = m_requestContext j) by (intros now j Hp; by apply published_flush).
  assert (Hpub : forall ty co j, m_requestContext (publication ty co j) = m_requestContext j)
    by (intros ty co j; unfold publication; by destruct (has_publisher j)).
  pose proof (inv_publisher _ _ _ I) as Hp.
  destruct c; cbn [run];
    try (rewrite Hcur; unfold displayData, updateDisplayData, publishExecutionResult, publishExecutionError,
           clearOutput, flushStreams in *; rewrite ?Hpub, ?Hreq by done; split;
         [apply Hsame; [done |]; apply publication_invariant; [discriminate |]; by apply streams_flush_invariant | done]).
  - split; [| by rewrite Hcur]. apply Hsame; [done |]. by destruct I.
  - rewrite Hcur. destruct (publishStream_invariant ctx calls n t now i I Hctx) as [? ->]. done.
  - rewrite Hcur. unfold flushStreams. rewrite Hreq by done. split; [| done]. apply Hsame; [done |]. by apply streams_flush_invariant.
  - rewrite Hcur. split.
    + apply Hsame; [done |]. unfold streamFlusherTurn. repeat (case_match; try done); by apply streams_flush_invariant.
    + unfold streamFlusherTurn. repeat (case_match; try done); by rewrite Hreq.
  - rewrite Hcur. unfold publishDebugEvent. rewrite Hpub. split.
    + apply Hsame; [done |]. apply publication_invariant; [discriminate |]. destruct flushOutput; [by apply streams_flush_invariant | done].
    + destruct flushOutput; [| done]. unfold flushStreams. by rewrite Hreq.
  - rewrite Hcur. unfold inputRequest, flushStreams. split.
    + apply Hsame; [done |]. pose proof (streams_flush_invariant _ _ now _ I) as I'.
      destruct (has_stdin _); [| done]. by destruct I'.
    + destruct (has_stdin _); cbn; by rewrite Hreq.
Qed.

Definition fresh (i : Interpreter) : Prop :=
  has_publisher i = true /\ published i = [] /\ m_streamPending i = [] /\ m_streamPendingBytes i = 0.

Lemma fresh_invariant i : fresh i -> invariant (ctx_header (m_requestContext i)) [] i.
Proof.
  intros (H1 & H2 & H3 & H4). split; rewrite ?H2, ?H3; try done.
  - split; [constructor | intros p q Hp; by apply elem_of_nil in Hp].
  - rewrite H4. pose proof kStreamFlushBytes_pos. lia.
Qed.

Lemma run_calls_invariant calls i : fresh i ->
  let ctx := ctx_header (m_requestContext i) in
  invariant ctx calls (RunCalls calls i) /\ ctx_header (m_requestContext (RunCalls calls i)) = current ctx calls.
Proof.
  intros Hf ctx. induction calls as [|c calls IH] using rev_ind.
  - split; [by apply fresh_invariant | done].
  - unfold run_calls in *. rewrite fold_left_app. cbn [fold_left]. destruct IH as [I Hc]. by apply run_invariant.
Qed.

(** C4: coalescing changes neither the text nor what it belongs to: after any
    calls, at any times, of the publishing functions and of the flusher thread,
    for each stream and each request the texts published so far, followed by
    what is still held, are the texts written to that stream while that request
    was the current one, in order; what is held is at most one text per stream,
    all of one request, and less than the flush limit. *)
Theorem streams_conserve calls i : fresh i ->
  let j := RunCalls calls i in
  (forall n h, all_shown n h (published j) ++ pending_text n h (m_streamPending j)
               = written n h (ctx_header (m_requestContext i)) calls)
  /\ coherent (m_streamPending j)
  /\ size (m_streamPending j) < kStreamFlushBytes env_bytes.
Proof.
  intros Hf j. destruct (run_calls_invariant calls i Hf) as [[I1 I2 I3 I4 I5] _]. fold j in I1, I2, I3, I4.
  split; [done |]. split; [done |]. lia.
Qed.

(** What each other kind of output publishes, and when. *)
Definition published_as (c : Call) : option (str * Z) :=
  match c with
  | Display _ _ _ now => Some ("display_data"%string : str, now)
  | UpdateDisplay _ _ _ now => Some ("update_display_data"%string : str, now)
  | ExecutionResult _ _ _ now => Some ("execute_result"%string : str, now)
  | ExecutionError _ _ _ now => Some ("error"%string : str, now)
  | ClearOutput _ now => Some ("clear_output"%string : str, now)
  | DebugEvent _ true now => Some ("debug_event"%string : str, now)
  | _ => None
  end.

(** Text never comes after what was published later: when display data, a
    result, an error, a cleared output or a debug event (that flushes) is
    published, everything written before it, to every stream and for every
    request, has been published before it. *)
Theorem output_in_order calls c msg_type now i : fresh i -> published_as c = Some (msg_type, now) ->
  let before := RunCalls calls i in
  exists texts p,
    published (Run before c) = published before ++ texts ++ [p]
    /\ p_type p = msg_type /\ p_context p = m_requestContext before
    /\ forall n h, all_shown n h (published before ++ texts) = written n h (ctx_header (m_requestContext i)) calls.
Proof.
  intros Hf Hc before. destruct (run_calls_invariant calls i Hf) as [[I1 _ _ _ I5] _]. fold before in I1, I5.
  destruct (published_flush now before I5) as (E1 & _ & _ & E4 & E5).
  assert (H : forall ty co, exists texts p,
    published (publication ty co (flushStreamsLocked now before)) = published before ++ texts ++ [p]
    /\ p_type p = ty /\ p_context p = m_requestContext before
    /\ forall n h, all_shown n h (published before ++ texts) = written n h (ctx_header (m_requestContext i)) calls).
  { intros ty co. unfold publication. rewrite E4. cbn [publish published]. rewrite E1, E5.
    do 2 eexists. split; [by rewrite <- app_assoc |]. split; [done |]. split; [done |].
    intros n h. rewrite all_shown_app, pending_text_shown. apply I1. }
  destruct c; try discriminate; cbn in Hc; try (destruct flushOutput; [| discriminate]);
    injection Hc as <- <-; apply H.
Qed.

(** The flusher thread: held text goes out when it is due. *)
Lemma flusher_flushes calls i now : fresh i ->
  let j := RunCalls calls i in
  m_streamQuit j = false ->
  (forall last, m_streamLastFlush j = Some last -> last + kStreamFlushInterval env_ms <= now) ->
  m_streamPending (streamFlusherTurn env_ms now j) = [].
Proof.
  intros Hf j Hq Hd. destruct (run_calls_invariant calls i Hf) as [I _]. fold j in I.
  unfold streamFlusherTurn. rewrite Hq. case_bool_decide; [done |].
  destruct (m_streamLastFlush j) as [last|] eqn:Hl.
  - rewrite (proj2 (Z.leb_le _ _)) by (by apply Hd). by apply published_flush, I.
  - by apply published_flush, I.
Qed.

(** The reply of an execution comes after everything the cell wrote: the
    callback the language receives flushes every stream before it hands on the
    reply, which carries the count the cell was numbered with; the count grows
    by one for each request that is not silent, whose code is published first. *)
Theorem execution_reply_last calls i reply now ctx code_ config : fresh i ->
  let before := RunCalls calls i in
  let '(handed, after) := callback_impl (m_executionCount before) reply now before in
  m_streamPending after = []
  /\ (forall n h, all_shown n h (published after) = written n h (ctx_header (m_requestContext i)) calls)
  /\ (type_of reply = Jobject -> exists j, handed = Ok j /\ find j "execution_count"%string = Some (mk_int (m_executionCount before))
        /\ forall k : str, k <> ("execution_count"%string : str) -> find j k = find reply k)
  /\ let started := executeRequest ctx code_ config before in
     m_executionCount started = m_executionCount before + (if silent config then 0 else 1)
     /\ m_requestContext started = ctx /\ m_allowStdin started = allow_stdin config
     /\ exists p, published started = published before ++ (if silent config then [] else [p])
        /\ p_type p = "execute_input"%string /\ p_context p = ctx
        /\ find (p_content p) "execution_count"%string = Some (mk_int (m_executionCount started)).
Proof.
  intros Hf before. destruct (run_calls_invariant calls i Hf) as [[I1 _ _ _ I5] _]. fold before in I1, I5.
  destruct (published_flush now before I5) as (E1 & E2 & _). unfold callback_impl, flushStreams.
  split; [done |]. split; [intros n h; by rewrite E1, all_shown_app, pending_text_shown |]. split.
  - intros Ho. unfold set_key. rewrite (proj2 (is_object_type reply) Ho). cbn [orb]. eexists. split; [done |].
    split; [rewrite find_insert by auto; by rewrite decide_True |].
    intros k Hk. rewrite find_insert by auto. by rewrite decide_False by congruence.
  - cbv zeta. unfold executeRequest. destruct (silent config).
    + cbn. repeat split; try lia. eexists {| p_context := ctx; p_type := "execute_input"%string; p_metadata := null;
        p_content := insert_key null "execution_count"%string (mk_int (m_executionCount before)) |}.
      rewrite app_nil_r. repeat split. cbn [p_content]. find_key. done.
    + unfold publishExecutionInput, publication. cbn [set_request has_publisher]. rewrite I5. cbn.
      repeat split. eexists. repeat split. cbn [p_content]. find_key. done.
Qed.

End Streams.

(** ** The hypotheses can hold *)

Definition example_start : Interpreter (J := Concrete.concrete) :=
  {| m_executionCount := 0; m_requestContext := {| ctx_id := []; ctx_header := mk_int 1 |}; m_allowStdin := false;
     has_publisher := true; has_stdin := true; m_streamPending := []; m_streamPendingBytes := 0;
     m_streamLastFlush := None; flusher_started := false; m_streamQuit := false; published := []; asked := [] |}.

Definition example_calls : list (Call (J := Concrete.concrete)) :=
  [Stream "stdout"%string "a"%string 1000; Stream "stderr"%string "b"%string 1001; Stream "stdout"%string "c"%string 1002;
   FlusherTurn 1010].

Lemma example_fresh : fresh example_start.
Proof. done. Qed.

Lemma streams_conserve_witness :
  all_shown "stdout"%string (mk_int 1) (published (run_calls None None example_calls example_start))
  ++ pending_text "stdout"%string (mk_int 1) (m_streamPending (run_calls None None example_calls example_start))
  = "ac"%string.
Proof.
  destruct (streams_conserve (L := Concrete.concrete_laws) None None example_calls example_start example_fresh) as [H _].
  rewrite H. reflexivity.
Defined.

Lemma output_in_order_witness : exists texts p,
  published (run None None (run_calls None None example_calls example_start) (ClearOutput true 1011))
  = published (run_calls None None example_calls example_start) ++ texts ++ [p] /\ p_type p = "clear_output"%string.
Proof.
  destruct (output_in_order (L := Concrete.concrete_laws) None None example_calls (ClearOutput true 1011)
    "clear_output"%string 1011 example_start example_fresh eq_refl) as (texts & p & H & Hp & _).
  exists texts, p. split; [exact H | exact Hp].
Defined.

Lemma execution_reply_last_witness :
  m_streamPending (snd (callback_impl 0 null 2000 (run_calls None None example_calls example_start))) = [].
Proof.
  pose proof (execution_reply_last (L := Concrete.concrete_laws) None None example_calls example_start null 2000
    {| ctx_id := []; ctx_header := mk_int 2 |} [] {| silent := false; store_history := true; allow_stdin := true |}
    example_fresh) as H.
  exact (proj1 H).
Defined.
