(* ===== verification/Comm.v ===== *)
(** * Comms: core/messaging/comm.cpp, guid.hpp, guid.cpp

    A comm is an object with an identity: the manager's registry maps a comm id
    to the address of the object, and every constructor, assignment and
    destructor keeps the registry up to date.  The objects are therefore a heap
    ([World]), and each special member function an operation on it.  The
    interpreters' code that a message reaches (a target's callback, a handler)
    is an interface, [CommUser]: any code that uses comms through these
    operations. *)

From Stdlib Require Import Ascii ZArith Lia.
From S2P Require Import Prelude StataCode Json Wire.
Local Open Scope Z_scope.

(** ** Identifiers *)

(** A [Guid] is a buffer of 64 characters, read up to its first NUL. *)
Definition to_guid (s : str) : str := take_while (fun c => negb (char_eqb c nul)) (take 63 s).

Definition newGuid (raw_bytes : str) : str :=
  let hex a b := (take (b - a) (drop a raw_bytes)) ≫= format_02x in
  hex 0%nat 4%nat ++ "-"%char :: hex 4%nat 6%nat ++ "-"%char :: hex 6%nat 8%nat
  ++ "-"%char :: hex 8%nat 10%nat ++ "-"%char :: hex 10%nat 16%nat.

(** The interpreter's own types: what it hands over to be called (a target's
    callback, a comm's handler), and the state its code keeps. *)
Class CommTypes := { handler : Type; user_state : Type }.

Section Comms.
Context `{J : JsonLib} `{CT : CommTypes}.

Abbreviation Handler := handler (only parsing).
Abbreviation Addr := nat (only parsing).

Record Comm := {
  m_closeHandler : option Handler;
  m_messageHandler : option Handler;
  p_target : str;
  m_id : str;
  m_movedFrom : bool
}.

(** What is sent on IOPub: type, parent header ([None]: that of the request
    being run), metadata, content, buffers. *)
Record CommPublication := {
  cp_type : str; cp_parent : option json; cp_metadata : json; cp_content : json; cp_buffers : list str
}.

Record World := {
  heap : gmap nat Comm;
  m_comms : gmap str nat;
  m_targets : gmap str Handler;
  sent : list CommPublication;
  user : user_state
}.

Definition set_heap h (w : World) := {| heap := h; m_comms := m_comms w; m_targets := m_targets w; sent := sent w; user := user w |}.
Definition set_comms c (w : World) := {| heap := heap w; m_comms := c; m_targets := m_targets w; sent := sent w; user := user w |}.
Definition set_targets t (w : World) := {| heap := heap w; m_comms := m_comms w; m_targets := t; sent := sent w; user := user w |}.
Definition set_user u (w : World) := {| heap := heap w; m_comms := m_comms w; m_targets := m_targets w; sent := sent w; user := u |}.
Definition publishMessage p (w : World) :=
  {| heap := heap w; m_comms := m_comms w; m_targets := m_targets w; sent := sent w ++ [p]; user := user w |}.

Definition registerComm (id : str) (a : Addr) (w : World) : World := set_comms (<[id := a]> (m_comms w)) w.
Definition unregisterComm (id : str) (w : World) : World := set_comms (delete id (m_comms w)) w.
Definition registerCommTarget (name : str) (callback : Handler) (w : World) : World :=
  set_targets (<[name := callback]> (m_targets w)) w.
Definition unregisterCommTarget (name : str) (w : World) : World := set_targets (delete name (m_targets w)) w.

(** ** The special member functions

    [this] and [other] are addresses; [uninitialised] is what the memory of
    [m_movedFrom] holds, which this constructor does not set. *)
Definition construct (uninitialised : bool) (this : Addr) (target : str) (id : str) (w : World) : World :=
  registerComm id this
    (set_heap (<[this := {| m_closeHandler := None; m_messageHandler := None; p_target := target; m_id := id;
                            m_movedFrom := uninitialised |}]> (heap w)) w).

Definition moved_from (c : Comm) : Comm :=
  {| m_closeHandler := None; m_messageHandler := None; p_target := p_target c; m_id := m_id c; m_movedFrom := true |}.

Definition not_moved (c : Comm) : Comm :=
  {| m_closeHandler := m_closeHandler c; m_messageHandler := m_messageHandler c; p_target := p_target c;
     m_id := m_id c; m_movedFrom := false |}.

Definition move_construct (this other : Addr) (w : World) : World :=
  match heap w !! other with
  | None => w
  | Some c => registerComm (m_id c) this (set_heap (<[this := not_moved c]> (<[other := moved_from c]> (heap w))) w)
  end.

Definition copy_construct (this other : Addr) (new_id : str) (w : World) : World :=
  match heap w !! other with
  | None => w
  | Some c => registerComm new_id this
      (set_heap (<[this := {| m_closeHandler := None; m_messageHandler := None; p_target := p_target c;
                              m_id := new_id; m_movedFrom := false |}]> (heap w)) w)
  end.

Definition move_assign (this other : Addr) (w : World) : World :=
  match heap w !! this, heap w !! other with
  | Some t, Some c =>
      let w := unregisterComm (m_id t) w in
      registerComm (m_id c) this (set_heap (<[other := moved_from c]> (<[this := not_moved c]> (heap w))) w)
  | _, _ => w
  end.

Definition copy_assign (this other : Addr) (new_id : str) (w : World) : World :=
  match heap w !! this, heap w !! other with
  | Some t, Some c =>
      let w := unregisterComm (m_id t) w in
      registerComm new_id this
        (set_heap (<[this := {| m_closeHandler := m_closeHandler t; m_messageHandler := m_messageHandler t;
                                p_target := p_target c; m_id := new_id; m_movedFrom := false |}]> (heap w)) w)
  | _, _ => w
  end.

Definition destroy (this : Addr) (w : World) : World :=
  match heap w !! this with
  | None => w
  | Some c => let w := if m_movedFrom c then w else unregisterComm (m_id c) w in set_heap (delete this (heap w)) w
  end.

Definition onMessage (this : Addr) (h : Handler) (w : World) : World :=
  match heap w !! this with
  | None => w
  | Some c => set_heap (<[this := {| m_closeHandler := m_closeHandler c; m_messageHandler := Some h;
                                     p_target := p_target c; m_id := m_id c; m_movedFrom := m_movedFrom c |}]> (heap w)) w
  end.

Definition onClose (this : Addr) (h : Handler) (w : World) : World :=
  match heap w !! this with
  | None => w
  | Some c => set_heap (<[this := {| m_closeHandler := Some h; m_messageHandler := m_messageHandler c;
                                     p_target := p_target c; m_id := m_id c; m_movedFrom := m_movedFrom c |}]> (heap w)) w
  end.

(** ** What a comm sends *)
Definition sendCommMessage (c : Comm) (msg_type : str) (metadata data : json) (buffers : list str) (target_name : option str) (w : World) : World :=
  let content :=
    with_keys null (("comm_id"%string : str, mk_str (m_id c))
                    :: match target_name with Some n => [("target_name"%string : str, mk_str n)] | None => [] end
                    ++ [("data"%string : str, data)]) in
  publishMessage {| cp_type := msg_type; cp_parent := None; cp_metadata := metadata; cp_content := content; cp_buffers := buffers |} w.

Definition comm_open_message (c : Comm) (metadata data : json) (buffers : list str) (w : World) : World :=
  sendCommMessage c "comm_open"%string metadata data buffers (Some (p_target c)) w.
Definition comm_close_message (c : Comm) (metadata data : json) (buffers : list str) (w : World) : World :=
  sendCommMessage c "comm_close"%string metadata data buffers None w.
Definition comm_send_message (c : Comm) (metadata data : json) (buffers : list str) (w : World) : World :=
  sendCommMessage c "comm_msg"%string metadata data buffers None w.

(** ** The manager *)

(** [content["key"]] on a const json, converted to a string: without the key it
    is undefined. *)
Definition string_at (content : json) (key : str) : result str :=
  if negb (is_object content) then Throw type_error_305
  else match find content key with None => Undefined | Some v => get get_str v end.

Definition content_of (request : Message) : json := fst (content (base request)).
Definition header_of (request : Message) : json := m_header (base request).

(** The code that uses comms: what a target's callback does with the comm it is
    given (at the address [local] of commOpen's variable), and what a handler
    does. *)
Class CommUser := {
  on_target : Handler -> Addr -> Message -> World -> World;
  on_handler : Handler -> Message -> World -> World
}.
Context `{U : CommUser}.

Definition commOpen (uninitialised : bool) (local : Addr) (request : Message) (w : World) : result World :=
  let content := content_of request in
  let? target_name := string_at content "target_name"%string in
  match m_targets w !! target_name with
  | None => Ok (publishMessage {| cp_type := "comm_close"%string; cp_parent := Some (header_of request);
                                  cp_metadata := empty_object; cp_content := content; cp_buffers := [] |} w)
  | Some trg =>
      let? id := string_at content "comm_id"%string in
      let w := construct uninitialised local target_name (to_guid id) w in
      Ok (destroy local (on_target trg local request w))
  end.

Definition no_such_comm (id : str) : str := "No such comm registered: "%string ++ id.

Definition run_handler (h : option Handler) (request : Message) (w : World) : World :=
  match h with Some h => on_handler h request w | None => w end.

(** A registered pointer that points to no object is a use after free. *)
Definition commClose (request : Message) (w : World) : result World :=
  let? id := string_at (content_of request) "comm_id"%string in
  let id := to_guid id in
  match m_comms w !! id with
  | None => Throw (no_such_comm id)
  | Some a =>
      match heap w !! a with
      | None => Undefined
      | Some c => Ok (unregisterComm id (run_handler (m_closeHandler c) request w))
      end
  end.

Definition commMsg (request : Message) (w : World) : result World :=
  let? id := string_at (content_of request) "comm_id"%string in
  let id := to_guid id in
  match m_comms w !! id with
  | None => Throw (no_such_comm id)
  | Some a =>
      match heap w !! a with
      | None => Undefined
      | Some c => Ok (run_handler (m_messageHandler c) request w)
      end
  end.

(** A comm made by hand, on a target that may be missing. *)
Definition new_comm (uninitialised : bool) (this : Addr) (target : option str) (id : str) (w : World) : result World :=
  match target with
  | None => Throw "Cannot initialize comm with null target"%string
  | Some t => Ok (construct uninitialised this t id w)
  end.

(** ** The registry is sound

    Every registered id is that of a live object that was not moved from, and
    every object's target is registered (the object points to it). *)
Record sound (w : World) : Prop := {
  sound_registry : forall id a, m_comms w !! id = Some a ->
    exists c, heap w !! a = Some c /\ m_id c = id /\ m_movedFrom c = false;
  sound_targets : forall a c, heap w !! a = Some c -> is_Some (m_targets w !! p_target c)
}.

(** One use of the operations by the interpreters' code, which leaves the object
    at [keep] (commOpen's own) alone but for moving from it. *)
Inductive uses (keep : option Addr) : World -> World -> Prop :=
| use_construct this target id w : heap w !! this = None -> is_Some (m_targets w !! target) ->
    uses keep w (construct false this target id w)
| use_move_construct this other w : heap w !! this = None -> uses keep w (move_construct this other w)
| use_copy_construct this other id w : heap w !! this = None -> uses keep w (copy_construct this other id w)
| use_move_assign this other w : this <> other -> keep <> Some this -> uses keep w (move_assign this other w)
| use_copy_assign this other id w : keep <> Some this -> uses keep w (copy_assign this other id w)
| use_destroy this w : keep <> Some this -> uses keep w (destroy this w)
| use_onMessage this h w : uses keep w (onMessage this h w)
| use_onClose this h w : uses keep w (onClose this h w)
| use_open this c m d b w : heap w !! this = Some c -> uses keep w (comm_open_message c m d b w)
| use_close this c m d b w : heap w !! this = Some c -> uses keep w (comm_close_message c m d b w)
| use_send this c m d b w : heap w !! this = Some c -> uses keep w (comm_send_message c m d b w)
| use_registerTarget name h w : uses keep w (registerCommTarget name h w)
| use_unregisterTarget name w : (forall a c, heap w !! a = Some c -> p_target c <> name) ->
    uses keep w (unregisterCommTarget name w)
| use_state u w : uses keep w (set_user u w).

Class CommUserLaws := {
  on_target_uses h local request w : rtc (uses (Some local)) w (on_target h local request w);
  on_handler_uses h request w : rtc (uses None) w (on_handler h request w)
}.
End Comms.
Arguments CommUser {J CT}.
Arguments CommUserLaws {J CT} U.

Section Soundness.
Context `{JL : JsonLaws} `{CT : CommTypes} `{UL : !CommUserLaws U}.

(** Registering the object at [this] under its own id, whatever the registry
    held: the shape of every constructor and assignment. *)
Lemma register_sound w (c : Comm) this id h :
  h !! this = Some c -> m_id c = id -> m_movedFrom c = false ->
  (forall a d, h !! a = Some d -> is_Some (m_targets w !! p_target d)) ->
  (forall i a, m_comms w !! i = Some a -> i <> id -> exists d, h !! a = Some d /\ m_id d = i /\ m_movedFrom d = false) ->
  sound (registerComm id this (set_heap h w)).
Proof.
  intros Hc Hid Hm Ht Hreg. split; cbn; [| done]. intros i a.
  destruct (decide (i = id)) as [-> | Hne].
  - rewrite lookup_insert_eq. intros [= <-]. eauto.
  - rewrite lookup_insert_ne by done. intros Ha. by apply Hreg.
Qed.

Lemma construct_sound this target id w : sound w -> heap w !! this = None -> is_Some (m_targets w !! target) ->
  sound (construct false this target id w).
Proof.
  intros [Hr Ht] Hf Htg. eapply register_sound; [apply lookup_insert_eq | done | done | |].
  - intros a d. destruct (decide (a = this)) as [-> |]; [rewrite lookup_insert_eq; by intros [= <-] |].
    rewrite lookup_insert_ne by done. apply Ht.
  - intros i a Hi _. destruct (Hr i a Hi) as (d & Hd & ? & ?). exists d.
    rewrite lookup_insert_ne by congruence. done.
Qed.

Lemma copy_construct_sound this other id w : sound w -> heap w !! this = None -> sound (copy_construct this other id w).
Proof.
  intros S Hf. unfold copy_construct. destruct (heap w !! other) as [c|] eqn:Ho; [| done].
  destruct S as [Hr Ht]. eapply register_sound; [apply lookup_insert_eq | done | done | |].
  - intros a d. destruct (decide (a = this)) as [-> |]; [rewrite lookup_insert_eq; intros [= <-]; exact (Ht other c Ho) |].
    rewrite lookup_insert_ne by done. apply Ht.
  - intros i a Hi _. destruct (Hr i a Hi) as (d & Hd & ? & ?). exists d.
    rewrite lookup_insert_ne by congruence. done.
Qed.

Lemma move_construct_sound this other w : sound w -> heap w !! this = None -> sound (move_construct this other w).
Proof.
  intros S Hf. unfold move_construct. destruct (heap w !! other) as [c|] eqn:Ho; [| done].
  destruct S as [Hr Ht]. eapply register_sound; [apply lookup_insert_eq | done | done | |].
  - intros a d. destruct (decide (a = this)) as [-> |]; [rewrite lookup_insert_eq; intros [= <-]; exact (Ht other c Ho) |].
    rewrite lookup_insert_ne by done. destruct (decide (a = other)) as [-> |];
      [rewrite lookup_insert_eq; intros [= <-]; exact (Ht other c Ho) |]. rewrite lookup_insert_ne by done. apply Ht.
  - intros i a Hi Hne. destruct (Hr i a Hi) as (d & Hd & Hdi & Hdm). exists d.
    rewrite lookup_insert_ne by congruence. rewrite lookup_insert_ne; [done |]. intros <-. congruence.
Qed.

Lemma move_assign_sound this other w : sound w -> this <> other -> sound (move_assign this other w).
Proof.
  intros S Hd. unfold move_assign. destruct (heap w !! this) as [t|] eqn:Ht0, (heap w !! other) as [c|] eqn:Ho; try done.
  destruct S as [Hr Ht]. apply (register_sound (unregisterComm (m_id t) w) (not_moved c)); [| done | done | |].
  - rewrite lookup_insert_ne by congruence. by rewrite lookup_insert_eq.
  - intros a d. cbn. destruct (decide (a = other)) as [-> |];
      [rewrite lookup_insert_eq; intros [= <-]; exact (Ht other c Ho) |]. rewrite lookup_insert_ne by done.
    destruct (decide (a = this)) as [-> |]; [rewrite lookup_insert_eq; intros [= <-]; exact (Ht other c Ho) |].
    rewrite lookup_insert_ne by done. apply Ht.
  - intros i a. cbn. rewrite lookup_delete_Some. intros [Hi0 Hi] Hne. destruct (Hr i a Hi) as (d & Hda & Hdi & Hdm).
    exists d. rewrite lookup_insert_ne by (intros <-; congruence). rewrite lookup_insert_ne by (intros <-; congruence). done.
Qed.

Lemma copy_assign_sound this other id w : sound w -> sound (copy_assign this other id w).
Proof.
  intros S. unfold copy_assign. destruct (heap w !! this) as [t|] eqn:Ht0, (heap w !! other) as [c|] eqn:Ho; try done.
  destruct S as [Hr Ht]. eapply (register_sound (unregisterComm (m_id t) w)); [apply lookup_insert_eq | done | done | |].
  - intros a d. cbn. destruct (decide (a = this)) as [-> |]; [rewrite lookup_insert_eq; intros [= <-]; exact (Ht other c Ho) |].
    rewrite lookup_insert_ne by done. apply Ht.
  - intros i a. cbn. rewrite lookup_delete_Some. intros [Hi0 Hi] Hne. destruct (Hr i a Hi) as (d & Hda & Hdi & Hdm).
    exists d. rewrite lookup_insert_ne by (intros <-; congruence). done.
Qed.

Lemma destroy_sound this w : sound w -> sound (destroy this w).
Proof.
  intros [Hr Ht]. unfold destroy. destruct (heap w !! this) as [c|] eqn:Hc; [| done].
  split.
  - intros i a Hi. assert (m_comms w !! i = Some a /\ a <> this) as [Hi' Hne].
    { destruct (m_movedFrom c) eqn:Hm; cbn in Hi.
      - split; [done |]. intros ->. destruct (Hr i this Hi) as (d & Hd & _ & Hdm). congruence.
      - rewrite lookup_delete_Some in Hi. destruct Hi as [Hne Hi]. split; [done |]. intros ->.
        destruct (Hr i this Hi) as (d & Hd & Hdi & _). congruence. }
    destruct (Hr i a Hi') as (d & Hd & ? & ?). exists d. split; [| done].
    destruct (m_movedFrom c); cbn; by rewrite lookup_delete_ne by congruence.
  - intros a d. assert (Htg : m_targets (set_heap (delete this (heap w)) w) = m_targets w) by done.
    destruct (m_movedFrom c); cbn; rewrite lookup_delete_Some; intros [_ Hd]; by eapply Ht.
Qed.

(** Setting a handler. *)
Lemma handler_sound this c c' w : sound w -> heap w !! this = Some c -> m_id c' = m_id c -> p_target c' = p_target c ->
  m_movedFrom c' = m_movedFrom c -> sound (set_heap (<[this := c']> (heap w)) w).
Proof.
  intros [Hr Ht] Hc Hid Htg Hm. split; cbn.
  - intros i a Hi. destruct (Hr i a Hi) as (d & Hd & Hdi & Hdm). destruct (decide (a = this)) as [-> | Hne].
    + exists c'. rewrite lookup_insert_eq. split; [done |]. split; congruence.
    + exists d. by rewrite lookup_insert_ne.
  - intros a d. destruct (decide (a = this)) as [-> |]; [rewrite lookup_insert_eq; intros [= <-]; rewrite Htg; by eapply Ht |].
    rewrite lookup_insert_ne by done. apply Ht.
Qed.

Lemma uses_sound keep w w' : sound w -> uses keep w w' -> sound w'.
Proof.
  intros S Hu. destruct Hu.
  - by apply construct_sound.
  - by apply move_construct_sound.
  - by apply copy_construct_sound.
  - by apply move_assign_sound.
  - by apply copy_assign_sound.
  - by apply destroy_sound.
  - unfold onMessage. destruct (heap w !! this) eqn:Hc; [| done]. by eapply handler_sound.
  - unfold onClose. destruct (heap w !! this) eqn:Hc; [| done]. by eapply handler_sound.
  - by destruct S.
  - by destruct S.
  - by destruct S.
  - destruct S as [Hr Ht]. split; [done |]. cbn. intros a c Ha. specialize (Ht a c Ha).
    destruct (decide (p_target c = name)) as [-> |]; [by rewrite lookup_insert_eq | by rewrite lookup_insert_ne].
  - destruct S as [Hr Ht]. split; [done |]. cbn. intros a c Ha. rewrite lookup_delete_ne; [by eapply Ht |].
    intros ->. by eapply H.
  - by destruct S.
Qed.

Lemma uses_rtc_sound keep w w' : sound w -> rtc (uses keep) w w' -> sound w'.
Proof. intros S H. induction H; [done |]. apply IHrtc. by eapply uses_sound. Qed.

(** Comms publish comm messages only, and never take one back. *)
Definition comm_types : list str := ["comm_open"%string : str; "comm_close"%string : str; "comm_msg"%string : str].

Definition publishes (w w' : World) : Prop :=
  exists new, sent w' = sent w ++ new /\ Forall (fun p => cp_type p ∈ comm_types) new.

#[export] Instance publishes_preorder : PreOrder publishes.
Proof.
  split.
  - intros w. exists []. by rewrite app_nil_r.
  - intros w1 w2 w3 (n1 & E1 & F1) (n2 & E2 & F2). exists (n1 ++ n2). rewrite E2, E1, <- app_assoc.
    split; [done | by apply Forall_app].
Qed.

Lemma same_sent w w' : sent w' = sent w -> publishes w w'.
Proof. intros E. exists []. by rewrite app_nil_r. Qed.

Lemma one_sent w p : cp_type p ∈ comm_types -> publishes w (publishMessage p w).
Proof. intros H. exists [p]. split; [done | by constructor]. Qed.

Lemma uses_publishes keep w w' : uses keep w w' -> publishes w w'.
Proof.
  intros Hu. destruct Hu;
    try (apply one_sent; unfold comm_types; rewrite !elem_of_cons; tauto);
    apply same_sent; unfold construct, move_construct, copy_construct, move_assign, copy_assign, destroy, onMessage, onClose;
    repeat case_match; done.
Qed.

Lemma rtc_publishes keep w w' : rtc (uses keep) w w' -> publishes w w'.
Proof. intros H. induction H; [done |]. etrans; [by eapply uses_publishes | done]. Qed.

Lemma commOpen_publishes u local request w w' : commOpen u local request w = Ok w' -> publishes w w'.
Proof.
  unfold commOpen. set (content := content_of request). destruct (string_at content "target_name"%string) as [name| |]; [| done | done].
  destruct (m_targets w !! name) as [trg|].
  - destruct (string_at content "comm_id"%string) as [id| |]; [| done | done]. intros [= <-].
    etrans; [eapply (same_sent w (construct u local name (to_guid id) w)); done |].
    etrans; [apply (rtc_publishes (Some local)), on_target_uses |]. apply same_sent.
    unfold destroy. repeat case_match; done.
  - intros [= <-]. apply one_sent. unfold comm_types. rewrite !elem_of_cons. tauto.
Qed.

Lemma run_handler_publishes h request w : publishes w (run_handler h request w).
Proof. destruct h; [| done]. apply (rtc_publishes None), on_handler_uses. Qed.

Lemma commClose_publishes request w w' : commClose request w = Ok w' -> publishes w w'.
Proof.
  unfold commClose. destruct (string_at (content_of request) _) as [id| |]; [| done | done].
  destruct (m_comms w !! to_guid id) as [a|]; [| done]. destruct (heap w !! a) as [c|]; [| done].
  intros [= <-]. etrans; [apply run_handler_publishes |]. by apply same_sent.
Qed.

Lemma commMsg_publishes request w w' : commMsg request w = Ok w' -> publishes w w'.
Proof.
  unfold commMsg. destruct (string_at (content_of request) _) as [id| |]; [| done | done].
  destruct (m_comms w !! to_guid id) as [a|]; [| done]. destruct (heap w !! a) as [c|]; [| done].
  intros [= <-]. apply run_handler_publishes.
Qed.

(** ** Any run of a kernel's comms *)
Inductive Event :=
| UserCode (w' : World -> World)
| Open (local : nat) (request : Message)
| Close (request : Message)
| Msg (request : Message).

Definition event_ok (w : World) (e : Event) : Prop :=
  match e with
  | UserCode f => rtc (uses None) w (f w)
  | Open local _ => heap w !! local = None
  | _ => True
  end.

(** A message whose handling throws leaves the objects as they were. *)
Definition handle (w : World) (e : Event) : World :=
  match e with
  | UserCode f => f w
  | Open local request => match commOpen false local request w with Ok w' => w' | _ => w end
  | Close request => match commClose request w with Ok w' => w' | _ => w end
  | Msg request => match commMsg request w with Ok w' => w' | _ => w end
  end.

Fixpoint run_ok (w : World) (es : list Event) : Prop :=
  match es with [] => True | e :: rest => event_ok w e /\ run_ok (handle w e) rest end.

Lemma run_handler_sound h request w : sound w -> sound (run_handler h request w).
Proof. intros S. destruct h; [| done]. cbn. eapply uses_rtc_sound; [done | apply on_handler_uses]. Qed.

Lemma handle_sound w e : sound w -> event_ok w e -> sound (handle w e).
Proof.
  intros S He. destruct e as [f | local request | request | request]; cbn [handle].
  - by eapply uses_rtc_sound.
  - destruct (commOpen false local request w) as [w'| |] eqn:Ho; [| done | done].
    unfold commOpen in Ho. set (content := content_of request) in *. destruct (string_at content "target_name"%string) as [name| |]; [| done | done].
    destruct (m_targets w !! name) as [trg|] eqn:Htg; [| injection Ho as <-; by destruct S].
    destruct (string_at content "comm_id"%string) as [id| |]; [| done | done]. injection Ho as <-.
    apply destroy_sound. eapply uses_rtc_sound; [| apply on_target_uses].
    by apply construct_sound.
  - unfold commClose. destruct (string_at (content_of request) _) as [id| |]; [| done | done].
    destruct (m_comms w !! to_guid id) as [a|]; [| done]. destruct (heap w !! a) as [c|]; [| done].
    pose proof (run_handler_sound (m_closeHandler c) request w S) as [Hr Ht]. split; [| done]. cbn.
    intros i b. rewrite lookup_delete_Some. intros [_ Hi]. by apply Hr.
  - unfold commMsg. destruct (string_at (content_of request) _) as [id| |]; [| done | done].
    destruct (m_comms w !! to_guid id) as [a|]; [| done]. destruct (heap w !! a) as [c|]; [| done].
    by apply run_handler_sound.
Qed.

Definition closed_or_message_defined (w : World) (request : Message) : Prop :=
  is_Some (find (content_of request) "comm_id"%string) -> commClose request w <> Undefined /\ commMsg request w <> Undefined.


Lemma string_at_found content key v s : find content key = Some v -> get_str v = Some s -> string_at content key = Ok s.
Proof.
  intros Hf Hs. unfold string_at. destruct (is_object content) eqn:Ho; cbn [negb].
  - rewrite Hf. unfold get. by rewrite Hs.
  - rewrite find_other in Hf; [done |]. intros E. apply is_object_type in E. congruence.
Qed.

(** The life of a comm: a comm_open of a registered target whose callback
    keeps the comm (moves it to [a] and sets the handler [h]) registers it under
    the id the client chose; comm_msg then runs exactly that handler; after
    comm_close the id is unknown, and messages to it are refused with its name. *)
Theorem comm_lifecycle w local a trg h name id request :
  sound w -> heap w !! local = None -> heap w !! a = None -> a <> local ->
  find (content_of request) "target_name"%string = Some (mk_str name) -> find (content_of request) "comm_id"%string = Some (mk_str id) ->
  m_targets w !! name = Some trg ->
  (let w0 := construct false local name (to_guid id) w in
   on_target trg local request w0 = onMessage a h (move_construct a local w0)) ->
  exists w1, commOpen false local request w = Ok w1
    /\ m_comms w1 !! to_guid id = Some a
    /\ commMsg request w1 = Ok (on_handler h request w1)
    /\ exists w2, commClose request w1 = Ok w2 /\ m_comms w2 !! to_guid id = None
       /\ commMsg request w2 = Throw (no_such_comm (to_guid id)).
Proof.
  intros S Hl Ha Hne Hn Hi Ht Hcb. unfold commOpen.
  rewrite (string_at_found _ _ _ _ Hn (get_str_mk name)), Ht, (string_at_found _ _ _ _ Hi (get_str_mk id)), Hcb.
  set (w0 := construct false local name (to_guid id) w).
  assert (Hw0 : heap w0 !! local = Some {| m_closeHandler := None; m_messageHandler := None; p_target := name;
                  m_id := to_guid id; m_movedFrom := false |}) by apply lookup_insert_eq.
  unfold move_construct. rewrite Hw0.
  set (w1 := registerComm _ a _).
  assert (Hw1 : heap w1 !! a = Some (not_moved {| m_closeHandler := None; m_messageHandler := None; p_target := name;
                  m_id := to_guid id; m_movedFrom := false |})) by apply lookup_insert_eq.
  unfold onMessage. rewrite Hw1. cbn [not_moved m_closeHandler m_messageHandler p_target m_id m_movedFrom].
  unfold destroy. cbn [set_heap heap]. rewrite lookup_insert_ne by done.
  assert (Hw1l : heap w1 !! local = Some (moved_from {| m_closeHandler := None; m_messageHandler := None;
                  p_target := name; m_id := to_guid id; m_movedFrom := false |})).
  { unfold w1. cbn. rewrite lookup_insert_ne by done. apply lookup_insert_eq. }
  rewrite Hw1l. cbn [moved_from m_movedFrom m_id].
  eexists. split; [reflexivity |]. cbn [set_heap m_comms heap].
  assert (Hreg : m_comms w1 !! to_guid id = Some a) by apply lookup_insert_eq.
  split; [done |]. unfold commMsg, commClose. rewrite (string_at_found _ _ _ _ Hi (get_str_mk id)).
  cbn [m_comms heap set_heap]. rewrite Hreg, lookup_delete_ne by congruence. rewrite lookup_insert_eq.
  cbn [m_messageHandler m_closeHandler run_handler]. split; [done |].
  eexists. split; [reflexivity |]. cbn [unregisterComm set_comms m_comms].
  rewrite lookup_delete_eq. done.
Qed.
End Soundness.

(** ** The hypotheses can hold *)
#[export] Instance keeper_types : CommTypes := {| handler := nat; user_state := unit |}.

Definition empty_world : World (J := Concrete.concrete) :=
  {| heap := ∅; m_comms := ∅; m_targets := ∅; sent := []; user := tt |}.

(** An interpreter that keeps each comm it is given, and whose handlers do
    nothing. *)
#[export] Instance keeper : CommUser (J := Concrete.concrete) (CT := keeper_types) := {|
  on_target h local request w :=
    let a := fresh (dom (heap w)) in onMessage a h (move_construct a local w);
  on_handler h request w := w
|}.

#[export] Instance keeper_laws : CommUserLaws keeper.
Proof.
  split; [| done]. intros h local request w. cbn.
  eapply rtc_l; [apply (use_move_construct _ (fresh (dom (heap w))) local w) |].
  - apply not_elem_of_dom, is_fresh.
  - apply rtc_once. constructor.
Qed.

Definition seven : handler := 7%nat.

Definition example_open : Message (J := Concrete.concrete) :=
  {| identities := []; base := makeMessageBase null null null
       (mk_object [("target_name"%string : str, mk_str "plot"%string); ("comm_id"%string : str, mk_str "1"%string)]) [] |}.

Lemma empty_sound : sound empty_world.
Proof. split; cbn; intros ? ?; rewrite lookup_empty; done. Qed.


Lemma comm_lifecycle_witness : exists w1,
  commOpen false 0%nat example_open (registerCommTarget "plot"%string seven empty_world) = Ok w1
  /\ m_comms w1 !! ("1"%string : str) = Some 1%nat.
Proof.
  destruct (comm_lifecycle (JL := Concrete.concrete_laws) (registerCommTarget "plot"%string seven empty_world)
    0%nat 1%nat seven seven "plot"%string "1"%string example_open) as (w1 & H1 & H2 & _).
  - eapply uses_sound; [apply empty_sound | apply (use_registerTarget None)].
  - reflexivity.
  - reflexivity.
  - discriminate.
  - reflexivity.
  - reflexivity.
  - vm_compute. reflexivity.
  - vm_compute. reflexivity.
  - exists w1. split; [exact H1 | exact H2].
Defined.

(** The flag the constructor leaves unset: when the memory holds [true], a comm
    that its target's callback does not take stays registered after it is
    destroyed, and the next message to it is a use after free. *)
Definition dropper : CommUser (J := Concrete.concrete) (CT := keeper_types) :=
  {| on_target h local request w := w; on_handler h request w := w |}.

Example uninitialised_flag_dangles :
  let w := registerCommTarget "plot"%string seven empty_world in
  match commOpen (U := dropper) true 0%nat example_open w with
  | Ok w' => commMsg (U := dropper) example_open w' = Undefined
  | _ => False
  end
  /\ match commOpen (U := dropper) false 0%nat example_open w with
     | Ok w' => commMsg (U := dropper) example_open w' = Throw (no_such_comm "1"%string)
     | _ => False
     end.
Proof. split; vm_compute; reflexivity. Qed.
