(* ===== verification/RComms.v ===== *)
(** * Comms for R code (elara/r/comm_r.cpp)

    The comm API that hera gives R code.  To R a comm is its id; the comms, the
    targets and the R functions they call are kept in C++, and a message of the
    client's reaches the function R last set.

    The state is what Comm.v leaves to the interpreter ([CommTypes]): the entries
    open and closed, which own their comms (addresses of its heap), and the
    callbacks.  The callbacks handed to the manager capture a target's name or
    a comm's id ([Callback]).  R's functions are unknown: [body] says what one
    does when it is called, a tree of the API's calls ([RCode]) that ends, or
    fails, and [r_world] is R's own state.  A comm points to its target in the
    manager; erasing the target leaves it dangling ([dangling]), and [undefined]
    is whether such a pointer has been followed.  [jumped] is whether R has
    jumped out of this code. *)

From Stdlib Require Import Ascii String ZArith Lia.
From stdpp Require Import base list gmap fin_sets strings.
From S2P Require Import Prelude StataCode RJson Json Wire Comm.

Local Open Scope Z_scope.
Local Open Scope jovian_scope.

(** ** R and its functions *)

(** What the manager and the comms are given to call. *)
Inductive Callback :=
| OfTarget (target : str)
| MessageOf (id : str)
| CloseOf (id : str).

(** What a function is called with. *)
Inductive rarg :=
| ArgComm (id : str)
| ArgMessage (message : sexp).

(** A call of the API from R. *)
Inductive ROp {fn : Type} :=
| RegisterTarget (target : sexp) (callback : option fn)
| UnregisterTarget (target : sexp)
| TargetCallback (target : sexp)
| NewComm (target description : sexp)
| ListComms
| TargetName (id : sexp)
| Description (id : sexp)
| OpenComm (id data metadata buffers : sexp)
| SendComm (id data metadata buffers : sexp)
| CloseComm (id data metadata buffers : sexp)
| SetOnMessage (id : sexp) (handler : option fn)
| SetOnClose (id : sexp) (handler : option fn).
Arguments ROp fn : clear implicits.

(** What it gives: [AError] is an R error. *)
Inductive RAnswer {fn : Type} :=
| ANull
| ALogical (b : bool)
| AComm (id : str)
| AComms (ids : list str)
| AText (s : str)
| AFunction (f : option fn)
| AError (message : str).
Arguments RAnswer fn : clear implicits.

Inductive RCode {fn r_state : Type} :=
| Finished (r : r_state)
| Failed (message : str) (r : r_state)
| Calls (op : ROp fn) (k : RAnswer fn -> RCode).
Arguments RCode fn r_state : clear implicits.

(** A function and its arguments. *)
Record Entry {fn : Type} := {
  comm : nat;
  description : str;
  onMessage : option fn;
  onClose : option fn
}.
Arguments Entry fn : clear implicits.

Record RState {fn r_state : Type} := {
  openComms : list (str * Entry fn);
  closedComms : list (Entry fn);
  targetCallbacks : list (str * option fn);
  r_world : r_state;
  (** how many ids were made, what was logged, the functions called *)
  guids : nat;
  log : list str;
  called : list (fn * list rarg);
  dangling : gset nat;
  undefined : bool;
  jumped : bool
}.
Arguments RState fn r_state : clear implicits.

Section RComms.
Context `{J : JsonLib} {fn r_state : Type}.

(** The program's json as the values of the library, and back. *)
Context (basic : json -> basic_json) (embed : basic_json -> json) (parse_json : str -> basic_json)
  (dump_json : basic_json -> str).

(** What R's functions do; what the memory of a comm made by hand holds; the
    ids that are made. *)
Context (body : fn -> list rarg -> r_state -> RCode fn r_state) (uninitialised : bool) (new_guid : nat -> str).

#[local] Instance r_types : CommTypes := {| handler := Callback; user_state := RState fn r_state |}.

Abbreviation W := (World (J := J) (CT := r_types)).
Abbreviation state w := (user (CT := r_types) w : RState fn r_state).

Definition upd_open x (s : RState fn r_state) : RState fn r_state := Build_RState _ _ x (closedComms s) (targetCallbacks s) (r_world s) (guids s) (log s) (called s) (dangling s) (undefined s) (jumped s).
Definition upd_closed x (s : RState fn r_state) : RState fn r_state := Build_RState _ _ (openComms s) x (targetCallbacks s) (r_world s) (guids s) (log s) (called s) (dangling s) (undefined s) (jumped s).
Definition upd_targets x (s : RState fn r_state) : RState fn r_state := Build_RState _ _ (openComms s) (closedComms s) x (r_world s) (guids s) (log s) (called s) (dangling s) (undefined s) (jumped s).
Definition upd_world x (s : RState fn r_state) : RState fn r_state := Build_RState _ _ (openComms s) (closedComms s) (targetCallbacks s) x (guids s) (log s) (called s) (dangling s) (undefined s) (jumped s).
Definition upd_guids x (s : RState fn r_state) : RState fn r_state := Build_RState _ _ (openComms s) (closedComms s) (targetCallbacks s) (r_world s) x (log s) (called s) (dangling s) (undefined s) (jumped s).
Definition upd_log x (s : RState fn r_state) : RState fn r_state := Build_RState _ _ (openComms s) (closedComms s) (targetCallbacks s) (r_world s) (guids s) x (called s) (dangling s) (undefined s) (jumped s).
Definition upd_called x (s : RState fn r_state) : RState fn r_state := Build_RState _ _ (openComms s) (closedComms s) (targetCallbacks s) (r_world s) (guids s) (log s) x (dangling s) (undefined s) (jumped s).
Definition upd_dangling x (s : RState fn r_state) : RState fn r_state := Build_RState _ _ (openComms s) (closedComms s) (targetCallbacks s) (r_world s) (guids s) (log s) (called s) x (undefined s) (jumped s).
Definition upd_undefined x (s : RState fn r_state) : RState fn r_state := Build_RState _ _ (openComms s) (closedComms s) (targetCallbacks s) (r_world s) (guids s) (log s) (called s) (dangling s) x (jumped s).
Definition upd_jumped x (s : RState fn r_state) : RState fn r_state := Build_RState _ _ (openComms s) (closedComms s) (targetCallbacks s) (r_world s) (guids s) (log s) (called s) (dangling s) (undefined s) x.

(** A change of the interpreter's own state. *)
Definition on_state (f : RState fn r_state -> RState fn r_state) (w : W) : W := set_user (f (state w)) w.

(** The target of the comm at [a] is followed. *)
Definition follow (a : nat) (w : W) : W := if decide (a ∈ dangling (state w)) then on_state (upd_undefined true) w else w.

(** [~Comm] *)
Definition destroy_comm (a : nat) (w : W) : W := Comm.destroy a (follow a w).

Definition reapClosed (w : W) : W :=
  fold_left (fun w e => destroy_comm (comm e) w) (closedComms (state w)) (on_state (upd_closed []) w).

(** ** Values *)

Definition text (x : sexp) : str :=
  match x with Atomic (STRSXP (s :: _)) _ => default [] s | _ => [] end.

Definition message_names : list str :=
  ["content"%string : str; "header"%string : str; "parent_header"%string : str; "metadata"%string : str; "buffers"%string : str].

(** A received message as R sees it: [Throw] is an R error. *)
Definition messageObject (message : Message) : result sexp :=
  let? content := jsonToSexp dump_json (basic (content_of message)) in
  let? header := jsonToSexp dump_json (basic (header_of message)) in
  let? parent := jsonToSexp dump_json (basic (m_parentHeader (base message))) in
  let? metadata := jsonToSexp dump_json (basic (m_metadata (base message))) in
  Ok (VECSXP [content; header; parent; metadata; VECSXP (RAWSXP <$> m_buffers (base message)) no_attributes]
        {| names := Some (Some <$> message_names); class := ["Message"%string : str]; levels := None; dim := None; row_names := None |}).

Definition buffersOf (buffers : sexp) : list str :=
  match buffers with
  | VECSXP v _ => omap (fun x => match x with RAWSXP bytes => Some bytes | _ => None end) v
  | _ => []
  end.

Definition metadataOf (metadata : sexp) : result json :=
  match metadata with R_NilValue => Ok empty_object | _ => let? j := sexpToJson parse_json false metadata in Ok (embed j) end.

Definition dataOf (data : sexp) : result json := let? j := sexpToJson parse_json false data in Ok (embed j).

(** ** The API *)

Definition find_entry (id : str) (w : W) : option (Entry fn) := map_get id (openComms (state w)).

(** Two comms of one id: the entry that is replaced is destroyed. *)
Definition set_entry (id : str) (e : Entry fn) (w : W) : W :=
  let w' := on_state (fun s => upd_open (map_set id e (openComms s)) s) w in
  match find_entry id w with Some old => destroy_comm (comm old) w' | None => w' end.

Definition erase_entry (id : str) (w : W) : W := on_state (fun s => upd_open (map_erase id (openComms s)) s) w.

(** [keep]: the comm at [a], with the handlers that route its messages here. *)
Definition keep (a : nat) (description : str) (w : W) : str * W :=
  let id := match heap w !! a with Some c => m_id c | None => [] end in
  let w := Comm.onMessage a (MessageOf id : @handler r_types) w in
  let w := Comm.onClose a (CloseOf id : @handler r_types) w in
  (id, set_entry id {| comm := a; description := description; onMessage := None; onClose := None |} w).

(** An address that no object has, or ever pointed from. *)
Definition fresh_address (w : W) : nat := fresh (dom (heap w) ∪ dangling (state w)).

Definition registerTarget (target_ : sexp) (callback : option fn) (w : W) : RAnswer fn * W :=
  let w := reapClosed w in
  let target := text target_ in
  let w := on_state (fun s => upd_targets (map_set target callback (targetCallbacks s)) s) w in
  (ANull, registerCommTarget target (OfTarget target : @handler r_types) w).

(** The comms that point to a target. *)
Definition pointing (target : str) (w : W) : gset nat := dom (filter (fun ac => p_target ac.2 = target) (heap w)).

Definition unregisterTarget (target_ : sexp) (w : W) : RAnswer fn * W :=
  let w := reapClosed w in
  let target := text target_ in
  let w := match m_targets w !! target with
           | Some _ => on_state (fun s => upd_dangling (dangling s ∪ pointing target w) s) w
           | None => w
           end in
  (ANull, on_state (fun s => upd_targets (map_erase target (targetCallbacks s)) s) (unregisterCommTarget target w)).

Definition targetCallback (target_ : sexp) (w : W) : RAnswer fn * W :=
  (match map_get (text target_) (targetCallbacks (state w)) with Some f => AFunction f | None => ANull end, w).

Definition newComm (target_ description_ : sexp) (w : W) : RAnswer fn * W :=
  let w := reapClosed w in
  let target := text target_ in
  match m_targets w !! target with
  | None => (ANull, w)
  | Some _ =>
      let a := fresh_address w in
      let w' := construct uninitialised a target (new_guid (guids (state w))) w in
      let (id, w') := keep a (text description_) (on_state (fun s => upd_guids (S (guids s)) s) w') in
      (AComm id, w')
  end.

Definition list (w : W) : RAnswer fn * W := let w := reapClosed w in (AComms (openComms (state w)).*1, w).

Definition targetName (id_ : sexp) (w : W) : RAnswer fn * W :=
  match find_entry (text id_) w with
  | None => (ANull, w)
  | Some e => (AText (match heap w !! comm e with Some c => p_target c | None => [] end), follow (comm e) w)
  end.

Definition description_ (id_ : sexp) (w : W) : RAnswer fn * W :=
  (match find_entry (text id_) w with Some e => AText (description e) | None => ANull end, w).

(** What a comm sends: an argument that does not convert is an R error. *)
Definition sending (message : Comm.Comm (CT := r_types) -> json -> json -> List.list str -> W -> W) (e : Entry fn)
    (data metadata buffers : sexp) (w : W) : result W :=
  let? m := metadataOf metadata in
  let? d := dataOf data in
  Ok (match heap w !! comm e with Some c => message c m d (buffersOf buffers) (follow (comm e) w) | None => follow (comm e) w end).

Definition sent_or_error (r : result W) (w : W) : RAnswer fn * W :=
  match r with
  | Ok w => (ALogical true, w)
  | Throw what => (AError what, w)
  | Undefined => (ALogical true, on_state (upd_undefined true) w)
  end.

Definition open (id_ data metadata buffers : sexp) (w : W) : RAnswer fn * W :=
  match find_entry (text id_) w with
  | None => (ALogical false, w)
  | Some e => sent_or_error (sending comm_open_message e data metadata buffers w) w
  end.

Definition send (id_ data metadata buffers : sexp) (w : W) : RAnswer fn * W :=
  match find_entry (text id_) w with
  | None => (ALogical false, w)
  | Some e => sent_or_error (sending comm_send_message e data metadata buffers w) w
  end.

Definition close (id_ data metadata buffers : sexp) (w : W) : RAnswer fn * W :=
  let w := reapClosed w in
  match find_entry (text id_) w with
  | None => (ALogical false, w)
  | Some e =>
      sent_or_error (let? w := sending comm_close_message e data metadata buffers w in
                     Ok (destroy_comm (comm e) (erase_entry (text id_) w))) w
  end.

Definition with_message (h : option fn) (e : Entry fn) : Entry fn := {| comm := comm e; description := description e; onMessage := h; onClose := onClose e |}.
Definition with_close (h : option fn) (e : Entry fn) : Entry fn := {| comm := comm e; description := description e; onMessage := onMessage e; onClose := h |}.

Definition update_entry (f : Entry fn -> Entry fn) (id : str) (w : W) : RAnswer fn * W :=
  match find_entry id w with
  | None => (ALogical false, w)
  | Some e => (ALogical true, on_state (fun s => upd_open (map_set id (f e) (openComms s)) s) w)
  end.

Definition setOnMessage (id_ : sexp) (handler : option fn) (w : W) : RAnswer fn * W := update_entry (with_message handler) (text id_) w.
Definition setOnClose (id_ : sexp) (handler : option fn) (w : W) : RAnswer fn * W := update_entry (with_close handler) (text id_) w.

Definition api (op : ROp fn) (w : W) : RAnswer fn * W :=
  match op with
  | RegisterTarget t f => registerTarget t f w
  | UnregisterTarget t => unregisterTarget t w
  | TargetCallback t => targetCallback t w
  | NewComm t d => newComm t d w
  | ListComms => list w
  | TargetName id => targetName id w
  | Description id => description_ id w
  | OpenComm id d m b => open id d m b w
  | SendComm id d m b => send id d m b w
  | CloseComm id d m b => close id d m b w
  | SetOnMessage id h => setOnMessage id h w
  | SetOnClose id h => setOnClose id h w
  end.

(** ** Running R, and being called *)

Fixpoint run_code (c : RCode fn r_state) (w : W) : option str * W :=
  match c with
  | Finished r => (None, on_state (upd_world r) w)
  | Failed message r => (Some message, on_state (upd_world r) w)
  | Calls op k => let (a, w) := api op w in run_code (k a) w
  end.

(** [call]: an error in the user's code is logged. *)
Definition call (f : option fn) (args : List.list rarg) (what : str) (w : W) : W :=
  match f with
  | None => w
  | Some f =>
      let w := on_state (fun s => upd_called (called s ++ [(f, args)]) s) w in
      match run_code (body f args (r_world (state w))) w with
      | (None, w) => w
      | (Some message, w) => on_state (fun s => upd_log (log s ++ [what ++ " failed: "%string ++ message]) s) w
      end
  end.

(** The message for R, and what it is for; an R error here jumps out. *)
Definition with_messageObject (message : Message) (f : sexp -> W -> W) (w : W) : W :=
  match messageObject message with
  | Ok m => f m w
  | Throw _ => on_state (upd_jumped true) w
  | Undefined => on_state (upd_undefined true) w
  end.

Definition on_message (id : str) (message : Message) (w : W) : W :=
  match find_entry id w with
  | None => w
  | Some e =>
      match onMessage e with
      | None => w
      | Some f => with_messageObject message (fun m => call (Some f) [ArgMessage m] "a comm message handler"%string) w
      end
  end.

(** The entry is destroyed later: this runs inside the comm's own handleClose. *)
Definition on_close (id : str) (message : Message) (w : W) : W :=
  match find_entry id w with
  | None => w
  | Some e =>
      let w := erase_entry id w in
      let closed (w : W) := on_state (fun s => upd_closed (closedComms s ++ [with_close None (with_message None e)]) s) w in
      match onClose e with
      | None => closed w
      | Some f => with_messageObject message (fun m w => closed (call (Some f) [ArgMessage m] "a comm close handler"%string w)) w
      end
  end.

(** What the target's callback does with the comm at [local]. *)
Definition on_open (target : str) (local : nat) (request : Message) (w : W) : W :=
  let a := fresh_address w in
  let (id, w) := keep a [] (move_construct a local w) in
  match map_get target (targetCallbacks (state w)) with
  | None => w
  | Some f => with_messageObject request (fun m => call f [ArgComm id; ArgMessage m]
                                             ("the callback of comm target '"%string ++ target ++ "'"%string)) w
  end.

#[local] Instance r_comms : CommUser (CT := r_types) := {|
  Comm.on_target (h : @handler r_types) local request w :=
    match (h : Callback) with OfTarget target => on_open target local request w | _ => w end;
  Comm.on_handler (h : @handler r_types) request w :=
    match (h : Callback) with
    | MessageOf id => on_message id request w
    | CloseOf id => on_close id request w
    | OfTarget _ => w
    end
|}.

(** ** What holds of the comms

    [exc] are registrations that are no entry's: of a comm that is being closed,
    or opened.
    [out] are objects that are no entry's: commOpen's own, or the one closing. *)
Record good (exc : Datatypes.list (str * nat)) (out : gset nat) (w : W) : Prop := {
  g_sound : sound w;
  g_open : forall id e, find_entry id w = Some e -> exists c, heap w !! comm e = Some c /\ m_id c = id /\ m_movedFrom c = false
    /\ m_messageHandler c = Some (MessageOf id : @handler r_types) /\ m_closeHandler c = Some (CloseOf id : @handler r_types);
  g_closed : forall e, e ∈ closedComms (state w) -> comm e ∈ dom (heap w) /\ forall id e', find_entry id w = Some e' -> comm e' <> comm e;
  g_out : forall a, a ∈ out -> a ∈ dom (heap w) /\ (forall id e, find_entry id w = Some e -> comm e <> a)
    /\ forall e, e ∈ closedComms (state w) -> comm e <> a;
  g_registry : forall id a, m_comms w !! id = Some a -> (exists e, find_entry id w = Some e /\ comm e = a) \/ (id, a) ∈ exc;
  g_dangling : dangling (state w) = ∅;
  g_defined : undefined (state w) = false
}.

Lemma follow_good a exc out w : good exc out w -> follow a w = w.
Proof. intros G. unfold follow. rewrite (g_dangling _ _ _ G). by rewrite decide_False by set_solver. Qed.

(** The manager and the objects that are no entry's may change. *)
Lemma good_change exc out w w' : good exc out w -> sound w' -> user w' = user w ->
  (forall id e, find_entry id w = Some e -> heap w' !! comm e = heap w !! comm e) ->
  (forall a, a ∈ out \/ (exists e, e ∈ closedComms (state w) /\ comm e = a) -> a ∈ dom (heap w) -> a ∈ dom (heap w')) ->
  (forall id a, m_comms w' !! id = Some a -> m_comms w !! id = Some a) -> good exc out w'.
Proof.
  intros [S O C U R D X] S' Hu Hopen Hdom Hreg.
  assert (forall id, find_entry id w' = find_entry id w) as Hf by (intros id; unfold find_entry; by rewrite Hu).
  split; rewrite ?Hu; try done.
  - intros id e He. rewrite Hf in He. rewrite (Hopen id e He). by apply O.
  - intros e He. destruct (C e He) as [H1 H2]. split; [apply Hdom; [right; by exists e | done] |]. intros id e'. rewrite Hf. apply H2.
  - intros a Ha. destruct (U a Ha) as (H1 & H2 & H3). split; [apply Hdom; [by left | done] |]. split; [| done].
    intros id e. rewrite Hf. apply H2.
  - intros id a Ha. rewrite Hf. by apply R, Hreg.
Qed.

(** An object that is no entry's, or a closed one's, is destroyed. *)
Lemma destroy_good a exc out w : good exc out w -> (forall id e, find_entry id w = Some e -> comm e <> a) -> a ∉ out ->
  (forall e, e ∈ closedComms (state w) -> comm e <> a) -> good exc out (Comm.destroy a w).
Proof.
  intros G Hopen Hout Hclosed. pose proof (destroy_sound a w (g_sound _ _ _ G)) as S'. revert S'. unfold Comm.destroy.
  destruct (heap w !! a) as [c|] eqn:Ha; [| done]. set (w1 := if m_movedFrom c then w else unregisterComm (m_id c) w).
  assert (heap w1 = heap w /\ user w1 = user w) as [H1 H2] by (unfold w1; by destruct (m_movedFrom c)).
  intros S'. apply (good_change exc out w); try done; cbn; rewrite ?H1.
  - intros id e He. rewrite lookup_delete_ne; [done |]. intros ->. by eapply Hopen.
  - intros b Hb Hin. rewrite dom_delete. apply elem_of_difference. split; [done |]. rewrite elem_of_singleton. intros ->.
    destruct Hb as [Hb | (e & He & Heq)]; [done | by eapply Hclosed].
  - intros id b. unfold w1. destruct (m_movedFrom c); cbn; [done |]. by intros [_ H]%lookup_delete_Some.
Qed.

(** A change of R's own, or of the log. *)
Lemma state_good f exc out w : good exc out w -> openComms (f (state w)) = openComms (state w) ->
  closedComms (f (state w)) = closedComms (state w) -> dangling (f (state w)) = dangling (state w) ->
  undefined (f (state w)) = undefined (state w) -> good exc out (on_state f w).
Proof.
  intros [S O C U R D X] Ho Hc Hd Hx.
  assert (forall id, find_entry id (on_state f w) = find_entry id w) as Hf by (intros id; unfold find_entry; cbn; by rewrite Ho).
  split; cbn; rewrite ?Hc, ?Hd, ?Hx; try done; [by destruct S | ..].
  - intros id e. rewrite Hf. apply O.
  - intros e He. destruct (C e He) as [H1 H2]. split; [done |]. intros id e'. rewrite Hf. apply H2.
  - intros a Ha. destruct (U a Ha) as (H1 & H2 & H3). split; [done |]. split; [| done]. intros id e. rewrite Hf. apply H2.
  - intros id a. rewrite Hf. apply R.
Qed.

Lemma destroy_user a w : user (Comm.destroy a w) = user w.
Proof. unfold Comm.destroy. destruct (heap w !! a) as [c|]; [| done]. by destruct (m_movedFrom c). Qed.

Lemma destroy_targets a w : m_targets (Comm.destroy a w) = m_targets w.
Proof. unfold Comm.destroy. destruct (heap w !! a) as [c|]; [| done]. by destruct (m_movedFrom c). Qed.

Lemma destroy_all_good exc out (es : Datatypes.list (Entry fn)) : forall w, good exc out w -> closedComms (state w) = [] ->
  (forall e, e ∈ es -> comm e ∉ out /\ forall id e', find_entry id w = Some e' -> comm e' <> comm e) ->
  let w' := fold_left (fun w e => destroy_comm (comm e) w) es w in
  good exc out w' /\ user w' = user w /\ m_targets w' = m_targets w.
Proof.
  induction es as [|e es IH]; intros w G Hc Hes; cbn [fold_left]; [done |].
  unfold destroy_comm at 2 4 6. rewrite (follow_good _ exc out w G). destruct (Hes e) as [Hout Hopen]; [by left |].
  destruct (IH (Comm.destroy (comm e) w)) as (G' & E1 & E2).
  - apply destroy_good; try done. rewrite Hc. by intros ? ?%elem_of_nil.
  - by rewrite destroy_user.
  - intros e2 He2. destruct (Hes e2) as [H1 H2]; [by right |]. split; [done |]. intros id e'. unfold find_entry. rewrite destroy_user. apply H2.
  - split; [exact G' |]. by rewrite E1, E2, destroy_user, destroy_targets.
Qed.

(** The closed comms are gone. *)
Lemma reap_good exc out w : good exc out w ->
  good exc out (reapClosed w) /\ state (reapClosed w) = upd_closed [] (state w) /\ m_targets (reapClosed w) = m_targets w.
Proof.
  intros G. pose proof G as [S O C U R D X]. unfold reapClosed.
  apply (destroy_all_good exc out (closedComms (state w)) (on_state (upd_closed []) w)); [| done |].
  - split; cbn; try done; [by destruct S | by intros e ?%elem_of_nil |]. intros a Ha. destruct (U a Ha) as (H1 & H2 & H3).
    split; [done |]. split; [done |]. by intros e ?%elem_of_nil.
  - intros e He. split; [intros Hout; by eapply (proj2 (proj2 (U _ Hout)) e) |]. apply (C e He).
Qed.

(** An entry's functions are set. *)
Lemma update_good exc out w id e e' : good exc out w -> find_entry id w = Some e -> comm e' = comm e ->
  good exc out (on_state (fun s => upd_open (map_set id e' (openComms s)) s) w).
Proof.
  intros [S O C U R D X] He Hc. set (w' := on_state _ w).
  assert (forall i, find_entry i w' = if str_eqb id i then Some e' else find_entry i w) as Hf
    by (intros i; unfold find_entry, w', on_state; cbn [user set_user openComms upd_open]; by rewrite map_get_set).
  assert (forall i x, find_entry i w' = Some x -> exists y, find_entry i w = Some y /\ comm y = comm x) as Hold.
  { intros i x. rewrite Hf. destruct (str_eqb id i) eqn:E; [apply str_eqb_eq in E as <-; intros [= <-]; by exists e | by exists x]. }
  split; try done; [by destruct S | ..].
  - intros i x Hx. destruct (Hold i x Hx) as (y & Hy & <-). by apply O.
  - intros x Hx. destruct (C x Hx) as [H1 H2]. split; [done |]. intros i y Hy. destruct (Hold i y Hy) as (z & Hz & <-). by eapply H2.
  - intros a Ha. destruct (U a Ha) as (H1 & H2 & H3). split; [done |]. split; [| done]. intros i y Hy.
    destruct (Hold i y Hy) as (z & Hz & <-). by eapply H2.
  - intros i a Ha. destruct (R i a Ha) as [(x & Hx & Hxa) | ?]; [left | by right]. rewrite Hf. destruct (str_eqb id i) eqn:E; [| by exists x].
    apply str_eqb_eq in E as <-. exists e'. split; [done |]. congruence.
Qed.

(** An address no object has. *)
Lemma not_an_entry exc out w a : good exc out w -> heap w !! a = None ->
  (forall id e, find_entry id w = Some e -> comm e <> a) /\ (forall e, e ∈ closedComms (state w) -> comm e <> a) /\ a ∉ out.
Proof.
  intros [S O C U R D X] Ha. split; [| split].
  - intros id e He Heq. destruct (O id e He) as (c & Hc & _). congruence.
  - intros e He Heq. destruct (C e He) as [H _]. apply elem_of_dom in H as [x ?]. congruence.
  - intros Hin. destruct (U a Hin) as [H _]. by apply elem_of_dom in H as [x ?]; congruence.
Qed.

(** A comm is made at [a], under an id. *)
Lemma placed_good exc exc' out w w' id a : good exc out w -> heap w !! a = None -> sound w' -> user w' = user w ->
  (forall b, b <> a -> b ∉ out -> heap w' !! b = heap w !! b) -> (forall b, b ∈ dom (heap w) \/ b = a -> b ∈ dom (heap w')) ->
  (forall i b, m_comms w' !! i = Some b -> (i, b) = (id, a) \/ (i <> id /\ m_comms w !! i = Some b)) ->
  (forall x, x ∈ exc -> x.1 <> id -> x ∈ exc') -> good ((id, a) :: exc') ({[a]} ∪ out) w'.
Proof.
  intros G Ha S' Hu Hh Hd Hreg He. destruct (not_an_entry _ _ _ a G Ha) as (H1 & H2 & H3). destruct G as [S O C U R D X].
  assert (forall i, find_entry i w' = find_entry i w) as Hf by (intros i; unfold find_entry; by rewrite Hu).
  split; rewrite ?Hu; try done.
  - intros i e Hie. rewrite Hf in Hie. rewrite Hh; [by apply O | by eapply H1 |]. intros Hin. by eapply (proj1 (proj2 (U _ Hin))).
  - intros e Hce. destruct (C e Hce) as [H4 H5]. split; [apply Hd; by left |]. intros i e'. rewrite Hf. apply H5.
  - intros b Hb. apply elem_of_union in Hb as [->%elem_of_singleton | Hb].
    + split; [apply Hd; by right |]. split; [| done]. intros i e. rewrite Hf. apply H1.
    + destruct (U b Hb) as (H4 & H5 & H6). split; [apply Hd; by left |]. split; [| done]. intros i e. rewrite Hf. apply H5.
  - intros i b Hib. rewrite Hf. destruct (Hreg i b Hib) as [-> | [Hne Hold]]; [right; by left |].
    destruct (R i b Hold) as [? | Hx]; [by left | right; right; by apply He].
Qed.

Lemma construct_good exc out w a target id : good exc out w -> heap w !! a = None -> is_Some (m_targets w !! target) ->
  good ((id, a) :: exc) ({[a]} ∪ out) (construct false a target id w).
Proof.
  intros G Ha Ht. apply (placed_good exc exc out w); try done; [by apply construct_sound; [apply G | |] | | |].
  - intros b Hb _. cbn. by rewrite lookup_insert_ne.
  - intros b Hb. cbn. rewrite dom_insert. set_solver.
  - intros i b. cbn. destruct (decide (i = id)) as [-> |]; [rewrite lookup_insert_eq; intros [= <-]; by left |].
    rewrite lookup_insert_ne by done. by right.
Qed.

Lemma move_good exc out w a local c : good ((m_id c, local) :: exc) ({[local]} ∪ out) w -> heap w !! a = None -> heap w !! local = Some c ->
  good ((m_id c, a) :: exc) ({[a]} ∪ ({[local]} ∪ out)) (move_construct a local w).
Proof.
  intros G Ha Hl. assert (a <> local) as Hne by congruence. eapply (placed_good _ exc _ w _ (m_id c) a G Ha).
  - apply move_construct_sound; [apply G | done].
  - unfold move_construct. by rewrite Hl.
  - intros b Hb Hout. unfold move_construct. rewrite Hl. cbn. rewrite lookup_insert_ne by done. rewrite lookup_insert_ne; [done | set_solver].
  - intros b Hb. unfold move_construct. rewrite Hl. cbn. rewrite !dom_insert. set_solver.
  - intros i b. unfold move_construct. rewrite Hl. cbn. destruct (decide (i = m_id c)) as [-> |].
    + rewrite lookup_insert_eq. intros [= <-]. by left.
    + rewrite lookup_insert_ne by done. by right.
  - intros x [-> | Hx]%elem_of_cons Hxn; [done | done].
Qed.

(** An object's handlers are set. *)
Lemma handlers_good exc out w a c m h : good exc out w -> a ∈ out -> heap w !! a = Some c ->
  good exc out (Comm.onClose a h (Comm.onMessage a m w))
  /\ heap (Comm.onClose a h (Comm.onMessage a m w)) !! a
     = Some {| m_closeHandler := Some h; m_messageHandler := Some m; p_target := p_target c; m_id := m_id c; m_movedFrom := m_movedFrom c |}.
Proof.
  intros G Ha Hc. destruct (g_out _ _ _ G a Ha) as (_ & Hne & _). unfold Comm.onMessage. rewrite Hc. unfold Comm.onClose.
  cbn [set_heap heap]. rewrite lookup_insert_eq. cbn [set_heap heap]. split; [| by rewrite lookup_insert_eq].
  rewrite insert_insert_eq. eapply good_change; [exact G | | done | ..].
  - exact (handler_sound a c {| m_closeHandler := Some h; m_messageHandler := Some m; p_target := p_target c; m_id := m_id c;
                                m_movedFrom := m_movedFrom c |} w (g_sound _ _ _ G) Hc eq_refl eq_refl eq_refl).
  - intros id e He. cbn. rewrite lookup_insert_ne; [done |]. intros Heq. by eapply Hne.
  - intros b _ Hb. cbn. rewrite dom_insert. set_solver.
  - done.
Qed.

(** The comm at [a] becomes an entry's. *)
Lemma keep_good exc out w a c d : good ((m_id c, a) :: exc) ({[a]} ∪ out) w -> a ∉ out -> heap w !! a = Some c -> m_movedFrom c = false ->
  m_comms w !! m_id c = Some a -> good exc out (snd (keep a d w)) /\ m_targets (snd (keep a d w)) = m_targets w.
Proof.
  intros G Ha Hc Hm Hr. unfold keep. rewrite Hc. cbn [snd]. set (id := m_id c) in *.
  destruct (handlers_good _ _ w a c (MessageOf id : @handler r_types) (CloseOf id : @handler r_types) G) as [G2 Hc2]; [set_solver | done |].
  assert (m_comms (Comm.onClose a (CloseOf id : @handler r_types) (Comm.onMessage a (MessageOf id : @handler r_types) w)) = m_comms w
    /\ m_targets (Comm.onClose a (CloseOf id : @handler r_types) (Comm.onMessage a (MessageOf id : @handler r_types) w)) = m_targets w) as [Hr2 Ht2].
  { unfold Comm.onMessage. rewrite Hc. unfold Comm.onClose. cbn [set_heap heap]. by rewrite lookup_insert_eq. }
  generalize dependent (Comm.onClose a (CloseOf id : @handler r_types) (Comm.onMessage a (MessageOf id : @handler r_types) w)).
  intros w2 G2 Hc2 Hr2 Ht2. rewrite <- Hr2 in Hr. rewrite <- Ht2. clear G Hc Hr2 Ht2 w. unfold set_entry.
  set (e := {| comm := a; description := d; onMessage := None; onClose := None |}). set (w3 := on_state _ w2).
  assert (forall i, find_entry i w3 = if str_eqb id i then Some e else find_entry i w2) as Hf
    by (intros i; unfold find_entry, w3, on_state; cbn [user set_user openComms upd_open]; by rewrite map_get_set).
  assert (good exc out w3) as G3.
  { destruct (g_out _ _ _ G2 a) as (_ & Hna & Hnc); [set_solver |]. destruct G2 as [S O C U R D X]. split; try done; [by destruct S | ..].
    - intros i x. rewrite Hf. destruct (str_eqb id i) eqn:E; [apply str_eqb_eq in E as <-; intros [= <-] | apply O].
      eexists. split; [exact Hc2 | by rewrite Hm].
    - intros x Hx. destruct (C x Hx) as [H1 H2]. split; [done |]. intros i y. rewrite Hf.
      destruct (str_eqb id i); [intros [= <-] Heq; by eapply Hnc | apply H2].
    - intros b Hb. destruct (U b) as (H1 & H2 & H3); [set_solver |]. split; [done |]. split; [| done]. intros i y. rewrite Hf.
      destruct (str_eqb id i); [intros [= <-] Heq; cbn in Heq; congruence | apply H2].
    - intros i b Hib. rewrite Hf. destruct (str_eqb id i) eqn:E.
      + apply str_eqb_eq in E as <-. left. exists e. split; [done |]. cbn in Hib |- *. congruence.
      + destruct (R i b Hib) as [? | [Heq | ?]%elem_of_cons]; [by left | | by right].
        injection Heq as -> ->. by rewrite str_eqb_refl in E. }
  destruct (find_entry id w2) as [old|] eqn:Hold; [| by split]. unfold destroy_comm. rewrite (follow_good _ _ _ _ G3).
  destruct (g_open _ _ _ G2 id old Hold) as (co & Hco & Hido & _). destruct (g_out _ _ _ G2 a) as (_ & Hna & _); [set_solver |].
  split; [| by rewrite destroy_targets]. apply destroy_good; [done | | |].
  - intros i y. rewrite Hf. destruct (str_eqb id i) eqn:E; [intros [= <-] Heq; by eapply Hna |]. intros Hy Heq.
    destruct (g_open _ _ _ G2 i y Hy) as (cy & Hcy & Hidy & _). rewrite Heq in Hcy. assert (i = id) as -> by congruence.
    by rewrite str_eqb_refl in E.
  - intros Hin. destruct (g_out _ _ _ G2 (comm old)) as (_ & H & _); [set_solver |]. by eapply H.
  - intros x Hx. apply not_eq_sym. by eapply (g_closed _ _ _ G2 x Hx).
Qed.

(** ** Every call of the API *)

(** A target left dangling stays so, and only [call] calls R's functions. *)
Definition keeps (w w' : W) : Prop := dangling (state w) ⊆ dangling (state w') /\ called (state w') = called (state w).

#[local] Instance keeps_preorder : PreOrder keeps.
Proof. split; [done |]. intros w1 w2 w3 [H1 E1] [H2 E2]. split; [set_solver | congruence]. Qed.

Lemma same_user_keeps w w' : user w' = user w -> keeps w w'.
Proof. intros E. unfold keeps. by rewrite E. Qed.

Lemma follow_keeps a w : keeps w (follow a w).
Proof. unfold follow. by destruct (decide _). Qed.

Lemma destroy_keeps a w : keeps w (destroy_comm a w).
Proof. unfold destroy_comm. etrans; [apply follow_keeps |]. apply same_user_keeps, destroy_user. Qed.

Lemma reap_keeps w : keeps w (reapClosed w).
Proof.
  unfold reapClosed. assert (keeps w (on_state (upd_closed []) w)) as H by done. revert H. generalize (on_state (upd_closed []) w).
  induction (closedComms (state w)) as [|e es IH]; intros v H; cbn [fold_left]; [done |]. apply IH. etrans; [exact H | apply destroy_keeps].
Qed.

Lemma set_entry_keeps id e w : keeps w (set_entry id e w).
Proof. unfold set_entry. destruct (find_entry id w); [| done]. etrans; [| apply destroy_keeps]. done. Qed.

Lemma keep_keeps a d w : keeps w (snd (keep a d w)).
Proof.
  unfold keep. cbn [snd]. etrans; [| apply set_entry_keeps]. apply same_user_keeps.
  unfold Comm.onClose, Comm.onMessage. by repeat case_match.
Qed.

Lemma sending_keeps message e d m b w w' : (forall c m d b w, user (message c m d b w) = user w) ->
  sending message e d m b w = Ok w' -> keeps w w'.
Proof.
  intros Hu. unfold sending. destruct (metadataOf m); [| done ..]. destruct (dataOf d); [| done ..]. intros [= <-].
  destruct (heap w !! comm e); [| apply follow_keeps]. etrans; [apply follow_keeps | by apply same_user_keeps].
Qed.

Lemma sent_keeps v w r : keeps v w -> (forall w', r = Ok w' -> keeps v w') -> keeps v (snd (sent_or_error r w)).
Proof. intros Hw Hr. destruct r as [w'| |]; cbn; [by apply Hr | done | done]. Qed.

Lemma api_keeps op w : keeps w (snd (api op w)).
Proof.
  destruct op; cbn [api].
  - etrans; [apply reap_keeps | done].
  - etrans; [apply reap_keeps |]. unfold unregisterTarget. cbn [snd].
    destruct (m_targets (reapClosed w) !! text target); split; cbn; try done; set_solver.
  - done.
  - unfold newComm. etrans; [apply reap_keeps |]. destruct (m_targets (reapClosed w) !! text target); [| done].
    match goal with |- context [keep ?a ?d ?v] => pose proof (keep_keeps a d v) as H; destruct (keep a d v) as [id w'] end. exact H.
  - apply reap_keeps.
  - unfold targetName. destruct (find_entry (text id) w); [apply follow_keeps | done].
  - done.
  - unfold open. destruct (find_entry (text id) w) as [e|]; [| done]. apply sent_keeps; [done |]. intros w'. by apply sending_keeps.
  - unfold send. destruct (find_entry (text id) w) as [e|]; [| done]. apply sent_keeps; [done |]. intros w'. by apply sending_keeps.
  - unfold close. destruct (find_entry (text id) (reapClosed w)) as [e|]; [| apply reap_keeps].
    apply sent_keeps; [apply reap_keeps |]. intros w'.
    destruct (sending comm_close_message e data metadata buffers (reapClosed w)) as [w1| |] eqn:E; [| done ..]. intros [= <-].
    etrans; [apply reap_keeps |]. etrans; [by eapply sending_keeps; [| exact E] |]. etrans; [| apply destroy_keeps]. done.
  - unfold setOnMessage, update_entry. by destruct (find_entry (text id) w).
  - unfold setOnClose, update_entry. by destruct (find_entry (text id) w).
Qed.

Lemma run_code_keeps c : forall w, keeps w (snd (run_code c w)).
Proof.
  induction c as [r | message r | op k IH]; intros w; cbn [run_code]; [done | done |].
  pose proof (api_keeps op w) as H. destruct (api op w) as [a w1]. etrans; [exact H | apply IH].
Qed.

(** The values R hands over are proper ones: they convert, or fail. *)
Definition converts (x : sexp) : Prop := sexpToJson parse_json false x <> Undefined.

Definition proper (op : ROp fn) : Prop :=
  match op with OpenComm _ d m _ | SendComm _ d m _ | CloseComm _ d m _ => converts d /\ converts m | _ => True end.

Fixpoint proper_code (c : RCode fn r_state) : Prop :=
  match c with Calls op k => proper op /\ forall a, proper_code (k a) | _ => True end.

(** A message always converts, or R refuses it. *)
Lemma jsonToSexp_defined j : jsonToSexp dump_json j <> Undefined.
Proof.
  assert (forall s, mkCharUtf8 s <> Undefined) as Hm by (intros s; unfold mkCharUtf8; by repeat case_match).
  induction j as [| b | z | z | f | s | | l IH | m IH] using json_rect_nested; cbn [jsonToSexp]; try done.
  - specialize (Hm s). by destruct (mkCharUtf8 s).
  - destruct (type_of_array l) as [[]|]; cbn [array_vector]; try done.
    + assert (mapR (str_element dump_json) l <> Undefined) as H; [| by destruct (mapR _ l)]. clear IH.
      induction l as [|e l IH]; cbn; [done |]. assert (str_element dump_json e <> Undefined) as He by (unfold str_element; by case_match).
      destruct (str_element dump_json e); [| done ..]. by destruct (mapR _ l).
    + assert (all_ok (List.map (jsonToSexp dump_json) l) <> Undefined) as H; [| by destruct (all_ok _)].
      unfold all_ok. induction IH as [|e l He _ IH]; cbn; [done |]. destruct (jsonToSexp dump_json e); [| done ..]. by destruct (mapR _ _).
  - assert (object_members (List.map (fun kv => (fst kv, jsonToSexp dump_json (snd kv))) m) <> Undefined) as H; [| by destruct (object_members _) as [[]| |]].
    induction IH as [|[k j] m Hj _ IH]; cbn; [done |]. cbn in Hj. destruct (jsonToSexp dump_json j); [| done ..].
    specialize (Hm k). destruct (mkCharUtf8 k); [| done ..]. by destruct (object_members _) as [[]| |].
Qed.

Lemma messageObject_defined m : messageObject m <> Undefined.
Proof.
  unfold messageObject. pose proof jsonToSexp_defined as H.
  destruct (jsonToSexp _ (basic (content_of m))) eqn:E1; [| done | by apply H in E1].
  destruct (jsonToSexp _ (basic (header_of m))) eqn:E2; [| done | by apply H in E2].
  destruct (jsonToSexp _ (basic (m_parentHeader _))) eqn:E3; [| done | by apply H in E3].
  destruct (jsonToSexp _ (basic (m_metadata _))) eqn:E4; [done | done | by apply H in E4].
Qed.

Hypothesis initialised : uninitialised = false.

(** Something is published; the objects stay. *)
Lemma sending_good exc out message e d m b w : good exc out w -> converts d -> converts m ->
  (forall c m d b w, heap (message c m d b w) = heap w /\ m_comms (message c m d b w) = m_comms w
     /\ m_targets (message c m d b w) = m_targets w /\ user (message c m d b w) = user w) ->
  match sending message e d m b w with
  | Ok w' => good exc out w' /\ user w' = user w
  | Throw _ => True
  | Undefined => False
  end.
Proof.
  intros G Hd Hm Hsame. unfold sending, metadataOf, dataOf, converts in *.
  assert (match m with R_NilValue => Ok empty_object | _ => let? j := sexpToJson parse_json false m in Ok (embed j) end <> Undefined) as Hm'
    by (destruct (sexpToJson parse_json false m); destruct m; done).
  destruct (match m with R_NilValue => _ | _ => _ end) as [mj| |]; [| done | done].
  destruct (sexpToJson parse_json false d) as [dj| |]; [| done | done]. rewrite (follow_good _ _ _ _ G).
  destruct (heap w !! comm e) as [c|]; [| by split]. destruct (Hsame c mj (embed dj) (buffersOf b) w) as (H1 & H2 & H3 & H4).
  split; [| done]. apply (good_change _ _ w); [done | | done | by intros; rewrite H1 | by intros; rewrite H1 | by intros i a; rewrite H2].
  destruct G as [[Sr St] _ _ _ _ _ _]. split; rewrite ?H1, ?H2, ?H3; done.
Qed.

Lemma find_erase id i w : find_entry i (erase_entry id w) = if str_eqb id i then None else find_entry i w.
Proof. unfold find_entry, erase_entry, on_state. cbn [user set_user openComms upd_open]. by rewrite map_get_erase. Qed.

(** An entry is taken out of the open ones. *)
Lemma erase_good exc out w id e : good exc out w -> find_entry id w = Some e ->
  good ((id, comm e) :: exc) ({[comm e]} ∪ out) (erase_entry id w) /\ comm e ∉ out.
Proof.
  intros [S O C U R D X] He. destruct (O id e He) as (c & Hc & Hid & _).
  assert (comm e ∉ out) as Hout by (intros Hin; by eapply (proj1 (proj2 (U _ Hin)))). split; [| done].
  assert (forall i x, find_entry i (erase_entry id w) = Some x -> find_entry i w = Some x /\ i <> id) as Hf.
  { intros i x. rewrite find_erase. destruct (str_eqb id i) eqn:E; [done |]. intros H. split; [done |]. intros ->. by rewrite str_eqb_refl in E. }
  split; try done; [by destruct S | ..].
  - intros i x Hx. apply O. by apply Hf.
  - intros x Hx. destruct (C x Hx) as [H1 H2]. split; [done |]. intros i y Hy. apply Hf in Hy as [Hy _]. by eapply H2.
  - intros b Hb. apply elem_of_union in Hb as [->%elem_of_singleton | Hb].
    + split; [apply elem_of_dom; eauto |]. split; [| intros x Hx Heq; by eapply (proj2 (C x Hx))]. intros i y Hy Heq.
      apply Hf in Hy as [Hy Hne]. destruct (O i y Hy) as (cy & Hcy & Hidy & _). congruence.
    + destruct (U b Hb) as (H1 & H2 & H3). split; [done |]. split; [| done]. intros i y Hy. apply Hf in Hy as [Hy _]. by eapply H2.
  - intros i b Hib. destruct (R i b Hib) as [(x & Hx & Hxb) | Hexc]; [| right; by right]. rewrite find_erase. destruct (str_eqb id i) eqn:E; [| left; by exists x].
    apply str_eqb_eq in E as <-. right. apply elem_of_cons. left. congruence.
Qed.

(** What is no entry's, and is gone. *)
Lemma fewer_good exc a out w : good exc ({[a]} ∪ out) w -> good exc out w.
Proof. intros [S O C U R D X]. split; try done. intros b Hb. apply U. set_solver. Qed.

Lemma forget_good exc id a out w : good ((id, a) :: exc) out w -> m_comms w !! id <> Some a -> good exc out w.
Proof.
  intros [S O C U R D X] Hn. split; try done. intros i b Hib. destruct (R i b Hib) as [? | [[= -> ->] | ?]%elem_of_cons]; [by left | done | by right].
Qed.

Lemma drop_good exc id out w a c : good ((id, a) :: exc) ({[a]} ∪ out) w -> a ∉ out -> heap w !! a = Some c ->
  m_id c = id -> m_movedFrom c = false -> good exc out (Comm.destroy a w).
Proof.
  intros G Hout Hc Hid Hm. destruct (g_out _ _ _ G a) as (_ & H1 & H2); [set_solver |].
  apply (forget_good exc id a); [by apply destroy_good; [eapply fewer_good | ..] |].
  unfold Comm.destroy. rewrite Hc, Hm. cbn. by rewrite Hid, lookup_delete_eq.
Qed.

(** The closing comm waits to be destroyed. *)
Lemma closed_good exc out w (e : Entry fn) : good exc ({[comm e]} ∪ out) w -> comm e ∉ out ->
  good exc out (on_state (fun s => upd_closed (closedComms s ++ [e]) s) w).
Proof.
  intros G Hout. destruct (g_out _ _ _ G (comm e)) as (H1 & H2 & H3); [set_solver |]. destruct G as [S O C U R D X]. split; try done.
  - by destruct S.
  - intros x. cbn. rewrite elem_of_app, list_elem_of_singleton. intros [Hx | ->]; [by apply C |]. split; [done |]. intros i y. apply H2.
  - intros b Hb. destruct (U b) as (H4 & H5 & H6); [set_solver |]. split; [done |]. split; [done |]. intros x. cbn.
    rewrite elem_of_app, list_elem_of_singleton. intros [Hx | ->]; [by apply H6 |]. intros <-. done.
Qed.

Lemma fresh_address_new w : heap w !! fresh_address w = None.
Proof.
  apply not_elem_of_dom. intros H. pose proof (is_fresh (dom (heap w) ∪ dangling (state w))) as Hf. apply Hf, elem_of_union. by left.
Qed.

Lemma targets_good exc out w w' : good exc out w -> (forall a c, heap w !! a = Some c -> is_Some (m_targets w' !! p_target c)) ->
  heap w' = heap w -> m_comms w' = m_comms w -> user w' = user w -> good exc out w'.
Proof.
  intros G Ht Hh Hc Hu. apply (good_change _ _ w); try done; rewrite ?Hh, ?Hc; try done.
  destruct G as [[Sr _] _ _ _ _ _ _]. split; rewrite Hh, ?Hc; done.
Qed.

Lemma registerTarget_good exc out target f w : good exc out w -> good exc out (snd (registerTarget target f w)).
Proof.
  intros G. destruct (reap_good _ _ _ G) as (G1 & _ & _). unfold registerTarget. cbn [snd].
  eapply targets_good; [by eapply (state_good (fun s => upd_targets (map_set (text target) f (targetCallbacks s)) s)) | | done ..].
  intros a c Hc. cbn. destruct (sound_targets _ (g_sound _ _ _ G1) a c Hc) as [h Hh].
  destruct (decide (text target = p_target c)) as [-> |]; [by rewrite lookup_insert_eq | rewrite lookup_insert_ne by done; eauto].
Qed.

(** A target is unregistered, with no comm that points to it. *)
Lemma unregisterTarget_good exc out target w : good exc out w -> dangling (state (snd (unregisterTarget target w))) = ∅ ->
  good exc out (snd (unregisterTarget target w)).
Proof.
  intros G. destruct (reap_good _ _ _ G) as (G1 & _ & _). unfold unregisterTarget. cbn [snd].
  destruct (m_targets (reapClosed w) !! text target) as [h|] eqn:Ht; intros Hd.
  - cbn in Hd. apply (state_good (fun s => upd_targets _ s)); try done.
    assert (pointing (text target) (reapClosed w) = ∅) as Hp by set_solver. eapply targets_good.
    + apply (state_good (fun s => upd_dangling (dangling s ∪ pointing (text target) (reapClosed w)) s)); [exact G1 | done | done | | done].
      cbn. rewrite Hp. set_solver.
    + intros a c Hc. cbn. rewrite lookup_delete_ne; [apply (sound_targets _ (g_sound _ _ _ G1) a c Hc) |]. intros He.
      assert (a ∈ pointing (text target) (reapClosed w)) as Hin; [| by rewrite Hp in Hin; apply elem_of_empty in Hin].
      unfold pointing. apply elem_of_dom. exists c. by apply map_lookup_filter_Some.
    + done.
    + done.
    + done.
  - apply (state_good (fun s => upd_targets _ s)); try done. eapply targets_good; [exact G1 | | done ..].
    intros a c Hc. cbn. destruct (sound_targets _ (g_sound _ _ _ G1) a c Hc) as [h Hh]. rewrite lookup_delete_ne; [eauto | congruence].
Qed.

Lemma newComm_good exc out target d w : good exc out w -> good exc out (snd (newComm target d w)).
Proof.
  intros G. destruct (reap_good _ _ _ G) as (G1 & _ & _). unfold newComm. rewrite initialised.
  set (w1 := reapClosed w) in *. clearbody w1. destruct (m_targets w1 !! text target) as [h|] eqn:Ht; [| done].
  set (a := fresh_address w1). assert (heap w1 !! a = None) as Ha by apply fresh_address_new.
  set (id := new_guid _). set (w2 := on_state _ _).
  assert (good ((id, a) :: exc) ({[a]} ∪ out) w2) as G2.
  { apply (state_good (fun s => upd_guids (S (guids s)) s)); [| done ..]. by apply construct_good. }
  destruct (not_an_entry _ _ _ _ G1 Ha) as (_ & _ & Hout).
  destruct (keep_good exc out w2 a
    {| m_closeHandler := None; m_messageHandler := None; p_target := text target; m_id := id; m_movedFrom := false |} (text d) G2 Hout)
    as [G3 _]; [apply lookup_insert_eq | done | apply lookup_insert_eq |].
  revert G3. unfold id. by destruct (keep a (text d) w2).
Qed.

(** What the three that send have in common. *)
Lemma message_same (f : Comm.Comm (CT := r_types) -> json -> json -> Datatypes.list str -> W -> W) :
  f = comm_open_message \/ f = comm_send_message \/ f = comm_close_message ->
  forall c m d b w, heap (f c m d b w) = heap w /\ m_comms (f c m d b w) = m_comms w
    /\ m_targets (f c m d b w) = m_targets w /\ user (f c m d b w) = user w.
Proof. by intros [-> | [-> | ->]]. Qed.

Lemma sent_good exc out (f : Comm.Comm (CT := r_types) -> json -> json -> Datatypes.list str -> W -> W) e d m b w :
  f = comm_open_message \/ f = comm_send_message \/ f = comm_close_message ->
  good exc out w -> converts d -> converts m -> good exc out (snd (sent_or_error (sending f e d m b w) w)).
Proof.
  intros Hf G Hd Hm. pose proof (sending_good _ _ f e d m b w G Hd Hm (message_same f Hf)) as H.
  destruct (sending f e d m b w); cbn; [apply H | done | done].
Qed.

Lemma close_good exc out id d m b w : good exc out w -> converts d -> converts m -> good exc out (snd (close id d m b w)).
Proof.
  intros G Hd Hm. destruct (reap_good _ _ _ G) as (G1 & _ & _). unfold close.
  set (w1 := reapClosed w) in *. clearbody w1. destruct (find_entry (text id) w1) as [e|] eqn:He; [| done].
  pose proof (sending_good _ _ comm_close_message e d m b w1 G1 Hd Hm (message_same comm_close_message (or_intror (or_intror eq_refl)))) as H.
  destruct (sending comm_close_message e d m b w1) as [w2| |]; cbn; [| done | done]. destruct H as [G2 Hu].
  assert (find_entry (text id) w2 = Some e) as He2 by (unfold find_entry; by rewrite Hu).
  destruct (g_open _ _ _ G2 _ _ He2) as (c & Hc & Hid & Hmv & _). destruct (erase_good _ _ _ _ _ G2 He2) as [G3 Hout].
  unfold destroy_comm. rewrite (follow_good _ _ _ _ G3). by eapply drop_good.
Qed.

Lemma api_good exc out op w : good exc out w -> proper op -> dangling (state (snd (api op w))) = ∅ -> good exc out (snd (api op w)).
Proof.
  intros G Hp Hd. destruct op; cbn [api] in *.
  - by apply registerTarget_good.
  - by apply unregisterTarget_good.
  - done.
  - by apply newComm_good.
  - by apply reap_good.
  - unfold targetName. destruct (find_entry _ _); [| done]. cbn. by rewrite (follow_good _ _ _ _ G).
  - done.
  - unfold open. destruct (find_entry _ _); [| done]. apply sent_good; [auto | done | apply Hp ..].
  - unfold send. destruct (find_entry _ _); [| done]. apply sent_good; [auto | done | apply Hp ..].
  - apply close_good; [done | apply Hp ..].
  - unfold setOnMessage, update_entry. destruct (find_entry _ _) eqn:He; [| done]. by eapply update_good.
  - unfold setOnClose, update_entry. destruct (find_entry _ _) eqn:He; [| done]. by eapply update_good.
Qed.

Lemma run_code_good exc out c : forall w, good exc out w -> proper_code c -> dangling (state (snd (run_code c w))) = ∅ ->
  good exc out (snd (run_code c w)).
Proof.
  induction c as [r | message r | op k IH]; intros w G Hp Hd; cbn [run_code] in *.
  - by apply (state_good (upd_world r)).
  - by apply (state_good (upd_world r)).
  - destruct Hp as [Hop Hk]. pose proof (api_good _ _ op w G Hop) as Hapi. destruct (api op w) as [a w1]. cbn [snd] in *.
    apply IH; [| done | done]. apply Hapi. destruct (run_code_keeps (k a) w1). set_solver.
Qed.

(** ** R is called *)

Hypothesis proper_body : forall f args r, proper_code (body f args r).

(** A message R can read. *)
Definition readable (request : Message) : Prop := exists m, messageObject request = Ok m.

Lemma call_called f args what w : called (state (call (Some f) args what w)) = called (state w) ++ [(f, args)]
  /\ dangling (state w) ⊆ dangling (state (call (Some f) args what w)).
Proof.
  cbn [call]. set (w1 := on_state (fun s => upd_called (called s ++ [(f, args)]) s) w).
  destruct (run_code_keeps (body f args (r_world (state w1))) w1) as [H1 H2].
  destruct (run_code (body f args (r_world (state w1))) w1) as [[message|] w2]; cbn in *; rewrite H2; by split.
Qed.

Lemma call_good exc out f args what w : good exc out w -> dangling (state (call f args what w)) = ∅ -> good exc out (call f args what w).
Proof.
  intros G. destruct f as [f|]; [| done]. cbn [call]. set (w1 := on_state (fun s => upd_called (called s ++ [(f, args)]) s) w).
  assert (good exc out w1) as G1 by (by apply (state_good (fun s => upd_called (called s ++ [(f, args)]) s))).
  pose proof (run_code_good _ _ (body f args (r_world (state w1))) w1 G1 (proper_body _ _ _)) as H.
  destruct (run_code (body f args (r_world (state w1))) w1) as [[message|] w2]; cbn [snd] in H; intros Hd; [| by apply H].
  apply (state_good (fun s => upd_log _ s)); [by apply H | done ..].
Qed.

Lemma call_dangling f args what w : dangling (state w) ⊆ dangling (state (call f args what w)).
Proof. destruct f as [f|]; [apply call_called | done]. Qed.

Lemma on_message_good exc out id request w : good exc out w -> readable request -> dangling (state (on_message id request w)) = ∅ ->
  good exc out (on_message id request w).
Proof.
  intros G [m Hm]. unfold on_message. destruct (find_entry id w) as [e|]; [| done]. destruct (onMessage e) as [f|]; [| done].
  unfold with_messageObject. rewrite Hm. by apply call_good.
Qed.

Lemma on_message_dangling id request w : dangling (state w) ⊆ dangling (state (on_message id request w)).
Proof.
  unfold on_message. destruct (find_entry id w) as [e|]; [| done]. destruct (onMessage e) as [f|]; [| done].
  unfold with_messageObject. destruct (messageObject request); [apply call_dangling | done ..].
Qed.

Lemma on_close_good out id request w e : good [] out w -> find_entry id w = Some e -> readable request ->
  dangling (state (on_close id request w)) = ∅ -> good [(id, comm e)] out (on_close id request w).
Proof.
  intros G He [m Hm]. unfold on_close. rewrite He. destruct (erase_good _ _ _ _ _ G He) as [G1 Hout].
  destruct (onClose e) as [f|].
  - unfold with_messageObject. rewrite Hm. intros Hd. apply (closed_good _ _ _ (with_close None (with_message None e))); [| done].
    by apply call_good.
  - intros _. by apply (closed_good _ _ _ (with_close None (with_message None e))).
Qed.

Lemma on_close_dangling id request w : dangling (state w) ⊆ dangling (state (on_close id request w)).
Proof.
  unfold on_close. destruct (find_entry id w) as [e|]; [| done]. destruct (onClose e) as [f|]; [| done].
  unfold with_messageObject. destruct (messageObject request); [| done ..].
  exact (call_dangling (Some f) [ArgMessage a] "a comm close handler"%string (erase_entry id w)).
Qed.

Lemma on_open_good target local request w c : good [(m_id c, local)] {[local]} w -> heap w !! local = Some c -> readable request ->
  dangling (state (on_open target local request w)) = ∅ -> good [] {[local]} (on_open target local request w).
Proof.
  intros G Hl [m Hm]. unfold on_open. set (a := fresh_address w). assert (heap w !! a = None) as Ha by apply fresh_address_new.
  assert (a <> local) as Hne by congruence. rewrite <- (union_empty_r_L {[local]}) in G.
  pose proof (move_good [] ∅ w a local c G Ha Hl) as G1.
  destruct (keep_good [] ({[local]} ∪ ∅) (move_construct a local w) a (not_moved c) [] G1) as [G2 _].
  - set_solver.
  - unfold move_construct. rewrite Hl. apply lookup_insert_eq.
  - done.
  - unfold move_construct. rewrite Hl. apply lookup_insert_eq.
  - destruct (keep a [] (move_construct a local w)) as [id w2]. cbn [snd] in G2. rewrite union_empty_r_L in G2.
    destruct (map_get target _) as [f|]; [| done]. unfold with_messageObject. rewrite Hm. by apply call_good.
Qed.

Lemma on_open_dangling target local request w : dangling (state w) ⊆ dangling (state (on_open target local request w)).
Proof.
  unfold on_open. set (a := fresh_address w). set (w1 := move_construct a local w).
  assert (user w1 = user w) as Hu by (unfold w1, move_construct; by case_match).
  destruct (keep_keeps a [] w1) as [Hk _]. rewrite Hu in Hk. destruct (keep a [] w1) as [id w2]. cbn [snd] in Hk.
  destruct (map_get target _) as [f|]; [| done]. unfold with_messageObject.
  destruct (messageObject request); [| done ..]. etrans; [exact Hk | apply call_dangling].
Qed.

(** ** Any run of R's code and the frontend's messages *)
Inductive REvent :=
| Runs (c : RCode fn r_state)
| Opens (local : nat) (request : Message)
| Closes (request : Message)
| Messages (request : Message).

Definition event_of (e : REvent) : Event :=
  match e with
  | Runs c => UserCode (fun w => snd (run_code c w))
  | Opens local request => Comm.Open local request
  | Closes request => Comm.Close request
  | Messages request => Comm.Msg request
  end.

Definition happen (w : W) (e : REvent) : W := handle w (event_of e).

Definition possible (w : W) (e : REvent) : Prop :=
  match e with
  | Runs c => proper_code c
  | Opens local request => heap w !! local = None /\ readable request
  | Closes request | Messages request => readable request
  end.

Fixpoint possible_run (w : W) (es : Datatypes.list REvent) : Prop :=
  match es with [] => True | e :: rest => possible w e /\ possible_run (happen w e) rest end.

(** What a message to an id reaches. *)
Lemma good_registered w id a : good [] ∅ w -> m_comms w !! id = Some a -> exists e c, find_entry id w = Some e /\ comm e = a /\ heap w !! a = Some c
  /\ m_messageHandler c = Some (MessageOf id : @handler r_types) /\ m_closeHandler c = Some (CloseOf id : @handler r_types).
Proof.
  intros G Hid. destruct (g_registry _ _ _ G id a Hid) as [(e & He & <-) | H]; [| by apply elem_of_nil in H].
  destruct (g_open _ _ _ G id e He) as (c & Hc & _ & _ & Hm & Hcl). by exists e, c.
Qed.

Lemma reached w request id : good [] ∅ w -> string_at (content_of request) "comm_id"%string = Ok id ->
  commMsg request w = Throw (no_such_comm (to_guid id))
  \/ exists e, find_entry (to_guid id) w = Some e /\ commMsg request w = Ok (on_message (to_guid id) request w)
     /\ commClose request w = Ok (unregisterComm (to_guid id) (on_close (to_guid id) request w)).
Proof.
  intros G Hs. unfold commMsg, commClose. rewrite Hs. destruct (m_comms w !! to_guid id) as [a|] eqn:Ha; [right | by left].
  destruct (good_registered _ _ _ G Ha) as (e & c & He & Hca & Hc & Hm & Hcl). exists e. rewrite Hc, Hm, Hcl. done.
Qed.

Lemma commClose_unread w request : ~ (exists id, string_at (content_of request) "comm_id"%string = Ok id) ->
  handle w (Comm.Close request) = w /\ handle w (Comm.Msg request) = w.
Proof.
  intros H. cbn. unfold commClose, commMsg. destruct (string_at (content_of request) _) as [id| |]; [| done ..]. exfalso. apply H. by exists id.
Qed.

Lemma unregister_good id a w : good [(id, a)] ∅ w -> good [] ∅ (unregisterComm id w).
Proof.
  intros G. apply (forget_good [] id a); [| cbn; by rewrite lookup_delete_eq].
  apply (good_change _ _ w); try done.
  - destruct G as [[Sr St] _ _ _ _ _ _]. split; [| done]. cbn. intros i b. rewrite lookup_delete_Some. intros [_ H]. by apply Sr.
  - cbn. intros i b. by intros [_ H]%lookup_delete_Some.
Qed.

Lemma opened_good local request w : good [] ∅ w -> heap w !! local = None -> readable request ->
  dangling (state (handle w (Comm.Open local request))) = ∅ -> good [] ∅ (handle w (Comm.Open local request)).
Proof.
  intros G Hl Hr. cbn. unfold commOpen. destruct (string_at _ "target_name"%string) as [name| |]; [| done ..].
  destruct (m_targets w !! name) as [trg|] eqn:Ht.
  2: { intros _. apply (good_change _ _ w); try done. by destruct G as [[Sr St] _ _ _ _ _ _]. }
  destruct (string_at _ "comm_id"%string) as [id| |]; [| done ..]. rewrite destroy_user.
  set (w1 := construct false local name (to_guid id) w).
  assert (good [(to_guid id, local)] ({[local]} ∪ ∅) w1) as G1 by (apply construct_good; [done | done | by exists trg]).
  assert (good [] ∅ (Comm.destroy local w1)) as Hdrop by (by eapply (drop_good [] (to_guid id) ∅); [exact G1 | | apply lookup_insert_eq | ..]).
  intros Hd. destruct trg as [target | i | i]; [| exact Hdrop ..]. rewrite union_empty_r_L in G1.
  assert (good [] {[local]} (on_open target local request w1)) as G2 by (by eapply on_open_good; [| apply lookup_insert_eq | ..]).
  destruct (g_out _ _ _ G2 local) as (_ & H1 & H2); [by apply elem_of_singleton |].
  cbn [Comm.on_target r_comms]. clear Hd. generalize dependent (on_open target local request w1). intros w2 G2 H1 H2.
  apply (destroy_good local [] ∅ w2); [| exact H1 | apply not_elem_of_empty | exact H2]. apply (fewer_good [] local ∅). by rewrite union_empty_r_L.
Qed.

Lemma happen_good w e : good [] ∅ w -> possible w e -> dangling (state (happen w e)) = ∅ -> good [] ∅ (happen w e).
Proof.
  intros G. unfold happen. destruct e as [c | local request | request | request]; cbn [possible event_of].
  - intros Hp. by apply run_code_good.
  - intros [Hl Hr]. by apply opened_good.
  - intros Hr. cbn. destruct (string_at (content_of request) "comm_id"%string) as [id| |] eqn:Hs; [| by unfold commClose; rewrite Hs ..].
    destruct (m_comms w !! to_guid id) as [a|] eqn:Ha; [| by unfold commClose; rewrite Hs, Ha].
    destruct (good_registered _ _ _ G Ha) as (e & c & He & Hca & Hc & _ & Hcl). unfold commClose. rewrite Hs, Ha, Hc, Hcl.
    intros Hd. apply (unregister_good _ (comm e)). by apply on_close_good.
  - intros Hr. cbn. destruct (string_at (content_of request) "comm_id"%string) as [id| |] eqn:Hs; [| by unfold commMsg; rewrite Hs ..].
    destruct (reached _ _ _ G Hs) as [-> | (e & _ & -> & _)]; [done |]. by apply on_message_good.
Qed.

Lemma happen_dangling w e : dangling (state w) ⊆ dangling (state (happen w e)).
Proof.
  unfold happen. destruct e as [c | local request | request | request]; cbn [event_of handle].
  - apply run_code_keeps.
  - unfold commOpen. destruct (string_at _ "target_name"%string) as [name| |]; [| done ..]. destruct (m_targets w !! name) as [trg|]; [| done].
    destruct (string_at _ "comm_id"%string) as [id| |]; [| done ..]. rewrite destroy_user. destruct trg as [target | i | i]; [| done ..].
    exact (on_open_dangling target local request (construct false local name (to_guid id) w)).
  - unfold commClose. destruct (string_at _ _) as [id| |]; [| done ..]. destruct (m_comms w !! to_guid id) as [a|]; [| done].
    destruct (heap w !! a) as [c|]; [| done]. cbn. destruct (m_closeHandler c) as [[target | i | i]|]; cbn; try done;
      [apply on_message_dangling | apply on_close_dangling].
  - unfold commMsg. destruct (string_at _ _) as [id| |]; [| done ..]. destruct (m_comms w !! to_guid id) as [a|]; [| done].
    destruct (heap w !! a) as [c|]; [| done]. cbn. destruct (m_messageHandler c) as [[target | i | i]|]; cbn; try done;
      [apply on_message_dangling | apply on_close_dangling].
Qed.

Lemma run_good es : forall w, good [] ∅ w -> possible_run w es -> dangling (state (fold_left happen es w)) = ∅ ->
  good [] ∅ (fold_left happen es w).
Proof.
  assert (forall es w, dangling (state w) ⊆ dangling (state (fold_left happen es w))) as Hd.
  { clear. induction es as [|e es IH]; intros w; cbn [fold_left]; [done |]. etrans; [apply happen_dangling | apply IH]. }
  induction es as [|e es IH]; intros w G; cbn [fold_left possible_run]; [done |]. intros [Hp Hr] Hf. apply IH; [| done | done].
  apply happen_good; [done | done |]. specialize (Hd es (happen w e)). set_solver.
Qed.

(** The kernel has started: no comm, no target. *)
Definition started (r : r_state) : W :=
  {| heap := ∅; m_comms := ∅; m_targets := ∅; sent := [];
     user := {| openComms := []; closedComms := []; targetCallbacks := []; r_world := r; guids := 0; log := []; called := [];
                dangling := ∅; undefined := false; jumped := false |} : @user_state r_types |}.

Lemma started_good r : good [] ∅ (started r).
Proof.
  split; cbn; try done.
  intros e He. by apply elem_of_nil in He.
Qed.


Lemma keep_callbacks a d w : targetCallbacks (state (snd (keep a d w))) = targetCallbacks (state w).
Proof.
  unfold keep. cbn [snd]. match goal with |- context [set_entry ?i ?e ?v] => set (w1 := v); assert (user w1 = user w) as Hu end.
  { unfold w1, Comm.onClose, Comm.onMessage. by repeat case_match. }
  rewrite <- Hu. clearbody w1. unfold set_entry. destruct (find_entry _ w1) as [old|]; [| done].
  unfold destroy_comm. rewrite destroy_user. unfold follow. by destruct (decide _).
Qed.

Lemma keep_id a d w : fst (keep a d w) = match heap w !! a with Some c => m_id c | None => [] end.
Proof. done. Qed.

Lemma on_open_called target local request w c f m : heap w !! local = Some c -> messageObject request = Ok m ->
  map_get target (targetCallbacks (state w)) = Some (Some f) ->
  called (state (on_open target local request w)) = called (state w) ++ [(f, [ArgComm (m_id c); ArgMessage m])].
Proof.
  intros Hl Hm Hf. unfold on_open. set (a := fresh_address w). set (w1 := move_construct a local w).
  assert (user w1 = user w) as Hu by (unfold w1, move_construct; by rewrite Hl).
  assert (heap w1 !! a = Some (not_moved c)) as Ha by (unfold w1, move_construct; rewrite Hl; apply lookup_insert_eq).
  destruct (keep_keeps a [] w1) as [_ Hk]. pose proof (keep_callbacks a [] w1) as Hc. pose proof (keep_id a [] w1) as Hi.
  rewrite Ha in Hi. rewrite Hu in Hk, Hc. destruct (keep a [] w1) as [id w2]. cbn [fst snd] in *. rewrite Hc, Hf.
  unfold with_messageObject. rewrite Hm. destruct (call_called f [ArgComm id; ArgMessage m] ("the callback of comm target '"%string ++ target ++ "'"%string) w2) as [-> _].
  by rewrite Hk, Hi.
Qed.

(** An entry's functions were set: a message to its id finds the new ones. *)
Lemma updated f w id e request i : good [] ∅ w -> find_entry id w = Some e -> comm (f e) = comm e ->
  string_at (content_of request) "comm_id"%string = Ok i -> to_guid i = id -> is_Some (m_comms w !! id) ->
  let w1 := on_state (fun s => upd_open (map_set id (f e) (openComms s)) s) w in
  find_entry id w1 = Some (f e) /\ commMsg request w1 = Ok (on_message id request w1)
  /\ commClose request w1 = Ok (unregisterComm id (on_close id request w1)).
Proof.
  intros G He Hc Hi <- [a Ha] w1. assert (good [] ∅ w1) as G1 by (by eapply update_good).
  split; [unfold find_entry, w1, on_state; cbn [user set_user openComms upd_open]; by rewrite map_get_set, str_eqb_refl |].
  destruct (reached w1 request i G1 Hi) as [H | (e1 & _ & -> & ->)]; [| done].
  unfold commMsg in H. rewrite Hi in H. change (m_comms w1) with (m_comms w) in H. rewrite Ha in H. by destruct (heap w1 !! a).
Qed.

(** R's functions are called.  Right after R registers a target, a comm_open
    of it calls that function with the new comm's id and the message; right
    after R sets an open comm's message or close handler, a comm_msg or comm_close
    calls the handler with the message, once, and nothing else; and a closed comm
    is refused from then on. *)
Theorem r_handlers_called es r request m f : possible_run (started r) es -> let w := fold_left happen es (started r) in
  dangling (state w) = ∅ -> messageObject request = Ok m ->
  let calls w w' args := called (state w') = called (state w) ++ [(f, args)] in
  (forall t local name id, string_at (content_of request) "target_name"%string = Ok name ->
     string_at (content_of request) "comm_id"%string = Ok id -> name = text t ->
     let w1 := snd (registerTarget t (Some f) w) in
     exists w', commOpen false local request w1 = Ok w' /\ calls w1 w' [ArgComm (to_guid id); ArgMessage m])
  /\ forall x id, string_at (content_of request) "comm_id"%string = Ok id -> to_guid id = text x -> is_Some (m_comms w !! text x) ->
     (let (answer, w1) := setOnMessage x (Some f) w in
      answer = ALogical true /\ exists w', commMsg request w1 = Ok w' /\ calls w1 w' [ArgMessage m])
     /\ (let (answer, w1) := setOnClose x (Some f) w in
         answer = ALogical true /\ exists w', commClose request w1 = Ok w' /\ calls w1 w' [ArgMessage m]
           /\ commMsg request w' = Throw (no_such_comm (text x))).
Proof.
  intros Hp w Hd Hm calls. pose proof (run_good es (started r) (started_good r) Hp Hd) as G. fold w in G. clearbody w. split.
  - intros t local name id Hn Hi -> w1. unfold commOpen. rewrite Hn, Hi. unfold w1, registerTarget. cbn [snd m_targets registerCommTarget set_targets].
    rewrite lookup_insert_eq. eexists. split; [reflexivity |]. unfold calls. rewrite destroy_user.
    cbn [Comm.on_target r_comms]. etrans; [eapply (on_open_called _ _ _ _ _ f m); [apply lookup_insert_eq | exact Hm |] | done].
    cbn [user construct registerComm registerCommTarget set_comms set_heap set_targets on_state set_user targetCallbacks upd_targets].
    by rewrite map_get_set, str_eqb_refl.
  - intros x id Hi Hx [a Ha]. destruct (good_registered _ _ _ G Ha) as (e & c & He & _).
    unfold setOnMessage, setOnClose, update_entry. rewrite He. split; (split; [done |]).
    + destruct (updated (with_message (Some f)) w (text x) e request id G He eq_refl Hi Hx) as (Hf & -> & _); [by exists a |].
      eexists. split; [reflexivity |]. unfold on_message. rewrite Hf. cbn [onMessage with_message].
      unfold with_messageObject. rewrite Hm. apply call_called.
    + destruct (updated (with_close (Some f)) w (text x) e request id G He eq_refl Hi Hx) as (Hf & _ & ->); [by exists a |].
      eexists. split; [reflexivity |]. split; [| unfold commMsg; rewrite Hi, Hx; cbn; by rewrite lookup_delete_eq].
      unfold on_close. rewrite Hf. cbn [onClose with_close].
      unfold with_messageObject. rewrite Hm.
      match goal with |- context [erase_entry (text x) ?v] => exact (proj1 (call_called f [ArgMessage m] "a comm close handler"%string (erase_entry (text x) v))) end.
Qed.
End RComms.

(** ** The hypotheses can hold *)
Module Toy.

Abbreviation cjson := (json (JsonLib := Concrete.concrete)).

Fixpoint basic (j : Concrete.J) : basic_json :=
  match j with
  | Concrete.Null => Null
  | Concrete.Discarded => Discarded
  | Concrete.Bool b => Boolean b
  | Concrete.Int z => Number_integer z
  | Concrete.Str s => String s
  | Concrete.Arr l => Array (List.map basic l)
  | Concrete.Obj m => Object (List.map (fun kv => (fst kv, basic (snd kv))) m)
  end.

Definition embed (j : basic_json) : cjson :=
  match j with String s => mk_str s | Boolean b => mk_bool b | _ => null end.

Definition chars (s : str) : sexp := scalar (STRSXP [Some s]).

(** Function 0 is a target's: it sets the handlers of the comm it is given, 1
    and 2, and remembers it; 1 answers on it, 2 fails. *)
Definition body (f : nat) (args : Datatypes.list rarg) (r : str) : RCode nat str :=
  match f, args with
  | 0%nat, [ArgComm id; _] =>
      Calls (SetOnMessage (chars id) (Some 1%nat)) (fun _ => Calls (SetOnClose (chars id) (Some 2%nat)) (fun _ => Finished id))
  | 1%nat, _ => Calls (SendComm (chars r) (scalar (LGLSXP [1])) R_NilValue R_NilValue) (fun _ => Finished r)
  | _, _ => Failed "no more"%string r
  end.

Definition guid (n : nat) : str := "g"%string ++ replicate n "+"%char.
Definition parse (_ : str) : basic_json := Null.
Definition dump (_ : basic_json) : str := [].

Lemma body_proper f args r : proper_code parse (body f args r).
Proof. destruct f as [|[|f]], args as [|[] [|? []]]; repeat split; done. Qed.

Abbreviation W := (World (J := Concrete.concrete) (CT := r_types (fn := nat) (r_state := str))).
Abbreviation happens flag := (happen (J := Concrete.concrete) basic embed parse dump body flag guid).
Abbreviation code flag := (r_comms (J := Concrete.concrete) basic embed parse dump body flag guid).
Abbreviation start := (started (J := Concrete.concrete) (fn := nat) (r_state := str) []).

Definition message (target id : str) : Message (J := Concrete.concrete) :=
  {| identities := []; base := makeMessageBase null null null
       (mk_object [("target_name"%string : str, mk_str target); ("comm_id"%string : str, mk_str id)]) [["b"%char]] |}.

Definition plot : Message (J := Concrete.concrete) := message "plot"%string "1"%string.

Definition registers : REvent (J := Concrete.concrete) (fn := nat) (r_state := str) :=
  Runs (Calls (RegisterTarget (chars "plot"%string) (Some 0%nat)) (fun _ => Finished [])).

(** What R code does alone. *)
Definition does (ops : Datatypes.list (ROp nat)) : REvent (J := Concrete.concrete) (fn := nat) (r_state := str) :=
  Runs (fold_right (fun op c => Calls op (fun _ => c)) (Finished []) ops).

Definition run : Datatypes.list (REvent (J := Concrete.concrete) (fn := nat) (r_state := str)) :=
  [registers; Opens 0%nat plot; Messages plot; Closes plot; does [ListComms]].

Lemma plot_readable : readable (J := Concrete.concrete) basic dump plot.
Proof. eexists. vm_compute. reflexivity. Qed.

Lemma run_possible : possible_run (J := Concrete.concrete) basic embed parse dump body false guid start run.
Proof.
  split; [repeat split |]. split; [split; [vm_compute; reflexivity | exact plot_readable] |].
  split; [exact plot_readable |]. split; [exact plot_readable |]. by repeat split.
Qed.

Lemma run_dangling : dangling (user (fold_left (happens false) run start)) = ∅.
Proof. vm_compute. reflexivity. Qed.


Lemma opened_possible : possible_run (J := Concrete.concrete) basic embed parse dump body false guid start [registers; Opens 0%nat plot].
Proof. split; [repeat split |]. split; [split; [vm_compute; reflexivity | exact plot_readable] | done]. Qed.

Lemma opened_dangling : dangling (user (fold_left (happens false) [registers; Opens 0%nat plot] start)) = ∅.
Proof. vm_compute. reflexivity. Qed.

Lemma opened_registered : is_Some (m_comms (fold_left (happens false) [registers; Opens 0%nat plot] start) !! ("1"%string : str)).
Proof. vm_compute. by eexists. Qed.

Definition seen : sexp := match messageObject (J := Concrete.concrete) basic dump plot with Ok m => m | _ => R_NilValue end.

Lemma plot_seen : messageObject (J := Concrete.concrete) basic dump plot = Ok seen.
Proof. vm_compute. reflexivity. Qed.

(** The comm is open: function 1 hears of the next message. *)
Lemma r_handlers_called_witness :
  let w := fold_left (happens false) [registers; Opens 0%nat plot] start in
  let (answer, w1) := setOnMessage (J := Concrete.concrete) (chars "1"%string) (Some 1%nat) w in
  answer = ALogical true
  /\ exists w', commMsg (U := code false) plot w1 = Ok w'
     /\ called (user w') = called (user w1) ++ [(1%nat, [ArgMessage seen])].
Proof.
  destruct (r_handlers_called (J := Concrete.concrete) basic embed parse dump body false guid eq_refl body_proper
    [registers; Opens 0%nat plot] [] plot seen 1%nat opened_possible opened_dangling plot_seen) as [_ H].
  destruct (H (chars "1"%string) "1"%string) as [H1 _]; [reflexivity | reflexivity | exact opened_registered | exact H1].
Defined.

(** A target is unregistered while a comm points to it: the comm's next message
    follows a destroyed target. *)
Example unregistered_target_dangles :
  undefined (user (fold_left (happens false)
    [registers; Opens 0%nat plot; does [UnregisterTarget (chars "plot"%string); SendComm (chars "1"%string) R_NilValue R_NilValue R_NilValue]] start)) = true.
Proof. vm_compute. reflexivity. Qed.

(** A comm is opened with the id of one that is open, or that was closed and is
    not yet destroyed: the old one, destroyed, takes the id with it; the comm is
    open for R, and the frontend's messages to it are refused. *)
Definition deaf (w : W) : bool :=
  match find_entry (J := Concrete.concrete) ("1"%string : str) w, m_comms w !! ("1"%string : str) with Some _, None => true | _, _ => false end.

Example opened_twice_is_deaf :
  deaf (fold_left (happens false) [registers; Opens 0%nat plot; Opens 0%nat plot] start) = true
  /\ deaf (fold_left (happens false) [registers; Opens 0%nat plot; Closes plot; Opens 0%nat plot] start) = false
  /\ deaf (fold_left (happens false) [registers; Opens 0%nat plot; Closes plot; Opens 0%nat plot; does [ListComms]] start) = true.
Proof. repeat split; vm_compute; reflexivity. Qed.

(** The flag a comm made by R is not given: if it is true, the closed comm stays
    registered, and a message to it is a use after free. *)
Example made_comm_dangles :
  let w flag := fold_left (happens flag) [registers; does [NewComm (chars "plot"%string) (chars []); CloseComm (chars (guid 0)) R_NilValue R_NilValue R_NilValue]] start in
  commMsg (U := code true) (message "plot"%string (guid 0)) (w true) = Undefined
  /\ commMsg (U := code false) (message "plot"%string (guid 0)) (w false) = Throw (no_such_comm (guid 0)).
Proof. split; vm_compute; reflexivity. Qed.

(** A zero character in a string of the message: R refuses it, by a jump out of
    this code. *)
Example zero_jumps_out :
  jumped (user (fold_left (happens false)
    [registers; Opens 0%nat plot; Messages (message ["p"%char; nul] "1"%string)] start)) = true.
Proof. vm_compute. reflexivity. Qed.

End Toy.
