(* ===== verification/Kernel.v ===== *)
(** * The kernel: core/kernel/kernel_core.cpp and the replies of utils/helper.cpp

    [KernelCore] receives a request, publishes that it is busy, runs its
    handler, replies, and publishes that it is idle.  A handler is a computation
    of the monad [M]: it changes the kernel's state, may throw, and everything
    it asks of the server is recorded in [trace], in order.  The language is an
    interface ([Language]): each of its functions is the calls it makes of the
    interpreter's base (Interpreter.v) and its result.  What is logged of a
    message is in Facade.v. *)

From Stdlib Require Import Ascii ZArith Lia.
From S2P Require Import Prelude StataCode Json Wire Interpreter Comm.
Local Open Scope Z_scope.

(** ** Replies (helper.cpp) *)
Section Replies.
Context `{J : JsonLib}.

Definition createErrorReply (ename evalue : str) (trace_back : json) : json :=
  with_keys null [("status"%string : str, mk_str "error"%string); ("ename"%string : str, mk_str ename);
                  ("evalue"%string : str, mk_str evalue); ("traceback"%string : str, trace_back)].

Definition createSuccessfulReply (payload user_expressions : json) : json :=
  with_keys null [("status"%string : str, mk_str "ok"%string); ("payload"%string : str, payload);
                  ("user_expressions"%string : str, user_expressions)].

Definition createCompleteReply (matches_ : json) (cursor_start cursor_end : Z) (metadata : json) : json :=
  with_keys null [("status"%string : str, mk_str "ok"%string); ("matches"%string : str, matches_);
                  ("cursor_start"%string : str, mk_int cursor_start); ("cursor_end"%string : str, mk_int cursor_end);
                  ("metadata"%string : str, metadata)].

Definition createInspectReply (found : bool) (data metadata : json) : json :=
  with_keys null [("status"%string : str, mk_str "ok"%string); ("found"%string : str, mk_bool found);
                  ("data"%string : str, data); ("metadata"%string : str, metadata)].

Definition createIsCompleteReply (status indent : str) : json :=
  with_keys null [("status"%string : str, mk_str status); ("indent"%string : str, mk_str indent)].

(** [language_codemirror_mode] is a string or an object: the json it becomes. *)
Definition createInfoReply (implementation implementation_version language_name language_version language_mimetype
    language_file_extension language_pygments_lexer : str) (language_codemirror_mode : json)
    (language_nbconvert_exporter banner : str) (help_links : json) (supported_features : list str) : json :=
  with_keys null
    [("status"%string : str, mk_str "ok"%string); ("implementation"%string : str, mk_str implementation);
     ("implementation_version"%string : str, mk_str implementation_version);
     ("language_info"%string : str,
      with_keys null
        [("name"%string : str, mk_str language_name); ("version"%string : str, mk_str language_version);
         ("mimetype"%string : str, mk_str language_mimetype); ("file_extension"%string : str, mk_str language_file_extension);
         ("pygments_lexer"%string : str, mk_str language_pygments_lexer);
         ("codemirror_mode"%string : str, language_codemirror_mode);
         ("nbconvert_exporter"%string : str, mk_str language_nbconvert_exporter)]);
     ("banner"%string : str, mk_str banner); ("help_links"%string : str, help_links);
     ("supported_features"%string : str, mk_array (mk_str <$> supported_features))].

Definition createShutdownReply (restart : bool) : json :=
  with_keys null [("status"%string : str, mk_str "ok"%string); ("restart"%string : str, mk_bool restart)].

Definition createInterruptReply : json := with_keys null [("status"%string : str, mk_str "ok"%string)].

End Replies.

(** [extractFilename]: the argument after "-f", and the arguments without both. *)
Fixpoint extractFilename (argv : list str) : str * list str :=
  match argv with
  | [] => ([], [])
  | a :: rest =>
      match rest with
      | f :: rest' =>
          if str_eqb a "-f"%string then (f, rest')
          else let (res, others) := extractFilename rest in (res, a :: others)
      | [] => ([], [a])
      end
  end.

Definition shouldPrintVersion (argv : list str) : bool := existsb (fun a => str_eqb a "--version"%string) argv.

Section Kernel.
Context `{J : JsonLib}.

Inductive channel := SHELL | CONTROL.

Definition of_channel (c : channel) (shell control : str) : str := match c with SHELL => shell | CONTROL => control end.

(** What is asked of the server (and of the history).  A header is the message
    type it is made with: [makeHeader] adds the user, the session, an id and
    the date. *)
Inductive Action :=
| Publish (topic msg_type : str) (parent_header metadata content : json) (buffers : list str) (c : channel)
| SendReply (ids : list str) (reply_type : str) (parent_header metadata content : json) (c : channel)
| SendStdin (ids : list str) (msg_type : str) (parent_header metadata content : json)
| BeginExecution
| EndExecution
| StoreInputs (session line : Z) (input : str)
| StopServer.

(** ** What the kernel is built on *)

(** One step of a language running a cell. *)
Inductive Step :=
| DoCall (c : Call)
| Reply (reply : json) (now : Z).

(** The language's functions: the calls they make, then a result or an
    exception.  [executeRequestImpl] calls the reply callback at most in its
    steps; a language with its own loop may return first and reply later. *)
Class Language := {
  lstate : Type;
  executeRequestImpl : Z -> str -> ExecuteRequestConfig -> json -> lstate -> list Step * option str * lstate;
  completeRequestImpl : str -> Z -> lstate -> list Call * result json * lstate;
  inspectRequestImpl : str -> Z -> Z -> lstate -> list Call * result json * lstate;
  isCompleteRequestImpl : str -> lstate -> list Call * result json * lstate;
  kernelInfoRequestImpl : lstate -> list Call * result json * lstate;
  shutdownRequestImpl : bool -> lstate -> list Call * result json * lstate;
  interruptRequestImpl : lstate -> list Call * result json * lstate;
  debugRequestImpl_ : json -> lstate -> list Call * result json * lstate;
  inputReply : str -> lstate -> result lstate
}.

(** The history manager the kernel was given. *)
Class HistoryManager := {
  hstate : Type;
  processRequest : json -> hstate -> result json;
  storeInputs : Z -> Z -> str -> hstate -> hstate
}.

Context `{Lang : !Language} `{Hist : !HistoryManager} `{CT : CommTypes} `{U : !CommUser}.
Context (env_ms env_bytes : option str) (m_kernelId : str).

(** The value of an uninitialised flag, and the address of a local variable. *)
Context (uninitialised : bool) (local : nat).

(** An execution whose reply is awaited: what its callback captured. *)
Record Closure := {
  cl_context : RequestContext;
  cl_config : ExecuteRequestConfig;
  cl_stop_on_error : bool;
  cl_code : str;
  cl_count : Z;
  cl_ended : nat
}.

Record Kernel := {
  trace : list Action;
  interp : Interpreter;
  lang : lstate;
  comms : World;
  history : hstate;
  (** the requests waiting behind the one that runs, and whether the server
      reads them from the socket only now *)
  queue : list (Message * bool);
  (** the [executionEnded] flags of the executions so far *)
  ended : list bool;
  awaiting : list Closure;
  iso_now : str
}.

Definition upd_trace t k := Build_Kernel t (interp k) (lang k) (comms k) (history k) (queue k) (ended k) (awaiting k) (iso_now k).
Definition upd_interp i k := Build_Kernel (trace k) i (lang k) (comms k) (history k) (queue k) (ended k) (awaiting k) (iso_now k).
Definition upd_lang l k := Build_Kernel (trace k) (interp k) l (comms k) (history k) (queue k) (ended k) (awaiting k) (iso_now k).
Definition upd_comms w k := Build_Kernel (trace k) (interp k) (lang k) w (history k) (queue k) (ended k) (awaiting k) (iso_now k).
Definition upd_history h k := Build_Kernel (trace k) (interp k) (lang k) (comms k) h (queue k) (ended k) (awaiting k) (iso_now k).
Definition upd_queue q k := Build_Kernel (trace k) (interp k) (lang k) (comms k) (history k) q (ended k) (awaiting k) (iso_now k).
Definition upd_ended e k := Build_Kernel (trace k) (interp k) (lang k) (comms k) (history k) (queue k) e (awaiting k) (iso_now k).
Definition upd_awaiting a k := Build_Kernel (trace k) (interp k) (lang k) (comms k) (history k) (queue k) (ended k) a (iso_now k).

(** ** The monad *)
Definition M (A : Type) : Type := Kernel -> result A * Kernel.
Definition ret {A} (a : A) : M A := fun k => (Ok a, k).
Definition bind {A B} (m : M A) (f : A -> M B) : M B :=
  fun k => match m k with
           | (Ok a, k) => f a k
           | (Throw w, k) => (Throw w, k)
           | (Undefined, k) => (Undefined, k)
           end.
Definition lift {A} (r : result A) : M A := fun k => (r, k).
Definition modify (f : Kernel -> Kernel) : M unit := fun k => (Ok tt, f k).
Definition emit (a : Action) : M unit := modify (fun k => upd_trace (trace k ++ [a]) k).
(** [try { m } catch (std::exception& e) { handler(e) }] *)
Definition try_catch (m : M unit) (handler : str -> M unit) : M unit :=
  fun k => match m k with (Throw w, k) => handler w k | r => r end.

Notation "'do' x <- m ; f" := (bind m (fun x => f)) (at level 200, x pattern, m at level 100, f at level 200).
Notation "m ;; f" := (bind m (fun _ => f)) (at level 100, f at level 200, right associativity) : jovian_scope.
Local Open Scope jovian_scope.

(** ** Sending *)
Definition getTopic (msg_type : str) : str := "kernel_core."%string ++ m_kernelId ++ "."%string ++ msg_type.

Definition publishMessage (msg_type : str) (parent_header metadata content : json) (buffers : list str) (c : channel) : M unit :=
  emit (Publish (getTopic msg_type) msg_type parent_header metadata content buffers c).

Definition sendReply (ids : list str) (reply_type : str) (parent_header metadata content : json) (c : channel) : M unit :=
  emit (SendReply ids reply_type parent_header metadata content c).

Definition sendStdin (msg_type : str) (ids : list str) (parent_header metadata content : json) : M unit :=
  emit (SendStdin ids msg_type parent_header metadata content).

Definition publishStatus (parent_header : json) (status : str) (c : channel) : M unit :=
  publishMessage "status"%string parent_header empty_object
    (with_keys null [("execution_state"%string : str, mk_str status)]) [] c.

Definition getMetadata (k : Kernel) : json := with_keys null [("started"%string : str, mk_str (iso_now k))].

(** The publisher and the stdin sender the constructor registers. *)
Definition publisher_action (p : Publication) : Action :=
  Publish (getTopic (p_type p)) (p_type p) (ctx_header (p_context p)) (p_metadata p) (p_content p) [] SHELL.
Definition stdin_action (p : Publication) : Action :=
  SendStdin (ctx_id (p_context p)) (p_type p) (ctx_header (p_context p)) (p_metadata p) (p_content p).

(** The interpreter goes to [i]: what it published and asked since goes out. *)
Definition advance (i : Interpreter) : M unit :=
  fun k =>
    let old := interp k in
    (Ok tt, upd_interp i (upd_trace (trace k ++ (publisher_action <$> drop (length (published old)) (published i))
                                            ++ (stdin_action <$> drop (length (asked old)) (asked i))) k)).

Definition call (c : Call) : M unit := fun k => advance (run env_ms env_bytes (interp k) c) k.

Fixpoint calls (cs : list Call) : M unit :=
  match cs with [] => ret tt | c :: rest => (call c ;; calls rest) end.

(** A function of the language that answers a request. *)
Definition ask_language (f : lstate -> list Call * result json * lstate) : M json :=
  fun k =>
    let '(cs, r, l) := f (lang k) in
    (calls cs ;; (modify (upd_lang l) ;; lift r)) k.

(** ** Handlers *)

(** [msg_type.replace(msg_type.find_last_of('_'), 8, "_reply")] *)
Definition aborted_type (msg_type : str) : result str :=
  let tail := after_last "_"%char msg_type in
  if (length tail =? length msg_type)%nat then Throw "basic_string::replace: __pos > this->size()"%string
  else let pos := (length msg_type - length tail - 1)%nat in
       Ok (take pos msg_type ++ "_reply"%string ++ drop (pos + 8) msg_type).

Definition abortRequest (msg : Message) : M unit :=
  do msg_type <- lift (value get_str (header_of msg) "msg_type"%string []);
  do reply_type <- lift (aborted_type msg_type);
  sendReply (identities msg) reply_type (header_of msg) empty_object
    (with_keys null [("status"%string : str, mk_str "aborted"%string)]) SHELL.

(** [p_server->abortQueue]: each waiting request in turn; one whose abort throws
    is not put back, and the exception is caught for those read from the socket
    only. *)
Fixpoint abort_all (msgs : list (Message * bool)) : M unit :=
  match msgs with
  | [] => ret tt
  | (m, from_socket) :: rest =>
      (modify (upd_queue rest) ;;
       ((if from_socket : bool then try_catch (abortRequest m) (fun _ => ret tt) else abortRequest m) ;; abort_all rest))
  end.

Definition abortQueue : M unit := fun k => abort_all (queue k) k.

(** The callback an execution is given, with what it captured. *)
Definition reply_callback (cl : Closure) (reply : json) : M unit :=
  fun k =>
    ((if nth (cl_ended cl) (ended k) true then ret tt
      else (modify (fun k => upd_ended (<[cl_ended cl := true]> (ended k)) k) ;; emit EndExecution)) ;;
     (do execution_count <- lift (value get_int reply "execution_count"%string 1);
      do status <- lift (value get_str reply "status"%string "error"%string);
      ((if negb (silent (cl_config cl)) && str_eqb status "error"%string && cl_stop_on_error cl
        then abortQueue else ret tt) ;;
       (sendReply (ctx_id (cl_context cl)) "execute_reply"%string (ctx_header (cl_context cl)) (getMetadata k) reply SHELL ;;
        ((if negb (silent (cl_config cl)) && store_history (cl_config cl)
          then (emit (StoreInputs 0 execution_count (cl_code cl)) ;;
                modify (fun k => upd_history (storeInputs 0 execution_count (cl_code cl) (history k)) k))
          else ret tt) ;;
         publishStatus (ctx_header (cl_context cl)) "idle"%string SHELL))))) k.

(** [callback_impl] of the interpreter, then the kernel's. *)
Definition language_replies (cl : Closure) (reply : json) (now : Z) : M unit :=
  fun k =>
    let (reply, i) := callback_impl (cl_count cl) reply now (interp k) in
    (advance i ;; (do reply <- lift reply; reply_callback cl reply)) k.

Fixpoint steps (cl : Closure) (ss : list Step) : M unit :=
  match ss with
  | [] => ret tt
  | DoCall c :: rest => (call c ;; steps cl rest)
  | Reply reply now :: rest => (language_replies cl reply now ;; steps cl rest)
  end.

Definition raise (exn : option str) : M unit := match exn with Some w => lift (Throw w) | None => ret tt end.

Definition executeRequest (request : Message) (_ : channel) : M unit :=
  let content := content_of request in
  do code <- lift (value get_str content "code"%string []);
  do silent_ <- lift (value get_bool content "silent"%string false);
  do store <- lift (value get_bool content "store_history"%string true);
  do user_expression <- lift (value any content "user_expressions"%string empty_object);
  do allow <- lift (value get_bool content "allow_stdin"%string true);
  do stop_on_error <- lift (value get_bool content "stop_on_error"%string false);
  let ctx := {| ctx_id := identities request; ctx_header := header_of request |} in
  let config := {| silent := silent_; store_history := store && negb silent_; allow_stdin := allow |} in
  (emit BeginExecution ;;
   fun k =>
     let flag := length (ended k) in
     (modify (fun k => upd_ended (ended k ++ [false]) k) ;;
      (advance (Interpreter.executeRequest ctx code config (interp k)) ;;
       fun k =>
         let cl := {| cl_context := ctx; cl_config := config; cl_stop_on_error := stop_on_error; cl_code := code;
                      cl_count := m_executionCount (interp k); cl_ended := flag |} in
         let '(ss, exn, l) := executeRequestImpl (m_executionCount (interp k)) code config user_expression (lang k) in
         (modify (upd_lang l) ;;
          (modify (fun k => upd_awaiting (awaiting k ++ [cl]) k) ;;
           try_catch (steps cl ss ;; raise exn)
             (fun what => reply_callback cl (createErrorReply "InternalError"%string what (mk_array []))))) k)) k).

(** A language with its own loop replies to the execution [cl] later. *)
Definition late_reply (cl : Closure) (reply : json) (now : Z) : M unit := language_replies cl reply now.

Definition completeRequest (request : Message) (c : channel) : M unit :=
  let content := content_of request in
  do code <- lift (value get_str content "code"%string []);
  do cursor_pos <- lift (value get_int content "cursor_pos"%string (-1));
  do reply <- ask_language (completeRequestImpl code cursor_pos);
  sendReply (identities request) "complete_reply"%string (header_of request) empty_object reply c.

Definition inspectRequest (request : Message) (c : channel) : M unit :=
  let content := content_of request in
  do code <- lift (value get_str content "code"%string []);
  do cursor_pos <- lift (value get_int content "cursor_pos"%string (-1));
  do detail_level <- lift (value get_int content "detail_level"%string 0);
  do reply <- ask_language (inspectRequestImpl code cursor_pos detail_level);
  sendReply (identities request) "inspect_reply"%string (header_of request) empty_object reply c.

Definition historyRequest (request : Message) (c : channel) : M unit :=
  do history <- (fun k => lift (processRequest (content_of request) (history k)) k);
  sendReply (identities request) "history_reply"%string (header_of request) empty_object history c.

Definition isCompleteRequest (request : Message) (c : channel) : M unit :=
  let content := content_of request in
  do code <- lift (value get_str content "code"%string []);
  do reply <- ask_language (isCompleteRequestImpl code);
  sendReply (identities request) "is_complete_reply"%string (header_of request) empty_object reply c.

(** The registered comms of a target, or all: a registered pointer is followed
    to its comm's target. *)
Fixpoint comm_infos (target_name : str) (registered : list (str * nat)) (w : World) (infos : json) : result json :=
  match registered with
  | [] => Ok infos
  | (id, a) :: rest =>
      match heap w !! a with
      | None => Undefined
      | Some c =>
          let name := p_target c in
          comm_infos target_name rest w
            (if bool_decide (target_name = []) || str_eqb name target_name
             then insert_key infos id (with_keys null [("target_name"%string : str, mk_str name)]) else infos)
      end
  end.

Definition commInfoRequest (request : Message) (c : channel) : M unit :=
  let content := content_of request in
  do target_name <- lift (if negb (is_null content) && contains_key content "target_name"%string
                          then match find content "target_name"%string with
                               | Some v => if is_null v then Ok [] else get get_str v
                               | None => Ok []
                               end
                          else Ok []);
  do infos <- (fun k => lift (comm_infos target_name (map_to_list (m_comms (comms k))) (comms k) empty_object) k);
  sendReply (identities request) "comm_info_reply"%string (header_of request) empty_object
    (with_keys null [("comms"%string : str, infos); ("status"%string : str, mk_str "ok"%string)]) c.

Definition kernelInfoRequest (request : Message) (c : channel) : M unit :=
  do reply <- ask_language kernelInfoRequestImpl;
  do reply <- lift (set_key reply "protocol_version"%string (mk_str getProtocolVersion));
  sendReply (identities request) "kernel_info_reply"%string (header_of request) empty_object reply c.

(** [std::string s = reply["status"]] on a json that is not const: a missing
    member is added, null. *)
Definition status_of (reply : json) : result str :=
  if is_object reply || is_null reply
  then match find reply "status"%string with Some v => get get_str v | None => Throw type_error_302 end
  else Throw type_error_305.

Definition shutdownRequest (request : Message) (c : channel) : M unit :=
  do restart <- lift (value get_bool (content_of request) "restart"%string false);
  do reply <- ask_language (shutdownRequestImpl restart);
  do reply_status <- lift (status_of reply);
  (publishMessage "shutdown"%string (header_of request) empty_object reply [] CONTROL ;;
   (sendReply (identities request) "shutdown_reply"%string (header_of request) empty_object reply c ;;
    (if str_eqb reply_status "ok"%string then emit StopServer else ret tt))).

Definition interruptRequest (request : Message) (c : channel) : M unit :=
  do reply <- ask_language interruptRequestImpl;
  do reply_status <- lift (status_of reply);
  (publishMessage "interrupt"%string (header_of request) empty_object reply [] CONTROL ;;
   sendReply (identities request) "interrupt_reply"%string (header_of request) empty_object reply c).

Definition debugRequest (request : Message) (c : channel) : M unit :=
  do reply <- ask_language (debugRequestImpl_ (content_of request));
  sendReply (identities request) "debug_reply"%string (header_of request) empty_object reply c.

(** The comm manager's handlers: what they publish goes out. *)
Definition comm_action (k : Kernel) (p : CommPublication) : Action :=
  Publish (getTopic (cp_type p)) (cp_type p)
    (match cp_parent p with Some h => h | None => ctx_header (m_requestContext (interp k)) end)
    (cp_metadata p) (cp_content p) (cp_buffers p) SHELL.

Definition on_comms (f : World -> result World) : M unit :=
  fun k =>
    match f (comms k) with
    | Ok w => (Ok tt, upd_comms w (upd_trace (trace k ++ (comm_action k <$> drop (length (sent (comms k))) (sent w))) k))
    | Throw e => (Throw e, k)
    | Undefined => (Undefined, k)
    end.

Definition commOpen (request : Message) (_ : channel) : M unit :=
  on_comms (Comm.commOpen uninitialised local request).
Definition commClose (request : Message) (_ : channel) : M unit := on_comms (Comm.commClose request).
Definition commMsg (request : Message) (_ : channel) : M unit := on_comms (Comm.commMsg request).

(** ** Dispatch *)
Definition handlers : list (str * ((Message -> channel -> M unit) * bool)) :=
  [ ("execute_request"%string : str, (executeRequest, false));
    ("complete_request"%string : str, (completeRequest, true));
    ("inspect_request"%string : str, (inspectRequest, true));
    ("history_request"%string : str, (historyRequest, true));
    ("is_complete_request"%string : str, (isCompleteRequest, true));
    ("comm_info_request"%string : str, (commInfoRequest, true));
    ("comm_open"%string : str, (commOpen, true));
    ("comm_close"%string : str, (commClose, true));
    ("comm_msg"%string : str, (commMsg, true));
    ("kernel_info_request"%string : str, (kernelInfoRequest, true));
    ("shutdown_request"%string : str, (shutdownRequest, true));
    ("interrupt_request"%string : str, (interruptRequest, true));
    ("debug_request"%string : str, (debugRequest, true)) ].

Fixpoint lookup_handler (hs : list (str * ((Message -> channel -> M unit) * bool))) (msg_type : str)
    : option (Message -> channel -> M unit) * bool :=
  match hs with
  | [] => (None, true)
  | (n, (f, blocking)) :: rest => if str_eqb n msg_type then (Some f, blocking) else lookup_handler rest msg_type
  end.

Definition getHandler : str -> option (Message -> channel -> M unit) * bool := lookup_handler handlers.

Definition dispatch (msg : Message) (c : channel) : M unit :=
  let header := header_of msg in
  (publishStatus header "busy"%string c ;;
   (do msg_type <- lift (value get_str header "msg_type"%string []);
    let (fptr, blocking) := getHandler msg_type in
    ((match fptr with
      | None => ret tt
      | Some f => try_catch (f msg c) (fun _ => ret tt)
      end) ;;
     (if blocking then publishStatus header "idle"%string c else ret tt)))).

Definition dispatchShell (msg : Message) : M unit := dispatch msg SHELL.
Definition dispatchControl (msg : Message) : M unit := dispatch msg CONTROL.

Definition dispatchStdin (msg : Message) : M unit :=
  try_catch
    (do v <- lift (value get_str (content_of msg) "value"%string []);
     fun k => match inputReply v (lang k) with
              | Ok l => (Ok tt, upd_lang l k)
              | Throw w => (Throw w, k)
              | Undefined => (Undefined, k)
              end)
    (fun _ => ret tt).

Definition dispatchInternal (msg : json) : json := internalRequestImpl msg.

(** [buildStartMsg]: published by the server when it starts. *)
Definition buildStartMsg : Action :=
  Publish ("kernel_core."%string ++ m_kernelId ++ ".status"%string) "status"%string empty_object empty_object
    (with_keys null [("execution_state"%string : str, mk_str "starting"%string)]) [] SHELL.

End Kernel.

(** ** What a computation asks of the server *)
Section Traces.
Context `{JL : JsonLaws} `{Lang : !Language} `{Hist : !HistoryManager} `{CT : CommTypes} `{UL : !CommUserLaws U}.
Context (env_ms env_bytes : option str) (m_kernelId : str) (uninitialised : bool) (local : nat).

Abbreviation K := (Kernel (J := J) (Lang := Lang) (Hist := Hist)).

(** [triple m post]: whatever the state, what [m] adds to the trace and its
    result satisfy [post]. *)
Definition triple {A} (m : K -> result A * K) (post : list Action -> result A -> Prop) : Prop :=
  forall k, exists new, trace (snd (m k)) = trace k ++ new /\ post new (fst (m k)).

(** Neither a reply nor a status. *)
Definition quiet (a : Action) : Prop :=
  match a with
  | SendReply _ _ _ _ _ _ => False
  | Publish _ ty _ _ _ _ _ => ty <> status_type
  | _ => True
  end.

Definition quietly {A} (m : K -> result A * K) : Prop := triple m (fun new _ => Forall quiet new).

Lemma quietly_lift {A} (r : result A) : quietly (lift r).
Proof. intros k. exists []. by rewrite app_nil_r. Qed.

Lemma quietly_ret {A} (a : A) : quietly (ret a).
Proof. intros k. exists []. by rewrite app_nil_r. Qed.

Lemma quietly_state {A} (m : K -> result A * K) : (forall k, trace (snd (m k)) = trace k) -> quietly m.
Proof. intros H k. exists []. by rewrite H, app_nil_r. Qed.

Lemma quietly_emit a : quiet a -> quietly (emit a).
Proof. intros H k. exists [a]. split; [done | by constructor]. Qed.

Lemma quietly_bind {A B} (m : K -> result A * K) (f : A -> K -> result B * K) :
  quietly m -> (forall a, quietly (f a)) -> quietly (bind m f).
Proof.
  intros Hm Hf k. destruct (Hm k) as (n1 & E1 & F1). unfold bind. destruct (m k) as [[a|w|] k1]; cbn in *.
  - destruct (Hf a k1) as (n2 & E2 & F2). exists (n1 ++ n2). rewrite E2, E1, <- app_assoc.
    split; [done | by apply Forall_app].
  - by exists n1.
  - by exists n1.
Qed.

Lemma quietly_advance i k : adds (interp k) i ->
  exists new, trace (snd (advance m_kernelId i k)) = trace k ++ new /\ Forall quiet new.
Proof.
  intros [(n1 & E1 & F1) (n2 & E2)]. unfold advance. cbn. rewrite E1, E2, !drop_app_length.
  eexists. split; [reflexivity |]. apply Forall_app. split; apply Forall_fmap.
  - eapply Forall_impl; [exact F1 |]. done.
  - by apply Forall_forall.
Qed.

Lemma quietly_call c : quietly (call env_ms env_bytes m_kernelId c).
Proof. intros k. unfold call. apply quietly_advance, adds_run. Qed.

Lemma quietly_calls cs : quietly (calls env_ms env_bytes m_kernelId cs).
Proof.
  induction cs as [|c cs IH]; [apply quietly_ret |]. apply quietly_bind; [apply quietly_call | done].
Qed.

Lemma quietly_ask f : quietly (ask_language env_ms env_bytes m_kernelId f).
Proof.
  intros k. unfold ask_language. destruct (f (lang k)) as [[cs r] l].
  apply (quietly_bind _ _ (quietly_calls cs)). intros _.
  apply quietly_bind; [by apply quietly_state |]. intros _. apply quietly_lift.
Qed.

Lemma quietly_on_comms f : (forall w w', f w = Ok w' -> publishes w w') -> quietly (on_comms m_kernelId f).
Proof.
  intros H k. unfold on_comms. destruct (f (comms k)) as [w|e|] eqn:Hf.
  - destruct (H _ _ Hf) as (new & E & F). cbn. rewrite E, drop_app_length. eexists. split; [reflexivity |].
    apply Forall_fmap. eapply Forall_impl; [exact F |]. intros p Hp Ht. cbv beta in Hp. rewrite Ht in Hp.
    unfold comm_types in Hp. rewrite !elem_of_cons, elem_of_nil in Hp. naive_solver.
  - exists []. by rewrite app_nil_r.
  - exists []. by rewrite app_nil_r.
Qed.

(** A handler that replies: at most one reply, to the request; and one when it
    returns. *)
Definition answers (ids : list str) (reply_type : str) (h : json) (c : channel) (new : list Action) (r : result unit) : Prop :=
  exists before after, new = before ++ after /\ Forall quiet before
  /\ ((after = [] /\ r <> Ok tt)
      \/ exists content rest, after = SendReply ids reply_type h empty_object content c :: rest /\ Forall quiet rest /\ r = Ok tt).

Lemma answers_bind {A} ids rt h c (m : K -> result A * K) (f : A -> K -> result unit * K) :
  quietly m -> (forall a, triple (f a) (answers ids rt h c)) -> triple (bind m f) (answers ids rt h c).
Proof.
  intros Hm Hf k. destruct (Hm k) as (n1 & E1 & F1). unfold bind. destruct (m k) as [[a|w|] k1]; cbn in *.
  - destruct (Hf a k1) as (n2 & E2 & before & after & -> & Fb & Ha). exists (n1 ++ before ++ after).
    rewrite E2, E1, <- app_assoc. split; [done |]. exists (n1 ++ before), after.
    rewrite <- app_assoc. split; [done |]. split; [by apply Forall_app | done].
  - exists n1. split; [done |]. exists n1, []. rewrite app_nil_r. split; [done |]. split; [done | by left].
  - exists n1. split; [done |]. exists n1, []. rewrite app_nil_r. split; [done |]. split; [done | by left].
Qed.

Lemma answers_reply ids rt h c content :
  triple (sendReply (Lang := Lang) (Hist := Hist) ids rt h empty_object content c) (answers ids rt h c).
Proof.
  intros k. eexists. split; [reflexivity |]. exists []. eexists. split; [reflexivity |]. split; [done |].
  right. do 2 eexists. split; [reflexivity |]. done.
Qed.

Lemma answers_reply_then ids rt h c content (f : unit -> K -> result unit * K) :
  (forall k, exists rest, trace (snd (f tt k)) = trace k ++ rest /\ Forall quiet rest /\ fst (f tt k) = Ok tt) ->
  triple (bind (sendReply ids rt h empty_object content c) f) (answers ids rt h c).
Proof.
  intros Hf k. unfold bind, sendReply, emit, modify. cbn.
  destruct (Hf (upd_trace (trace k ++ [SendReply ids rt h empty_object content c]) k)) as (rest & E & F & R).
  exists (SendReply ids rt h empty_object content c :: rest). rewrite E. cbn. rewrite <- app_assoc. split; [done |].
  exists [], (SendReply ids rt h empty_object content c :: rest). split; [done |]. split; [done |]. right.
  exists content, rest. done.
Qed.

(** The replies of the request types whose handlers answer once. *)
Definition answered_types : list (str * str) :=
  [ ("complete_request"%string : str, "complete_reply"%string : str);
    ("inspect_request"%string : str, "inspect_reply"%string : str);
    ("history_request"%string : str, "history_reply"%string : str);
    ("is_complete_request"%string : str, "is_complete_reply"%string : str);
    ("comm_info_request"%string : str, "comm_info_reply"%string : str);
    ("kernel_info_request"%string : str, "kernel_info_reply"%string : str);
    ("shutdown_request"%string : str, "shutdown_reply"%string : str);
    ("interrupt_request"%string : str, "interrupt_reply"%string : str);
    ("debug_request"%string : str, "debug_reply"%string : str) ].

Abbreviation GetHandler := (getHandler (U := U) env_ms env_bytes m_kernelId uninitialised local).

Lemma quietly_publish ty h md content b c : ty <> status_type ->
  quietly (publishMessage (Lang := Lang) (Hist := Hist) m_kernelId ty h md content b c).
Proof. intros H k. eexists [_]. split; [reflexivity | by constructor]. Qed.

Ltac answer :=
  repeat first
    [ apply answers_reply
    | apply answers_bind; [first [apply quietly_lift | apply quietly_ask | (apply quietly_state; done)
                                 | (apply quietly_publish; discriminate)] | intros ?] ].

Lemma handler_answers ty rt msg c : (ty, rt) ∈ answered_types ->
  exists f, GetHandler ty = (Some f, true) /\ triple (f msg c) (answers (identities msg) rt (header_of msg) c).
Proof.
  unfold answered_types. rewrite !elem_of_cons, elem_of_nil.
  intros H. repeat (destruct H as [[= -> ->] | H]); [.. | done]; eexists; (split; [reflexivity |]).
  - unfold completeRequest. answer.
  - unfold inspectRequest. answer.
  - unfold historyRequest. answer.
  - unfold isCompleteRequest. answer.
  - unfold commInfoRequest. answer.
  - unfold kernelInfoRequest. answer.
  - unfold shutdownRequest. answer. apply answers_reply_then. intros k.
    destruct (str_eqb _ _); [exists [StopServer] | exists []]; cbn; rewrite ?app_nil_r; repeat split; try done; repeat constructor.
  - unfold interruptRequest. answer.
  - unfold debugRequest. answer.
Qed.

(** Everything else but execute_request: nothing is replied. *)
Definition unanswered (ty : str) : Prop := ty ∉ answered_types.*1 /\ ty <> ("execute_request"%string : str).

Lemma handler_quiet ty msg c : unanswered ty ->
  (exists f, GetHandler ty = (Some f, true) /\ quietly (f msg c)) \/ GetHandler ty = (None, true).
Proof.
  intros [Hn He]. unfold getHandler, handlers. cbn [lookup_handler].
  assert (Hne : forall n : str, n ∈ answered_types.*1 -> str_eqb n ty = false).
  { intros n Hin. apply not_true_iff_false. rewrite str_eqb_eq. by intros ->. }
  assert (str_eqb "execute_request"%string ty = false) as ->
    by (apply not_true_iff_false; rewrite str_eqb_eq; congruence).
  rewrite (Hne "complete_request"%string), (Hne "inspect_request"%string), (Hne "history_request"%string),
    (Hne "is_complete_request"%string), (Hne "comm_info_request"%string), (Hne "kernel_info_request"%string),
    (Hne "shutdown_request"%string), (Hne "interrupt_request"%string), (Hne "debug_request"%string)
    by (cbn [answered_types fmap list_fmap fst]; repeat first [apply list_elem_of_here | apply list_elem_of_further]).
  destruct (str_eqb "comm_open"%string ty).
  { left. eexists. split; [reflexivity |]. apply quietly_on_comms. intros w w'. apply commOpen_publishes. }
  destruct (str_eqb "comm_close"%string ty).
  { left. eexists. split; [reflexivity |]. apply quietly_on_comms. intros w w'. apply commClose_publishes. }
  destruct (str_eqb "comm_msg"%string ty).
  { left. eexists. split; [reflexivity |]. apply quietly_on_comms. intros w w'. apply commMsg_publishes. }
  by right.
Qed.

Definition status (h : json) (s : str) (c : channel) : Action :=
  Publish (getTopic m_kernelId status_type) status_type h empty_object
    (with_keys null [("execution_state"%string : str, mk_str s)]) [] c.

Definition is_reply (a : Action) : bool := match a with SendReply _ _ _ _ _ _ => true | _ => false end.
Definition is_status (a : Action) : bool := match a with Publish _ ty _ _ _ _ _ => str_eqb ty status_type | _ => false end.
Definition replies (new : list Action) : list Action := List.filter is_reply new.

Lemma quiet_replies new : Forall quiet new -> replies new = [] /\ forallb (fun a => negb (is_status a)) new = true.
Proof.
  intros H. induction H as [|a new Ha _ [IH1 IH2]]; [done |]. unfold replies in *. cbn.
  destruct a; try done; cbn in Ha |- *. rewrite IH2, andb_true_r. split; [done |].
  apply negb_true_iff, not_true_iff_false. by rewrite str_eqb_eq.
Qed.

Lemma replies_app a b : replies (a ++ b) = replies a ++ replies b.
Proof. apply List.filter_app. Qed.

Abbreviation Dispatch := (dispatch (U := U) env_ms env_bytes m_kernelId uninitialised local).

Lemma dispatch_eq msg c k ty : value get_str (header_of msg) "msg_type"%string [] = Ok ty ->
  Dispatch msg c k
  = bind (match fst (GetHandler ty) with None => ret tt | Some f => try_catch (f msg c) (fun _ => ret tt) end)
         (fun _ => if snd (GetHandler ty) then publishStatus m_kernelId (header_of msg) "idle"%string c else ret tt)
         (upd_trace (trace k ++ [status (header_of msg) "busy"%string c]) k).
Proof.
  intros Hty. unfold dispatch. unfold bind at 1. unfold publishStatus at 1, publishMessage at 1, emit, modify.
  unfold bind at 1. unfold lift. rewrite Hty. destruct (GetHandler ty) as [fptr blocking]. done.
Qed.

(** Dispatching to a handler that does not set the idle status itself. *)
Lemma dispatch_blocking post msg c k ty : value get_str (header_of msg) "msg_type"%string [] = Ok ty ->
  snd (GetHandler ty) = true -> fst (Dispatch msg c k) <> Undefined ->
  match fst (GetHandler ty) with Some f => triple (f msg c) post | None => post [] (Ok tt) end ->
  fst (Dispatch msg c k) = Ok tt /\
  exists new r, trace (snd (Dispatch msg c k)) = trace k ++ status (header_of msg) "busy"%string c :: new
                                                 ++ [status (header_of msg) "idle"%string c]
    /\ post new r.
Proof.
  intros Hty Hb Hu Hpost. rewrite (dispatch_eq _ _ _ ty Hty) in *. rewrite Hb in *.
  set (started := upd_trace _ k) in *. unfold bind, try_catch in *.
  destruct (fst (GetHandler ty)) as [f|].
  - destruct (Hpost started) as (new & Hn & Hp).
    destruct (f msg c started) as [r k1] eqn:Hf. cbn [fst snd] in Hn, Hp.
    destruct r as [[]|w|]; cbn in *; [| | done]; (split; [done |]); exists new; eexists; rewrite Hn; cbn;
      rewrite <- !app_assoc; (split; [done | exact Hp]).
  - cbn. split; [done |]. exists [], (Ok tt). rewrite <- app_assoc. done.
Qed.

Definition assoc (ty : str) : option str := snd <$> (snd <$> list_find (fun p => p.1 = ty) answered_types).

Lemma assoc_cases ty : match assoc ty with
                       | Some rt => (ty, rt) ∈ answered_types
                       | None => ty ∉ answered_types.*1
                       end.
Proof.
  unfold assoc. generalize answered_types. intros types. destruct (list_find _ types) as [[i [t rt]]|] eqn:H; cbn.
  - apply list_find_Some in H as (Hi & Ht & _). cbn in Ht. subst t. by eapply list_elem_of_lookup_2.
  - apply list_find_None in H. rewrite list_elem_of_fmap. intros ([t rt] & -> & Hin).
    rewrite Forall_forall in H. by apply (H _ Hin).
Qed.

(** C5: a request other than execute_request is bracketed by its statuses and
    answered at most once: dispatching it publishes busy first and idle last,
    both for that request, no status between them, and exactly what its type
    calls for in between: one reply of the matching type, to the client that
    asked, on the channel it asked on, with the request's header (none when the
    handler throws), or no reply for a comm message or an unknown type.  The
    kernel goes on: the dispatch itself does not throw. *)
Theorem dispatch_bracket msg c k ty : value get_str (header_of msg) "msg_type"%string [] = Ok ty ->
  ty <> ("execute_request"%string : str) -> fst (Dispatch msg c k) <> Undefined ->
  fst (Dispatch msg c k) = Ok tt /\
  exists new, trace (snd (Dispatch msg c k)) = trace k ++ status (header_of msg) "busy"%string c :: new
                                               ++ [status (header_of msg) "idle"%string c]
    /\ forallb (fun a => negb (is_status a)) new = true
    /\ match assoc ty with
       | Some rt => replies new = []
                    \/ exists content, replies new = [SendReply (identities msg) rt (header_of msg) empty_object content c]
       | None => replies new = []
       end.
Proof.
  intros Hty He Hu. pose proof (assoc_cases ty) as Ha. destruct (assoc ty) as [rt|].
  - destruct (handler_answers ty rt msg c Ha) as (f & Hg & Hf).
    destruct (dispatch_blocking (answers (identities msg) rt (header_of msg) c) msg c k ty Hty) as (Hr & new & r & Hn & Hp);
      [by rewrite Hg | done | by rewrite Hg |].
    split; [done |]. exists new. split; [done |]. destruct Hp as (before & after & -> & Fb & Hafter).
    destruct (quiet_replies before Fb) as [B1 B2]. rewrite forallb_app, replies_app, B1, B2.
    destruct Hafter as [[-> _] | (content & rest & -> & Fr & _)]; [split; [done | by left] |].
    destruct (quiet_replies rest Fr) as [R1 R2]. cbn. rewrite R2. split; [done |]. right. exists content.
    unfold replies in *. cbn. by rewrite R1.
  - destruct (handler_quiet ty msg c (conj Ha He)) as [(f & Hg & Hf) | Hg].
    + destruct (dispatch_blocking (fun new _ => Forall quiet new) msg c k ty Hty) as (Hr & new & r & Hn & Hp);
        [by rewrite Hg | done | by rewrite Hg |].
      split; [done |]. exists new. split; [done |]. destruct (quiet_replies new Hp). done.
    + destruct (dispatch_blocking (fun new _ => new = []) msg c k ty Hty) as (Hr & new & r & Hn & ->);
        [by rewrite Hg | done | by rewrite Hg |].
      split; [done |]. exists []. done.
Qed.

(** What a request that cannot be read leaves behind.  When the header is
    not an object, or its msg_type not a string, the kernel publishes busy and
    the dispatch throws: no idle, no reply.  When an execute_request's content
    cannot be read (not an object, or a member of the wrong type), the handler
    throws before it does anything: the dispatch returns, but the client gets
    neither a reply nor an idle status. *)
Theorem malformed_requests msg c k w :
  (value get_str (header_of msg) "msg_type"%string [] = Throw w ->
   fst (Dispatch msg c k) = Throw w
   /\ trace (snd (Dispatch msg c k)) = trace k ++ [status (header_of msg) "busy"%string c])
  /\ (value get_str (header_of msg) "msg_type"%string [] = Ok ("execute_request"%string : str) ->
      value get_str (content_of msg) "code"%string [] = Throw w ->
      fst (Dispatch msg c k) = Ok tt
      /\ trace (snd (Dispatch msg c k)) = trace k ++ [status (header_of msg) "busy"%string c]).
Proof.
  split; intros Hty.
  - unfold dispatch, publishStatus, publishMessage, emit, modify. unfold bind at 1. unfold bind at 1.
    unfold lift. rewrite Hty. done.
  - intros Hcode. rewrite (dispatch_eq _ _ _ _ Hty). unfold getHandler, handlers. cbn [lookup_handler].
    rewrite str_eqb_refl. cbn [fst snd]. unfold bind at 1. unfold try_catch, executeRequest. unfold bind at 1.
    unfold lift at 1. rewrite Hcode. done.
Qed.

(** ** The execution of a cell *)

(** The language ran: output went out, and only the interpreter changed. *)
Definition moved (k k' : K) (new : list Action) : Prop :=
  Forall quiet new /\ exists i, k' = upd_interp i (upd_trace (trace k ++ new) k).

Lemma moved_advance i k : adds (interp k) i -> exists k' new, advance m_kernelId i k = (Ok tt, k') /\ moved k k' new.
Proof.
  intros Ha. destruct (quietly_advance i k Ha) as (new & E & F). unfold advance in *. cbn [snd upd_interp upd_trace trace] in E.
  do 2 eexists. split; [reflexivity |]. split; [exact F |]. exists i. f_equal. unfold upd_trace. cbn. by rewrite E.
Qed.

Lemma moved_trans k1 k2 k3 n1 n2 : moved k1 k2 n1 -> moved k2 k3 n2 -> moved k1 k3 (n1 ++ n2).
Proof.
  intros [F1 [i1 ->]] [F2 [i2 ->]]. split; [by apply Forall_app |]. exists i2.
  unfold upd_interp, upd_trace. cbn. by rewrite app_assoc.
Qed.

Lemma moved_refl k : moved k k [].
Proof. split; [done |]. exists (interp k). unfold upd_interp, upd_trace. cbn. rewrite app_nil_r. by destruct k. Qed.

Lemma moved_steps cl cs k rest :
  exists k' new, steps env_ms env_bytes m_kernelId cl ((DoCall <$> cs) ++ rest) k
                 = steps env_ms env_bytes m_kernelId cl rest k' /\ moved k k' new.
Proof.
  revert k. induction cs as [|c cs IH]; intros k.
  - exists k, []. split; [done | apply moved_refl].
  - cbn [fmap list_fmap app steps]. unfold bind at 1, call.
    destruct (moved_advance (run env_ms env_bytes (interp k) c) k (adds_run _ _ _ _)) as (k1 & n1 & -> & M1).
    destruct (IH k1) as (k2 & n2 & E2 & M2). exists k2, (n1 ++ n2). split; [exact E2 | by eapply moved_trans].
Qed.

(** A waiting request that can be told it was aborted. *)
Definition abortable (m : Message * bool) : Prop :=
  exists ty rt, value get_str (header_of m.1) "msg_type"%string [] = Ok ty /\ aborted_type ty = Ok rt.

Definition abort_reply (m : Message * bool) : Action :=
  SendReply (identities m.1)
    (match value get_str (header_of m.1) "msg_type"%string [] with
     | Ok ty => match aborted_type ty with Ok rt => rt | _ => [] end
     | _ => [] end)
    (header_of m.1) empty_object (with_keys null [("status"%string : str, mk_str "aborted"%string)]) SHELL.

Lemma abort_all_spec msgs : forall k, queue k = msgs -> Forall abortable msgs ->
  abort_all msgs k = (Ok tt, upd_queue [] (upd_trace (trace k ++ (abort_reply <$> msgs)) k)).
Proof.
  induction msgs as [|[m b] msgs IH]; intros k Hq Hall.
  - cbn. rewrite app_nil_r. unfold ret. destruct k. cbn in *. by rewrite Hq.
  - apply Forall_cons in Hall as [(ty & rt & Hty & Hrt) Hall]. cbn [fst] in *. cbn [abort_all].
    unfold bind at 1, modify at 1. unfold bind at 1.
    assert (Ha : abortRequest m (upd_queue msgs k)
            = (Ok tt, upd_trace (trace k ++ [abort_reply (m, b)]) (upd_queue msgs k))).
    { unfold abortRequest, abort_reply. cbn [fst]. unfold bind, lift. rewrite Hty, Hrt. done. }
    assert ((if b then try_catch (abortRequest m) (fun _ => ret tt) else abortRequest m) (upd_queue msgs k)
            = (Ok tt, upd_trace (trace k ++ [abort_reply (m, b)]) (upd_queue msgs k))) as ->
      by (destruct b; unfold try_catch; by rewrite Ha).
    rewrite IH by done. cbn. unfold upd_queue, upd_trace. cbn. by rewrite <- app_assoc.
Qed.

(** What the kernel does with a reply it can read. *)
Definition aborted_by (cl : Closure) (st : str) (k : K) : list Action :=
  if negb (silent (cl_config cl)) && str_eqb st "error"%string && cl_stop_on_error cl then abort_reply <$> queue k else [].

Definition stored_by (cl : Closure) (n : Z) : list Action :=
  if negb (silent (cl_config cl)) && store_history (cl_config cl) then [StoreInputs 0 n (cl_code cl)] else [].

Lemma reply_callback_spec cl reply k n st :
  value get_int reply "execution_count"%string 1 = Ok n -> value get_str reply "status"%string "error"%string = Ok st ->
  ended k !! cl_ended cl = Some false -> Forall abortable (queue k) ->
  exists k', reply_callback m_kernelId cl reply k = (Ok tt, k')
  /\ trace k' = trace k ++ EndExecution :: aborted_by cl st k
       ++ [SendReply (ctx_id (cl_context cl)) "execute_reply"%string (ctx_header (cl_context cl)) (getMetadata k) reply SHELL]
       ++ stored_by cl n ++ [status (ctx_header (cl_context cl)) "idle"%string SHELL].
Proof.
  intros Hn Hst He Hq. unfold reply_callback.
  set (k1 := upd_trace (trace k ++ [EndExecution]) (upd_ended (<[cl_ended cl := true]> (ended k)) k)).
  assert (H1 : (if nth (cl_ended cl) (ended k) true then ret tt
      else bind (modify (fun k => upd_ended (<[cl_ended cl := true]> (ended k)) k)) (fun _ => emit EndExecution)) k = (Ok tt, k1)).
  { rewrite nth_lookup, He. reflexivity. }
  unfold bind at 1. rewrite H1. clear H1. assert (Hq1 : queue k1 = queue k) by done.
  unfold bind at 1, lift at 1. rewrite Hn. unfold bind at 1, lift at 1. rewrite Hst. unfold bind at 1.
  assert (Habort : (if negb (silent (cl_config cl)) && str_eqb st "error"%string && cl_stop_on_error cl
                    then abortQueue else ret tt) k1
    = (Ok tt, if negb (silent (cl_config cl)) && str_eqb st "error"%string && cl_stop_on_error cl
              then upd_queue [] (upd_trace (trace k1 ++ (abort_reply <$> queue k)) k1) else k1)).
  { destruct (_ && _ && _); [| done]. unfold abortQueue. rewrite Hq1. by apply abort_all_spec. }
  rewrite Habort. unfold bind at 1, sendReply, emit at 1, modify at 1. unfold bind at 1.
  unfold aborted_by, stored_by.
  destruct (_ && _ && _), (negb (silent (cl_config cl)) && store_history (cl_config cl)); cbn;
    eexists; (split; [reflexivity |]); cbn; rewrite <- ?app_assoc; done.
Qed.

(** What a language is expected to do with a cell: call the reply callback once
    with an object whose status can be read, or throw before it does. *)
Inductive well_behaved : list Step -> option str -> option (json * Z) -> Prop :=
| replies_once before reply now after st : type_of reply = Jobject ->
    value get_str reply "status"%string "error"%string = Ok st ->
    well_behaved ((DoCall <$> before) ++ Reply reply now :: (DoCall <$> after)) None (Some (reply, now))
| throws_first before what : well_behaved (DoCall <$> before) (Some what) None.

(** The request's content as executeRequest reads it. *)
Record parsed (msg : Message) (code : str) (config : ExecuteRequestConfig) (stop_on_error : bool) (ue : json) : Prop := {
  parsed_code : value get_str (content_of msg) "code"%string [] = Ok code;
  parsed_silent : value get_bool (content_of msg) "silent"%string false = Ok (silent config);
  parsed_store : exists b, value get_bool (content_of msg) "store_history"%string true = Ok b
                           /\ store_history config = b && negb (silent config);
  parsed_ue : value any (content_of msg) "user_expressions"%string empty_object = Ok ue;
  parsed_stdin : value get_bool (content_of msg) "allow_stdin"%string true = Ok (allow_stdin config);
  parsed_stop : value get_bool (content_of msg) "stop_on_error"%string false = Ok stop_on_error
}.

Abbreviation ExecuteRequest := (executeRequest env_ms env_bytes m_kernelId).

(** The reply that goes out: the language's with its count, or the error. *)
Definition final_reply (count : Z) (answer : option (json * Z)) (exn : option str) : json :=
  match answer with
  | Some (reply, _) => insert_key reply "execution_count"%string (mk_int count)
  | None => createErrorReply "InternalError"%string (default [] exn) (mk_array [])
  end.

Definition final_count (count : Z) (answer : option (json * Z)) : Z := match answer with Some _ => count | None => 1 end.

Lemma callback_adds count reply now i : adds i (snd (callback_impl count reply now i)).
Proof. apply adds_flush. Qed.

(** The language replies: what is pending goes out first, then the kernel's
    callback runs. *)
Lemma language_reply_spec cl reply now k st : type_of reply = Jobject ->
  value get_str reply "status"%string "error"%string = Ok st ->
  ended k !! cl_ended cl = Some false -> Forall abortable (queue k) ->
  exists k' out, language_replies m_kernelId cl reply now k = (Ok tt, k') /\ Forall quiet out
  /\ trace k' = trace k ++ out ++ EndExecution :: aborted_by cl st k
       ++ [SendReply (ctx_id (cl_context cl)) "execute_reply"%string (ctx_header (cl_context cl)) (getMetadata k)
             (insert_key reply "execution_count"%string (mk_int (cl_count cl))) SHELL]
       ++ stored_by cl (cl_count cl) ++ [status (ctx_header (cl_context cl)) "idle"%string SHELL].
Proof.
  intros Ho Hst He Hq. unfold language_replies.
  pose proof (callback_adds (cl_count cl) reply now (interp k)) as Hadds.
  unfold callback_impl in *. cbn [snd] in Hadds. unfold set_key.
  rewrite (proj2 (is_object_type reply) Ho). cbn [orb].
  destruct (moved_advance _ k Hadds) as (k2 & n2 & E2 & [F2 [i2 ->]]). unfold bind at 1. rewrite E2.
  unfold bind at 1, lift at 1.
  set (k2 := upd_interp i2 (upd_trace (trace k ++ n2) k)).
  set (final := insert_key reply "execution_count"%string (mk_int (cl_count cl))).
  destruct (reply_callback_spec cl final k2 (cl_count cl) st) as (k3 & E3 & T3); [| | exact He | exact Hq |].
  - apply (value_found _ _ _ (mk_int (cl_count cl))); [| apply get_int_mk].
    unfold final. rewrite find_insert by auto. by rewrite decide_True.
  - assert (Hf : find final "status"%string = find reply "status"%string)
      by (unfold final; rewrite find_insert by auto; by rewrite decide_False by discriminate).
    revert Hst. unfold value. rewrite Hf.
    assert (is_object final = is_object reply) as ->; [| done].
    rewrite (proj2 (is_object_type reply) Ho). apply is_object_type, type_insert. by left.
  - exists k3, n2. split; [exact E3 |]. split; [exact F2 |]. rewrite T3. unfold k2. cbn [trace upd_interp upd_trace].
    change (aborted_by cl st (upd_interp i2 _)) with (aborted_by cl st k). unfold getMetadata.
    cbn [iso_now upd_interp upd_trace]. by rewrite <- app_assoc.
Qed.

Lemma run_language cl ss exn answer k st :
  well_behaved ss exn answer ->
  (match answer with Some (reply, _) => value get_str reply "status"%string "error"%string = Ok st | None => st = "error"%string end) ->
  ended k !! cl_ended cl = Some false -> Forall abortable (queue k) ->
  exists k' out1 out2,
    try_catch (bind (steps env_ms env_bytes m_kernelId cl ss) (fun _ => raise exn))
      (fun what => reply_callback m_kernelId cl (createErrorReply "InternalError"%string what (mk_array []))) k = (Ok tt, k')
    /\ Forall quiet out1 /\ Forall quiet out2
    /\ trace k' = trace k ++ out1 ++ EndExecution :: aborted_by cl st k
         ++ [SendReply (ctx_id (cl_context cl)) "execute_reply"%string (ctx_header (cl_context cl)) (getMetadata k)
               (final_reply (cl_count cl) answer exn) SHELL]
         ++ stored_by cl (final_count (cl_count cl) answer)
         ++ [status (ctx_header (cl_context cl)) "idle"%string SHELL] ++ out2.
Proof.
  intros Hw Hst He Hq. destruct Hw as [before reply now after st' Ho Hst' | before what].
  - destruct (moved_steps cl before k (Reply reply now :: (DoCall <$> after))) as (k1 & n1 & E1 & [F1 [i1 ->]]).
    set (k1 := upd_interp i1 (upd_trace (trace k ++ n1) k)) in *.
    destruct (language_reply_spec cl reply now k1 st Ho Hst He Hq) as (k3 & n2 & E3 & F2 & T3).
    destruct (moved_steps cl after k3 []) as (k4 & n4 & E4 & [F4 [i4 ->]]). rewrite app_nil_r in E4.
    exists (upd_interp i4 (upd_trace (trace k3 ++ n4) k3)), (n1 ++ n2), n4.
    split; [| split; [by apply Forall_app | split; [done |]]].
    + unfold try_catch. unfold bind at 1. rewrite E1. cbn [steps]. unfold bind at 1. rewrite E3, E4. done.
    + cbn [trace upd_interp upd_trace]. rewrite T3. change (aborted_by cl st k1) with (aborted_by cl st k).
      unfold k1. unfold getMetadata. cbn [trace iso_now upd_interp upd_trace].
      unfold final_reply, final_count. repeat (rewrite <- ?app_assoc; cbn [app]). reflexivity.
  - destruct (moved_steps cl before k []) as (k1 & n1 & E1 & [F1 [i1 ->]]). rewrite app_nil_r in E1.
    unfold try_catch, bind at 1. rewrite E1. cbn [steps]. unfold ret at 1, raise, lift.
    set (k1 := upd_interp i1 (upd_trace (trace k ++ n1) k)).
    destruct (reply_callback_spec cl (createErrorReply "InternalError"%string what (mk_array [])) k1 1 st)
      as (k3 & E3 & T3); [| | exact He | exact Hq |].
    + apply value_missing; [apply type_with_keys; right; split; [apply type_null | done] |].
      unfold createErrorReply. find_key. apply find_other. by rewrite type_null.
    + apply (value_found _ _ _ (mk_str "error"%string)); [unfold createErrorReply; by find_key | by rewrite get_str_mk, Hst].
    + exists k3, n1, []. split; [exact E3 |]. split; [done |]. split; [done |].
      rewrite T3. unfold k1. cbn [trace upd_interp upd_trace]. rewrite app_nil_r.
      change (aborted_by cl st (upd_interp i1 _)) with (aborted_by cl st k).
      repeat (rewrite <- ?app_assoc; cbn [app]). reflexivity.
Qed.

(** The interpreter as [executeRequest] leaves it for the language. *)
Definition for_language (msg : Message) (code : str) (config : ExecuteRequestConfig) (k : K) : Interpreter :=
  Interpreter.executeRequest {| ctx_id := identities msg; ctx_header := header_of msg |} code config (interp k).

Definition closure_of (msg : Message) (code : str) (config : ExecuteRequestConfig) (stop_on_error : bool) (k : K) : Closure :=
  {| cl_context := {| ctx_id := identities msg; ctx_header := header_of msg |}; cl_config := config;
     cl_stop_on_error := stop_on_error; cl_code := code;
     cl_count := m_executionCount (for_language msg code config k); cl_ended := length (ended k) |}.

(** Up to the language: the execution has begun, the input is published, and
    the reply is awaited. *)
Lemma execute_prefix msg code config soe ue k ss exn l : parsed msg code config soe ue ->
  executeRequestImpl (m_executionCount (for_language msg code config k)) code config ue (lang k) = (ss, exn, l) ->
  exists k0 out, executeRequest env_ms env_bytes m_kernelId msg SHELL k
    = try_catch (bind (steps env_ms env_bytes m_kernelId (closure_of msg code config soe k) ss) (fun _ => raise exn))
        (fun what => reply_callback m_kernelId (closure_of msg code config soe k)
                       (createErrorReply "InternalError"%string what (mk_array []))) k0
    /\ Forall quiet out /\ trace k0 = trace k ++ BeginExecution :: out
    /\ queue k0 = queue k /\ iso_now k0 = iso_now k /\ ended k0 = ended k ++ [false]
    /\ awaiting k0 = awaiting k ++ [closure_of msg code config soe k] /\ lang k0 = l.
Proof.
  intros [Hcode Hsilent (b & Hb & Hstore) Hue Hstdin Hstop] Himpl. unfold executeRequest, bind at 1 2 3 4 5 6, lift.
  rewrite Hcode, Hsilent, Hb, Hue, Hstdin, Hstop.
  assert ({| silent := silent config; store_history := b && negb (silent config); allow_stdin := allow_stdin config |}
          = config) as -> by (destruct config; cbn in *; by subst).
  set (k1 := upd_ended (ended k ++ [false]) (upd_trace (trace k ++ [BeginExecution]) k)).
  destruct (moved_advance (for_language msg code config k) k1 (adds_execute _ _ _ _)) as (k2 & out & E & [F [i ->]]).
  assert (Hi : i = for_language msg code config k)
    by (apply (f_equal (fun r => interp (snd r))) in E; cbn in E; done).
  subst i. set (k2 := upd_interp (for_language msg code config k) (upd_trace (trace k1 ++ out) k1)) in *.
  exists (upd_awaiting (awaiting k ++ [closure_of msg code config soe k]) (upd_lang l k2)), out.
  split; [| repeat split; try done; cbn; by rewrite <- app_assoc].
  unfold bind at 1, emit at 1, modify at 1. unfold bind at 1, modify at 1.
  unfold bind at 1. fold k1. match goal with |- (let (_, _) := ?A in _) = _ =>
    change A with (advance m_kernelId (for_language msg code config k) k1) end.
  rewrite E. change (interp k2) with (for_language msg code config k). change (lang k2) with (lang k). rewrite Himpl.
  reflexivity.
Qed.

(** What a client sees of a cell. *)
Lemma execute_cell_trace msg c k code config soe ue ss exn l answer st :
  value get_str (header_of msg) "msg_type"%string [] = Ok ("execute_request"%string : str) ->
  parsed msg code config soe ue ->
  executeRequestImpl (m_executionCount (for_language msg code config k)) code config ue (lang k) = (ss, exn, l) ->
  well_behaved ss exn answer ->
  match answer with
  | Some (reply, _) => value get_str reply "status"%string "error"%string = Ok st
  | None => st = "error"%string
  end ->
  Forall abortable (queue k) ->
  let count := m_executionCount (for_language msg code config k) in
  exists k' out1 out2, Dispatch msg c k = (Ok tt, k') /\ Forall quiet out1 /\ Forall quiet out2
  /\ trace k' = trace k ++ status (header_of msg) "busy"%string c :: BeginExecution :: out1 ++ EndExecution
       :: (if negb (silent config) && str_eqb st "error"%string && soe then abort_reply <$> queue k else [])
       ++ [SendReply (identities msg) "execute_reply"%string (header_of msg) (getMetadata k) (final_reply count answer exn) SHELL]
       ++ (if negb (silent config) && store_history config then [StoreInputs 0 (final_count count answer) code] else [])
       ++ [status (header_of msg) "idle"%string SHELL] ++ out2.
Proof.
  intros Hty Hp Himpl Hw Hst Hq count. rewrite (dispatch_eq _ _ _ _ Hty).
  unfold getHandler, handlers. cbn [lookup_handler]. rewrite str_eqb_refl. cbn [fst snd].
  set (k0 := upd_trace _ k).
  destruct (execute_prefix msg code config soe ue k0 ss exn l Hp Himpl) as (k1 & out & E & F & T & Q & N & D & _).
  destruct (run_language (closure_of msg code config soe k0) ss exn answer k1 st Hw Hst) as (k' & o1 & o2 & E' & F1 & F2 & T').
  - rewrite D. by apply list_lookup_middle.
  - by rewrite Q.
  - exists k', (out ++ o1), o2. split; [| split; [by apply Forall_app | split; [done |]]].
    + unfold bind, try_catch at 1. change (executeRequest env_ms env_bytes m_kernelId msg c k0)
        with (executeRequest env_ms env_bytes m_kernelId msg SHELL k0). rewrite E, E'. done.
    + rewrite T', T. unfold aborted_by, stored_by, getMetadata. rewrite Q, N.
      cbn [closure_of cl_config cl_stop_on_error cl_code cl_context ctx_id ctx_header cl_count].
      unfold k0. cbn [trace upd_trace queue iso_now].
      repeat (rewrite <- ?app_assoc; cbn [app]). reflexivity.
Qed.

(** C1: what a client sees of a cell.  When an execute_request can be read and
    the language keeps its contract (it replies once, or throws), dispatching
    it gives, in this order: busy; the server is told the execution begins;
    what the cell prints before the reply; the server is told the execution
    ended; the waiting requests are answered aborted exactly when the cell
    failed, was not silent and had stop_on_error; one execute_reply, to the
    client that asked, the language's with the cell's count, or an
    InternalError; the input is stored exactly when asked for and not silent;
    and idle. *)
Theorem execute_cell msg c k code config soe ue ss exn l answer st :
  value get_str (header_of msg) "msg_type"%string [] = Ok ("execute_request"%string : str) ->
  parsed msg code config soe ue ->
  executeRequestImpl (m_executionCount (for_language msg code config k)) code config ue (lang k) = (ss, exn, l) ->
  well_behaved ss exn answer ->
  match answer with
  | Some (reply, _) => value get_str reply "status"%string "error"%string = Ok st
  | None => st = "error"%string
  end ->
  Forall abortable (queue k) ->
  let count := m_executionCount (for_language msg code config k) in
  exists k' out1 out2, Dispatch msg c k = (Ok tt, k') /\ Forall quiet out1 /\ Forall quiet out2
  /\ trace k' = trace k ++ status (header_of msg) "busy"%string c :: BeginExecution :: out1 ++ EndExecution
       :: (if negb (silent config) && str_eqb st "error"%string && soe then abort_reply <$> queue k else [])
       ++ [SendReply (identities msg) "execute_reply"%string (header_of msg) (getMetadata k) (final_reply count answer exn) SHELL]
       ++ (if negb (silent config) && store_history config then [StoreInputs 0 (final_count count answer) code] else [])
       ++ [status (header_of msg) "idle"%string SHELL] ++ out2.
Proof. apply execute_cell_trace. Qed.

(** A language with its own loop may return before it replies.  Dispatching
    the cell then publishes busy, tells the server the execution begins, and
    neither replies nor goes idle; it is the later reply, whatever was
    published or answered in between, that ends the execution, answers the
    client and publishes idle. *)
Theorem execute_cell_late msg c k code config soe ue before l :
  value get_str (header_of msg) "msg_type"%string [] = Ok ("execute_request"%string : str) ->
  parsed msg code config soe ue ->
  executeRequestImpl (m_executionCount (for_language msg code config k)) code config ue (lang k)
  = (DoCall <$> before, None, l) ->
  let cl := closure_of msg code config soe k in
  (exists k' out, Dispatch msg c k = (Ok tt, k') /\ awaiting k' = awaiting k ++ [cl]
    /\ ended k' !! cl_ended cl = Some false /\ Forall quiet out
    /\ trace k' = trace k ++ status (header_of msg) "busy"%string c :: BeginExecution :: out)
  /\ (forall later reply now st, ended later !! cl_ended cl = Some false -> Forall abortable (queue later) ->
      type_of reply = Jobject -> value get_str reply "status"%string "error"%string = Ok st ->
      exists k'' out, late_reply m_kernelId cl reply now later = (Ok tt, k'') /\ Forall quiet out
      /\ trace k'' = trace later ++ out ++ EndExecution :: aborted_by cl st later
           ++ [SendReply (identities msg) "execute_reply"%string (header_of msg) (getMetadata later)
                 (insert_key reply "execution_count"%string (mk_int (cl_count cl))) SHELL]
           ++ stored_by cl (cl_count cl) ++ [status (header_of msg) "idle"%string SHELL]).
Proof.
  intros Hty Hp Himpl cl. split.
  - rewrite (dispatch_eq _ _ _ _ Hty). unfold getHandler, handlers. cbn [lookup_handler]. rewrite str_eqb_refl. cbn [fst snd].
    set (k0 := upd_trace _ k).
    destruct (execute_prefix msg code config soe ue k0 _ _ _ Hp Himpl) as (k1 & out & E & F & T & _ & _ & D & A & _).
    destruct (moved_steps (closure_of msg code config soe k0) before k1 []) as (k2 & n & E2 & [F2 [i ->]]).
    rewrite app_nil_r in E2. exists (upd_interp i (upd_trace (trace k1 ++ n) k1)), (out ++ n).
    split; [| split; [exact A | split; [| split; [by apply Forall_app |]]]].
    + unfold bind at 1. unfold try_catch at 1. change (executeRequest env_ms env_bytes m_kernelId msg c k0)
        with (executeRequest env_ms env_bytes m_kernelId msg SHELL k0). rewrite E. unfold try_catch, bind. rewrite E2. done.
    + cbn [upd_interp upd_trace ended]. rewrite D. by apply list_lookup_middle.
    + cbn [upd_interp upd_trace trace]. rewrite T. unfold k0. cbn [upd_trace trace].
      repeat (rewrite <- ?app_assoc; cbn [app]). reflexivity.
  - intros later reply now st He Hq Ho Hst.
    destruct (language_reply_spec cl reply now later st Ho Hst He Hq) as (k'' & out & E & F & T).
    exists k'', out. split; [exact E |]. split; [exact F |]. exact T.
Qed.
End Traces.

(** ** The hypotheses can hold *)

(** A language that prints each cell and replies, or throws at "boom", or
    replies later to "later". *)
Definition example_reply : json (JsonLib := Concrete.concrete) :=
  with_keys null [("status"%string : str, mk_str "error"%string)].

#[export] Instance printer : Language (J := Concrete.concrete) := {|
  lstate := unit;
  executeRequestImpl count code config ue l :=
    if str_eqb code "boom"%string then ([], Some ("no"%string : str), l)
    else if str_eqb code "later"%string then ([DoCall (Stream "stdout"%string code 5)], None, l)
    else ([DoCall (Stream "stdout"%string code 5); Reply example_reply 6], None, l);
  completeRequestImpl code pos l := ([], Ok null, l);
  inspectRequestImpl code pos detail l := ([], Ok null, l);
  isCompleteRequestImpl code l := ([], Ok null, l);
  kernelInfoRequestImpl l := ([], Ok empty_object, l);
  shutdownRequestImpl restart l := ([], Ok (createShutdownReply restart), l);
  interruptRequestImpl l := ([], Ok createInterruptReply, l);
  debugRequestImpl_ request l := ([], debugRequestImpl request, l);
  inputReply v l := Ok l
|}.

#[export] Instance no_history : HistoryManager (J := Concrete.concrete) := {|
  hstate := unit;
  processRequest request h := Ok null;
  storeInputs session line input h := h
|}.

Definition example_message (msg_type : json (JsonLib := Concrete.concrete)) (content : list (str * json)) : Message :=
  {| identities := ["client"%string : str];
     base := makeMessageBase (with_keys null [("msg_type"%string : str, msg_type)]) null null (with_keys empty_object content) [] |}.

Definition example_cell (code : str) : Message (J := Concrete.concrete) :=
  example_message (mk_str "execute_request"%string)
    [("code"%string : str, mk_str code); ("stop_on_error"%string : str, mk_bool true)].

Definition example_kernel : Kernel (J := Concrete.concrete) :=
  {| trace := []; interp := example_start; lang := tt; comms := empty_world; history := tt;
     queue := [(example_cell "next"%string, true)]; ended := []; awaiting := []; iso_now := "now"%string |}.

Definition example_config : ExecuteRequestConfig := {| silent := false; store_history := true; allow_stdin := true |}.

Lemma example_parsed code : parsed (example_cell code) code example_config true empty_object.
Proof.
  split; try (vm_compute; reflexivity). exists true. split; vm_compute; reflexivity.
Qed.

Lemma example_abortable : Forall abortable (queue example_kernel).
Proof.
  repeat constructor. exists ("execute_request"%string : str), ("execute_reply"%string : str).
  split; vm_compute; reflexivity.
Qed.

Abbreviation example_dispatch :=
  (dispatch (J := Concrete.concrete) (U := keeper) None None ("k"%string : str) false 0%nat).

Lemma dispatch_bracket_witness : exists new,
  trace (snd (example_dispatch (example_message (mk_str "kernel_info_request"%string) []) SHELL example_kernel))
  = trace example_kernel
    ++ status ("k"%string : str) (with_keys null [("msg_type"%string : str, mk_str "kernel_info_request"%string)]) "busy"%string SHELL
       :: new ++ [status ("k"%string : str) (with_keys null [("msg_type"%string : str, mk_str "kernel_info_request"%string)]) "idle"%string SHELL].
Proof.
  destruct (dispatch_bracket (J := Concrete.concrete) (U := keeper) None None ("k"%string : str) false 0%nat
    (example_message (mk_str "kernel_info_request"%string) []) SHELL example_kernel
    ("kernel_info_request"%string : str)) as [_ (new & H & _)].
  - vm_compute. reflexivity.
  - discriminate.
  - vm_compute. discriminate.
  - exists new. exact H.
Defined.

Definition example_malformed : Message (J := Concrete.concrete) :=
  example_message (mk_str "execute_request"%string) [("code"%string : str, mk_int 1)].

Lemma malformed_requests_witness :
  fst (example_dispatch (example_message (mk_int 3) []) SHELL example_kernel) = Throw type_error_302
  /\ trace (snd (example_dispatch example_malformed SHELL example_kernel))
     = trace example_kernel ++ [status ("k"%string : str) (header_of example_malformed) "busy"%string SHELL].
Proof.
  split.
  - refine (proj1 (proj1 (malformed_requests (J := Concrete.concrete) (U := keeper) None None ("k"%string : str) false 0%nat
      (example_message (mk_int 3) []) SHELL example_kernel type_error_302) _)). vm_compute. reflexivity.
  - refine (proj2 (proj2 (malformed_requests (J := Concrete.concrete) (U := keeper) None None ("k"%string : str) false 0%nat
      example_malformed SHELL example_kernel type_error_302) _ _)); vm_compute; reflexivity.
Defined.

Lemma execute_cell_witness : exists k', example_dispatch (example_cell "x"%string) SHELL example_kernel = (Ok tt, k').
Proof.
  destruct (execute_cell (JL := Concrete.concrete_laws) None None ("k"%string : str) false 0%nat (example_cell "x"%string) SHELL
    example_kernel "x"%string example_config true empty_object
    [DoCall (Stream "stdout"%string "x"%string 5); Reply example_reply 6] None tt
    (Some (example_reply, 6)) "error"%string) as (k' & out1 & out2 & H & _).
  - vm_compute. reflexivity.
  - apply example_parsed.
  - reflexivity.
  - apply (replies_once [Stream "stdout"%string "x"%string 5] example_reply 6 [] ("error"%string : str)); vm_compute; reflexivity.
  - vm_compute. reflexivity.
  - apply example_abortable.
  - exists k'. exact H.
Defined.

Lemma execute_cell_late_witness : exists k' out,
  example_dispatch (example_cell "later"%string) SHELL example_kernel = (Ok tt, k') /\ Forall quiet out.
Proof.
  destruct (execute_cell_late (JL := Concrete.concrete_laws) None None ("k"%string : str) false 0%nat (example_cell "later"%string) SHELL
    example_kernel "later"%string example_config true empty_object [Stream "stdout"%string "later"%string 5] tt)
    as [(k' & out & H & _ & _ & F & _) _].
  - vm_compute. reflexivity.
  - apply example_parsed.
  - reflexivity.
  - exists k', out. split; [exact H | exact F].
Defined.

(** A cell that throws is stored in the history under line 1, whatever its
    count: the reply made for it has none. *)
Example thrown_cell_line :
  let k5 := upd_interp {| m_executionCount := 5; m_requestContext := m_requestContext example_start; m_allowStdin := false;
     has_publisher := true; has_stdin := true; m_streamPending := []; m_streamPendingBytes := 0;
     m_streamLastFlush := None; flusher_started := false; m_streamQuit := false; published := []; asked := [] |} example_kernel in
  List.filter (fun a => match a with StoreInputs _ _ _ => true | _ => false end)
    (trace (snd (example_dispatch (example_cell "boom"%string) SHELL k5)))
  = [StoreInputs 0 1 "boom"%string].
Proof. vm_compute. reflexivity. Qed.
