(* ===== verification/Facade.v ===== *)
(** * A kernel is put together: core/kernel/kernel.cpp, transport/server.cpp,
    server_zmq_impl.cpp (the constructor), common/middleware.cpp,
    utils/logger_impl.cpp

    [Sockets]: the five sockets a kernel binds, in the order of their
    construction, and the ports it reports.  [Engine]: [Kernel::Kernel], [start]
    and [stop].  [Listeners]: the callbacks of [Server].  [Logger]: the chain of
    loggers the messages of a kernel are written to.

    What is bound on the machine is a set of end points; what else refuses an
    end point, and the name a bound socket reports, are ZeroMQ's ([Network]). *)

From Stdlib Require Import Ascii String ZArith Lia.
From stdpp Require Import gmap.
From S2P Require Import Prelude Utf8 Crypto Json Wire Registration Process Launch Client Interpreter Comm Kernel.
Local Open Scope Z_scope.

(** ** The network *)

(** [refuses]: an end point that cannot be bound even when nobody has it
    (another machine's address, a port that is none); [last_endpoint]: what
    ZMQ_LAST_ENDPOINT says of a socket bound to it. *)
Class Network := {
  refuses : str -> bool;
  last_endpoint : str -> str;
  error_text : str -> str
}.

(** The port of a TCP end point is kept, unless it asks for any port. *)
Class NetworkLaws (N : Network) := {
  bound_port ip n : 0 < n -> refuses (getEndPoint "tcp"%string ip (to_string n)) = false ->
    getSocketPort (last_endpoint (getEndPoint "tcp"%string ip (to_string n))) = to_string n
}.

(** ** The sockets of a kernel *)
Section Sockets.
Context `{N : Network} `{J : JsonLib} `{Ossl : OpenSSL}.

(** The end points somebody has bound. *)
Definition Bound := gset str.

Definition can_bind (net : Bound) (end_point : str) : bool := negb (refuses end_point) && bool_decide (end_point ∉ net).

(** The first hundred and one draws of the random engine: more are never made. *)
Definition attempts (draws : nat -> Z) (transport ip : str) (net : Bound) : list (Z * bool) :=
  (fun i => (draws i, can_bind net (getEndPoint transport ip (to_string (draws i))))) <$> seq 0 101.

Definition cannot_bind (end_point : str) : str :=
  "cannot bind "%string ++ end_point ++ ": "%string ++ error_text end_point
  ++ " (the port was chosen by whoever started this process, and something else has it)"%string.

(** [initSocket]: the end point the socket is bound to. *)
Definition initSocket (draws : nat -> Z) (transport ip port : str) (net : Bound) : result (str * Bound) :=
  let bind (end_point : str) : result (str * Bound) := Ok (end_point, {[ end_point ]} ∪ net) in
  if bool_decide (port = []) then
    match findFreePortImpl 100 (attempts draws transport ip net) with
    | None => Undefined
    | Some [] => Throw ("no free port found on "%string ++ ip)
    | Some p => bind (getEndPoint transport ip p)
    end
  else if can_bind net (getEndPoint transport ip port) then bind (getEndPoint transport ip port)
  else Throw (cannot_bind (getEndPoint transport ip port)).

Inductive Socket := IopubS | HeartbeatS | ShellS | ControlS | StdinS.

Record Server := {
  s_endpoint : Socket -> str;
  s_auth : Authentication;
  s_sent : list frames
}.

Definition given_port (config : KernelConfiguration) (s : Socket) : str :=
  match s with
  | IopubS => m_iopubPort config | HeartbeatS => m_hbPort config | ShellS => m_shellPort config
  | ControlS => m_controlPort config | StdinS => m_stdinPort config
  end.

(** [socket.get(last_endpoint, 32)]: an error when the end point and its final
    NUL do not fit. *)
Definition port_of_socket (end_point : str) : result str :=
  if (length (last_endpoint end_point) <? 32)%nat then Ok (getSocketPort (last_endpoint end_point)) else Throw "Invalid argument"%string.

Definition updateConfig (s : Server) (config : KernelConfiguration) : result KernelConfiguration :=
  let? control := port_of_socket (s_endpoint s ControlS) in
  let? shell := port_of_socket (s_endpoint s ShellS) in
  let? stdin := port_of_socket (s_endpoint s StdinS) in
  let? iopub := port_of_socket (s_endpoint s IopubS) in
  let? hb := port_of_socket (s_endpoint s HeartbeatS) in
  Ok {| kernel_common := kernel_common config; m_kernelId := m_kernelId config; m_controlPort := control; m_shellPort := shell;
        m_stdinPort := stdin; m_iopubPort := iopub; m_hbPort := hb |}.

(** The constructor of [ServerZmqImpl]: its members first, the publisher and the
    heartbeat among them, then its body.  [draws]: each socket has a random
    engine of its own; [answer]: what the supervisor answers to the registration. *)
Definition newServer (draws : Socket -> nat -> Z) (initial_config : configuration) (eh : error_handler)
    (answer : frames -> option frames) (net : Bound) : result (Server * Bound) :=
  let kernel_config := getKernelConfiguration initial_config in
  let common := kernel_common kernel_config in
  let open (s : Socket) (net : Bound) := initSocket (draws s) (m_transport common) (m_ip common) (given_port kernel_config s) net in
  let? auth := makeAuthentication (m_signatureScheme common) (m_key common) in
  let? (iopub, net) := open IopubS net in
  let? (hb, net) := open HeartbeatS net in
  let? (shell, net) := open ShellS net in
  let? (control, net) := open ControlS net in
  let? (stdin, net) := open StdinS net in
  let bound (s : Socket) : str := match s with IopubS => iopub | HeartbeatS => hb | ShellS => shell | ControlS => control | StdinS => stdin end in
  let server := {| s_endpoint := bound; s_auth := auth; s_sent := [] |} in
  match initial_config with
  | IsKernel _ => Ok (server, net)
  | IsRegistration regis =>
      let? config := updateConfig server kernel_config in
      let (sent, answered) := sendConnectionInfo regis config auth eh answer in
      let? _ := answered in
      Ok ({| s_endpoint := bound; s_auth := auth; s_sent := sent |}, net)
  end.

(** [sendShell], [sendControl]: the frames that leave, and where. *)
Definition sendOn (s : Socket) (eh : error_handler) (server : Server) (message : Message) : result (Socket * frames) :=
  let? wire_msg := serialize message (s_auth server) eh in Ok (s, wire_msg).
Definition sendShell : error_handler -> Server -> Message -> result (Socket * frames) := sendOn ShellS.
Definition sendControl : error_handler -> Server -> Message -> result (Socket * frames) := sendOn ControlS.

End Sockets.

(** ** The kernel *)
Section Engine.
Context `{N : Network} `{J : JsonLib} `{Ossl : OpenSSL}.

(** The interpreter: how it is configured and asked to shut down. *)
Context {L : Type} (configure : L -> result L) (shutdownRequest : bool -> L -> result L).

(** [getUserName]: [pw_name] is the password entry of the user, if there is one. *)
Definition getUserName (pw_name USER : option str) : str :=
  match pw_name with
  | Some res => res
  | None => match USER with Some res => res | None => "unspecified user"%string end
  end.

(** The common part of a configuration, an empty key replaced. *)
Definition with_key (guid : str) (c : CommonConfiguration) : CommonConfiguration :=
  if bool_decide (m_key c = []) then
    {| m_transport := m_transport c; m_ip := m_ip c; m_signatureScheme := m_signatureScheme c; m_key := guid |}
  else c.

Definition set_common (f : CommonConfiguration -> CommonConfiguration) (config : configuration) : configuration :=
  match config with
  | IsKernel c =>
      IsKernel {| kernel_common := f (kernel_common c); m_kernelId := m_kernelId c; m_controlPort := m_controlPort c;
                  m_shellPort := m_shellPort c; m_stdinPort := m_stdinPort c; m_iopubPort := m_iopubPort c; m_hbPort := m_hbPort c |}
  | IsRegistration c =>
      IsRegistration {| registration_common := f (registration_common c); r_kernelId := r_kernelId c;
                        m_registrationIp := m_registrationIp c; m_registrationPort := m_registrationPort c |}
  end.

Definition common_of (config : configuration) : CommonConfiguration :=
  match config with IsKernel c => kernel_common c | IsRegistration c => registration_common c end.

Record Engine := {
  e_kernelId : str;
  e_userName : str;
  m_config : KernelConfiguration;
  p_server : Server;
  p_interpreter : L;
  logs : bool;
  request_stop : bool
}.

(** [Kernel::Kernel].  [id] and [key] are what [newGuid] gives; [ADRASTEA_LOG]
    is whether the variable is set. *)
Definition newKernel (id key : str) (config : configuration) (user_name : str) (interpreter : L) (logger ADRASTEA_LOG : bool)
    (eh : error_handler) (draws : Socket -> nat -> Z) (answer : frames -> option frames) (net : Bound) : result (Engine * Bound) :=
  let config := set_common (with_key key) config in
  let m_config := newKernelConfiguration (common_of config) in
  let? (server, net) := newServer draws config eh answer net in
  let? m_config := updateConfig server m_config in
  let? interpreter := configure interpreter in
  Ok ({| e_kernelId := id; e_userName := user_name; m_config := m_config; p_server := server; p_interpreter := interpreter;
         logs := logger && ADRASTEA_LOG; request_stop := false |}, net).

(** [Kernel::start]: what the server is started with. *)
Definition start (e : Engine) : Action := buildStartMsg (e_kernelId e).

Definition stop (e : Engine) : result Engine :=
  let? i := shutdownRequest false (p_interpreter e) in
  Ok {| e_kernelId := e_kernelId e; e_userName := e_userName e; m_config := m_config e; p_server := p_server e; p_interpreter := i;
        logs := logs e; request_stop := true |}.

(** ** The kernels' programs: [Server::start] of each bridge/engine.cpp *)

(** [make_interpreter] is the constructor of the language's interpreter, in the
    environment that was set up; [run] is [engine.start()], after what the
    language does with the server (R's main loop). *)
Definition engine_start (make_interpreter : environment -> result L) (run : Engine -> result unit) (k : Kind) (o : CliOptions)
    (env : environment) (id key user_name : str) (ADRASTEA_LOG : bool) (draws : Socket -> nat -> Z) (net : Bound)
    (config : KernelConfiguration) (on_ready : option (KernelConfiguration -> result unit)) : result unit :=
  Server_start
    (let? i := make_interpreter (setupEnvironment k o env) in
     let? (e, _) := newKernel id key (IsKernel config) user_name i true ADRASTEA_LOG Strict draws (fun _ => None) net in
     Ok e)
    (option_map (fun ready e => ready (m_config e)) on_ready) run.

Definition carpo_start make_interpreter run := engine_start make_interpreter run Carpo.
Definition callisto_start make_interpreter run := engine_start make_interpreter run Callisto.
Definition elara_start make_interpreter run := engine_start make_interpreter run Elara.

(** The whole program of a kernel: [main], with the kernel it makes. *)
Definition kernel_main (make_interpreter : environment -> result L) (run : KernelConfiguration -> result unit) (k : Kind)
    (argv : list str) (file_content : str -> str) (env : environment) (id key user_name : str) (ADRASTEA_LOG : bool)
    (draws : Socket -> nat -> Z) (net : Bound) (network : frames -> option frames) : result Z :=
  main k argv file_content env
    (fun p =>
       let? i := make_interpreter (kernel_environment p) in
       let? (e, _) := newKernel id key (IsKernel (config p)) user_name i true ADRASTEA_LOG Strict draws (fun _ => None) net in
       Ok (m_config e))
    network run.

Definition carpo_options (argv : list str) : CliOptions := toCliOptions Carpo (parseArgs argv).
Definition carpo_main make_interpreter run := kernel_main make_interpreter run Carpo.
Definition callisto_options (argv : list str) : CliOptions := toCliOptions Callisto (parseArgs argv).
Definition callisto_main make_interpreter run := kernel_main make_interpreter run Callisto.

End Engine.

(** ** What a started kernel is bound to *)
Section Started.
Context `{NL : NetworkLaws} `{J : JsonLib} `{Ossl : OpenSSL}.

Lemma findFreePort_from_found max_tries (l : list (Z * bool)) : forall tries, (tries <= max_tries)%nat -> (max_tries < tries + length l)%nat ->
  exists p, findFreePort_from max_tries tries l = Some p /\ (p = [] \/ exists n, (n, true) ∈ l /\ p = to_string n).
Proof.
  induction l as [| [n b] l IH]; intros tries Ht Hl; cbn [length] in Hl; [lia |]. cbn [findFreePort_from].
  destruct (Nat.leb_spec (S tries) max_tries), (Nat.ltb_spec max_tries (S tries)); try lia.
  - destruct b; cbn [andb negb].
    + eexists. split; [done |]. right. exists n. split; [by left | done].
    + destruct (IH (S tries)) as (p & Hp & Hc); [lia .. |]. exists p. split; [done |].
      destruct Hc as [-> | (m & Hm & ->)]; [by left | right; exists m; split; [by right | done]].
  - cbn [andb]. eexists. split; [done |]. by left.
Qed.

Lemma pretty_N_go_nonempty (x : N) : forall s : String.string, s <> EmptyString -> pretty.pretty_N_go x s <> EmptyString.
Proof.
  induction (N.lt_wf_0 x) as [x _ IH]. intros s Hs. destruct (decide (x = 0%N)) as [-> | Hx]; [by rewrite pretty.pretty_N_go_0 |].
  rewrite pretty.pretty_N_go_step by lia. apply IH; [apply N.div_lt; lia | done].
Qed.

Lemma to_string_not_nil n : 0 < n -> to_string n <> [].
Proof.
  intros H. unfold to_string. destruct n as [| p |]; [done | | lia]. change (pretty.pretty (Z.pos p)) with (pretty.pretty_N (N.pos p)).
  unfold pretty.pretty_N. rewrite decide_False by lia. rewrite pretty.pretty_N_go_step by lia.
  pose proof (pretty_N_go_nonempty (N.pos p / 10) (String (pretty.pretty_N_char (N.pos p mod 10)) EmptyString)) as Hn.
  destruct (pretty.pretty_N_go _ _); [by destruct (Hn ltac:(done)) | done].
Qed.

(** What opening a socket does: it takes one end point that was free, on the
    port given or on one of its own. *)
Record opened (draws : nat -> Z) (transport ip port : str) (net : Bound) (e : str) (net' : Bound) : Prop := {
  opened_at : exists p, e = getEndPoint transport ip p /\ (port <> [] -> p = port)
    /\ (port = [] -> exists i, p = to_string (draws i));
  opened_free : e ∉ net;
  opened_allowed : refuses e = false;
  opened_net : net' = {[ e ]} ∪ net
}.

Lemma initSocket_opened draws transport ip port net e net' :
  initSocket draws transport ip port net = Ok (e, net') -> opened draws transport ip port net e net'.
Proof.
  assert (Hcb : forall e, can_bind net e = true -> e ∉ net /\ refuses e = false).
  { intros x. unfold can_bind. rewrite andb_true_iff, negb_true_iff, bool_decide_eq_true. tauto. }
  unfold initSocket. case_bool_decide as Hp.
  - destruct (findFreePort_from_found 100 (attempts draws transport ip net) 0) as (p & Hf & Hc).
    { lia. }
    { unfold attempts. rewrite length_fmap, length_seq. lia. }
    unfold findFreePortImpl. rewrite Hf. destruct p as [| c p]; [done |]. intros [= <- <-].
    destruct Hc as [? | (n & Hn & ->)]; [done |]. apply list_elem_of_fmap in Hn as (i & [= -> Hb] & _).
    destruct (Hcb _ (eq_sym Hb)) as [? ?]. constructor; [| done ..]. eexists. split; [done |]. split; [done | by exists i].
  - destruct (can_bind net _) eqn:Hb; [| done]. intros [= <- <-]. destruct (Hcb _ Hb) as [? ?].
    constructor; [| done ..]. by exists port.
Qed.

(** A given port somebody has fails the start, and says which; a socket of its
    own takes the first free draw. *)
Lemma initSocket_given draws transport ip port net : port <> [] ->
  initSocket draws transport ip port net
  = if can_bind net (getEndPoint transport ip port) then Ok (getEndPoint transport ip port, {[ getEndPoint transport ip port ]} ∪ net)
    else Throw (cannot_bind (getEndPoint transport ip port)).
Proof. intros H. unfold initSocket. by rewrite bool_decide_eq_false_2. Qed.

(** All the sockets of a server. *)
Record server_opened (draws : Socket -> nat -> Z) (config : KernelConfiguration) (net : Bound) (server : Server) (net' : Bound) : Prop := {
  so_at : forall s, exists p, s_endpoint server s = getEndPoint (m_transport (kernel_common config)) (m_ip (kernel_common config)) p
    /\ (given_port config s <> [] -> p = given_port config s)
    /\ (given_port config s = [] -> exists i, p = to_string (draws s i));
  so_free : forall s, s_endpoint server s ∉ net /\ refuses (s_endpoint server s) = false;
  so_apart : forall s s', s <> s' -> s_endpoint server s <> s_endpoint server s';
  so_net : forall e, e ∈ net' <-> e ∈ net \/ exists s, s_endpoint server s = e;
  so_auth : makeAuthentication (m_signatureScheme (kernel_common config)) (m_key (kernel_common config)) = Ok (s_auth server)
}.

Lemma newServer_opened draws initial eh answer net server net' :
  newServer draws initial eh answer net = Ok (server, net') ->
  server_opened draws (getKernelConfiguration initial) net server net'.
Proof.
  unfold newServer. destruct (makeAuthentication _ _) as [auth | |] eqn:Ha; [| done ..]. cbv beta iota.
  destruct (initSocket (draws IopubS) _ _ _ net) as [[e1 n1] | |] eqn:H1; [| done ..]. cbv beta iota.
  destruct (initSocket (draws HeartbeatS) _ _ _ n1) as [[e2 n2] | |] eqn:H2; [| done ..]. cbv beta iota.
  destruct (initSocket (draws ShellS) _ _ _ n2) as [[e3 n3] | |] eqn:H3; [| done ..]. cbv beta iota.
  destruct (initSocket (draws ControlS) _ _ _ n3) as [[e4 n4] | |] eqn:H4; [| done ..]. cbv beta iota.
  destruct (initSocket (draws StdinS) _ _ _ n4) as [[e5 n5] | |] eqn:H5; [| done ..]. cbv beta iota.
  apply initSocket_opened in H1 as [A1 F1 R1 ->], H2 as [A2 F2 R2 ->], H3 as [A3 F3 R3 ->], H4 as [A4 F4 R4 ->], H5 as [A5 F5 R5 ->].
  rewrite ?not_elem_of_union, ?not_elem_of_singleton in *.
  intros H.
  assert (Hs : s_endpoint server = (fun s => match s with IopubS => e1 | HeartbeatS => e2 | ShellS => e3 | ControlS => e4 | StdinS => e5 end)
    /\ s_auth server = auth /\ net' = {[e5]} ∪ ({[e4]} ∪ ({[e3]} ∪ ({[e2]} ∪ ({[e1]} ∪ net))))).
  { destruct initial as [c | c]; [by simplify_eq/= |]. destruct (updateConfig _ _); [| done ..]. cbv beta iota in H.
    destruct (sendConnectionInfo _ _ _ _ _) as [sent [? | |]]; [| done ..]. cbv beta iota in H. by simplify_eq/=. }
  destruct Hs as (He & Hau & ->). constructor.
  - rewrite He. by intros [].
  - rewrite He. intros []; split; tauto.
  - rewrite He. intros [] []; try done; naive_solver.
  - rewrite He. intros e. rewrite ?elem_of_union, ?elem_of_singleton. split.
    + intros [-> | [-> | [-> | [-> | [-> | ?]]]]]; [right; by exists StdinS | right; by exists ControlS | right; by exists ShellS
        | right; by exists HeartbeatS | right; by exists IopubS | by left].
    + intros [? | [[] <-]]; tauto.
  - by rewrite Hau.
Qed.

Lemma updateConfig_ports server c c' : updateConfig server c = Ok c' ->
  kernel_common c' = kernel_common c /\ forall s, port_of_socket (s_endpoint server s) = Ok (given_port c' s).
Proof.
  unfold updateConfig. destruct (port_of_socket (s_endpoint server ControlS)) eqn:H1; [| done ..].
  destruct (port_of_socket (s_endpoint server ShellS)) eqn:H2; [| done ..].
  destruct (port_of_socket (s_endpoint server StdinS)) eqn:H3; [| done ..].
  destruct (port_of_socket (s_endpoint server IopubS)) eqn:H4; [| done ..].
  destruct (port_of_socket (s_endpoint server HeartbeatS)) eqn:H5; [| done ..].
  intros [= <-]. split; [done |]. by intros [].
Qed.

Lemma set_common_kernel f config : kernel_common (getKernelConfiguration (set_common f config)) = f (common_of config)
  /\ common_of (set_common f config) = f (common_of config)
  /\ forall s, given_port (getKernelConfiguration (set_common f config)) s = given_port (getKernelConfiguration config) s.
Proof. destruct config; cbn; split_and!; done. Qed.

Lemma with_key_kept key c : m_transport (with_key key c) = m_transport c /\ m_ip (with_key key c) = m_ip c
  /\ (m_key c <> [] -> with_key key c = c) /\ (key <> [] -> m_key (with_key key c) <> []).
Proof. unfold with_key. case_bool_decide; cbn; tauto. Qed.

(** The socket of the kernel a client's channel is for. *)
Definition socket_of (c : Channel) : Socket := match c with Shell => ShellS | Control => ControlS | Stdin => StdinS end.

Lemma client_of_config config guid made eh client : newClient guid made config eh = Ok client ->
  makeAuthentication (m_signatureScheme (kernel_common config)) (m_key (kernel_common config)) = Ok (p_auth client)
  /\ forall c, m_dealerEndPoint (channel_of c client)
               = getEndPoint (m_transport (kernel_common config)) (m_ip (kernel_common config)) (given_port config (socket_of c)).
Proof.
  unfold newClient. destruct (makeAuthentication _ _) as [auth | |]; [| done ..]. intros [= <-]. split; [done |]. by intros [].
Qed.


End Started.

(** ** The callbacks of the server *)
Section Listeners.
Context `{J : JsonLib}.

(** What a callback does to the kernel, [W]. *)
Context {W : Type}.
Definition Listener := Message -> W -> result W.

Record Listeners := {
  m_shellListener : option Listener;
  m_controlListener : option Listener;
  m_stdinListener : option Listener;
  m_internalListener : option (json -> json);
  m_busyFilter : option (str -> bool);
  m_idleListener : option (W -> result W)
}.

Definition noListeners : Listeners :=
  {| m_shellListener := None; m_controlListener := None; m_stdinListener := None; m_internalListener := None; m_busyFilter := None;
     m_idleListener := None |}.

(** The registrations: the last one counts. *)
Definition registerShellListener (l : Listener) (s : Listeners) : Listeners :=
  {| m_shellListener := Some l; m_controlListener := m_controlListener s; m_stdinListener := m_stdinListener s;
     m_internalListener := m_internalListener s; m_busyFilter := m_busyFilter s; m_idleListener := m_idleListener s |}.
Definition registerControlListener (l : Listener) (s : Listeners) : Listeners :=
  {| m_shellListener := m_shellListener s; m_controlListener := Some l; m_stdinListener := m_stdinListener s;
     m_internalListener := m_internalListener s; m_busyFilter := m_busyFilter s; m_idleListener := m_idleListener s |}.
Definition registerStdinListener (l : Listener) (s : Listeners) : Listeners :=
  {| m_shellListener := m_shellListener s; m_controlListener := m_controlListener s; m_stdinListener := Some l;
     m_internalListener := m_internalListener s; m_busyFilter := m_busyFilter s; m_idleListener := m_idleListener s |}.
Definition registerInternalListener (l : json -> json) (s : Listeners) : Listeners :=
  {| m_shellListener := m_shellListener s; m_controlListener := m_controlListener s; m_stdinListener := m_stdinListener s;
     m_internalListener := Some l; m_busyFilter := m_busyFilter s; m_idleListener := m_idleListener s |}.
Definition registerBusyShellFilter (l : str -> bool) (s : Listeners) : Listeners :=
  {| m_shellListener := m_shellListener s; m_controlListener := m_controlListener s; m_stdinListener := m_stdinListener s;
     m_internalListener := m_internalListener s; m_busyFilter := Some l; m_idleListener := m_idleListener s |}.
Definition registerIdleListener (l : W -> result W) (s : Listeners) : Listeners :=
  {| m_shellListener := m_shellListener s; m_controlListener := m_controlListener s; m_stdinListener := m_stdinListener s;
     m_internalListener := m_internalListener s; m_busyFilter := m_busyFilter s; m_idleListener := Some l |}.

(** The warning of a shell message nobody listens to is the second of the pair. *)
Definition notifyShellListener (s : Listeners) (msg : Message) (w : W) : result W * option str :=
  match m_shellListener s with
  | Some l => (l msg w, None)
  | None => (Ok w, Some ("[Warning] Shell message received but no listener is registered!"%string : str))
  end.

Definition notify_if (l : option Listener) (msg : Message) (w : W) : result W := match l with Some l => l msg w | None => Ok w end.
Definition notifyControlListener (s : Listeners) : Message -> W -> result W := notify_if (m_controlListener s).
Definition notifyStdinListener (s : Listeners) : Message -> W -> result W := notify_if (m_stdinListener s).
Definition notifyInternalListener (s : Listeners) (msg : json) : json :=
  match m_internalListener s with Some l => l msg | None => empty_object end.
Definition notifyIdle (s : Listeners) (w : W) : result W := match m_idleListener s with Some l => l w | None => Ok w end.
Definition answersWhileBusy (s : Listeners) (msg_type : str) : bool :=
  match m_busyFilter s with Some f => f msg_type | None => false end.

End Listeners.

(** ** The loggers *)
Section Logger.
Context `{J : JsonLib}.

(** [dump(4)]: it throws where the text is not UTF-8. *)
Context (dump4 : json -> result str).

Inductive level := msg_type | content | full.
Inductive log_channel := shell | control | stdinput | heartbeat.

Definition channel_str (c : log_channel) : str :=
  match c with shell => "shell"%string | control => "control"%string | stdinput => "stdin"%string | heartbeat => "heartbeat"%string end.

(** A chain: each writes, then the next. *)
Inductive Logger :=
| LoggerNolog
| LoggerConsole (m_level : level) (p_nextLogger : Logger)
| LoggerFile (m_level : level) (m_fileName : str) (p_nextLogger : Logger).

Definition next_or_none (next : option Logger) : Logger := match next with Some l => l | None => LoggerNolog end.
Definition makeConsoleLogger (l : level) (next : option Logger) : Logger := LoggerConsole l (next_or_none next).
Definition makeFileLogger (l : level) (file_name : str) (next : option Logger) : Logger := LoggerFile l file_name (next_or_none next).

(** What is written, to standard output or at the end of a file. *)
Inductive Write :=
| Console (text : str)
| File (name text : str).

(** The object that is written of a message. *)
Definition log_entry (l : level) (header parent_header metadata json_content : json) : result json :=
  let? ty := value get_str header "msg_type"%string [] in
  Ok (with_keys null (("msg_type"%string : str, mk_str ty) ::
        match l with
        | msg_type => []
        | content => [("content"%string : str, json_content)]
        | full => [("header"%string : str, header); ("parent_header"%string : str, parent_header);
                   ("metadata"%string : str, metadata); ("content"%string : str, json_content)]
        end)).

Definition newline : str := [Ascii.ascii_of_nat 10].

(** [logJsonMessage].  On the console the first line is out before the message
    is turned into text. *)
Definition log_console (socket_info : str) (message : json) : list Write * result unit :=
  match dump4 message with
  | Ok text => ([Console (socket_info ++ newline); Console (text ++ newline)], Ok tt)
  | Throw w => ([Console (socket_info ++ newline)], Throw w)
  | Undefined => ([Console (socket_info ++ newline)], Undefined)
  end.

Definition log_file (name socket_info : str) (message : json) : list Write * result unit :=
  match dump4 (with_keys null [("info"%string : str, mk_str socket_info); ("message"%string : str, message)]) with
  | Ok text => ([File name (text ++ newline)], Ok tt)
  | Throw w => ([], Throw w)
  | Undefined => ([], Undefined)
  end.

Definition and_then (first second : list Write * result unit) : list Write * result unit :=
  match first with
  | (ws, Ok _) => (ws ++ fst second, snd second)
  | stopped => stopped
  end.

Definition of_entry (entry : result json) (f : json -> list Write * result unit) : list Write * result unit :=
  match entry with Ok message => f message | Throw w => ([], Throw w) | Undefined => ([], Undefined) end.

Fixpoint logMessage (lg : Logger) (socket_info : str) (header parent_header metadata json_content : json) : list Write * result unit :=
  match lg with
  | LoggerNolog => ([], Ok tt)
  | LoggerConsole l next =>
      and_then (of_entry (log_entry l header parent_header metadata json_content) (log_console socket_info))
        (logMessage next socket_info header parent_header metadata json_content)
  | LoggerFile l name next =>
      and_then (of_entry (log_entry l header parent_header metadata json_content) (log_file name socket_info))
        (logMessage next socket_info header parent_header metadata json_content)
  end.

(** The identity as it is written; there is no first one in an empty list. *)
Definition shown_id (ids : list str) : result str :=
  match ids with
  | [] => Undefined
  | id :: _ =>
      match Utf8.LoggerUtf8.isUtf8Valid id with
      | Some true => Ok id
      | Some false => Ok ("invalid UTF8"%string : str)
      | None => Undefined
      end
  end.

Definition log_with (lg : Logger) (what : str) (c : log_channel) (ids : list str) (header parent_header metadata json_content : json)
    : list Write * result unit :=
  match lg with
  | LoggerNolog => ([], Ok tt)
  | _ =>
      match shown_id ids with
      | Ok id => logMessage lg (what ++ channel_str c ++ " - "%string ++ id) header parent_header metadata json_content
      | Throw w => ([], Throw w)
      | Undefined => ([], Undefined)
      end
  end.

Definition logReceivedMessage (lg : Logger) (m : Message) (c : log_channel) : list Write * result unit :=
  log_with lg "ADRASTEA: received message on "%string c (identities m) (m_header (base m)) (m_parentHeader (base m)) (m_metadata (base m))
    (m_content (base m)).

Definition logSentMessage (lg : Logger) (ids : list str) (header parent_header metadata json_content : json) (c : log_channel)
    : list Write * result unit :=
  log_with lg "ADRASTEA: sent message on "%string c ids header parent_header metadata json_content.

Definition logIopubMessage (lg : Logger) (topic : str) (header parent_header metadata json_content : json) : list Write * result unit :=
  logMessage lg ("ADRASTEA: sent message on iopub - "%string ++ topic) header parent_header metadata json_content.

(** What the kernel logs before it sends: [made] is the header [makeHeader]
    makes for a type. *)
Context (made : str -> json).

Definition log_action (lg : Logger) (a : Action) : list Write * result unit :=
  match a with
  | Publish topic ty parent_header metadata json_content _ _ => logIopubMessage lg topic (made ty) parent_header metadata json_content
  | SendReply ids ty parent_header metadata json_content c =>
      logSentMessage lg ids (made ty) parent_header metadata json_content (match c with SHELL => shell | CONTROL => control end)
  | SendStdin ids ty parent_header metadata json_content => logSentMessage lg ids (made ty) parent_header metadata json_content stdinput
  | BeginExecution | EndExecution | StoreInputs _ _ _ | StopServer => ([], Ok tt)
  end.

(** A logger that throws keeps the message from being sent: what is written,
    what is sent, and whether it stopped. *)
Fixpoint logged_run (lg : Logger) (actions : list Action) : list Write * list Action * result unit :=
  match actions with
  | [] => ([], [], Ok tt)
  | a :: rest =>
      match log_action lg a with
      | (ws, Ok _) => let '(ws', sent, r) := logged_run lg rest in (ws ++ ws', a :: sent, r)
      | (ws, r) => (ws, [], r)
      end
  end.

End Logger.

(** ** Logging changes nothing *)
Section Logged.
Context `{JL : JsonLaws} (dump4 : json -> result str) (made : str -> json).

(** Who a message is for. *)
Definition addressees (a : Action) : option (list str) :=
  match a with SendReply ids _ _ _ _ _ | SendStdin ids _ _ _ _ => Some ids | _ => None end.

Definition type_of_action (a : Action) : option str :=
  match a with Publish _ ty _ _ _ _ _ | SendReply _ ty _ _ _ _ | SendStdin _ ty _ _ _ => Some ty | _ => None end.

(** The first line of an entry. *)
Definition shown (ids : list str) : str :=
  match ids with
  | id :: _ => match Utf8.LoggerUtf8.isUtf8Valid id with Some true => id | _ => "invalid UTF8"%string end
  | [] => []
  end.

Definition first_line (a : Action) : option str :=
  match a with
  | Publish topic _ _ _ _ _ _ => Some ("ADRASTEA: sent message on iopub - "%string ++ topic)
  | SendReply ids _ _ _ _ c => Some ("ADRASTEA: sent message on "%string ++ of_channel c "shell"%string "control"%string ++ " - "%string ++ shown ids)
  | SendStdin ids _ _ _ _ => Some ("ADRASTEA: sent message on "%string ++ "stdin"%string ++ " - "%string ++ shown ids)
  | _ => None
  end.

(** The object of a message, at the level of the kernels' loggers. *)
Definition type_entry (ty : str) : json := with_keys null [("msg_type"%string : str, mk_str ty)].

(** The two lines of each message. *)
Definition lines (text : str -> str) (a : Action) : list Write :=
  match first_line a, type_of_action a with
  | Some info, Some ty => [Console (info ++ newline); Console (text ty ++ newline)]
  | _, _ => []
  end.

Lemma shown_id_shown ids : ids <> [] -> shown_id ids = Ok (shown ids).
Proof.
  destruct ids as [| id ids]; [done |]. intros _. cbn. destruct (Utf8.LoggerUtf8.isUtf8Valid_correct id) as (b & -> & _). by destruct b.
Qed.

Lemma log_action_lines (text : str -> str) a :
  (forall ty, value get_str (made ty) "msg_type"%string [] = Ok ty) ->
  (forall ty, type_of_action a = Some ty -> dump4 (type_entry ty) = Ok (text ty)) ->
  (forall ids, addressees a = Some ids -> ids <> []) ->
  log_action dump4 made (makeConsoleLogger msg_type None) a = (lines text a, Ok tt).
Proof.
  intros Hm Ht Hi.
  assert (Hc : forall info ty p m c, type_of_action a = Some ty ->
    logMessage dump4 (makeConsoleLogger msg_type None) info (made ty) p m c
    = ([Console (info ++ newline); Console (text ty ++ newline)], Ok tt)).
  { intros info ty p m c Hty. unfold makeConsoleLogger. cbn [logMessage next_or_none]. unfold log_entry. rewrite Hm. cbn [of_entry].
    unfold log_console. change (with_keys null _) with (type_entry ty). by rewrite (Ht ty Hty). }
  destruct a as [topic ty p m c b ch | ids ty p m c ch | ids ty p m c | | | |]; try done; cbn [log_action].
  - unfold logIopubMessage. by rewrite Hc.
  - unfold logSentMessage, log_with, makeConsoleLogger. rewrite (shown_id_shown ids) by by apply Hi.
    fold (makeConsoleLogger msg_type None). rewrite Hc by done. by destruct ch.
  - unfold logSentMessage, log_with, makeConsoleLogger. rewrite (shown_id_shown ids) by by apply Hi.
    fold (makeConsoleLogger msg_type None). by rewrite Hc.
Qed.

(** With the console logger of the kernels, a kernel sends what it sends
    without one, and writes two lines of each message, in order: the channel
    with the first identity (or that it is not UTF-8), then its type.  Without a
    logger nothing is written.  Any logger that throws keeps back that message
    and what follows, never what came before. *)
Theorem logging_transparent (text : str -> str) (actions : list Action) :
  (forall ty, value get_str (made ty) "msg_type"%string [] = Ok ty) ->
  (forall a ty, a ∈ actions -> type_of_action a = Some ty -> dump4 (type_entry ty) = Ok (text ty)) ->
  (forall a ids, a ∈ actions -> addressees a = Some ids -> ids <> []) ->
  logged_run dump4 made (makeConsoleLogger msg_type None) actions = (actions ≫= lines text, actions, Ok tt)
  /\ logged_run dump4 made LoggerNolog actions = ([], actions, Ok tt)
  /\ forall lg ws sent r, logged_run dump4 made lg actions = (ws, sent, r) ->
       sent `prefix_of` actions /\ (r = Ok tt -> sent = actions).
Proof.
  intros Hm Ht Hi. split; [| split].
  - induction actions as [| a actions IH]; [done |]. cbn [logged_run].
    rewrite (log_action_lines text) by (intros; first [by apply Hm | eapply Ht; [by left | done] | eapply Hi; [by left | done]]).
    rewrite IH; [done | |]; intros b x Hb; [apply Ht | apply Hi]; by right.
  - clear Ht Hi. induction actions as [| a actions IH]; [done |]. cbn [logged_run]. replace (log_action _ _ _ a) with (@nil Write, Ok tt).
    + by rewrite IH.
    + by destruct a.
  - clear Ht Hi. induction actions as [| a actions IH]; intros lg ws sent r; cbn [logged_run]; [by intros [= <- <- <-] |].
    destruct (log_action dump4 made lg a) as [ws1 [[] | w |]]; [| intros [= <- <- <-]; split; [apply prefix_nil | done] ..].
    destruct (logged_run dump4 made lg actions) as [[ws2 sent2] r2] eqn:Hr. intros [= <- <- <-].
    destruct (IH _ _ _ _ Hr) as [Hp He]. split; [by apply prefix_cons | intros H; by rewrite (He H)].
Qed.

End Logged.

(** ** Samples *)
Module FacadeToy.
#[local] Existing Instance Concrete.concrete.
#[local] Existing Instance Concrete.concrete_laws.
#[local] Existing Instance Stub.stub.

(** A network on which port 65536 is none, and a socket reports what it was
    bound to. *)
#[local] Instance network : Network :=
  {| refuses e := bool_decide (getSocketPort e = to_string 65536); last_endpoint e := e; error_text _ := "Address already in use"%string |}.

Lemma no_colon n : 0 < n -> ":"%char ∉ to_string n.
Proof.
  intros Hn Hin. assert (Forall (fun c => c <> ":"%char) (to_string n)) as H.
  { apply to_string_Forall; [| left; lia]. intros m. unfold pretty.pretty_N_char. by repeat case_match. }
  rewrite Forall_forall in H. by apply (H _ Hin).
Qed.

#[local] Instance network_laws : NetworkLaws network.
Proof. constructor. intros ip n Hn _. apply getSocketPort_endpoint, no_colon, Hn. Defined.

(** The control port is given, the others are the kernel's choice; 49152 is
    taken. *)
Definition asked : configuration :=
  IsKernel {| kernel_common := newCommonConfiguration []; m_kernelId := []; m_controlPort := to_string 2; m_shellPort := []; m_stdinPort := [];
              m_iopubPort := []; m_hbPort := [] |}.

Definition draw (_ : Socket) (k : nat) : Z := 49152 + Z.of_nat k.
Definition taken : Bound := {[ getEndPoint "tcp"%string "127.0.0.1"%string (to_string 49152) ]}.

Definition begun (net : Bound) : result (Engine (L := unit) * Bound) :=
  newKernel (fun _ => Ok tt) "id"%string "key"%string asked "user"%string tt true false Strict draw (fun _ => None) net.

Definition ports_of {L} (r : result (Engine (L := L) * Bound)) : option (list str) :=
  match r with Ok (e, _) => Some (given_port (m_config e) <$> [IopubS; HeartbeatS; ShellS; ControlS; StdinS]) | _ => None end.

Example ports_taken : ports_of (begun taken) = Some (to_string <$> [49153; 49154; 49155; 2; 49156]).
Proof. vm_compute. reflexivity. Qed.

Lemma begun_ok : exists engine net', begun taken = Ok (engine, net').
Proof. pose proof ports_taken as H. destruct (begun taken) as [[e n] | |]; [by exists e, n | discriminate H ..]. Qed.

(** A given port somebody has: the start says which. *)
Example port_taken : begun {[ getEndPoint "tcp"%string "127.0.0.1"%string (to_string 2) ]}
  = Throw "cannot bind tcp://127.0.0.1:2: Address already in use (the port was chosen by whoever started this process, and something else has it)"%string.
Proof. vm_compute. reflexivity. Qed.

(** What a socket of another transport reports is no port: a client made from it
    dials what nobody is bound to. *)
Example ipc_unreachable :
  let common := {| m_transport := "ipc"%string : str; m_ip := "/tmp/k"%string : str; m_signatureScheme := "hmac-sha256"%string : str; m_key := "k"%string : str |} in
  match newKernel (L := unit) (fun _ => Ok tt) "id"%string "key"%string (IsKernel (newKernelConfiguration common)) "user"%string tt true false Strict draw
          (fun _ => None) ∅ with
  | Ok (engine, _) =>
      s_endpoint (p_server engine) ShellS = ("ipc:///tmp/k-49154"%string : str)
      /\ match newClient "guid"%string (fun _ => []) (m_config engine) Strict with
         | Ok client => m_dealerEndPoint (channel_of Shell client) = ("ipc:///tmp/k-///tmp/k-49154"%string : str)
         | _ => False
         end
  | _ => False
  end.
Proof. vm_compute. split; reflexivity. Qed.


(** The Python kernel without the supervisor's port and key; and with them, when
    the registration is not answered. *)
Definition python (argv : list str) : result Z :=
  carpo_main (fun _ : unit => Ok tt) (fun _ => Ok tt) (fun _ => Ok tt) argv (fun _ => []) ∅ "id"%string "key"%string "user"%string false draw taken
    (fun _ => None).

Example python_starts :
  python ["carpo"%string : str] = Ok 1
  /\ carpo_options ["carpo"%string : str; "--venv-path"%string : str; "/v"%string : str; "--registration-port"%string : str; "7"%string : str]
     = {| o_rHome := []; o_rPath := []; o_rLibs := []; o_pandocPath := []; o_pythonHome := []; o_pythonPath := []; o_venvPath := "/v"%string;
          o_stataHome := []; o_stataEdition := []; o_registrationIp := "127.0.0.1"%string; o_registrationPort := "7"%string;
          o_registrationId := []; o_key := []; o_connectionFile := [] |}
  /\ python ["carpo"%string : str; "--registration-port"%string : str; "7"%string : str; "--key"%string : str; "k"%string : str] = Ok 1.
Proof. split_and!; vm_compute; reflexivity. Qed.

(** A header that is its type, and a text that is it. *)
Definition made_header (ty : str) : json := with_keys null [("msg_type"%string : str, mk_str ty)].
Definition dump_type (j : json) : result str := value get_str j "msg_type"%string [].

Definition sample_actions : list Action :=
  [Publish "kernel_core.id.status"%string "status"%string null null null [] SHELL; BeginExecution;
   SendReply ["client"%string : str] "execute_reply"%string null null null SHELL].

Lemma made_type ty : value get_str (made_header ty) "msg_type"%string [] = Ok ty.
Proof. reflexivity. Qed.

Lemma logging_transparent_witness :
  logged_run dump_type made_header (makeConsoleLogger msg_type None) sample_actions
  = ([Console ("ADRASTEA: sent message on iopub - kernel_core.id.status"%string ++ newline); Console ("status"%string ++ newline);
      Console ("ADRASTEA: sent message on shell - client"%string ++ newline); Console ("execute_reply"%string ++ newline)],
     sample_actions, Ok tt).
Proof.
  destruct (logging_transparent dump_type made_header (fun t => t) sample_actions made_type) as (H & _).
  - intros a ty _ _. apply made_type.
  - intros a ids Ha. unfold sample_actions in Ha. rewrite !elem_of_cons, elem_of_nil in Ha.
    destruct Ha as [-> | [-> | [-> | []]]]; cbn [addressees]; intros E; inversion E; discriminate.
  - exact H.
Defined.

(** A content that is not UTF-8, at the level that writes it: the message is not
    sent. *)
Example logger_withholds :
  logged_run (fun _ => Throw "[json.exception.type_error.316]"%string) made_header (makeFileLogger content "log"%string None) sample_actions
  = ([], [], Throw "[json.exception.type_error.316]"%string).
Proof. reflexivity. Qed.

End FacadeToy.
