(* ===== verification/Carpo.v ===== *)
(** * The Python interpreter (carpo/interpreter_py.cpp, include/carpo/interpreter_py.hpp)

    [PyInterpreter] embeds CPython.  What a request does is written in Python,
    in the bootstrap source the file carries ([kBootstrapSource]); the C++
    around it passes text in and out, publishes, and replies.  Both are here,
    the Python with its own names.

    CPython, its standard library and the packages a user loads are not part of
    the program: they are the fields of [Python].  Whatever can run a user's code
    - evaluating a cell, but also [repr], [str] of an exception, [len], a
    property - is an operation of it, an [Op]: what the code writes to
    sys.stdout and sys.stderr and asks with input(), in order, and then a value
    or an exception and Python's new state.  [run_exec] runs one against the
    native functions the bootstrap is given.  Code that never returns is not an
    [Exec], and threads of the user's, which print at any time, are not modelled.

    The times and what the client answers to input() are oracles, read one
    after the other. *)

From Stdlib Require Import Ascii String ZArith Lia.
From stdpp Require Import base list strings sorting.
From S2P Require Import Prelude Utf8 StataCode PyText Json Interpreter Comm Kernel.

Local Open Scope Z_scope.
Local Open Scope jovian_scope.

(** ** Python *)

(** A value, or an exception that was raised. *)
Inductive outcome (exn A : Type) := Val (a : A) | Exc (e : exn).
Arguments Val {exn A} a.
Arguments Exc {exn A} e.

(** Code of Python's that runs: [Writes] is a call of a stream's [write] ([err]:
    of stderr), [Asks] of input() with the text of its prompt. *)
Inductive Exec (world exn A : Type) :=
| Finished (r : outcome exn A) (w : world)
| Writes (err : bool) (s : pystr) (k : Exec world exn A)
| Asks (prompt : pystr) (k : outcome exn pystr -> Exec world exn A).
Arguments Finished {world exn A} r w.
Arguments Writes {world exn A} err s k.
Arguments Asks {world exn A} prompt k.

Abbreviation Op world exn A := (world -> Exec world exn A).

(** What json.loads makes, and json.dumps takes; a float is its text. *)
Inductive pyjson :=
| PNull
| PBool (b : bool)
| PInt (z : Z)
| PFloat (text : pystr)
| PStr (s : pystr)
| PList (l : list pyjson)
| PDict (l : list (pystr * pyjson)).

(** A value of pydoc's tables: a text, a tuple, or something else. *)
Inductive Target := TText (s : pystr) | TTuple (l : list Target) | TOther.

Class Python := {
  object : Type;
  exception : Type;
  world : Type;
  loop : Type;
  statement : Type;
  expression : Type;
  compiled : Type;

  (** exceptions: [isinstance] of the classes the bootstrap names, and those it
      or CPython raises *)
  is_Exception : exception -> bool;
  is_compile_error : exception -> bool;
  is_signature_error : exception -> bool;
  exc_name : exception -> pystr;
  exc_str : exception -> Op world exception pystr;
  format_exception : exception -> Op world exception (list pystr);
  print_exc : exception -> Op world exception unit;
  RuntimeError : str -> exception;
  UnicodeDecodeError : str -> exception;
  KeyError : pystr -> exception;
  TypeError : pystr -> exception;
  AttributeError : pystr -> exception;
  IndexError : exception;

  (** the language: [ast.parse], [ast.Expr], [compile], CO_COROUTINE, [eval] in
      the dict of __main__ *)
  ast_parse : pystr -> Op world exception (list statement);
  expr_value : statement -> option expression;
  compile_exec : list statement -> Op world exception compiled;
  compile_eval : expression -> Op world exception compiled;
  co_coroutine : compiled -> bool;
  eval_code : compiled -> Op world exception object;
  eval_text : pystr -> Op world exception object;
  import_ : pystr -> Op world exception unit;
  is_None : object -> bool;
  repr : object -> Op world exception pystr;
  py_str : object -> Op world exception pystr;
  (** the dict of __main__, in its order *)
  globals : world -> list (pystr * object);

  (** asyncio *)
  new_event_loop : Op world exception loop;
  set_event_loop : loop -> Op world exception unit;
  is_closed : world -> loop -> bool;
  is_running : world -> loop -> bool;
  has_work : world -> loop -> bool;
  run_until_complete : loop -> object -> Op world exception object;
  call_soon_stop : loop -> Op world exception unit;
  run_forever : loop -> Op world exception unit;

  (** codeop, rlcompleter, inspect, pydoc, keyword, reprlib *)
  compile_command : pystr -> Op world exception (option compiled);
  new_completer : Op world exception object;
  completer_complete : object -> pystr -> nat -> Op world exception (option pystr);
  signature_text : object -> Op world exception pystr;
  getdoc : object -> Op world exception (option pystr);
  iskeyword : pystr -> bool;
  helper_keywords : world -> pystr -> option Target;
  helper_topics : world -> pystr -> option Target;
  topics_section : world -> pystr -> option pystr;
  upper : pystr -> pystr;
  isalnum : Z -> bool;
  short_repr : object -> Op world exception pystr;

  (** an object: its type's name and module ([None]: not a string), and what
      the variables pane asks of it *)
  type_name : object -> pystr;
  type_module : object -> option pystr;
  callable : object -> bool;
  is_type : object -> bool;
  is_module : object -> bool;
  ndim : object -> Z;
  (** [getattr(v, "shape", None)], when it is a tuple of integers *)
  shape_of : object -> Op world exception (option (list Z));
  rows_and_columns : object -> Op world exception (Z * Z);
  py_len : object -> Op world exception Z;
  (** [getattr(v, "__name__", "function")] *)
  callable_name : object -> Op world exception pystr;

  (** pandas, polars and numpy *)
  to_frame : object -> Op world exception object;
  frame_length : object -> Op world exception Z;
  frame_columns : object -> Op world exception (list (object * object));
  iloc : object -> Z -> Z -> Op world exception object;
  itertuples : object -> Op world exception (list (list object));
  plain_index : object -> Op world exception bool;
  index_labels : object -> Op world exception (list object);
  frame_slice : object -> Z -> Z -> Op world exception object;
  frame_rows : object -> Op world exception (list (list object));
  reshape_column : object -> Op world exception object;
  array_dimension : object -> nat -> Op world exception Z;
  dtype_text : object -> Op world exception pystr;
  array_slice : object -> Z -> Z -> Op world exception object;
  tolist : object -> Op world exception (list (list object));

  (** floats and json *)
  is_float : object -> bool;
  is_nan : object -> bool;
  float_repr : object -> pystr;
  json_loads : pystr -> outcome exception pyjson;
  json_dumps : pyjson -> pystr;
  json_text : pyjson -> pystr;
  int_of_float : pystr -> outcome exception Z;
  int_of_str : pystr -> outcome exception Z
}.

Section Carpo.
Context `{J : JsonLib} `{Py : !Python}.

(** The clock, as it is read, and what the client answers to each input
    request: a text, or what the request throws. *)
Context (times : nat -> Z) (answer : nat -> str + str).

(** The object, with Python's state and the bootstrap's own variable.
    [bootstrapFns] is whether the functions of the bootstrap are held. *)
Record PyInterpreter := {
  bootstrapFns : bool;
  m_languageVersion : str;
  m_ownsInterpreter : bool;
  m_executing : bool;
  m_finalized : bool;
  (** of the base class: whether the request allows input *)
  allowsStdin : bool;
  _carpo_loop : option loop;
  python : world;
  (** ours: how often the clock was read and input asked for, what was asked of
      the base class, the interrupts raised, and the calls of Py_FinalizeEx *)
  ticks : nat;
  questions : nat;
  calls : list Call;
  sigints : nat;
  finalizations : nat
}.

Definition upd_executing b i := Build_PyInterpreter (bootstrapFns i) (m_languageVersion i) (m_ownsInterpreter i) b (m_finalized i) (allowsStdin i) (_carpo_loop i) (python i) (ticks i) (questions i) (calls i) (sigints i) (finalizations i).
Definition upd_finalized fns b n i := Build_PyInterpreter fns (m_languageVersion i) (m_ownsInterpreter i) (m_executing i) b (allowsStdin i) (_carpo_loop i) (python i) (ticks i) (questions i) (calls i) (sigints i) n.
Definition upd_stdin b i := Build_PyInterpreter (bootstrapFns i) (m_languageVersion i) (m_ownsInterpreter i) (m_executing i) (m_finalized i) b (_carpo_loop i) (python i) (ticks i) (questions i) (calls i) (sigints i) (finalizations i).
Definition upd_loop l i := Build_PyInterpreter (bootstrapFns i) (m_languageVersion i) (m_ownsInterpreter i) (m_executing i) (m_finalized i) (allowsStdin i) l (python i) (ticks i) (questions i) (calls i) (sigints i) (finalizations i).
Definition upd_python w i := Build_PyInterpreter (bootstrapFns i) (m_languageVersion i) (m_ownsInterpreter i) (m_executing i) (m_finalized i) (allowsStdin i) (_carpo_loop i) w (ticks i) (questions i) (calls i) (sigints i) (finalizations i).
Definition upd_ticks n i := Build_PyInterpreter (bootstrapFns i) (m_languageVersion i) (m_ownsInterpreter i) (m_executing i) (m_finalized i) (allowsStdin i) (_carpo_loop i) (python i) n (questions i) (calls i) (sigints i) (finalizations i).
Definition upd_questions n i := Build_PyInterpreter (bootstrapFns i) (m_languageVersion i) (m_ownsInterpreter i) (m_executing i) (m_finalized i) (allowsStdin i) (_carpo_loop i) (python i) (ticks i) n (calls i) (sigints i) (finalizations i).
Definition upd_calls cs i := Build_PyInterpreter (bootstrapFns i) (m_languageVersion i) (m_ownsInterpreter i) (m_executing i) (m_finalized i) (allowsStdin i) (_carpo_loop i) (python i) (ticks i) (questions i) cs (sigints i) (finalizations i).
Definition upd_sigints n i := Build_PyInterpreter (bootstrapFns i) (m_languageVersion i) (m_ownsInterpreter i) (m_executing i) (m_finalized i) (allowsStdin i) (_carpo_loop i) (python i) (ticks i) (questions i) (calls i) n (finalizations i).

(** ** The native functions *)

(** A function of the base class, at the time it is called. *)
Definition publish (f : Z -> Call) (i : PyInterpreter) : PyInterpreter :=
  upd_calls (calls i ++ [f (times (ticks i))]) (upd_ticks (S (ticks i)) i).

Definition carpoNativeWrite (streamName : str) (text : pystr) (i : PyInterpreter) : PyInterpreter :=
  let t := pyUnicodeToStdString text in
  if bool_decide (t = []) then i else publish (Stream streamName t) i.

Definition carpoNativeWriteStdout : pystr -> PyInterpreter -> PyInterpreter := carpoNativeWrite "stdout"%string.
Definition carpoNativeWriteStderr : pystr -> PyInterpreter -> PyInterpreter := carpoNativeWrite "stderr"%string.

(** [_CarpoStream.write] *)
Definition stream_write (err : bool) (s : pystr) (i : PyInterpreter) : PyInterpreter :=
  if bool_decide (s = []) then i else (if err then carpoNativeWriteStderr else carpoNativeWriteStdout) s i.

Definition not_allowed : str :=
  ("This execution didn't allow interactive input (allow_stdin was false) -- " ++
   "the caller needs to opt in (e.g. execute(code, { allowStdin: true })) and be " ++
   "ready to answer an input_request for a blocking read like this to work.")%string.

(** [blockingInputRequest]: the answer, or what it throws. *)
Definition blockingInputRequest (prompt : str) (allow : bool) (i : PyInterpreter) : (str + str) * PyInterpreter :=
  if allow then
    let i := publish (Input prompt false null) i in
    (answer (questions i), upd_questions (S (questions i)) i)
  else (inr not_allowed, i).

Definition carpoNativeInput (prompt : pystr) (i : PyInterpreter) : outcome exception pystr * PyInterpreter :=
  let (r, i) := blockingInputRequest (pyUnicodeToStdString prompt) (allowsStdin i) i in
  match r with
  | inr error =>
      (Exc (RuntimeError (c_str (if bool_decide (error = []) then "input request failed"%string else error))), i)
  | inl value =>
      (match PyUnicode_FromString value with Some s => Val s | None => Exc (UnicodeDecodeError (c_str value)) end, i)
  end.

(** [prompt] is the text it already is: [str(prompt)]. *)
Definition __carpo_input : pystr -> PyInterpreter -> outcome exception pystr * PyInterpreter := carpoNativeInput.

(** ** Running Python *)

Definition M (A : Type) : Type := PyInterpreter -> outcome exception A * PyInterpreter.
Definition ret {A} (a : A) : M A := fun i => (Val a, i).
Definition raise {A} (e : exception) : M A := fun i => (Exc e, i).
Definition bind {A B} (m : M A) (f : A -> M B) : M B :=
  fun i => match m i with (Val a, i) => f a i | (Exc e, i) => (Exc e, i) end.
(** [try: m except <the exceptions that match>: h] *)
Definition catch_if {A} (matches : exception -> bool) (m : M A) (h : exception -> M A) : M A :=
  fun i => match m i with (Exc e, i) => if matches e then h e i else (Exc e, i) | r => r end.
Definition catch {A} (m : M A) (h : exception -> M A) : M A := catch_if (fun _ => true) m h.
(** What [m] ends with, for what comes after it to look at. *)
Definition attempt {A} (m : M A) : M (outcome exception A) := fun i => let (r, i) := m i in (Val r, i).
Definition lift {A} (o : outcome exception A) : M A := fun i => (o, i).

Notation "'let*' x ':=' m 'in' f" := (bind m (fun x => f)) (at level 200, x pattern, m at level 100, f at level 200).

Fixpoint run_exec {A} (x : Exec world exception A) : M A :=
  match x with
  | Finished r w => fun i => (r, upd_python w i)
  | Writes err s k => fun i => run_exec k (stream_write err s i)
  | Asks prompt k => fun i => let (r, i) := __carpo_input prompt i in run_exec (k r) i
  end.

Definition py {A} (op : Op world exception A) : M A := fun i => run_exec (op (python i)) i.

(** What depends on Python's state. *)
Definition gets {A} (f : world -> A) : M A := fun i => (Val (f (python i)), i).

Fixpoint mapM {A B} (f : A -> M B) (l : list A) : M (list B) :=
  match l with [] => ret [] | x :: l => let* y := f x in let* ys := mapM f l in ret (y :: ys) end.

(** ** The bootstrap: a cell *)

Definition _carpo_event_loop : M loop :=
  let* _ := py (import_ (lit "asyncio"%string)) in
  let* l := (fun i =>
    match _carpo_loop i with
    | Some l => if is_closed (python i) l then (Val None, i) else (Val (Some l), i)
    | None => (Val None, i)
    end) in
  let* l := match l with
            | Some l => ret l
            | None => let* l := py new_event_loop in fun i => (Val l, upd_loop (Some l) i)
            end in
  let* _ := py (set_event_loop l) in
  ret l.

Definition _carpo_evaluate (c : compiled) : M object :=
  if co_coroutine c then
    let* l := _carpo_event_loop in
    let* coroutine := py (eval_code c) in
    py (run_until_complete l coroutine)
  else py (eval_code c).

Definition __carpo_idle : M unit :=
  fun i =>
    match _carpo_loop i with
    | None => (Val tt, i)
    | Some l =>
        if is_closed (python i) l || is_running (python i) l then (Val tt, i)
        else if negb (has_work (python i) l) then (Val tt, i)
        else (let* _ := py (call_soon_stop l) in catch (py (run_forever l)) (fun e => py (print_exc e))) i
    end.

(** The tuple that [__carpo_run] returns. *)
Record RunResult := {
  status : pystr;
  has_result : Z;
  result_repr : pystr;
  ename : pystr;
  evalue : pystr;
  tb_lines : list pystr
}.

(** The statements but a last expression, and that expression. *)
Definition split_trailing (body : list statement) : list statement * option expression :=
  match last body with
  | Some s => match expr_value s with Some e => (removelast body, Some e) | None => (body, None) end
  | None => (body, None)
  end.

(** The value of the last expression, when there is one. *)
Definition evaluate_cell (code_ : pystr) : M (option object) :=
  let* _ := _carpo_event_loop in
  let* tree := py (ast_parse code_) in
  let (body, trailing_expr) := split_trailing tree in
  let* _ := (if bool_decide (body = []) then ret tt
             else let* c := py (compile_exec body) in let* _ := _carpo_evaluate c in ret tt) in
  match trailing_expr with
  | None => ret None
  | Some e => let* c := py (compile_eval e) in let* result := _carpo_evaluate c in ret (Some result)
  end.

Definition ok_result (has : Z) (text : pystr) : RunResult :=
  {| status := lit "ok"%string; has_result := has; result_repr := text; ename := []; evalue := []; tb_lines := [] |}.

(** [except BaseException as e]; [has]: whether a result was found before. *)
Definition run_failed (has : Z) (e : exception) : M RunResult :=
  let* evalue := py (exc_str e) in
  let* tb_lines := py (format_exception e) in
  ret {| status := lit "error"%string; has_result := has; result_repr := []; ename := exc_name e; evalue := evalue;
         tb_lines := tb_lines |}.

Definition __carpo_run (code_ : pystr) : M RunResult :=
  let* value := attempt (evaluate_cell code_) in
  match value with
  | Exc e => run_failed 0 e
  | Val None => ret (ok_result 0 [])
  | Val (Some result) =>
      if is_None result then ret (ok_result 0 [])
      else
        let* text := attempt (py (repr result)) in
        match text with Val text => ret (ok_result 1 text) | Exc e => run_failed 1 e end
  end.

Definition __carpo_is_complete (code_ : pystr) : M pystr :=
  catch_if is_compile_error
    (let* result := py (compile_command code_) in
     ret (match result with None => lit "incomplete"%string | Some _ => lit "complete"%string end))
    (fun _ => ret (lit "invalid"%string)).

(** ** The bootstrap: completion *)

(** The loop: [more] turns are left of the 500. *)
Fixpoint complete_loop (more : nat) (completer : object) (token : pystr) (matches_ : list pystr) (state : nat) : M (list pystr) :=
  match more with
  | O => ret matches_
  | S more =>
      let* candidate := catch_if is_Exception (py (completer_complete completer token state)) (fun _ => ret None) in
      match candidate with
      | None => ret matches_
      | Some c => complete_loop more completer token (if bool_decide (c ∈ matches_) then matches_ else matches_ ++ [c]) (S state)
      end
  end.

Definition __carpo_complete (code_ : pystr) (cursor_pos : Z) : M (list pystr * Z * Z) :=
  let prefix := slice code_ 0 cursor_pos in
  let token := token_of prefix in
  let cursor_start := cursor_pos - len token in
  let* completer := py new_completer in
  let* matches_ := complete_loop 500 completer token [] 0 in
  ret (matches_, cursor_start, cursor_pos).

(** ** The bootstrap: help *)

Definition truthy (t : option Target) : option Target :=
  match t with Some (TText []) | Some (TTuple []) => None | _ => t end.

(** A keyword names its topic, which names its section: [None] is an IndexError,
    or no text. *)
Fixpoint resolve (w : world) (turns : nat) (target : Target) : option Target :=
  match turns with
  | O => Some target
  | S turns =>
      match target with TTuple l => head l | _ => Some target end ≫= fun target =>
      match target with
      | TText s => match helper_topics w s with Some t => resolve w turns t | None => Some target end
      | _ => Some target
      end
  end.

Definition keyword_section (w : world) (word : pystr) : option pystr :=
  match truthy (helper_keywords w word) with
  | Some t => resolve w 3 t
  | None => helper_topics w (upper word) ≫= resolve w 3
  end ≫= fun target => match target with TText s => if bool_decide (s = []) then None else Some s | _ => None end.

Definition _carpo_keyword_help (word : pystr) : M (option pystr) :=
  let* _ := py (import_ (lit "keyword"%string)) in
  if negb (iskeyword word) then ret None
  else catch_if is_Exception
    (let* _ := py (import_ (lit "pydoc"%string)) in
     let* target := gets (fun w => keyword_section w word) in
     match target with
     | None => ret None
     | Some target =>
         let* _ := py (import_ (lit "pydoc_data"%string)) in
         let* text := gets (fun w => topics_section w target) in
         ret (text ≫= fun text => if bool_decide (strip text = []) then None else Some (strip text))
     end) (fun _ => ret None).

(** The end of the name the cursor is in.  [None] is the IndexError of a cursor
    before the text; as many turns as there are characters after the cursor
    are enough. *)
Fixpoint name_end (turns : nat) (code_ : pystr) (end_ : Z) : option Z :=
  match turns with
  | O => Some end_
  | S turns =>
      match py_index code_ end_ with
      | None => None
      | Some c => if isalnum c || (c =? 0x5F) then name_end turns code_ (end_ + 1) else Some end_
      end
  end.

Definition newline_text : pystr := [10].

Definition __carpo_inspect (code_ : pystr) (cursor_pos : Z) : M (Z * pystr) :=
  match name_end (Z.to_nat (len code_ - cursor_pos)) code_ cursor_pos with
  | None => raise IndexError
  | Some end_ =>
      let token := token_of (slice code_ 0 end_) in
      if bool_decide (token = []) then ret (0, [])
      else
        let* keyword_help := _carpo_keyword_help token in
        match keyword_help with
        | Some help => ret (1, help)
        | None =>
            let* obj := catch_if is_Exception (let* o := py (eval_text token) in ret (Some o)) (fun _ => ret None) in
            match obj with
            | None => ret (0, [])
            | Some obj =>
                let* parts := catch_if is_signature_error (let* s := py (signature_text obj) in ret [token ++ s]) (fun _ => ret []) in
                let parts := parts ++ [lit "Type: "%string ++ type_name obj] in
                let* doc := py (getdoc obj) in
                let* parts := match default [] doc with
                              | [] => catch_if is_Exception (let* r := py (repr obj) in ret (parts ++ [[]; r]))
                                                            (fun _ => ret (parts ++ [[]]))
                              | doc => ret (parts ++ [[]; doc])
                              end in
                ret (1, join_words newline_text parts)
            end
        end
  end.

(** Backs user_expressions: the status, the text or the exception's name, its
    text. *)
Definition __carpo_eval_expr (expr : pystr) : M (pystr * pystr * pystr) :=
  catch (let* value := py (eval_text expr) in let* text := py (repr value) in ret (lit "ok"%string, text, []))
        (fun e => let* text := py (exc_str e) in ret (lit "error"%string, exc_name e, text)).

(** ** The bootstrap: the session's variables *)

Definition _CARPO_MAX_OBJECTS : nat := 5000.

Inductive Kind := Pandas | Polars | Numpy.

(** [t.__module__.split(".")[0]] *)
Definition first_module (m : pystr) : pystr := fst (span (fun c => negb (c =? 0x2E)) m).

Definition frame_name (s : pystr) : bool := bool_decide (s = lit "DataFrame"%string) || bool_decide (s = lit "Series"%string).

Definition _carpo_table_kind (v : object) : M (option Kind) :=
  match type_module v with
  | None => raise (AttributeError (lit "split"%string))
  | Some m =>
      let module := first_module m in
      ret (if bool_decide (module = lit "pandas"%string) && frame_name (type_name v) then Some Pandas
           else if bool_decide (module = lit "polars"%string) && frame_name (type_name v) then Some Polars
           else if bool_decide (module = lit "numpy"%string) && bool_decide (type_name v = lit "ndarray"%string)
                   && ((ndim v =? 1) || (ndim v =? 2)) then Some Numpy
           else None)
  end.

(** The multiplication sign between spaces. *)
Definition times_text : pystr := [0x20; 0xD7; 0x20].

Definition _carpo_size (v : object) : M pystr :=
  let* shape := py (shape_of v) in
  match shape with
  | Some dims => ret (join_words times_text (thousands <$> dims))
  | None =>
      if callable v || is_type v then ret []
      else catch_if is_Exception (let* n := py (py_len v) in ret (thousands n)) (fun _ => ret [])
  end.

(** The text of a preview: what is shown as it is ([inl]), or has its white
    space folded ([inr]). *)
Definition preview_text (v : object) : M (pystr + pystr) :=
  let* kind := _carpo_table_kind v in
  if match kind with Some Pandas | Some Polars => bool_decide (type_name v = lit "DataFrame"%string) | _ => false end then
    let* shape := py (rows_and_columns v) in
    ret (inl (thousands shape.1 ++ lit " rows"%string ++ times_text ++ lit (to_string shape.2) ++ lit " columns"%string))
  else
    let* signature := (if callable v && negb (is_type v)
                       then catch_if is_signature_error
                              (let* n := py (callable_name v) in let* s := py (signature_text v) in ret (Some (n ++ s)))
                              (fun _ => ret None)
                       else ret None) in
    match signature with
    | Some text => ret (inl text)
    | None => let* text := py (short_repr v) in ret (inr text)
    end.

Definition _carpo_preview (v : object) : M pystr :=
  let* text := catch_if is_Exception (preview_text v) (fun _ => ret (inr [])) in
  ret (match text with inl text => text | inr text => one_line_preview text end).

Fixpoint dict_get {V} (key : pystr) (d : list (pystr * V)) : option V :=
  match d with [] => None | (k, v) :: d => if bool_decide (k = key) then Some v else dict_get key d end.

(** What the pane shows of a variable. *)
Definition variable_entry (name : pystr) (v : object) : M pyjson :=
  let* size := _carpo_size v in
  let* summary := _carpo_preview v in
  let* kind := _carpo_table_kind v in
  ret (PDict [(lit "name"%string, PStr name); (lit "type"%string, PStr (type_name v)); (lit "size"%string, PStr size);
              (lit "summary"%string, PStr summary); (lit "table"%string, PBool (match kind with Some _ => true | None => false end))]).

(** [name.startswith("_")] *)
Definition hidden (name : pystr) : bool := match name with c :: _ => c =? 0x5F | [] => false end.

(** The loop over the names; [out] is what it has listed. *)
Fixpoint list_variables (names : list pystr) (out : list pyjson) : M (list pyjson) :=
  match names with
  | [] => ret out
  | name :: names =>
      if hidden name then list_variables names out
      else
        let* v := gets (fun w => dict_get name (globals w)) in
        match v with
        | None => raise (KeyError name)
        | Some v =>
            if is_module v then list_variables names out
            else
              let* entry := variable_entry name v in
              let out := out ++ [entry] in
              if (_CARPO_MAX_OBJECTS <=? length out)%nat then ret out else list_variables names out
        end
  end.

Definition _carpo_variables (expr : pystr) : M pystr :=
  let* names := gets (fun w => py_sorted (globals w).*1) in
  let* out := list_variables names [] in
  ret (json_dumps (PList out)).

(** ** The bootstrap: a page of a table *)

Definition _carpo_cell (x : object) : M pyjson :=
  if is_None x then ret (PStr (lit "None"%string))
  else if is_float x then ret (PStr (if is_nan x then lit "NaN"%string else float_repr x))
  else let* text := py (py_str x) in ret (PStr (if len text <=? 1000 then text else slice text 0 1000)).

(** [int(x)] *)
Definition int_of (x : pyjson) : outcome exception Z :=
  match x with
  | PInt z => Val z
  | PBool b => Val (if b then 1 else 0)
  | PFloat text => int_of_float text
  | PStr s => int_of_str s
  | _ => Exc (TypeError (lit "int() argument must be a string, a bytes-like object or a real number"%string))
  end.

(** The variable a request names: only a string can be one; a list or a dict
    cannot be looked up at all. *)
Definition named_variable (name : pyjson) : M object :=
  match name with
  | PList _ | PDict _ => raise (TypeError (lit "unhashable type"%string))
  | PStr s =>
      let* v := gets (fun w => dict_get s (globals w)) in
      match v with Some v => ret v | None => raise (KeyError (lit "no variable "%string ++ s)) end
  | _ => raise (KeyError (lit "no variable "%string ++ json_text name))
  end.

(** What a page is made of: the size of the table, its columns, the labels of
    the rows, and the rows. *)
Record Page := { page_n : Z; page_columns : list pyjson; page_rows : list (list pyjson); page_labels : pyjson }.

Definition column (c : object * object) : M pyjson :=
  let* name := py (py_str c.1) in
  let* type_ := py (py_str c.2) in
  ret (PDict [(lit "name"%string, PStr name); (lit "type"%string, PStr type_)]).

Definition series_as_frame (v : object) : M object :=
  if bool_decide (type_name v = lit "Series"%string) then py (to_frame v) else ret v.

Definition pandas_page (v : object) (start count : Z) : M Page :=
  let* frame := series_as_frame v in
  let* n := py (frame_length frame) in
  let* pairs := py (frame_columns frame) in
  let* columns := mapM column pairs in
  let* page := py (iloc frame (start - 1) (start - 1 + count)) in
  let* tuples := py (itertuples page) in
  let* rows := mapM (mapM _carpo_cell) tuples in
  let* plain := py (plain_index frame) in
  let* labels := (if plain : bool then ret PNull
                  else let* labels := py (index_labels page) in let* cells := mapM _carpo_cell labels in ret (PList cells)) in
  ret {| page_n := n; page_columns := columns; page_rows := rows; page_labels := labels |}.

Definition polars_page (v : object) (start count : Z) : M Page :=
  let* frame := series_as_frame v in
  let* n := py (frame_length frame) in
  let* pairs := py (frame_columns frame) in
  let* columns := mapM column pairs in
  let* page := py (frame_slice frame (start - 1) count) in
  let* tuples := py (frame_rows page) in
  let* rows := mapM (mapM _carpo_cell) tuples in
  ret {| page_n := n; page_columns := columns; page_rows := rows; page_labels := PNull |}.

Definition numpy_column (v : object) (j : nat) : M pyjson :=
  let* dtype := py (dtype_text v) in
  ret (PDict [(lit "name"%string, PStr (lit (to_string (Z.of_nat j)))); (lit "type"%string, PStr dtype)]).

Definition numpy_page (v : object) (start count : Z) : M Page :=
  let* array := (if ndim v =? 1 then py (reshape_column v) else ret v) in
  let* n := py (array_dimension array 0) in
  let* width := py (array_dimension array 1) in
  let* columns := mapM (numpy_column v) (seq 0 (Z.to_nat width)) in
  let* page := py (array_slice array (start - 1) (start - 1 + count)) in
  let* tuples := py (tolist page) in
  let* rows := mapM (mapM _carpo_cell) tuples in
  ret {| page_n := n; page_columns := columns; page_rows := rows; page_labels := PNull |}.

(** [request.get(key, default)]: a value that is no dict has no [get]. *)
Definition request_get (request : pyjson) (key : str) (default_ : pyjson) : M pyjson :=
  match request with
  | PDict d => ret (default default_ (dict_get (lit key) d))
  | _ => raise (AttributeError (lit "get"%string))
  end.

Definition _carpo_table (expr : pystr) : M pystr :=
  let* request := lift (json_loads (if bool_decide (expr = []) then lit "{}"%string else expr)) in
  let* name := request_get request "name"%string PNull in
  let* v := named_variable name in
  let* kind := _carpo_table_kind v in
  match kind with
  | None => raise (TypeError (json_text name ++ lit " is not a DataFrame, a Series or an array"%string))
  | Some kind =>
      let* start := request_get request "start"%string (PInt 1) in
      let* start := lift (int_of start) in
      let start := Z.max 1 start in
      let* count := request_get request "count"%string (PInt 100) in
      let* count := lift (int_of count) in
      let count := Z.max 0 (Z.min count 100000) in
      let* page := match kind with
                   | Pandas => pandas_page v start count
                   | Polars => polars_page v start count
                   | Numpy => numpy_page v start count
                   end in
      ret (json_dumps (PDict
        [(lit "name"%string, name); (lit "rowCount"%string, PInt (page_n page)); (lit "columns"%string, PList (page_columns page));
         (lit "start"%string, PInt start); (lit "count"%string, PInt (Z.of_nat (length (page_rows page))));
         (lit "rowLabels"%string, page_labels page); (lit "rows"%string, PList (PList <$> page_rows page))]))
  end.

(** The user expressions Carpo answers itself; [None] for an ordinary one. *)
Definition __carpo_answer (key expr : pystr) : M (option (pystr * pystr * pystr)) :=
  let answered (f : pystr -> M pystr) :=
    catch (let* text := f expr in ret (Some (lit "ok"%string, text, [])))
          (fun e => let* text := py (exc_str e) in ret (Some (lit "error"%string, exc_name e, text))) in
  if bool_decide (key = lit ".jovian_variables"%string) then answered _carpo_variables
  else if bool_decide (key = lit ".jovian_table"%string) then answered _carpo_table
  else ret None.

(** ** The C++ around it *)

(** What a Python error was: [describePythonError] of a raised [e]. *)
Definition describePythonError (context : str) (e : exception) (i : PyInterpreter) : str * PyInterpreter :=
  let name := pyUnicodeToStdString (exc_name e) in
  let ename := if bool_decide (name = []) then "PythonError"%string : str else name in
  let (text, i) := py (exc_str e) i in
  let evalue := match text with Val text => pyUnicodeToStdString text | Exc _ => [] end in
  (context ++ ": "%string ++ ename ++ ": "%string ++ evalue, i).

(** A text handed to Python: a function called with an argument that could not
    be made is undefined. *)
Definition to_python (s : str) : result pystr := match PyUnicode_FromString s with Some s => Ok s | None => Undefined end.

Definition text_plain (text : str) : json := mk_object [("text/plain"%string : str, mk_str text)].

Definition expression_value (text : str) : json :=
  mk_object [("status"%string : str, mk_str "ok"%string); ("data"%string : str, text_plain text); ("metadata"%string : str, empty_object)].

Definition expression_error (ename evalue : str) : json :=
  mk_object [("status"%string : str, mk_str "error"%string); ("ename"%string : str, mk_str ename);
             ("evalue"%string : str, mk_str evalue); ("traceback"%string : str, mk_array [])].

(** What is reported of a tuple (status, text, evalue). *)
Definition expression_report (t : pystr * pystr * pystr) : json :=
  let '(status, second, evalue) := t in
  if str_eqb (pyUnicodeToStdString status) "ok"%string then expression_value (pyUnicodeToStdString second)
  else expression_error (pyUnicodeToStdString second) (pyUnicodeToStdString evalue).

(** One user expression. *)
Definition user_expression (key : str) (v : json) (i : PyInterpreter) : result json * PyInterpreter :=
  let expr := default [] (get_str v) in
  match to_python key, to_python expr with
  | Ok key, Ok expr =>
      let evaluated (i : PyInterpreter) :=
        match __carpo_eval_expr expr i with
        | (Val t, i) => (Ok (expression_report t), i)
        | (Exc _, i) => (Ok (expression_error "EvaluationError"%string "could not evaluate expression"%string), i)
        end in
      match __carpo_answer key expr i with
      | (Val (Some t), i) => (Ok (expression_report t), i)
      | (Val None, i) => evaluated i
      | (Exc _, i) => evaluated i
      end
  | _, _ => (Undefined, i)
  end.

Fixpoint user_expressions_ (items : list (str * json)) (results : json) (i : PyInterpreter) : result json * PyInterpreter :=
  match items with
  | [] => (Ok results, i)
  | (key, v) :: items =>
      match user_expression key v i with
      | (Ok r, i) => user_expressions_ items (insert_key results key r) i
      | (Throw w, i) => (Throw w, i)
      | (Undefined, i) => (Undefined, i)
      end
  end.

(** After [__carpo_run]: what is published, and the reply. *)
Definition conclude (execution_count : Z) (user_expressions : json) (r : RunResult) (i : PyInterpreter) : result json * PyInterpreter :=
  let ename := pyUnicodeToStdString (ename r) in
  let evalue := pyUnicodeToStdString (evalue r) in
  let traceBack := pyUnicodeToStdString <$> tb_lines r in
  if str_eqb (pyUnicodeToStdString (status r)) "error"%string then
    (Ok (createErrorReply ename evalue (mk_array (mk_str <$> traceBack))), publish (ExecutionError ename evalue traceBack) i)
  else
    let i := if has_result r =? 0 then i
             else publish (ExecutionResult execution_count (text_plain (pyUnicodeToStdString (result_repr r))) empty_object) i in
    let (results, i) := (if is_object user_expressions then user_expressions_ (members user_expressions) empty_object i
                         else (Ok empty_object, i)) in
    (let? results := results in Ok (createSuccessfulReply (mk_array []) results), i).

(** The bootstrap itself failed; the reply has null for its traceback ([{}]). *)
Definition bootstrap_failed (e : exception) (i : PyInterpreter) : result json * PyInterpreter :=
  let (message, i) := describePythonError "Carpo's internal Python bootstrap runtime failed"%string e i in
  (Ok (createErrorReply "CarpoInternalError"%string message null), publish (ExecutionError "CarpoInternalError"%string message []) i).

(** The request's [silent] does not come this far. *)
Definition runCell (execution_count : Z) (code_ : str) (user_expressions : json) (i : PyInterpreter) : result json * PyInterpreter :=
  if negb (bootstrapFns i) then (Undefined, i)
  else match to_python code_ with
       | Ok code_ =>
           match __carpo_run code_ i with
           | (Exc e, i) => bootstrap_failed e i
           | (Val r, i) => conclude execution_count user_expressions r i
           end
       | _ => (Undefined, i)
       end.

(** The reply is made while [m_executing] is still true: [ExecutingScope] ends
    with the function.  [None] is undefined. *)
Definition executeRequestImpl (execution_count : Z) (code_ : str) (config : ExecuteRequestConfig) (user_expressions : json)
    (i : PyInterpreter) : option (list Step * PyInterpreter) :=
  let i := upd_executing true (upd_calls [] (upd_stdin (allow_stdin config) i)) in
  match runCell execution_count code_ user_expressions i with
  | (Ok reply, i) =>
      Some ((DoCall <$> calls i) ++ [Reply reply (times (ticks i))], upd_executing false (upd_ticks (S (ticks i)) i))
  | _ => None
  end.

Definition answersWhileBusyImpl (msg_type : str) : bool :=
  str_eqb msg_type "complete_request"%string || str_eqb msg_type "inspect_request"%string || str_eqb msg_type "is_complete_request"%string.

Definition idleImpl (i : PyInterpreter) : PyInterpreter :=
  if m_finalized i || negb (bootstrapFns i) then i else snd (__carpo_idle i).

(** A request answered by a function of the bootstrap: not after Python is
    finalized, and [failed] when the function raises. *)
Definition ask_bootstrap {A} (code_ : str) (f : pystr -> M A) (reply : A -> json) (finalized failed : json) (i : PyInterpreter) :
    result json * PyInterpreter :=
  if m_finalized i then (Ok finalized, i)
  else match to_python code_ with
       | Ok code_ => match f code_ i with (Val a, i) => (Ok (reply a), i) | (Exc _, i) => (Ok failed, i) end
       | _ => (Undefined, i)
       end.

Definition completeRequestImpl (code_ : str) (cursor_pos : Z) : PyInterpreter -> result json * PyInterpreter :=
  let nothing := createCompleteReply (mk_array []) cursor_pos cursor_pos empty_object in
  ask_bootstrap code_ (fun code_ => __carpo_complete code_ cursor_pos)
    (fun '(matches_, cursor_start, cursor_end) =>
       createCompleteReply (mk_array (mk_str ∘ pyUnicodeToStdString <$> matches_)) (wrap_int cursor_start) (wrap_int cursor_end) empty_object)
    nothing nothing.

Definition inspectRequestImpl (code_ : str) (cursor_pos : Z) : PyInterpreter -> result json * PyInterpreter :=
  let nothing := createInspectReply false empty_object empty_object in
  ask_bootstrap code_ (fun code_ => __carpo_inspect code_ cursor_pos)
    (fun '(found, text) => if found =? 0 then nothing else createInspectReply true (text_plain (pyUnicodeToStdString text)) empty_object)
    nothing nothing.

Definition isCompleteRequestImpl (code_ : str) : PyInterpreter -> result json * PyInterpreter :=
  let unknown := createIsCompleteReply "unknown"%string [] in
  ask_bootstrap code_ __carpo_is_complete (fun r => createIsCompleteReply (pyUnicodeToStdString r) []) unknown unknown.

(** ** The life of the interpreter *)

(** Python is ended once, by the object that started it. *)
Definition finalizeIfOwned (i : PyInterpreter) : PyInterpreter :=
  if m_finalized i then i
  else upd_finalized false true (finalizations i + (if m_ownsInterpreter i then 1 else 0))%nat i.

Definition shutdownRequestImpl (restart : bool) (i : PyInterpreter) : json * PyInterpreter :=
  (createShutdownReply restart, finalizeIfOwned i).

(** SIGINT is raised only while a cell runs. *)
Definition interruptRequestImpl (i : PyInterpreter) : json * PyInterpreter :=
  (createInterruptReply, if m_executing i then upd_sigints (S (sigints i)) i else i).

Definition kernelInfoRequestImpl (i : PyInterpreter) : json :=
  createInfoReply "carpo"%string Wire.kernel_protocol_version "python"%string (m_languageVersion i) "text/x-python"%string ".py"%string
    "python3"%string (mk_str "python"%string) [] ("carpo (Python "%string ++ m_languageVersion i ++ ")"%string) (mk_array []) [].

(** What the constructor meets: whether the library of Python loads, whether
    Python was initialized before, the __main__ module, the native functions,
    the run of the bootstrap (with what it raises described), and what it
    defined. *)
Record Startup := {
  loadPyApi : result unit;
  initialized : bool;
  main_module : result unit;
  native_functions : result unit;
  bootstrap : result world;
  defines : str -> bool;
  version : pystr
}.

Definition bootstrap_names : list str :=
  ["__carpo_run"%string : str; "__carpo_is_complete"%string : str; "__carpo_complete"%string : str; "__carpo_inspect"%string : str;
   "__carpo_eval_expr"%string : str; "__carpo_answer"%string : str; "__carpo_idle"%string : str; "__carpo_version"%string : str].

Definition no_bootstrap : str :=
  ("Carpo's internal Python bootstrap runtime did not define the expected functions -- " ++
   "this is a bug in carpo itself, not a user-facing configuration problem.")%string.

Definition newPyInterpreter (s : Startup) : result PyInterpreter :=
  let? _ := loadPyApi s in
  let owns := negb (initialized s) in
  let? _ := main_module s in
  let? _ := native_functions s in
  let? w := bootstrap s in
  if forallb (defines s) bootstrap_names then
    Ok {| bootstrapFns := true; m_languageVersion := pyUnicodeToStdString (version s); m_ownsInterpreter := owns; m_executing := false;
          m_finalized := false; allowsStdin := false; _carpo_loop := None; python := w; ticks := 0; questions := 0; calls := [];
          sigints := 0; finalizations := 0 |}
  else Throw no_bootstrap.

(** ** The language *)

Definition asked {A} (f : PyInterpreter -> A * PyInterpreter) (i : PyInterpreter) : list Call * A * PyInterpreter :=
  let (r, i) := f (upd_calls [] i) in (calls i, r, i).

Definition carpo : Language := {|
  lstate := PyInterpreter;
  Kernel.executeRequestImpl count code_ config ue i :=
    match executeRequestImpl count code_ config ue i with
    | Some (ss, i') => (ss, None, i')
    | None => ([], Some [], i)
    end;
  Kernel.completeRequestImpl code_ pos := asked (completeRequestImpl code_ pos);
  Kernel.inspectRequestImpl code_ pos detail := asked (inspectRequestImpl code_ pos);
  Kernel.isCompleteRequestImpl code_ := asked (isCompleteRequestImpl code_);
  Kernel.kernelInfoRequestImpl i := ([], Ok (kernelInfoRequestImpl i), i);
  Kernel.shutdownRequestImpl restart := asked (fun i => let (r, i) := shutdownRequestImpl restart i in (Ok r, i));
  Kernel.interruptRequestImpl := asked (fun i => let (r, i) := interruptRequestImpl i in (Ok r, i));
  Kernel.debugRequestImpl_ req i := ([], Interpreter.debugRequestImpl req, i);
  inputReply v i := Ok i
|}.

End Carpo.

(** ** Finding Python's own program (the bootstrap's start) *)
Section Environment.

(** The file system and the process's environment, as the bootstrap sees them. *)
Context (isfile isdir : pystr -> bool) (path_join : list pystr -> pystr).
Context (PYTHONHOME base_prefix base_exec_prefix CARPO_VENV_PATH ver : pystr).

(** [first]: the first that is a file. *)
Definition first (paths : list pystr) : option pystr := List.find isfile paths.

Definition home_candidates (home : pystr) : list pystr :=
  [path_join [home; lit "python.exe"%string]; path_join [home; lit "bin"%string; lit "python"%string ++ ver];
   path_join [home; lit "bin"%string; lit "python3"%string]; path_join [home; lit "bin"%string; lit "python"%string]].

Definition venv_candidates : list pystr :=
  [path_join [CARPO_VENV_PATH; lit "Scripts"%string; lit "python.exe"%string];
   path_join [CARPO_VENV_PATH; lit "bin"%string; lit "python"%string ++ ver];
   path_join [CARPO_VENV_PATH; lit "bin"%string; lit "python3"%string];
   path_join [CARPO_VENV_PATH; lit "bin"%string; lit "python"%string]].

(** The first home that has one. *)
Fixpoint first_home (homes : list pystr) : option pystr :=
  match homes with
  | [] => None
  | home :: homes => match first (home_candidates home) with Some p => Some p | None => first_home homes end
  end.

Definition _carpo_find_python : option pystr * option pystr :=
  let homes := List.filter (fun h => negb (bool_decide (h = []))) [PYTHONHOME; base_prefix; base_exec_prefix] in
  let base := first_home homes in
  let venv := if bool_decide (CARPO_VENV_PATH = []) then None else first venv_candidates in
  (match venv with Some p => Some p | None => base end, base).

(** sys.path, with the packages of the venv in front. *)
Definition activate_venv (sys_path : list pystr) : list pystr :=
  if bool_decide (CARPO_VENV_PATH = []) then sys_path
  else fold_left (fun path site => if isdir site && negb (bool_decide (site ∈ path)) then site :: path else path)
         [path_join [CARPO_VENV_PATH; lit "Lib"%string; lit "site-packages"%string];
          path_join [CARPO_VENV_PATH; lit "lib"%string; lit "python"%string ++ ver; lit "site-packages"%string]] sys_path.

End Environment.
