(* ===== verification/CarpoFacts.v ===== *)
(** * What the Python interpreter does (theorems on Carpo.v)

    Section Running says what running a user's code can do to the interpreter:
    it asks the base class for its output and its questions, in order, and
    nothing else.  The sections after it have what a client sees of a cell,
    completion, the variables pane and its tables, and the interpreter's life.
    Module Toy has a small Python of its own, for the witnesses. *)

From Stdlib Require Import Ascii String ZArith Lia.
From stdpp Require Import base list strings sorting.
From S2P Require Import Prelude Utf8 StataCode PyText Json Wire Interpreter Comm Kernel Carpo.

Local Open Scope Z_scope.
Local Open Scope jovian_scope.

(** ** Running a user's code *)
Section Running.
Context `{J : JsonLib} `{Py : !Python} (times : nat -> Z) (answer : nat -> str + str).

Abbreviation PyM A := (PyInterpreter -> outcome exception A * PyInterpreter).

(** What a user's code asks of the base class. *)
Inductive user_call : Call -> Prop :=
| user_writes n t now : n = ("stdout"%string : str) \/ n = ("stderr"%string : str) -> t <> [] -> utf8 t -> user_call (Stream n t now)
| user_asks prompt now : utf8 prompt -> user_call (Input prompt false null now).

(** From [i], with these calls made: the rest is Python's. *)
Record advanced (cs : list Call) (i i' : PyInterpreter) : Prop := {
  adv_calls : calls i' = calls i ++ cs;
  adv_fns : bootstrapFns i' = bootstrapFns i;
  adv_version : m_languageVersion i' = m_languageVersion i;
  adv_owns : m_ownsInterpreter i' = m_ownsInterpreter i;
  adv_executing : m_executing i' = m_executing i;
  adv_finalized : m_finalized i' = m_finalized i;
  adv_stdin : allowsStdin i' = allowsStdin i;
  adv_sigints : sigints i' = sigints i;
  adv_finalizations : finalizations i' = finalizations i
}.

Lemma advanced_refl i : advanced [] i i.
Proof. split; try done. by rewrite app_nil_r. Qed.

Lemma advances_trans cs cs' i i' i'' : advanced cs i i' -> advanced cs' i' i'' -> advanced (cs ++ cs') i i''.
Proof. intros [C F V O E Z S N L] [C' F' V' O' E' Z' S' N' L']. split; try congruence. by rewrite C', C, app_assoc. Qed.

Lemma advanced_publish f i : advanced [f (times (ticks i))] i (publish times f i).
Proof. by split. Qed.

(** [m] lets a user's code run, and nothing else. *)
Definition by_user {A} (m : PyM A) : Prop := forall i, exists cs, advanced cs i (snd (m i)) /\ Forall user_call cs.

(** The steps of the interpreter that Python does not see. *)
Lemma by_user_step {A} (m : PyM A) : (forall i, advanced [] i (snd (m i))) -> by_user m.
Proof. intros H i. exists []. split; [apply H | constructor]. Qed.

Lemma by_user_ret {A} (a : A) : by_user (ret a).
Proof. apply by_user_step. intros i. apply advanced_refl. Qed.

Lemma by_user_raise {A} e : by_user (raise (A := A) e).
Proof. apply by_user_step. intros i. apply advanced_refl. Qed.

Lemma by_user_lift {A} (o : outcome exception A) : by_user (lift o).
Proof. apply by_user_step. intros i. apply advanced_refl. Qed.

Lemma by_user_gets {A} (f : world -> A) : by_user (gets f).
Proof. apply by_user_step. intros i. apply advanced_refl. Qed.

Lemma by_user_then {A B} (m : PyM A) (f : outcome exception A -> PyM B) : by_user m -> (forall r, by_user (f r)) ->
  by_user (fun i => let (r, i) := m i in f r i).
Proof.
  intros Hm Hf i. destruct (Hm i) as (cs & A1 & F1). destruct (m i) as [r i1]. cbn in A1. destruct (Hf r i1) as (cs' & A2 & F2).
  exists (cs ++ cs'). split; [by eapply advances_trans | by apply Forall_app].
Qed.

Lemma by_user_ext {A} (m m' : PyM A) : (forall i, m i = m' i) -> by_user m -> by_user m'.
Proof. intros E H i. rewrite <- E. apply H. Qed.

Lemma by_user_bind {A B} (m : PyM A) (f : A -> PyM B) : by_user m -> (forall a, by_user (f a)) -> by_user (bind m f).
Proof.
  intros Hm Hf. apply (by_user_ext (fun i => let (r, i) := m i in (match r with Val a => f a | Exc e => raise e end) i)).
  - intros i. unfold bind. by destruct (m i) as [[a|e] i1].
  - apply by_user_then; [done |]. intros [a|e]; [apply Hf | apply by_user_raise].
Qed.

Lemma by_user_catch_if {A} p (m : PyM A) h : by_user m -> (forall e, by_user (h e)) -> by_user (catch_if p m h).
Proof.
  intros Hm Hh. apply (by_user_ext (fun i => let (r, i) := m i in (match r with Val a => ret a | Exc e => if p e then h e else raise e end) i)).
  - intros i. unfold catch_if. destruct (m i) as [[a|e] i1]; [done |]. by destruct (p e).
  - apply by_user_then; [done |]. intros [a|e]; [apply by_user_ret |]. destruct (p e); [apply Hh | apply by_user_raise].
Qed.

Lemma by_user_attempt {A} (m : PyM A) : by_user m -> by_user (attempt m).
Proof. intros H i. destruct (H i) as (cs & A1 & F). exists cs. unfold attempt. by destruct (m i). Qed.

Lemma by_user_mapM {A B} (f : A -> PyM B) l : (forall a, by_user (f a)) -> by_user (mapM f l).
Proof.
  intros Hf. induction l as [|a l IH]; cbn; [apply by_user_ret |]. apply by_user_bind; [done |]. intros b.
  apply by_user_bind; [done |]. intros bs. apply by_user_ret.
Qed.

(** A stream's [write], and input(). *)
Lemma user_write err s i : exists cs, advanced cs i (stream_write times err s i) /\ Forall user_call cs.
Proof.
  unfold stream_write. destruct (bool_decide (s = [])); [exists []; split; [apply advanced_refl | constructor] |].
  assert (forall n, n = ("stdout"%string : str) \/ n = ("stderr"%string : str) ->
    exists cs, advanced cs i (carpoNativeWrite times n s i) /\ Forall user_call cs) as H.
  { intros n Hn. unfold carpoNativeWrite. case_bool_decide as E; [exists []; split; [apply advanced_refl | constructor] |].
    eexists [_]. split; [apply (advanced_publish (Stream n _)) |]. constructor; [| constructor].
    constructor; [done | done | apply pyUnicodeToStdString_utf8]. }
  destruct err; apply H; auto.
Qed.

Lemma by_user_input prompt : by_user (__carpo_input times answer prompt).
Proof.
  intros i. unfold __carpo_input, carpoNativeInput, blockingInputRequest. destruct (allowsStdin i).
  - eexists [_]. split; [| constructor; [apply user_asks, (pyUnicodeToStdString_utf8 prompt) | constructor]].
    by destruct (answer (questions (publish times (Input (pyUnicodeToStdString prompt) false null) i))).
  - exists []. split; [apply advanced_refl | constructor].
Qed.

Lemma by_user_run_exec {A} (x : Exec world exception A) : by_user (run_exec times answer x).
Proof.
  induction x as [r w | err s k IH | prompt k IH].
  - apply by_user_step. intros i. split; try done. by rewrite app_nil_r.
  - intros i. destruct (user_write err s i) as (cs & A1 & F1). destruct (IH (stream_write times err s i)) as (cs' & A2 & F2).
    exists (cs ++ cs'). split; [by eapply advances_trans | by apply Forall_app].
  - apply (by_user_then (__carpo_input times answer prompt) (fun r => run_exec times answer (k r))); [apply by_user_input | done].
Qed.

Lemma by_user_py {A} (op : Op world exception A) : by_user (py times answer op).
Proof. intros i. apply (by_user_run_exec (op (python i)) i). Qed.
End Running.

Create HintDb python.
#[export] Hint Resolve by_user_ret by_user_raise by_user_lift by_user_gets by_user_py by_user_run_exec : python.

(** Through the operations of the monad, case by case. *)
Ltac user_runs :=
  repeat first
    [ solve [eauto with python]
    | apply by_user_bind; [| intros ?]
    | apply by_user_catch_if; [| intros ?]
    | apply by_user_attempt
    | apply by_user_mapM; intros ?
    | match goal with
      | |- by_user (match ?x with _ => _ end) => destruct x
      end ].

Section Bootstrap.
Context `{J : JsonLib} `{Py : !Python} (times : nat -> Z) (answer : nat -> str + str).

Abbreviation by_user m := (by_user m).

Lemma by_user_event_loop : by_user (_carpo_event_loop times answer).
Proof.
  unfold _carpo_event_loop. user_runs.
  - apply by_user_step. intros i. repeat case_match; apply advanced_refl.
  - apply by_user_step. intros i. split; try done. by rewrite app_nil_r.
Qed.
Hint Resolve by_user_event_loop : python.

Lemma by_user_evaluate c : by_user (_carpo_evaluate times answer c).
Proof. unfold _carpo_evaluate. user_runs. Qed.
Hint Resolve by_user_evaluate : python.

Lemma by_user_evaluate_cell code_ : by_user (evaluate_cell times answer code_).
Proof. unfold evaluate_cell. user_runs. Qed.

Lemma by_user_run_failed has e : by_user (run_failed times answer has e).
Proof. unfold run_failed. user_runs. Qed.
Hint Resolve by_user_evaluate_cell by_user_run_failed : python.

Lemma by_user_run code_ : by_user (__carpo_run times answer code_).
Proof. unfold __carpo_run. user_runs. Qed.

Lemma by_user_idle : by_user (__carpo_idle times answer).
Proof.
  intros i. unfold __carpo_idle. destruct (_carpo_loop i) as [l|]; [| apply by_user_ret].
  destruct (is_closed (python i) l || is_running (python i) l); [apply by_user_ret |].
  destruct (negb (has_work (python i) l)); [apply by_user_ret |].
  match goal with |- context [bind ?m ?f i] => assert (by_user (bind m f)) as H by user_runs end. apply H.
Qed.

Lemma by_user_is_complete code_ : by_user (__carpo_is_complete times answer code_).
Proof. unfold __carpo_is_complete. user_runs. Qed.

Lemma by_user_complete_loop more completer token : forall found state, by_user (complete_loop times answer more completer token found state).
Proof. induction more as [|more IH]; intros found state; cbn; user_runs. Qed.
Hint Resolve by_user_complete_loop : python.

Lemma by_user_complete code_ pos : by_user (__carpo_complete times answer code_ pos).
Proof. unfold __carpo_complete. user_runs. Qed.

Lemma by_user_keyword_help word : by_user (_carpo_keyword_help times answer word).
Proof. unfold _carpo_keyword_help. user_runs. Qed.
Hint Resolve by_user_keyword_help : python.

Lemma by_user_inspect code_ pos : by_user (__carpo_inspect times answer code_ pos).
Proof. unfold __carpo_inspect. user_runs. Qed.

Lemma by_user_eval_expr expr : by_user (__carpo_eval_expr times answer expr).
Proof. unfold __carpo_eval_expr, catch. user_runs. Qed.

Lemma by_user_kind v : by_user (_carpo_table_kind v).
Proof. unfold _carpo_table_kind. user_runs. Qed.
Hint Resolve by_user_kind : python.

Lemma by_user_entry name v : by_user (variable_entry times answer name v).
Proof. unfold variable_entry, _carpo_size, _carpo_preview, preview_text. user_runs. Qed.
Hint Resolve by_user_entry : python.

Lemma by_user_list names : forall out, by_user (list_variables times answer names out).
Proof. induction names as [|name names IH]; intros out; cbn; user_runs. Qed.
Hint Resolve by_user_list : python.

Lemma by_user_cell x : by_user (_carpo_cell times answer x).
Proof. unfold _carpo_cell. user_runs. Qed.
Hint Resolve by_user_cell : python.

Lemma by_user_page kind v start count : by_user (match kind with
  | Pandas => pandas_page times answer v start count
  | Polars => polars_page times answer v start count
  | Numpy => numpy_page times answer v start count
  end).
Proof. destruct kind; unfold pandas_page, polars_page, numpy_page, series_as_frame, column, numpy_column; user_runs. Qed.
Hint Resolve by_user_page : python.

Lemma by_user_table expr : by_user (_carpo_table times answer expr).
Proof. unfold _carpo_table, request_get, named_variable. user_runs. Qed.
Hint Resolve by_user_table : python.

Lemma by_user_answer key expr : by_user (__carpo_answer times answer key expr).
Proof. unfold __carpo_answer, _carpo_variables, catch. user_runs. Qed.
End Bootstrap.

(** ** What code can end with *)
Section Outcomes.
Context `{J : JsonLib} `{Py : !Python} (times : nat -> Z) (answer : nat -> str + str).

Inductive may {A} : Exec world exception A -> outcome exception A -> Prop :=
| may_finish r w : may (Finished r w) r
| may_write err s k r : may k r -> may (Writes err s k) r
| may_ask prompt k a r : may (k a) r -> may (Asks prompt k) r.

(** From some state of Python's, and with some answers of the client. *)
Definition can {A} (op : Op world exception A) (r : outcome exception A) : Prop := exists w, may (op w) r.

Lemma run_exec_may {A} (x : Exec world exception A) i : may x (fst (run_exec times answer x i)).
Proof.
  revert i. induction x as [r w | err s k IH | prompt k IH]; intros i; cbn; [constructor | constructor; apply IH |].
  destruct (__carpo_input times answer prompt i) as [r i1]. eapply may_ask, IH.
Qed.

Lemma py_can {A} (op : Op world exception A) i : can op (fst (py times answer op i)).
Proof. exists (python i). apply run_exec_may. Qed.

(** [m] lets a user's code run, and ends with a [P]. *)
Definition ends {A} (m : PyInterpreter -> outcome exception A * PyInterpreter) (P : outcome exception A -> Prop) : Prop :=
  forall i, exists r i' cs, m i = (r, i') /\ P r /\ advanced cs i i' /\ Forall user_call cs.

Lemma ends_py {A} (op : Op world exception A) : ends (py times answer op) (can op).
Proof.
  intros i. destruct (by_user_py times answer op i) as (cs & A1 & F1). pose proof (py_can op i) as H.
  destruct (py times answer op i) as [r i']. by exists r, i', cs.
Qed.

Lemma ends_by_user {A} (m : PyInterpreter -> outcome exception A * PyInterpreter) : by_user m -> ends m (fun _ => True).
Proof. intros H i. destruct (H i) as (cs & A1 & F1). destruct (m i) as [r i']. by exists r, i', cs. Qed.

Lemma ends_ret {A} (a : A) P : P (Val a) -> ends (ret a) P.
Proof. intros H i. exists (Val a), i, []. split; [done |]. split; [done |]. split; [apply advanced_refl | constructor]. Qed.

Lemma ends_raise {A} e (P : outcome exception A -> Prop) : P (Exc e) -> ends (raise e) P.
Proof. intros H i. exists (Exc e), i, []. split; [done |]. split; [done |]. split; [apply advanced_refl | constructor]. Qed.

Lemma ends_bind {A B} (m : PyInterpreter -> outcome exception A * PyInterpreter) f P (Q : outcome exception B -> Prop) :
  ends m P -> (forall a, P (Val a) -> ends (f a) Q) -> (forall e, P (Exc e) -> Q (Exc e)) -> ends (bind m f) Q.
Proof.
  intros Hm Hf He i. unfold bind. destruct (Hm i) as (r & i1 & cs & -> & HP & A1 & F1). destruct r as [a|e].
  - destruct (Hf a HP i1) as (r & i2 & cs' & -> & HQ & A2 & F2). exists r, i2, (cs ++ cs').
    split; [done |]. split; [done |]. split; [by eapply advances_trans | by apply Forall_app].
  - exists (Exc e), i1, cs. auto.
Qed.

Lemma ends_weaken {A} (m : PyInterpreter -> outcome exception A * PyInterpreter) P (Q : outcome exception A -> Prop) :
  ends m P -> (forall r, P r -> Q r) -> ends m Q.
Proof. intros Hm H i. destruct (Hm i) as (r & i1 & cs & E & HP & Hr). exists r, i1, cs. auto. Qed.

Lemma ends_attempt {A} (m : PyInterpreter -> outcome exception A * PyInterpreter) P : ends m P ->
  ends (attempt m) (fun o => exists r, o = Val r /\ P r).
Proof. intros Hm i. unfold attempt. destruct (Hm i) as (r & i1 & cs & -> & HP & H). exists (Val r), i1, cs. eauto. Qed.

Lemma ends_catch {A} (p : exception -> bool) (m : PyInterpreter -> outcome exception A * PyInterpreter) h P (Q : outcome exception A -> Prop) : ends m P ->
  (forall a, P (Val a) -> Q (Val a)) -> (forall e, P (Exc e) -> if p e then ends (h e) Q else Q (Exc e)) -> ends (catch_if p m h) Q.
Proof.
  intros Hm Hv He i. unfold catch_if. destruct (Hm i) as (r & i1 & cs & -> & HP & A1 & F1). destruct r as [a|e].
  - exists (Val a), i1, cs. auto.
  - specialize (He e HP). destruct (p e).
    + destruct (He i1) as (r & i2 & cs' & -> & HQ & A2 & F2). exists r, i2, (cs ++ cs').
      split; [done |]. split; [done |]. split; [by eapply advances_trans | by apply Forall_app].
    + exists (Exc e), i1, cs. auto.
Qed.

(** [m] lets a user's code run, and its value, when it has one, is an [R]. *)
Definition gives {A} (m : PyInterpreter -> outcome exception A * PyInterpreter) (R : A -> Prop) : Prop :=
  ends m (fun r => match r with Val a => R a | Exc _ => True end).

Lemma gives_ret {A} (a : A) (R : A -> Prop) : R a -> gives (ret a) R.
Proof. intros H. by apply ends_ret. Qed.

Lemma gives_raise {A} e (R : A -> Prop) : gives (raise e) R.
Proof. by apply ends_raise. Qed.

Lemma gives_bind {A B} (m : PyInterpreter -> outcome exception A * PyInterpreter) f (P : A -> Prop) (R : B -> Prop) :
  gives m P -> (forall a, P a -> gives (f a) R) -> gives (bind m f) R.
Proof. intros Hm Hf. eapply ends_bind; [exact Hm | exact Hf | done]. Qed.

Lemma gives_py {A} (op : Op world exception A) : gives (py times answer op) (fun a => can op (Val a)).
Proof. eapply ends_weaken; [apply ends_py |]. by intros [a|e]. Qed.

Lemma gives_lift {A} (o : outcome exception A) : gives (lift o) (fun a => o = Val a).
Proof.
  intros i. exists o, i, []. split; [done |]. split; [by destruct o |]. split; [apply advanced_refl | constructor].
Qed.

Lemma gives_by_user {A} (m : PyInterpreter -> outcome exception A * PyInterpreter) : by_user m -> gives m (fun _ => True).
Proof. intros H. eapply ends_weaken; [by apply ends_by_user |]. by intros [a|e]. Qed.

Lemma gives_weaken {A} (m : PyInterpreter -> outcome exception A * PyInterpreter) (P R : A -> Prop) :
  gives m P -> (forall a, P a -> R a) -> gives m R.
Proof. intros Hm H. eapply ends_weaken; [exact Hm |]. intros [a|e]; auto. Qed.

Lemma gives_mapM {A B} (f : A -> PyInterpreter -> outcome exception B * PyInterpreter) (R : A -> B -> Prop) l :
  (forall a, gives (f a) (R a)) -> gives (mapM f l) (Forall2 R l).
Proof.
  intros Hf. induction l as [|a l IH]; cbn; [by apply gives_ret |]. eapply gives_bind; [apply Hf |]. intros b Hb.
  eapply gives_bind; [exact IH |]. intros bs Hbs. apply gives_ret. by constructor.
Qed.
End Outcomes.

(** ** A cell *)
Section Cell.
Context `{J : JsonLib} `{Py : !Python} (times : nat -> Z) (answer : nat -> str + str).

Abbreviation text_of := pyUnicodeToStdString.

(** What an exception's report can be: with its text and traceback, or no
    report, when making one raises. *)
Definition failure_of (has : Z) (e : exception) (o : outcome exception RunResult) : Prop :=
  (exists text lines, can (exc_str e) (Val text) /\ can (format_exception e) (Val lines)
     /\ o = Val {| status := lit "error"%string; has_result := has; result_repr := []; ename := exc_name e; evalue := text;
                   tb_lines := lines |})
  \/ (exists e', (can (exc_str e) (Exc e') \/ can (format_exception e) (Exc e')) /\ o = Exc e').

Lemma run_failed_ends has e : ends (run_failed times answer has e) (failure_of has e).
Proof.
  unfold run_failed. eapply ends_bind; [apply ends_py | | intros e' H; right; eauto]. intros text Ht.
  eapply ends_bind; [apply ends_py | | intros e' H; right; eauto]. intros lines Hl. apply ends_ret. left. eauto.
Qed.

(** What [__carpo_run] makes of the value of the cell. *)
Definition run_of (value : outcome exception (option object)) (o : outcome exception RunResult) : Prop :=
  match value with
  | Exc e => failure_of 0 e o
  | Val None => o = Val (ok_result 0 [])
  | Val (Some v) =>
      if is_None v then o = Val (ok_result 0 [])
      else (exists text, can (repr v) (Val text) /\ o = Val (ok_result 1 text))
           \/ (exists e, can (repr v) (Exc e) /\ failure_of 1 e o)
  end.

Lemma run_ends code_ i : exists o i' cs, __carpo_run times answer code_ i = (o, i')
  /\ run_of (fst (evaluate_cell times answer code_ i)) o /\ advanced cs i i' /\ Forall user_call cs.
Proof.
  unfold __carpo_run, bind at 1, attempt at 1. destruct (by_user_evaluate_cell times answer code_ i) as (cs & A1 & F1).
  destruct (evaluate_cell times answer code_ i) as [value i1]. cbn [fst snd] in *.
  match goal with |- context [@eq (outcome exception RunResult * PyInterpreter) (?m i1) _] => assert (ends m (run_of value)) as H end.
  { unfold run_of. destruct value as [[v|]|e]; [destruct (is_None v) | |].
    - by apply ends_ret.
    - eapply ends_bind; [apply ends_attempt, ends_py | | by intros e (r & He & _)].
      intros r0 (r & [= ->] & Hr). destruct r as [text|e]; [apply ends_ret; left; eauto |].
      intros i2. destruct (run_failed_ends 1 e i2) as (o & i3 & cs2 & H). exists o, i3, cs2. naive_solver.
    - by apply ends_ret.
    - apply run_failed_ends. }
  destruct (H i1) as (o & i2 & cs2 & -> & Ho & A2 & F2). exists o, i2, (cs ++ cs2). split; [done |]. split; [done |].
  split; [by eapply advances_trans | by apply Forall_app].
Qed.

(** *** User expressions *)

(** What is reported of one: its value, or its own error. *)
Inductive reported : json -> Prop :=
| reports_value text : utf8 text -> reported (expression_value text)
| reports_error name text : utf8 name -> utf8 text -> reported (expression_error name text).

(** The texts of the request, which came as JSON. *)
Definition utf8_expressions (ue : json) : Prop :=
  Forall (fun kv => utf8 kv.1 /\ utf8 (default [] (get_str kv.2))) (members ue).

Lemma report_reported t : reported (expression_report t).
Proof.
  destruct t as [[status second] evalue]. unfold expression_report.
  destruct (str_eqb (text_of status) _); constructor; apply pyUnicodeToStdString_utf8.
Qed.

Lemma user_expression_ends key v i : utf8 key -> utf8 (default [] (get_str v)) ->
  exists r i' cs, user_expression times answer key v i = (Ok r, i') /\ reported r /\ advanced cs i i' /\ Forall user_call cs.
Proof.
  intros Hk Hv. unfold user_expression, to_python. destruct (PyUnicode_utf8 key Hk) as [k ->]. destruct (PyUnicode_utf8 _ Hv) as [expr ->].
  assert (forall i, exists r i' cs, match __carpo_eval_expr times answer expr i with
    | (Val t, i) => (Ok (expression_report t), i)
    | (Exc _, i) => (Ok (expression_error "EvaluationError"%string "could not evaluate expression"%string), i)
    end = (Ok r, i') /\ reported r /\ advanced cs i i' /\ Forall user_call cs) as Heval.
  { intros j. destruct (ends_by_user _ (by_user_eval_expr times answer expr) j) as (r & i1 & cs & -> & _ & A1 & F1).
    destruct r as [t|e]; do 3 eexists; (split; [reflexivity |]); (split; [| by split]); [apply report_reported |].
    constructor; apply utf8_ascii; repeat constructor; vm_compute; congruence. }
  destruct (ends_by_user _ (by_user_answer times answer k expr) i) as (r & i1 & cs & -> & _ & A1 & F1).
  destruct r as [[t|]|e]; [do 3 eexists; split; [reflexivity |]; split; [apply report_reported | by split] | |].
  all: destruct (Heval i1) as (r & i2 & cs' & -> & Hr & A2 & F2); exists r, i2, (cs ++ cs'); (split; [done |]); (split; [done |]);
    split; [by eapply advances_trans | by apply Forall_app].
Qed.

Section Laws.
Context `{JL : !JsonLaws J}.

(** Each expression has its own report, and there is nothing else. *)
Lemma user_expressions_end items : Forall (fun kv => utf8 kv.1 /\ utf8 (default [] (get_str kv.2))) items ->
  forall results i, type_of results = Jobject ->
  exists results' i' cs, user_expressions_ times answer items results i = (Ok results', i') /\ type_of results' = Jobject
  /\ (forall k, k ∈ items.*1 -> exists r, find results' k = Some r /\ reported r)
  /\ (forall k, k ∉ items.*1 -> find results' k = find results k)
  /\ advanced cs i i' /\ Forall user_call cs.
Proof.
  induction 1 as [|[key v] items [Hk Hv] Hitems IH]; intros results i Ho.
  - exists results, i, []. split_and!; try done; [by intros k ?%elem_of_nil | apply advanced_refl].
  - cbn [user_expressions_]. destruct (user_expression_ends key v i Hk Hv) as (r & i1 & cs & -> & Hr & A1 & F1).
    destruct (IH (insert_key results key r) i1) as (results' & i2 & cs' & -> & Ho' & Hin & Hout & A2 & F2); [apply type_insert; by left |].
    exists results', i2, (cs ++ cs'). split; [done |]. split; [done |].
    split; [| split; [| split; [by eapply advances_trans | by apply Forall_app]]].
    + intros k Hkin. destruct (decide (k ∈ items.*1)) as [|Hn]; [auto |]. rewrite (Hout k Hn), find_insert by auto.
      cbn in Hkin. apply elem_of_cons in Hkin as [-> | ?]; [| done]. rewrite decide_True by done. eauto.
    + intros k Hkn. cbn in Hkn. apply not_elem_of_cons in Hkn as [Hne Hkn]. rewrite (Hout k Hkn), find_insert by auto.
      by rewrite decide_False by congruence.
Qed.

(** The reply to a cell that did not fail. *)
Definition ok_reply (ue reply : json) : Prop :=
  exists results, reply = createSuccessfulReply (mk_array []) results /\ type_of results = Jobject
  /\ (forall k, is_object ue = true -> k ∈ (members ue).*1 -> exists r, find results k = Some r /\ reported r)
  /\ (forall k, is_object ue = false \/ k ∉ (members ue).*1 -> find results k = None).

(** What is published of a failure, and the reply: the exception's own report,
    or an error of the kernel's when it cannot be reported. *)
Definition failed_reply (e : exception) (shown : Call) (reply : json) : Prop :=
  (exists text lines now, can (exc_str e) (Val text) /\ can (format_exception e) (Val lines)
     /\ shown = ExecutionError (text_of (exc_name e)) (text_of text) (text_of <$> lines) now
     /\ reply = createErrorReply (text_of (exc_name e)) (text_of text) (mk_array (mk_str <$> (text_of <$> lines))))
  \/ (exists e' message now, (can (exc_str e) (Exc e') \/ can (format_exception e) (Exc e'))
     /\ shown = ExecutionError "CarpoInternalError"%string message [] now
     /\ reply = createErrorReply "CarpoInternalError"%string message null).

(** What a cell shows before its reply, apart from its output. *)
Definition cell_shows (count : Z) (ue : json) (value : outcome exception (option object)) (shown after : list Call) (reply : json) : Prop :=
  match value with
  | Exc e => exists c, shown = [c] /\ after = [] /\ failed_reply e c reply
  | Val None => shown = [] /\ ok_reply ue reply
  | Val (Some v) =>
      if is_None v then shown = [] /\ ok_reply ue reply
      else (exists text now, can (repr v) (Val text) /\ shown = [ExecutionResult count (text_plain (text_of text)) empty_object now]
              /\ ok_reply ue reply)
           \/ (exists e c, can (repr v) (Exc e) /\ shown = [c] /\ after = [] /\ failed_reply e c reply)
  end.

Lemma ok_text : text_of (lit "ok"%string) = "ok"%string.
Proof. vm_compute. reflexivity. Qed.
Lemma error_text : text_of (lit "error"%string) = "error"%string.
Proof. vm_compute. reflexivity. Qed.

Lemma ok_no_error : str_eqb "ok"%string "error"%string = false.
Proof. vm_compute. reflexivity. Qed.

Lemma find_empty k : find empty_object k = None.
Proof. unfold empty_object. by rewrite find_object. Qed.

Lemma conclude_ok count ue has text i : utf8_expressions ue ->
  exists reply i' after, conclude times answer count ue (ok_result has text) i = (Ok reply, i') /\ ok_reply ue reply
  /\ advanced ((if has =? 0 then [] else [ExecutionResult count (text_plain (text_of text)) empty_object (times (ticks i))]) ++ after) i i'
  /\ Forall user_call after.
Proof.
  intros Hue. unfold conclude. cbn [status ok_result has_result result_repr]. rewrite ok_text.
  rewrite ok_no_error.
  set (i1 := if has =? 0 then i else _).
  assert (advanced (if has =? 0 then [] else [ExecutionResult count (text_plain (text_of text)) empty_object (times (ticks i))]) i i1) as A1.
  { unfold i1. destruct (has =? 0); [apply advanced_refl | apply (advanced_publish times (ExecutionResult count _ _))]. }
  generalize dependent i1. intros i1 A1. destruct (is_object ue) eqn:Eo.
  - destruct (user_expressions_end (members ue) Hue empty_object i1 (type_object [])) as (results & i2 & cs & -> & Ho & Hin & Hout & A2 & F2).
    do 2 eexists. exists cs. split; [reflexivity |]. split; [| split; [by eapply advances_trans | done]].
    exists results. split; [done |]. split; [done |]. split; [by intros k _; apply Hin |].
    intros k [? | Hk]; [congruence |]. by rewrite (Hout k Hk), find_empty.
  - do 2 eexists. exists []. split; [reflexivity |]. split; [| split; [by rewrite app_nil_r | constructor]].
    exists empty_object. split; [done |]. split; [apply type_object |]. split; [congruence |]. intros k _. apply find_empty.
Qed.

Lemma conclude_failed count ue has e text lines i : can (exc_str e) (Val text) -> can (format_exception e) (Val lines) ->
  exists c reply i', conclude times answer count ue {| status := lit "error"%string; has_result := has; result_repr := [];
      ename := exc_name e; evalue := text; tb_lines := lines |} i = (Ok reply, i')
  /\ failed_reply e c reply /\ advanced [c] i i'.
Proof.
  intros Ht Hl. unfold conclude. cbn [status ename evalue tb_lines]. rewrite error_text, str_eqb_refl.
  do 3 eexists. split; [reflexivity |]. split; [left; do 3 eexists; by split_and! | apply (advanced_publish times (ExecutionError _ _ _))].
Qed.

Lemma describe_ends context e i : exists message i' cs, describePythonError times answer context e i = (message, i')
  /\ advanced cs i i' /\ Forall user_call cs.
Proof.
  unfold describePythonError. destruct (ends_py times answer (exc_str e) i) as (r & i1 & cs & -> & _ & A1 & F1). by do 3 eexists.
Qed.

(** After [__carpo_run]. *)
Definition finish (count : Z) (ue : json) (o : outcome exception RunResult) (i : PyInterpreter) : result json * PyInterpreter :=
  match o with Val r => conclude times answer count ue r i | Exc e => bootstrap_failed times answer e i end.

Lemma finish_failed count ue has e o i : failure_of has e o ->
  exists ran c reply i', finish count ue o i = (Ok reply, i') /\ failed_reply e c reply /\ Forall user_call ran /\ advanced (ran ++ [c]) i i'.
Proof.
  intros [(text & lines & Ht & Hl & ->) | (e' & He & ->)].
  - destruct (conclude_failed count ue has e text lines i Ht Hl) as (c & reply & i2 & E & Hf & A2).
    by exists [], c, reply, i2.
  - cbn. unfold bootstrap_failed.
    destruct (describe_ends "Carpo's internal Python bootstrap runtime failed"%string e' i) as (message & i2 & cs & -> & A2 & F2).
    exists cs. do 3 eexists. split; [reflexivity |]. split; [right; do 3 eexists; by split_and! |]. split; [done |].
    eapply advances_trans; [exact A2 | apply (advanced_publish times (ExecutionError _ _ _))].
Qed.

(** Every end of [__carpo_run] is one of the ways a cell ends. *)
Lemma finish_shows count ue value o i : run_of value o -> utf8_expressions ue ->
  exists ran shown after reply i', finish count ue o i = (Ok reply, i') /\ Forall user_call ran /\ Forall user_call after
  /\ advanced (ran ++ shown ++ after) i i' /\ cell_shows count ue value shown after reply.
Proof.
  intros Ho Hue.
  assert (forall has e, failure_of has e o -> exists ran c reply i', finish count ue o i = (Ok reply, i') /\ Forall user_call ran
    /\ advanced (ran ++ [c] ++ []) i i' /\ failed_reply e c reply) as Hfailed.
  { intros has e He. destruct (finish_failed count ue has e o i He) as (ran & c & reply & i2 & H). exists ran, c, reply, i2. naive_solver. }
  assert (forall has text, o = Val (ok_result has text) -> exists after reply i', finish count ue o i = (Ok reply, i') /\ ok_reply ue reply
    /\ advanced ((if has =? 0 then [] else [ExecutionResult count (text_plain (text_of text)) empty_object (times (ticks i))]) ++ after) i i'
    /\ Forall user_call after) as Hok.
  { intros has text ->. destruct (conclude_ok count ue has text i Hue) as (reply & i2 & after & H). by exists after, reply, i2. }
  unfold run_of, cell_shows in *. destruct value as [[v|]|e]; [destruct (is_None v) | |].
  - destruct (Hok _ _ Ho) as (after & reply & i2 & E & Hr & A & F). exists [], [], after, reply, i2. by split_and!.
  - destruct Ho as [(text & Ht & Ho) | (e & Hc & Ho)].
    + destruct (Hok _ _ Ho) as (after & reply & i2 & E & Hr & A & F). exists [], [ExecutionResult count (text_plain (text_of text)) empty_object (times (ticks i))], after, reply, i2.
      split_and!; try done. left. by exists text, (times (ticks i)).
    + destruct (Hfailed _ _ Ho) as (ran & c & reply & i2 & E & F & A & Hr). exists ran, [c], [], reply, i2.
      split_and!; try done. right. by exists e, c.
  - destruct (Hok _ _ Ho) as (after & reply & i2 & E & Hr & A & F). exists [], [], after, reply, i2. by split_and!.
  - destruct (Hfailed _ _ Ho) as (ran & c & reply & i2 & E & F & A & Hr). exists ran, [c], [], reply, i2.
    split_and!; try done. by exists c.
Qed.

(** A cell, from the call of the language to its reply. *)
Lemma cell_runs count code_ ue i s : PyUnicode_FromString code_ = Some s -> utf8_expressions ue -> bootstrapFns i = true ->
  exists ran shown after reply i', runCell times answer count code_ ue i = (Ok reply, i')
  /\ Forall user_call ran /\ Forall user_call after /\ advanced (ran ++ shown ++ after) i i'
  /\ cell_shows count ue (fst (evaluate_cell times answer s i)) shown after reply.
Proof.
  intros Hs Hue Hfns. unfold runCell, to_python. rewrite Hfns, Hs. cbn [negb].
  destruct (run_ends s i) as (o & i1 & ran & E & Ho & A1 & F1).
  destruct (finish_shows count ue _ o i1 Ho Hue) as (ran' & shown & after & reply & i2 & E2 & F2 & F3 & A2 & H).
  rewrite E. exists (ran ++ ran'), shown, after, reply, i2. split; [by destruct o |]. split; [by apply Forall_app |]. split; [done |].
  split; [| done]. rewrite <- app_assoc. by eapply advances_trans.
Qed.

(** The interpreter as a cell finds it. *)
Definition cell_start (config : ExecuteRequestConfig) (i : PyInterpreter) : PyInterpreter :=
  upd_executing true (upd_calls [] (upd_stdin (allow_stdin config) i)).

Lemma cell_executes count code_ config ue i : utf8 code_ -> utf8_expressions ue -> bootstrapFns i = true ->
  exists s ran shown after reply now i', PyUnicode_FromString code_ = Some s
  /\ executeRequestImpl times answer count code_ config ue i
     = Some ((DoCall <$> (ran ++ shown ++ after)) ++ [Reply reply now], i')
  /\ Forall user_call ran /\ Forall user_call after
  /\ cell_shows count ue (fst (evaluate_cell times answer s (cell_start config i))) shown after reply
  /\ m_executing i' = false /\ bootstrapFns i' = true /\ m_finalized i' = m_finalized i.
Proof.
  intros Hc Hue Hfns. destruct (PyUnicode_utf8 code_ Hc) as [s Hs].
  destruct (cell_runs count code_ ue (cell_start config i) s Hs Hue Hfns) as (ran & shown & after & reply & i1 & E & F1 & F2 & A & H).
  exists s, ran, shown, after, reply. unfold executeRequestImpl. fold (cell_start config i). rewrite E.
  do 2 eexists. split; [done |]. destruct A as [C Fns _ _ _ Fin _ _ _]. cbn in C. rewrite C.
  split; [reflexivity |]. split_and!; try done. cbn. by rewrite Fns.
Qed.

Lemma cell_leaves count code_ config ue i : utf8 code_ -> utf8_expressions ue -> bootstrapFns i = true ->
  exists ss cs i1, executeRequestImpl times answer count code_ config ue i
    = Some (ss, upd_executing false (upd_ticks (S (ticks i1)) i1)) /\ advanced cs (cell_start config i) i1.
Proof.
  intros Hc Hue Hfns. destruct (PyUnicode_utf8 code_ Hc) as [s Hs].
  destruct (cell_runs count code_ ue (cell_start config i) s Hs Hue Hfns) as (ran & shown & after & reply & i1 & E & _ & _ & A & _).
  unfold executeRequestImpl. fold (cell_start config i). rewrite E. eauto.
Qed.

(** C20: a cell of the Python kernel.  Its code runs, then it ends in exactly one
    way, whatever the code does: nothing more is shown, or the last
    expression's value is, once, as Python's own text of it - or the exception
    is published, once, and the reply says the same; an exception that cannot
    be reported, or a value whose text cannot be made, is an error too.  All
    that the code asks of the base class before that is its output, as UTF-8,
    and its questions; after a result the user expressions are evaluated, each
    with a report of its own, and after an error they are not.  The reply is
    the last step, and the interpreter is then not executing. *)
Theorem python_cell count code_ config ue i : utf8 code_ -> utf8_expressions ue -> bootstrapFns i = true ->
  exists s ran shown after reply now i', PyUnicode_FromString code_ = Some s
  /\ executeRequestImpl times answer count code_ config ue i
     = Some ((DoCall <$> (ran ++ shown ++ after)) ++ [Reply reply now], i')
  /\ Forall user_call ran /\ Forall user_call after
  /\ cell_shows count ue (fst (evaluate_cell times answer s (cell_start config i))) shown after reply
  /\ m_executing i' = false /\ bootstrapFns i' = true /\ m_finalized i' = m_finalized i.
Proof. apply cell_executes. Qed.

(** *** As the kernel sees it *)

Lemma ok_reply_status ue reply : ok_reply ue reply ->
  type_of reply = Jobject /\ value get_str reply "status"%string "error"%string = Ok ("ok"%string : str).
Proof.
  intros (results & -> & _). split; [apply type_with_keys; right; split; [apply type_null | done] |].
  apply (value_found _ _ _ (mk_str "ok"%string)); [unfold createSuccessfulReply; by find_key | by rewrite get_str_mk].
Qed.

Lemma failed_reply_status e c reply : failed_reply e c reply ->
  type_of reply = Jobject /\ value get_str reply "status"%string "error"%string = Ok ("error"%string : str).
Proof.
  assert (forall n v t, type_of (createErrorReply n v t) = Jobject
    /\ value get_str (createErrorReply n v t) "status"%string "error"%string = Ok ("error"%string : str)) as H.
  { intros n v t. split; [apply type_with_keys; right; split; [apply type_null | done] |].
    apply (value_found _ _ _ (mk_str "error"%string)); [unfold createErrorReply; by find_key | by rewrite get_str_mk]. }
  intros [(? & ? & ? & _ & _ & _ & ->) | (? & ? & ? & _ & _ & ->)]; apply H.
Qed.

(** How a cell ended, as its reply says. *)
Definition cell_status (ue : json) (st : str) (shown : list Call) (reply : json) : Prop :=
  (st = "ok"%string /\ ok_reply ue reply /\ (length shown <= 1)%nat)
  \/ (st = "error"%string /\ exists e c, shown = [c] /\ failed_reply e c reply).

Lemma shows_status count ue value shown after reply : cell_shows count ue value shown after reply ->
  exists st, cell_status ue st shown reply /\ type_of reply = Jobject /\ Json.value get_str reply "status"%string "error"%string = Ok st.
Proof.
  intros H. assert (ok_reply ue reply /\ (length shown <= 1)%nat \/ exists e c, shown = [c] /\ failed_reply e c reply) as [[Hok Hl] | He].
  { unfold cell_shows in H. destruct value as [[v|]|e]; [destruct (is_None v) | |].
    - destruct H as [-> Hr]. left. split; [done | cbn; lia].
    - destruct H as [(text & now & _ & -> & Hr) | (e & c & _ & -> & _ & Hr)]; [left; split; [done | cbn; lia] | right; by exists e, c].
    - destruct H as [-> Hr]. left. split; [done | cbn; lia].
    - destruct H as (c & -> & _ & Hr). right. by exists e, c. }
  - exists ("ok"%string : str). split; [by left | by apply ok_reply_status with ue].
  - exists ("error"%string : str). destruct He as (e & c & -> & Hf). split; [right; split; [done | by exists e, c] | by eapply failed_reply_status].
Qed.

(** C19: what a client of the Python kernel sees of a cell, from the request the
    kernel reads to idle, with the Python interpreter as the kernel's language:
    busy; the execution begins; the cell's output; it ends, and the waiting
    cells are aborted exactly when it failed and that was asked for; the one
    reply, which is ok or the error that was published; the input is stored
    when asked; and idle.  The request's [silent] changes none of what is
    shown. *)
Theorem py_kernel_cell `{Hist : !HistoryManager} `{CT : CommTypes} `{U : !CommUser} env_ms env_bytes m_kernelId uninitialised local msg c
    (k : Kernel (Lang := carpo times answer)) code_ config soe ue :
  Json.value get_str (header_of msg) "msg_type"%string [] = Ok ("execute_request"%string : str) ->
  parsed msg code_ config soe ue ->
  Forall abortable (queue k) ->
  utf8 code_ -> utf8_expressions ue -> bootstrapFns (lang k) = true ->
  let count := m_executionCount (for_language msg code_ config k) in
  exists k' out1 out2 ran shown after reply st now i',
    dispatch env_ms env_bytes m_kernelId uninitialised local msg c k = (Ok tt, k')
    /\ Forall quiet out1 /\ Forall quiet out2
    /\ executeRequestImpl times answer count code_ config ue (lang k) = Some ((DoCall <$> (ran ++ shown ++ after)) ++ [Reply reply now], i')
    /\ cell_status ue st shown reply
    /\ trace k' = trace k ++ Kernel.status m_kernelId (header_of msg) "busy"%string c :: BeginExecution :: out1 ++ EndExecution
         :: (if negb (silent config) && str_eqb st "error"%string && soe then abort_reply <$> queue k else [])
         ++ [SendReply (identities msg) "execute_reply"%string (header_of msg) (getMetadata k)
               (insert_key reply "execution_count"%string (mk_int count)) SHELL]
         ++ (if negb (silent config) && store_history config then [StoreInputs 0 count code_] else [])
         ++ [Kernel.status m_kernelId (header_of msg) "idle"%string SHELL] ++ out2.
Proof.
  intros Hty Hp Hq Hc Hue Hfns count.
  destruct (cell_executes count code_ config ue (lang k) Hc Hue Hfns)
    as (s & ran & shown & after & reply & now & i' & _ & E & _ & _ & Hs & _).
  destruct (shows_status _ _ _ _ _ _ Hs) as (st & Hst & Ho & Hv).
  assert (Kernel.executeRequestImpl (Language := carpo times answer) count code_ config ue (lang k)
    = ((DoCall <$> (ran ++ shown ++ after)) ++ [Reply reply now], None, i')) as Himpl by (cbn; by rewrite E).
  destruct (execute_cell_trace env_ms env_bytes m_kernelId uninitialised local msg c k code_ config soe ue _ None i'
    (Some (reply, now)) st Hty Hp Himpl) as (k' & o1 & o2 & Ek & Q1 & Q2 & T); [by apply (replies_once _ _ _ [] st) | exact Hv | done |].
  exists k', o1, o2, ran, shown, after, reply, st, now, i'. split_and!; done.
Qed.
End Laws.
End Cell.

(** ** Completion *)
Section Completion.
Context `{J : JsonLib} `{Py : !Python} (times : nat -> Z) (answer : nat -> str + str).

(** What the completer gives for a token, in some state. *)
Definition offered (completer : object) (token c : pystr) : Prop :=
  exists state, can (completer_complete completer token state) (Val (Some c)).

Lemma complete_loop_ends completer token more : forall found state,
  NoDup found -> Forall (offered completer token) found ->
  ends (complete_loop times answer more completer token found state)
    (fun r => match r with
              | Val found' => NoDup found' /\ Forall (offered completer token) found' /\ (length found' <= length found + more)%nat
              | Exc _ => True
              end).
Proof.
  induction more as [|more IH]; intros found state Hn Hf; cbn [complete_loop].
  - apply ends_ret. split_and!; [done | done | lia].
  - eapply (ends_bind _ _ (fun r => match r with
      | Val (Some c) => can (completer_complete completer token state) (Val (Some c)) | _ => True end)); [| | done].
    + eapply ends_catch; [apply ends_py | by intros [c|] H |]. intros e _. destruct (is_Exception e); [by apply ends_ret | done].
    + intros [c|] H; [| apply ends_ret; split_and!; [done | done | lia]]. case_bool_decide as Hin.
      * eapply ends_weaken; [by apply IH |]. intros [f|e]; [| done]. intros (? & ? & ?). split_and!; [done | done | lia].
      * eapply ends_weaken; [apply IH |].
        -- apply NoDup_app. split; [done |]. split; [| apply NoDup_singleton]. by intros x Hx ->%list_elem_of_singleton.
        -- apply Forall_app. split; [done |]. constructor; [by exists state | constructor].
        -- intros [f|e]; [| done]. rewrite length_app. cbn. intros (? & ? & ?). split_and!; [done | done | lia].
Qed.

(** The token, and where it is in the code. *)
Lemma token_position code_ pos : 0 <= pos <= len code_ -> last (slice code_ 0 pos) <> Some 10 ->
  let token := token_of (slice code_ 0 pos) in
  0 <= pos - len token /\ slice code_ (pos - len token) pos = token /\ (token = [] \/ is_token token)
  /\ forall start, 0 <= start <= pos -> is_token (slice code_ start pos) -> pos - len token <= start.
Proof.
  intros Hpos Hnl token. set (prefix := slice code_ 0 pos) in *.
  assert (prefix = take (Z.to_nat pos) code_) as Hp.
  { unfold prefix. rewrite slice_to. unfold slice_bound. unfold len in Hpos. rewrite (proj2 (Z.ltb_ge pos 0)) by lia. by rewrite Z.min_l by lia. }
  assert (length prefix = Z.to_nat pos) as Hlen by (rewrite Hp, length_take; unfold len in Hpos; lia).
  assert (exists q, prefix = q ++ token /\ (token = [] \/ is_token token)) as (q & Hq & Ht).
  { unfold token, token_of. destruct (token_search prefix) as [t|] eqn:E; cbn; [| exists prefix; by rewrite app_nil_r; auto].
    destruct (token_search_Some _ _ E) as (q & e & Heq & Ht & [-> | ->]); [exists q; rewrite app_nil_r in Heq; auto |].
    exfalso. apply Hnl. rewrite Heq, app_assoc. by rewrite last_snoc. }
  assert (length q + length token = Z.to_nat pos)%nat as Hsum by (by rewrite <- length_app, <- Hq).
  assert (forall start, 0 <= start <= pos -> slice code_ start pos = drop (Z.to_nat start) prefix) as Hslice.
  { intros start Hs. rewrite slice_inside by (unfold len in Hpos; lia). rewrite Hp.
    rewrite skipn_firstn_comm. f_equal. lia. }
  unfold len. split; [lia |]. split; [| split; [done |]].
  - rewrite Hslice by lia. rewrite Hq. replace (Z.to_nat (pos - Z.of_nat (length token))) with (length q) by lia. apply drop_app_length.
  - intros start Hs Htok. rewrite (Hslice start Hs) in Htok.
    destruct (token_search_longest prefix (take (Z.to_nat start) prefix) _ (eq_sym (take_drop _ _)) Htok) as (t' & q' & E & _ & Hl).
    assert (token = t') as -> by (unfold token, token_of; by rewrite E). rewrite length_drop in Hl. lia.
Qed.

(** Completion.  The names offered are distinct, at most 500, and each was
    given by Python's completer for the token: the longest name, dots included,
    that ends at the cursor.  What the reply says is replaced is that token,
    where it is in the code - unless the cursor is at the start of a line. *)
Theorem completion code_ pos i : 0 <= pos <= len code_ -> last (slice code_ 0 pos) <> Some 10 ->
  let token := token_of (slice code_ 0 pos) in
  (token = [] \/ is_token token)
  /\ (forall start, 0 <= start <= pos -> is_token (slice code_ start pos) -> pos - len token <= start)
  /\ match fst (__carpo_complete times answer code_ pos i) with
     | Val (matches_, cursor_start, cursor_end) =>
         slice code_ cursor_start cursor_end = token /\ cursor_end = pos
         /\ NoDup matches_ /\ (length matches_ <= 500)%nat /\ exists completer, Forall (offered completer token) matches_
     | Exc _ => True
     end.
Proof.
  intros Hpos Hnl token. destruct (token_position code_ pos Hpos Hnl) as (H0 & Hs & Ht & Hlong). split; [done |]. split; [done |].
  assert (ends (__carpo_complete times answer code_ pos) (fun r => match r with
     | Val (matches_, cursor_start, cursor_end) =>
         slice code_ cursor_start cursor_end = token /\ cursor_end = pos
         /\ NoDup matches_ /\ (length matches_ <= 500)%nat /\ exists completer, Forall (offered completer token) matches_
     | Exc _ => True
     end)) as H.
  { unfold __carpo_complete. fold token. eapply ends_bind; [apply ends_py | | done]. intros completer _.
    eapply ends_bind; [apply complete_loop_ends; constructor | | done]. intros found (Hn & Hf & Hl). apply ends_ret.
    split_and!; [done | done | done | exact Hl | by exists completer]. }
  destruct (H i) as (r & i' & cs & -> & Hr & _). exact Hr.
Qed.
End Completion.

(** ** A page of a table *)
Section Tables.
Context `{J : JsonLib} `{Py : !Python} (times : nat -> Z) (answer : nat -> str + str).

(** The rows of a data frame or an array, which stay the same while a page of
    it is read, and what the libraries say of them. *)
Context (rows_of : object -> list (list object)).
Hypothesis frame_length_rows : forall f n, can (frame_length f) (Val n) -> n = Z.of_nat (length (rows_of f)).
Hypothesis iloc_rows : forall f a b p, can (iloc f a b) (Val p) -> rows_of p = slice (rows_of f) a b.
Hypothesis itertuples_rows : forall p l, can (itertuples p) (Val l) -> l = rows_of p.
Hypothesis frame_slice_rows : forall f offset n p, 0 <= offset -> 0 <= n -> can (frame_slice f offset n) (Val p) ->
  rows_of p = take (Z.to_nat n) (drop (Z.to_nat offset) (rows_of f)).
Hypothesis frame_rows_rows : forall p l, can (frame_rows p) (Val l) -> l = rows_of p.
Hypothesis array_dimension_rows : forall a n, can (array_dimension a 0) (Val n) -> n = Z.of_nat (length (rows_of a)).
Hypothesis array_slice_rows : forall f a b p, can (array_slice f a b) (Val p) -> rows_of p = slice (rows_of f) a b.
Hypothesis tolist_rows : forall p l, can (tolist p) (Val l) -> l = rows_of p.

Abbreviation gives := (gives (J := J)).

(** What a cell of a page is: a text, of at most 1000 characters unless it is a
    number's. *)
Definition cell_text (x : object) (j : pyjson) : Prop :=
  (is_None x = true /\ j = PStr (lit "None"%string))
  \/ (is_None x = false /\ is_float x = true /\ j = PStr (if is_nan x then lit "NaN"%string else float_repr x))
  \/ (is_None x = false /\ is_float x = false /\ exists text, can (py_str x) (Val text) /\ j = PStr (take 1000 text)).

Lemma cell_gives x : gives (_carpo_cell times answer x) (cell_text x).
Proof.
  unfold _carpo_cell, cell_text. destruct (is_None x); [apply gives_ret; by left |]. destruct (is_float x); [apply gives_ret; right; by left |].
  eapply gives_bind; [apply gives_py |]. intros text Ht. apply gives_ret. right. right. split; [done |]. split; [done |].
  exists text. split; [done |]. destruct (Z.leb_spec (len text) 1000) as [Hl|Hl]; unfold len in Hl.
  - by rewrite take_ge by lia.
  - rewrite slice_to. unfold slice_bound. cbn. by rewrite Z.min_l by lia.
Qed.

Lemma cells_give tuples : gives (mapM (mapM (_carpo_cell times answer)) tuples) (Forall2 (Forall2 cell_text) tuples).
Proof. apply gives_mapM. intros row. apply gives_mapM. apply cell_gives. Qed.

(** A page of [frame]: the rows from [start], [count] at most. *)
Definition page_of (start count : Z) (p : Page) : Prop :=
  exists frame, page_n p = Z.of_nat (length (rows_of frame))
  /\ Forall2 (Forall2 cell_text) (take (Z.to_nat count) (drop (Z.to_nat (start - 1)) (rows_of frame))) (page_rows p).

Lemma page_gives kind v start count : 1 <= start -> 0 <= count -> gives (match kind with
  | Pandas => pandas_page times answer v start count
  | Polars => polars_page times answer v start count
  | Numpy => numpy_page times answer v start count
  end) (page_of start count).
Proof.
  intros Hs Hc.
  assert (forall frame rows page n columns labels, n = Z.of_nat (length (rows_of frame)) ->
    rows_of page = take (Z.to_nat count) (drop (Z.to_nat (start - 1)) (rows_of frame)) -> Forall2 (Forall2 cell_text) (rows_of page) rows ->
    page_of start count {| page_n := n; page_columns := columns; page_rows := rows; page_labels := labels |}) as Hpage.
  { intros frame rows page n columns labels Hn Hp Hrows. exists frame. split; [done |]. cbn. by rewrite <- Hp. }
  destruct kind; unfold pandas_page, polars_page, numpy_page, series_as_frame.
  - eapply gives_bind; [apply gives_by_user; user_runs |]. intros frame _.
    eapply gives_bind; [apply gives_py |]. intros n Hn%frame_length_rows.
    eapply gives_bind; [apply gives_py |]. intros pairs _.
    eapply gives_bind; [apply gives_by_user; unfold column; user_runs |]. intros columns _.
    eapply gives_bind; [apply gives_py |]. intros page Hp%iloc_rows. rewrite slice_page in Hp by lia.
    eapply gives_bind; [apply gives_py |]. intros tuples ->%itertuples_rows.
    eapply gives_bind; [apply cells_give |]. intros rows Hrows.
    eapply gives_bind; [apply gives_py |]. intros plain _.
    eapply gives_bind; [apply gives_by_user; unfold _carpo_cell; user_runs |]. intros labels _. apply gives_ret. by eapply Hpage.
  - eapply gives_bind; [apply gives_by_user; user_runs |]. intros frame _.
    eapply gives_bind; [apply gives_py |]. intros n Hn%frame_length_rows.
    eapply gives_bind; [apply gives_py |]. intros pairs _.
    eapply gives_bind; [apply gives_by_user; unfold column; user_runs |]. intros columns _.
    eapply gives_bind; [apply gives_py |]. intros page Hp%frame_slice_rows; [| lia ..].
    eapply gives_bind; [apply gives_py |]. intros tuples ->%frame_rows_rows.
    eapply gives_bind; [apply cells_give |]. intros rows Hrows. apply gives_ret. by eapply Hpage.
  - eapply gives_bind; [apply gives_by_user; user_runs |]. intros frame _.
    eapply gives_bind; [apply gives_py |]. intros n Hn%array_dimension_rows.
    eapply gives_bind; [apply gives_py |]. intros width _.
    eapply gives_bind; [apply gives_by_user; unfold numpy_column; user_runs |]. intros columns _.
    eapply gives_bind; [apply gives_py |]. intros page Hp%array_slice_rows. rewrite slice_page in Hp by lia.
    eapply gives_bind; [apply gives_py |]. intros tuples ->%tolist_rows.
    eapply gives_bind; [apply cells_give |]. intros rows Hrows. apply gives_ret. by eapply Hpage.
Qed.

(** The answer to a request for a page. *)
Definition table_answer (expr text : pystr) : Prop :=
  exists d name start count columns labels rows frame,
    json_loads (if bool_decide (expr = []) then lit "{}"%string else expr) = Val (PDict d)
    /\ dict_get (lit "name"%string) d = Some (PStr name)
    /\ int_of (default (PInt 1) (dict_get (lit "start"%string) d)) = Val start
    /\ int_of (default (PInt 100) (dict_get (lit "count"%string) d)) = Val count
    /\ text = json_dumps (PDict
         [(lit "name"%string, PStr name); (lit "rowCount"%string, PInt (Z.of_nat (length (rows_of frame))));
          (lit "columns"%string, PList columns); (lit "start"%string, PInt (Z.max 1 start));
          (lit "count"%string, PInt (Z.of_nat (length rows))); (lit "rowLabels"%string, labels);
          (lit "rows"%string, PList (PList <$> rows))])
    /\ (length rows <= Z.to_nat 100000)%nat
    /\ Forall2 (Forall2 cell_text)
         (take (Z.to_nat (Z.min count 100000)) (drop (Z.to_nat (Z.max 1 start - 1)) (rows_of frame))) rows.

Lemma request_get_gives d key x : gives (request_get (PDict d) key x) (fun y => y = default x (dict_get (lit key) d)).
Proof. by apply gives_ret. Qed.

Lemma named_variable_gives name : gives (named_variable name) (fun _ => exists s, name = PStr s).
Proof.
  unfold named_variable. destruct name; try apply gives_raise. eapply gives_weaken; [apply gives_by_user; user_runs |]. eauto.
Qed.

Lemma table_gives expr : gives (_carpo_table times answer expr) (table_answer expr).
Proof.
  unfold _carpo_table. eapply gives_bind; [apply gives_lift |]. intros request Hreq.
  destruct request as [| | | | | | d]; try (eapply (gives_bind _ _ (fun _ => False)); [apply gives_raise | done]).
  eapply gives_bind; [apply request_get_gives |]. intros name Hname.
  eapply gives_bind; [apply named_variable_gives |]. intros v [s ->].
  assert (dict_get (lit "name"%string) d = Some (PStr s)) as Hs
    by (destruct (dict_get (lit "name"%string) d) as [[]|]; cbn in Hname; by simplify_eq).
  eapply gives_bind; [apply gives_by_user, by_user_kind |]. intros [kind|] _; [| apply gives_raise].
  eapply gives_bind; [apply request_get_gives |]. intros x ->. eapply gives_bind; [apply gives_lift |]. intros start Hstart.
  eapply gives_bind; [apply request_get_gives |]. intros x ->. eapply gives_bind; [apply gives_lift |]. intros count Hcount.
  eapply gives_bind; [apply page_gives; lia |]. intros page (frame & Hn & Hrows). apply gives_ret.
  exists d, s, start, count, (page_columns page), (page_labels page), (page_rows page), frame.
  replace (Z.to_nat (Z.max 0 (Z.min count 100000))) with (Z.to_nat (Z.min count 100000)) in Hrows by lia.
  split_and!; try done; [by rewrite Hn |]. apply Forall2_length in Hrows. rewrite <- Hrows, length_take. lia.
Qed.

End Tables.

(** ** The session's variables *)
Section Variables.
Context `{J : JsonLib} `{Py : !Python} (times : nat -> Z) (answer : nat -> str + str).

(** The states code can leave Python in. *)
Inductive leaves {A} : Exec world exception A -> world -> Prop :=
| leaves_finish r w : leaves (Finished r w) w
| leaves_write err s k w : leaves k w -> leaves (Writes err s k) w
| leaves_ask prompt k a w : leaves (k a) w -> leaves (Asks prompt k) w.

(** Code that binds no variable of the session's. *)
Definition keeps {A} (op : Op world exception A) : Prop := forall w w', leaves (op w) w' -> globals w' = globals w.

(** Looking at an object binds none: its shape, its length, its text. *)
Hypothesis looking_keeps : forall v, keeps (shape_of v) /\ keeps (py_len v) /\ keeps (rows_and_columns v) /\ keeps (callable_name v)
  /\ keeps (signature_text v) /\ keeps (short_repr v).

Definition stays {A} (m : PyInterpreter -> outcome exception A * PyInterpreter) : Prop :=
  forall i, globals (python (snd (m i))) = globals (python i).

Lemma run_exec_leaves {A} (x : Exec world exception A) i : leaves x (python (snd (run_exec times answer x i))).
Proof.
  revert i. induction x as [r w | err s k IH | prompt k IH]; intros i; cbn; [constructor | constructor; apply IH |].
  destruct (__carpo_input times answer prompt i) as [r i1]. eapply leaves_ask, IH.
Qed.

Lemma stays_py {A} (op : Op world exception A) : keeps op -> stays (py times answer op).
Proof. intros H i. apply H, run_exec_leaves. Qed.

Lemma stays_bind {A B} (m : PyInterpreter -> outcome exception A * PyInterpreter) (f : A -> PyInterpreter -> outcome exception B * PyInterpreter) :
  stays m -> (forall a, stays (f a)) -> stays (bind m f).
Proof. intros Hm Hf i. unfold bind. specialize (Hm i). destruct (m i) as [[a|e] i1]; [by rewrite (Hf a i1) | done]. Qed.

Lemma stays_catch_if {A} p (m : PyInterpreter -> outcome exception A * PyInterpreter) h :
  stays m -> (forall e, stays (h e)) -> stays (catch_if p m h).
Proof. intros Hm Hh i. unfold catch_if. specialize (Hm i). destruct (m i) as [[a|e] i1]; [done |]. destruct (p e); [by rewrite (Hh e i1) | done]. Qed.

Lemma entry_stays name v : stays (variable_entry times answer name v).
Proof.
  destruct (looking_keeps v) as (H1 & H2 & H3 & H4 & H5 & H6).
  assert (stays (_carpo_table_kind v)) as Hk by (intros i; unfold _carpo_table_kind; by destruct (type_module v)).
  unfold variable_entry, _carpo_size, _carpo_preview, preview_text.
  repeat first
    [ exact Hk | apply stays_py; assumption | apply stays_bind; [| intros ?] | apply stays_catch_if; [| intros ?] | done
    | match goal with |- stays (match ?x with _ => _ end) => destruct x end ].
Qed.

(** What is listed of [g]'s variables: not the ones that start with an
    underscore, and no modules. *)
Definition listed (g : list (pystr * object)) (name : pystr) : bool :=
  negb (hidden name) && match dict_get name g with Some v => negb (is_module v) | None => false end.

(** The entry of a variable. *)
Definition entry_of (g : list (pystr * object)) (name : pystr) (entry : pyjson) : Prop :=
  exists v size summary table, dict_get name g = Some v
  /\ entry = PDict [(lit "name"%string, PStr name); (lit "type"%string, PStr (type_name v)); (lit "size"%string, PStr size);
                    (lit "summary"%string, PStr summary); (lit "table"%string, PBool table)].

Lemma entry_gives g name v i : dict_get name g = Some v ->
  match fst (variable_entry times answer name v i) with Val entry => entry_of g name entry | Exc _ => True end.
Proof.
  intros Hv. assert (gives (variable_entry times answer name v) (entry_of g name)) as H.
  { unfold variable_entry. eapply gives_bind; [apply gives_by_user; unfold _carpo_size; user_runs |]. intros size _.
    eapply gives_bind; [apply gives_by_user; unfold _carpo_preview, preview_text, _carpo_table_kind; user_runs |]. intros summary _.
    eapply gives_bind; [apply gives_by_user, by_user_kind |]. intros kind _. apply gives_ret. by do 4 eexists. }
  destruct (H i) as (r & i' & cs & -> & Hr & _). done.
Qed.

Lemma list_variables_gives g names : Forall (fun name => is_Some (dict_get name g)) names -> forall out i, globals (python i) = g ->
  (length out < _CARPO_MAX_OBJECTS)%nat ->
  match fst (list_variables times answer names out i) with
  | Val out' => exists new, out' = out ++ new
      /\ Forall2 (entry_of g) (take (_CARPO_MAX_OBJECTS - length out) (List.filter (listed g) names)) new
  | Exc _ => True
  end.
Proof.
  induction 1 as [|name names [v Hv] Hnames IH]; intros out i Hg Hlen; cbn [list_variables List.filter].
  { cbn [fst ret]. exists []. rewrite app_nil_r, take_nil. by split. }
  unfold listed at 1. destruct (hidden name); cbn [negb andb]; [by apply IH |]. rewrite Hv.
  unfold bind at 1, gets. rewrite Hg, Hv. destruct (is_module v); cbn [negb]; [by apply IH |].
  unfold bind. pose proof (entry_gives g name v i Hv) as He. pose proof (entry_stays name v i) as Hs.
  destruct (variable_entry times answer name v i) as [[entry|e] i1]; cbn [fst snd] in *; [| done].
  destruct (Nat.leb_spec _CARPO_MAX_OBJECTS (length (out ++ [entry]))) as [Hfull|Hmore]; rewrite length_app in *; cbn [length] in *.
  - cbn [fst ret]. exists [entry]. split; [done |]. replace (_CARPO_MAX_OBJECTS - length out)%nat with 1%nat by lia.
    cbn [take]. by repeat constructor.
  - specialize (IH (out ++ [entry]) i1). rewrite Hs, length_app in IH. specialize (IH Hg Hmore).
    destruct (list_variables times answer names (out ++ [entry]) i1) as [[out'|e] i2]; cbn [fst] in *; [| done].
    destruct IH as (new & -> & Hnew). exists (entry :: new). split; [by rewrite <- app_assoc |].
    replace (_CARPO_MAX_OBJECTS - length out)%nat with (S (_CARPO_MAX_OBJECTS - (length out + 1))) by lia.
    cbn [take]. by constructor.
Qed.

Lemma dict_get_key {V} (name : pystr) (g : list (pystr * V)) : name ∈ g.*1 -> is_Some (dict_get name g).
Proof.
  induction g as [|[k v] g IH]; cbn; [by intros ?%elem_of_nil |]. intros [-> | H]%elem_of_cons; [rewrite bool_decide_true by done; eauto |].
  case_bool_decide; eauto.
Qed.

Lemma dict_get_in {V} (name : pystr) (g : list (pystr * V)) v : dict_get name g = Some v -> name ∈ g.*1.
Proof. induction g as [|[k x] g IH]; cbn; [done |]. case_bool_decide as E; [intros _; subst; by left | intros H; right; auto]. Qed.

Lemma filter_sorted {A} (R : relation A) f l : StronglySorted R l -> StronglySorted R (List.filter f l).
Proof.
  induction 1 as [|x l Hs IH Hx]; cbn; [constructor |]. destruct (f x); [| done]. constructor; [done |].
  rewrite Forall_forall in Hx |- *. intros y. rewrite list_elem_of_In, filter_In, <- list_elem_of_In. intros [Hy _]. auto.
Qed.

Lemma filter_nodup {A} f (l : list A) : NoDup l -> NoDup (List.filter f l).
Proof.
  induction 1 as [|x l Hx Hn IH]; cbn; [constructor |]. destruct (f x); [| done]. constructor; [| done].
  rewrite list_elem_of_In, filter_In, <- list_elem_of_In. by intros [? _].
Qed.

Lemma no_objects : (length (@nil pyjson) < _CARPO_MAX_OBJECTS)%nat.
Proof. apply Nat.ltb_lt. vm_compute. reflexivity. Qed.

(** The variables pane.  The answer lists, sorted by name, the variables of
    the session that do not start with an underscore and are no modules, each
    once with its type, and of those the first 5000. *)
Theorem variables_listed expr i text : NoDup (globals (python i)).*1 ->
  fst (_carpo_variables times answer expr i) = Val text ->
  exists names entries, text = json_dumps (PList entries)
    /\ Forall2 (entry_of (globals (python i))) (take _CARPO_MAX_OBJECTS names) entries
    /\ names = List.filter (listed (globals (python i))) (py_sorted (globals (python i)).*1)
    /\ StronglySorted pystr_le names /\ NoDup names
    /\ forall name, name ∈ names <-> exists v, dict_get name (globals (python i)) = Some v /\ hidden name = false /\ is_module v = false.
Proof.
  intros Hn E. set (g := globals (python i)) in *. unfold _carpo_variables, bind, gets in E. fold g in E.
  assert (forall name, name ∈ py_sorted g.*1 <-> name ∈ g.*1) as Hin by (intros name; unfold py_sorted; by rewrite merge_sort_Permutation).
  pose proof (list_variables_gives g (py_sorted g.*1)) as H. specialize (H ltac:(apply Forall_forall; intros name Hx; apply dict_get_key; by apply Hin)).
  specialize (H [] i eq_refl no_objects).
  destruct (list_variables times answer (py_sorted g.*1) [] i) as [[out|e] i1]; cbn [fst ret] in *; [| done].
  destruct H as (new & -> & Hnew). injection E as <-. rewrite Nat.sub_0_r in Hnew.
  exists (List.filter (listed g) (py_sorted g.*1)), new. split; [done |]. split; [done |]. split; [done |].
  assert (StronglySorted pystr_le (py_sorted g.*1)) as Hs by (apply StronglySorted_merge_sort; apply _).
  assert (NoDup (py_sorted g.*1)) as Hn' by (unfold py_sorted; by rewrite merge_sort_Permutation).
  split; [by apply filter_sorted |]. split; [by apply filter_nodup |].
  intros name. rewrite list_elem_of_In, filter_In, <- list_elem_of_In, Hin. unfold listed. rewrite andb_true_iff, negb_true_iff. split.
  - intros (Hk & Hh & Hv). destruct (dict_get name g) as [v|]; [| done]. exists v. rewrite negb_true_iff in Hv. by split_and!.
  - intros (v & Hv & Hh & Hm). rewrite Hv, negb_true_iff. split; [by eapply dict_get_in |]. by split.
Qed.
End Variables.

(** ** The life of the interpreter *)
Section Life.
Context `{J : JsonLib} `{Py : !Python} (times : nat -> Z) (answer : nat -> str + str).

Inductive Request :=
| Execute (count : Z) (code_ : str) (config : ExecuteRequestConfig) (ue : json)
| Complete (code_ : str) (pos : Z)
| Inspect (code_ : str) (pos : Z)
| IsComplete (code_ : str)
| KernelInfo
| Shutdown (restart : bool)
| Interrupt
| Idle.

(** One of them, on the kernel's thread. *)
Definition serve (r : Request) (i : PyInterpreter) : result unit * PyInterpreter :=
  let answered (x : result json * PyInterpreter) := (let? _ := fst x in Ok tt, snd x) in
  match r with
  | Execute count code_ config ue =>
      match executeRequestImpl times answer count code_ config ue i with Some (_, i) => (Ok tt, i) | None => (Undefined, i) end
  | Complete code_ pos => answered (completeRequestImpl times answer code_ pos i)
  | Inspect code_ pos => answered (inspectRequestImpl times answer code_ pos i)
  | IsComplete code_ => answered (isCompleteRequestImpl times answer code_ i)
  | KernelInfo => (Ok tt, i)
  | Shutdown restart => (Ok tt, snd (shutdownRequestImpl restart i))
  | Interrupt => (Ok tt, snd (interruptRequestImpl i))
  | Idle => (Ok tt, idleImpl times answer i)
  end.

Fixpoint serve_all (rs : list Request) (i : PyInterpreter) : result unit * PyInterpreter :=
  match rs with
  | [] => (Ok tt, i)
  | r :: rs => match serve r i with (Ok _, i) => serve_all rs i | failed => failed end
  end.

(** The requests of a client: text, and no cell once the kernel is shut down. *)
Definition utf8_request (r : Request) : Prop :=
  match r with
  | Execute _ code_ _ ue => utf8 code_ /\ utf8_expressions ue
  | Complete code_ _ | Inspect code_ _ | IsComplete code_ => utf8 code_
  | _ => True
  end.

Fixpoint orderly (down : bool) (rs : list Request) : Prop :=
  match rs with
  | [] => True
  | Execute _ _ _ _ :: rs => down = false /\ orderly down rs
  | Shutdown _ :: rs => orderly true rs
  | _ :: rs => orderly down rs
  end.

Definition shuts_down (r : Request) : bool := match r with Shutdown _ => true | _ => false end.

(** Between two requests. *)
Record resting (i : PyInterpreter) : Prop := {
  rest_fns : bootstrapFns i = negb (m_finalized i);
  rest_ended : finalizations i = if m_finalized i && m_ownsInterpreter i then 1%nat else 0%nat;
  rest_idle : m_executing i = false
}.

(** What a request leaves: Python is still there, unless it is shut down, and
    was not entered if it was. *)
Record served (r : Request) (i i' : PyInterpreter) : Prop := {
  served_rest : resting i';
  served_owns : m_ownsInterpreter i' = m_ownsInterpreter i;
  served_down : m_finalized i' = m_finalized i || shuts_down r;
  served_signals : sigints i' = sigints i;
  served_after : m_finalized i = true -> python i' = python i /\ ticks i' = ticks i
}.

Lemma served_same r i : resting i -> shuts_down r = false -> served r i i.
Proof. intros Hr Hs. split; try done. by rewrite Hs, orb_false_r. Qed.

Lemma served_user r cs i i' : resting i -> m_finalized i = false -> shuts_down r = false -> advanced cs i i' -> served r i i'.
Proof.
  intros [H1 H2 H3] Hf Hs [C F V O E Z S N L]. split; try congruence; [| by rewrite Hs, Z, orb_false_r].
  split; [congruence | by rewrite L, Z, O | congruence].
Qed.

Lemma asked_served {A} r code_ (f : pystr -> PyInterpreter -> outcome exception A * PyInterpreter) reply finalized failed i :
  resting i -> utf8 code_ -> shuts_down r = false -> (forall s, by_user (f s)) ->
  exists j i', ask_bootstrap code_ f reply finalized failed i = (Ok j, i') /\ served r i i'.
Proof.
  intros Hr Hc Hs Hf. unfold ask_bootstrap, to_python. destruct (m_finalized i) eqn:Ef; [do 2 eexists; split; [reflexivity | by apply served_same] |].
  destruct (PyUnicode_utf8 code_ Hc) as [s ->]. destruct (ends_by_user _ (Hf s) i) as (o & i' & cs & -> & _ & A1 & _).
  destruct o; do 2 eexists; (split; [reflexivity | by eapply served_user]).
Qed.

Context `{JL : !JsonLaws J}.

Lemma serve_served r rs i : resting i -> utf8_request r -> orderly (m_finalized i) (r :: rs) ->
  exists i', serve r i = (Ok tt, i') /\ served r i i' /\ orderly (m_finalized i') rs.
Proof.
  intros Hr Hu Ho.
  assert (forall A code_ (f : pystr -> PyInterpreter -> outcome exception A * PyInterpreter) reply finalized failed,
    utf8 code_ -> shuts_down r = false -> orderly (m_finalized i) rs -> (forall s, by_user (f s)) -> exists i',
    (let? _ := fst (ask_bootstrap code_ f reply finalized failed i) in Ok tt, snd (ask_bootstrap code_ f reply finalized failed i))
    = (Ok tt, i') /\ served r i i' /\ orderly (m_finalized i') rs) as Hask.
  { intros A code_ f reply finalized failed Hc Hs Hrs Hf.
    destruct (asked_served r code_ f reply finalized failed i Hr Hc Hs Hf) as (j & i' & -> & Hserved). exists i'.
    split; [done |]. split; [done |]. destruct Hserved. by rewrite served_down0, Hs, orb_false_r. }
  destruct r; cbn [serve]; cbn in Hu.
  - destruct Hu as [Hc Hue]. destruct Ho as [Hf Ho].
    destruct (cell_leaves times answer count code_ config ue i Hc Hue) as (ss & cs & i1 & E & [C F V O X Z S N L]).
    { destruct Hr. by rewrite rest_fns0, Hf. }
    rewrite E. eexists. split; [reflexivity |]. cbn in *. destruct Hr as [H1 H2 H3].
    split; [| by rewrite Z]. split; cbn; try congruence; [| by rewrite Z, orb_false_r].
    split; cbn; [congruence | by rewrite L, Z, O | done].
  - apply Hask; try done. intros s. apply by_user_complete.
  - apply Hask; try done. intros s. apply by_user_inspect.
  - apply Hask; try done. intros s. apply by_user_is_complete.
  - exists i. split; [done |]. split; [by apply served_same | done].
  - exists (finalizeIfOwned i). split; [done |]. unfold finalizeIfOwned. destruct Hr as [H1 H2 H3]. destruct (m_finalized i) eqn:Ef.
    + split; [| by rewrite Ef]. split; try done; [split; by rewrite ?Ef |]. by rewrite Ef.
    + split; [| done]. split; cbn; rewrite ?Ef; try done. split; cbn; [done | rewrite H2; by destruct (m_ownsInterpreter i) | done].
  - exists i. unfold interruptRequestImpl. rewrite (rest_idle i Hr). split; [done |]. split; [by apply served_same | done].
  - unfold idleImpl. destruct (m_finalized i) eqn:Ef; cbn [orb]; [exists i; split; [done |]; split; [by apply served_same | by rewrite Ef] |].
    rewrite (rest_fns i Hr), Ef. cbn [negb]. destruct (by_user_idle times answer i) as (cs & A1 & _).
    eexists. split; [reflexivity |]. split; [by eapply served_user |]. destruct A1. by rewrite adv_finalized0, Ef.
Qed.

Lemma serve_all_served rs : forall i, resting i -> Forall utf8_request rs -> orderly (m_finalized i) rs ->
  exists i', serve_all rs i = (Ok tt, i') /\ resting i' /\ m_ownsInterpreter i' = m_ownsInterpreter i
  /\ m_finalized i' = m_finalized i || existsb shuts_down rs /\ sigints i' = sigints i
  /\ (m_finalized i = true -> python i' = python i /\ ticks i' = ticks i).
Proof.
  induction rs as [|r rs IH]; intros i Hr Hu Ho.
  - exists i. cbn. by rewrite orb_false_r.
  - apply Forall_cons in Hu as [Hu Hus]. destruct (serve_served r rs i Hr Hu Ho) as (i1 & E & [R1 O1 D1 S1 A1] & Ho1).
    cbn [serve_all]. rewrite E. destruct (IH i1 R1 Hus Ho1) as (i2 & E2 & R2 & O2 & D2 & S2 & A2). exists i2.
    split; [done |]. split; [done |]. split; [congruence |]. split; [rewrite D2, D1; cbn [existsb]; by rewrite orb_assoc |]. split; [congruence |].
    intros Hf. destruct (A1 Hf) as [E3 E4]. destruct A2 as [E5 E6]; [by rewrite D1, Hf |]. split; congruence.
Qed.

(** The interpreter's life.  Any requests, one after the other, are all
    answered - after a shutdown too, apart from cells - and Python is ended at
    most once, by a shutdown, by the object that started it; once it is ended
    it is not entered again.  No interrupt between two cells raises a signal
    that the next one would get. *)
Theorem interpreter_life rs i : resting i -> Forall utf8_request rs -> orderly (m_finalized i) rs ->
  exists i', serve_all rs i = (Ok tt, i') /\ resting i' /\ m_ownsInterpreter i' = m_ownsInterpreter i
  /\ m_finalized i' = m_finalized i || existsb shuts_down rs /\ sigints i' = sigints i
  /\ (m_finalized i = true -> python i' = python i /\ ticks i' = ticks i).
Proof. apply serve_all_served. Qed.
End Life.

(** ** A small Python *)
Module Toy.

Inductive obj :=
| None_
| Int (z : Z)
| Text (s : pystr)
| Unprintable
| Module_
| Homeless
| Frame (rows : list (list obj)).

(** An exception: its class, its text, whether the text can be had. *)
Record exn := { name_ : pystr; text_ : pystr; shy : bool }.

Definition error (n t : str) : exn := {| name_ := lit n; text_ := lit t; shy := false |}.

Abbreviation W := (list (pystr * obj)).
Abbreviation Run A := (Op W exn A).

Definition pure {A} (a : A) : Run A := fun w => Finished (Val a) w.
Definition fails {A} (e : exn) : Run A := fun w => Finished (Exc e) w.

(** A line of code: what it does and its value. *)
Definition line (s : pystr) : Run obj := fun w =>
  if bool_decide (s = lit "print"%string) then Writes false (lit "hi"%string ++ newline_text) (Finished (Val None_) w)
  else if bool_decide (s = lit "1"%string) then Finished (Val (Int 1)) w
  else if bool_decide (s = lit "bad"%string) then Finished (Val Unprintable) w
  else if bool_decide (s = lit "ask"%string)
       then Asks (lit "? "%string) (fun r => Finished (match r with Val s => Val (Text s) | Exc e => Exc e end) w)
  else if bool_decide (s = lit "odd"%string) then Writes false [0xD800] (Finished (Val None_) w)
  else if bool_decide (s = lit "raise"%string) then Finished (Exc (error "ValueError" "no")) w
  else if bool_decide (s = lit "shy"%string) then Finished (Exc {| name_ := lit "Shy"%string; text_ := []; shy := true |}) w
  else match dict_get s w with Some v => Finished (Val v) w | None => Finished (Exc (error "NameError" "name")) w end.

Fixpoint lines_of (word s : pystr) : list pystr :=
  match s with [] => [word] | c :: s => if c =? 10 then word :: lines_of [] s else lines_of (word ++ [c]) s end.

(** Another program after one, with its value. *)
Fixpoint after {A B} (x : Exec W exn A) (f : A -> Run B) : Exec W exn B :=
  match x with
  | Finished (Val a) w => f a w
  | Finished (Exc e) w => Finished (Exc e) w
  | Writes err s k => Writes err s (after k f)
  | Asks prompt k => Asks prompt (fun r => after (k r) f)
  end.

Fixpoint lines_run (ls : list pystr) (v : obj) : Run obj :=
  match ls with [] => pure v | l :: ls => fun w => after (line l w) (fun v => lines_run ls v) end.

Fixpoint is_prefix (p s : pystr) : bool :=
  match p, s with [], _ => true | _, [] => false | a :: p, b :: s => (a =? b) && is_prefix p s end.

Definition show (v : obj) : pystr :=
  match v with Int z => (if z <? 0 then lit "-"%string else []) ++ digits z | Text s => s | Frame _ => lit "a table"%string | _ => lit "None"%string end.

Definition rows_of (v : obj) : list (list obj) := match v with Frame rows => rows | _ => [] end.

#[export] Instance python : Python := {|
  object := obj; exception := exn; world := W; loop := unit; statement := pystr; expression := pystr; compiled := list pystr;
  is_Exception e := true; is_compile_error e := true; is_signature_error e := true; exc_name := name_;
  exc_str e := if shy e then fails (error "TypeError" "shy") else pure (text_ e);
  format_exception e := pure [name_ e]; print_exc e := pure tt;
  RuntimeError s := error "RuntimeError" "input"; UnicodeDecodeError s := error "UnicodeDecodeError" "bytes";
  KeyError s := {| name_ := lit "KeyError"%string; text_ := s; shy := false |};
  TypeError s := {| name_ := lit "TypeError"%string; text_ := s; shy := false |};
  AttributeError s := {| name_ := lit "AttributeError"%string; text_ := s; shy := false |};
  IndexError := error "IndexError" "index";
  ast_parse s := pure (lines_of [] s); expr_value s := if bool_decide (s = lit "pass"%string) then None else Some s;
  compile_exec body := pure body; compile_eval e := pure [e]; co_coroutine c := false;
  eval_code c := lines_run c None_; eval_text s := line s; import_ m := pure tt;
  is_None v := match v with None_ => true | _ => false end;
  repr v := match v with Unprintable => fails (error "ValueError" "repr") | _ => pure (show v) end; py_str v := pure (show v);
  globals w := w;
  new_event_loop := pure tt; set_event_loop l := pure tt; is_closed w l := false; is_running w l := false; has_work w l := false;
  run_until_complete l v := pure v; call_soon_stop l := pure tt; run_forever l := pure tt;
  compile_command s := pure (Some []); new_completer := pure None_;
  completer_complete c token state := fun w => Finished (Val (List.filter (is_prefix token) w.*1 !! state)) w;
  signature_text v := fails (error "TypeError" "no signature"); getdoc v := pure None; iskeyword s := false;
  helper_keywords w s := None; helper_topics w s := None; topics_section w s := None; upper s := s;
  isalnum c := in_range 0x61 0x7A c; short_repr v := pure (show v);
  type_name v := match v with Frame _ => lit "DataFrame"%string | Int _ => lit "int"%string | _ => lit "object"%string end;
  type_module v := match v with Frame _ => Some (lit "pandas.core.frame"%string) | Homeless => None | _ => Some (lit "builtins"%string) end;
  callable v := false; is_type v := false; is_module v := match v with Module_ => true | _ => false end; ndim v := 0;
  shape_of v := pure (match v with Frame rows => Some [Z.of_nat (length rows); 2] | _ => None end);
  rows_and_columns v := pure (Z.of_nat (length (rows_of v)), 2); py_len v := fails (error "TypeError" "no len");
  callable_name v := pure (lit "f"%string);
  to_frame v := pure v; frame_length v := pure (Z.of_nat (length (rows_of v))); frame_columns v := pure [(Text (lit "a"%string), Text (lit "int64"%string))];
  iloc v a b := pure (Frame (slice (rows_of v) a b)); itertuples v := pure (rows_of v); plain_index v := pure true;
  index_labels v := pure []; frame_slice v a n := pure (Frame (take (Z.to_nat n) (drop (Z.to_nat a) (rows_of v))));
  frame_rows v := pure (rows_of v); reshape_column v := pure v; array_dimension v d := pure (Z.of_nat (length (rows_of v)));
  dtype_text v := pure (lit "float64"%string); array_slice v a b := pure (Frame (slice (rows_of v) a b)); tolist v := pure (rows_of v);
  is_float v := false; is_nan v := false; float_repr v := [];
  json_loads s := Val (PDict [(lit "name"%string, PStr s); (lit "start"%string, PInt 2)]);
  json_dumps j := match j with PList l => digits (Z.of_nat (length l)) | _ => lit "{...}"%string end; json_text j := lit "name"%string;
  int_of_float s := Val 0; int_of_str s := Exc (error "ValueError" "int")
|}.

Abbreviation Interp := (PyInterpreter (J := Concrete.concrete) (Py := python)).

Definition no_times (n : nat) : Z := Z.of_nat n.
Definition yes (n : nat) : str + str := inl ("y"%string : str).

Definition session : W :=
  [(lit "xs"%string, Text (lit "two words"%string)); (lit "_x"%string, Int 2); (lit "os"%string, Module_);
   (lit "t"%string, Frame [[Int 1; None_]; [Int 2; Int 20]; [Int 3; Int 30]])].

Definition ready : Interp :=
  {| bootstrapFns := true; m_languageVersion := "3.13.1"%string; m_ownsInterpreter := true; m_executing := false; m_finalized := false;
     allowsStdin := false; _carpo_loop := None; Carpo.python := session; ticks := 0; questions := 0; calls := []; sigints := 0;
     finalizations := 0 |}.

Lemma utf8_literal (t : str) : forallb (fun c => code c <? 0x80) t = true -> utf8 t.
Proof. intros H. apply utf8_ascii. rewrite Forall_forall. intros c Hc. rewrite forallb_forall in H. apply Z.ltb_lt, H. by apply list_elem_of_In. Qed.

Lemma no_expressions : utf8_expressions (J := Concrete.concrete) empty_object.
Proof. vm_compute. constructor. Qed.

(** A cell that prints, then has a value. *)
Definition two_lines : str := "print"%string ++ [newline] ++ "1"%string.

Abbreviation steps_of code_ config :=
  (fst <$> executeRequestImpl (J := Concrete.concrete) no_times yes 1 code_ config empty_object ready).

Example two_lines_steps : steps_of two_lines Kernel.example_config
  = Some [DoCall (Stream "stdout"%string ("hi"%string ++ [newline]) 0); DoCall (ExecutionResult 1 (text_plain "1"%string) empty_object 1);
          Reply (createSuccessfulReply (mk_array []) empty_object) 2].
Proof. vm_compute. reflexivity. Qed.

Lemma python_cell_witness : exists ran shown after reply now i',
  executeRequestImpl (J := Concrete.concrete) no_times yes 1 two_lines Kernel.example_config empty_object ready
  = Some ((DoCall <$> (ran ++ shown ++ after)) ++ [Reply reply now], i') /\ Forall user_call ran /\ m_executing i' = false.
Proof.
  destruct (python_cell (JL := Concrete.concrete_laws) no_times yes 1 two_lines Kernel.example_config empty_object ready)
    as (s & ran & shown & after & reply & now & i' & _ & E & F & _ & _ & H & _).
  - apply utf8_literal. reflexivity.
  - exact no_expressions.
  - reflexivity.
  - exists ran, shown, after, reply, now, i'. split; [exact E |]. split; [exact F | exact H].
Defined.

Definition python_kernel : Kernel (J := Concrete.concrete) (Lang := carpo no_times yes) (Hist := no_history) :=
  {| trace := []; interp := Interpreter.example_start; lang := (ready : @lstate _ (carpo no_times yes)); comms := empty_world; history := tt;
     queue := [(example_cell "next"%string, true)]; ended := []; awaiting := []; iso_now := "now"%string |}.

Lemma py_kernel_cell_witness : exists k' st shown reply,
  dispatch (Lang := carpo no_times yes) (Hist := no_history) (U := keeper) None None ("k"%string : str) false 0%nat
    (example_cell "raise"%string) SHELL python_kernel = (Ok tt, k') /\ cell_status empty_object st shown reply.
Proof.
  destruct (py_kernel_cell (JL := Concrete.concrete_laws) (Hist := no_history) (U := keeper) no_times yes None None ("k"%string : str) false 0%nat
    (example_cell "raise"%string) SHELL python_kernel "raise"%string Kernel.example_config true empty_object)
    as (k' & out1 & out2 & ran & shown & after & reply & st & now & i' & E & _ & _ & _ & H & _).
  - vm_compute. reflexivity.
  - apply example_parsed.
  - apply example_abortable.
  - apply utf8_literal. reflexivity.
  - exact no_expressions.
  - reflexivity.
  - exists k', st, shown, reply. split; [exact E | exact H].
Defined.

Lemma completion_run : fst (__carpo_complete (J := Concrete.concrete) no_times yes (lit "1 + x"%string) 5 ready) = Val ([lit "xs"%string], 4, 5).
Proof. vm_compute. reflexivity. Qed.

Lemma completion_witness : slice (lit "1 + x"%string) 4 5 = token_of (slice (lit "1 + x"%string) 0 5).
Proof.
  destruct (completion (J := Concrete.concrete) no_times yes (lit "1 + x"%string) 5 ready) as (_ & _ & H).
  - vm_compute. split; discriminate.
  - vm_compute. discriminate.
  - rewrite completion_run in H. exact (proj1 H).
Defined.


Lemma looking_keeps : forall v : obj, keeps (shape_of v) /\ keeps (py_len v) /\ keeps (rows_and_columns v) /\ keeps (callable_name v)
  /\ keeps (signature_text v) /\ keeps (short_repr v).
Proof. intros v. split_and!; intros w w' H; by inversion H. Qed.

Lemma variables_listed_witness : exists text, fst (_carpo_variables no_times yes [] ready) = Val text
  /\ exists names entries, text = json_dumps (PList entries) /\ Forall2 (entry_of session) (take _CARPO_MAX_OBJECTS names) entries.
Proof.
  eexists. split; [vm_compute; reflexivity |].
  destruct (variables_listed (J := Concrete.concrete) (Py := python) no_times yes looking_keeps [] ready (digits 2)) as (names & entries & H1 & H2 & _).
  - change ((globals (Carpo.python ready)).*1) with (session.*1). apply (bool_decide_unpack _). vm_compute. reflexivity.
  - vm_compute. reflexivity.
  - exists names, entries. split; [exact H1 | exact H2].
Defined.

Definition a_day : list (Request (J := Concrete.concrete)) :=
  [KernelInfo; Execute 1 "raise"%string Kernel.example_config empty_object; Interrupt; Complete "xs"%string 1; Idle; Shutdown false;
   IsComplete "1"%string; Shutdown false].

Lemma interpreter_life_witness : exists i', serve_all no_times yes a_day ready = (Ok tt, i') /\ resting i' /\ finalizations i' = 1%nat.
Proof.
  destruct (interpreter_life (JL := Concrete.concrete_laws) no_times yes a_day ready) as (i' & E & [R1 R2 R3] & Ho & Hf & _).
  - by split.
  - repeat constructor; try exact no_expressions; apply utf8_literal; reflexivity.
  - cbn. by split_and!.
  - exists i'. split; [exact E |]. split; [by split |]. rewrite R2, Hf, Ho. reflexivity.
Defined.

(** *** What the code does not do *)

(** An exception whose own text raises is not reported: [__carpo_run] does not
    catch what its handler raises, and the reply has no traceback. *)
Example shy_exception : match steps_of "shy"%string Kernel.example_config with
  | Some [DoCall (ExecutionError n _ [] _); Reply reply _] =>
      n = "CarpoInternalError"%string /\ find reply "traceback"%string = Some null
  | _ => False
  end.
Proof. vm_compute. split; reflexivity. Qed.

(** A silent cell publishes its result all the same. *)
Definition silently : ExecuteRequestConfig := {| silent := true; store_history := false; allow_stdin := false |}.
Example silent_result : steps_of "1"%string silently = steps_of "1"%string Kernel.example_config.
Proof. vm_compute. reflexivity. Qed.

(** Code ends at a zero character: what is after it does not run. *)
Example code_after_zero : steps_of ("1"%string ++ [nul] ++ "raise"%string) Kernel.example_config = steps_of "1"%string Kernel.example_config.
Proof. vm_compute. reflexivity. Qed.

(** Output with a lone surrogate is not published, not even replaced. *)
Example lone_surrogate_lost : steps_of "odd"%string Kernel.example_config
  = Some [Reply (createSuccessfulReply (mk_array []) empty_object) 0].
Proof. vm_compute. reflexivity. Qed.

(** On an empty line, the token is the last name of the line before, and what
    would be replaced is not that name. *)
Example completion_on_an_empty_line :
  let code_ := lit "xs"%string ++ newline_text in
  fst (__carpo_complete (J := Concrete.concrete) no_times yes code_ 3 ready) = Val ([lit "xs"%string], 1, 3)
  /\ slice code_ 1 3 = lit "s"%string ++ newline_text.
Proof. vm_compute. split; reflexivity. Qed.

(** One variable whose class has no module name, and nothing is listed. *)
Example one_object_hides_all :
  match fst (_carpo_variables (J := Concrete.concrete) no_times yes [] (upd_python ((lit "v"%string, Homeless) :: session) ready)) with
  | Exc e => name_ e = lit "AttributeError"%string
  | Val _ => False
  end.
Proof. vm_compute. reflexivity. Qed.

(** Input that the request does not allow is an exception in the user's code. *)
Example input_refused : steps_of "ask"%string silently
  = Some [DoCall (ExecutionError "RuntimeError"%string "input"%string ["RuntimeError"%string : str] 0);
          Reply (createErrorReply "RuntimeError"%string "input"%string (mk_array [mk_str "RuntimeError"%string])) 1].
Proof. vm_compute. reflexivity. Qed.

End Toy.
