(* ===== verification/RConsole.v ===== *)
(** * R's console loop and the cells it runs (elara/r/interpreter_r.cpp)

    [RInterpreter]: R's own console loop owns the main thread; it asks for its
    next line with [readConsole], which evaluates a cell's expressions one at a
    time and, when there is no cell, turns the server's loop.  An expression that
    fails long-jumps past [readConsole] to R's top level.

    R is a coroutine of this code, and unknown: what it does is an [Event] - it
    asks for a line, prints, an evaluation returns or jumps away, its error
    handler reports - and a theorem quantifies over sequences of events.  An
    event also carries what R or hera answers when asked.  [Place] says where the
    thread is: in R, in the loop of [readConsole], or stopped by the debugger;
    [frames] are the calls of [readConsole] that wait for an evaluation (more
    than one when the code evaluated asks for a line with R's top-level prompt).
    The control thread's events, an interrupt or a debug request, can come
    anywhere.

    What is asked of the base class and the replies are [steps], as
    [Kernel.Step]s, in order. *)

From Stdlib Require Import Ascii String ZArith Lia.
From stdpp Require Import base list strings.
From S2P Require Import Prelude RJson Json RDebugger Interpreter Comm Kernel.

Local Open Scope Z_scope.
Local Open Scope jovian_scope.

(** [withLineFeeds]: R's parser rejects a carriage return. *)
Fixpoint withLineFeeds (code_ : str) : str :=
  match code_ with
  | [] => []
  | c :: rest =>
      if negb (char_eqb c carriage_return) then c :: withLineFeeds rest
      else match rest with
           | d :: _ => if char_eqb d newline then withLineFeeds rest else newline :: withLineFeeds rest
           | [] => [newline]
           end
  end.

Section RConsole.
Context `{J : JsonLib}.
(** R's objects, by identity, and its global environment. *)
Context {obj : Type} (R_GlobalEnv : obj).
(** JSON made of R values, as the program's json; the parser of the library. *)
Context (embed : basic_json -> json) (parse_json : str -> basic_json).

Abbreviation Debugger := (RDebugger.t (obj := obj)).

(** A cell being run.  [identity] tells it from the others. *)
Record Cell := {
  identity : nat;
  executionCount : Z;
  silent_cell : bool;
  userExpressions : json;
  exprs : list obj;
  srcrefs : option (list obj);
  next : nat;
  checkGraphics : bool;
  failed : bool;
  errorRecorded : bool;
  evalue : str;
  traceback : list str;
  valueText : str
}.

Definition upd_next n g c := Build_Cell (identity c) (executionCount c) (silent_cell c) (userExpressions c) (exprs c) (srcrefs c) n g (failed c) (errorRecorded c) (evalue c) (traceback c) (valueText c).
Definition upd_error f r e t c := Build_Cell (identity c) (executionCount c) (silent_cell c) (userExpressions c) (exprs c) (srcrefs c) (next c) (checkGraphics c) f r e t (valueText c).
Definition upd_value v c := Build_Cell (identity c) (executionCount c) (silent_cell c) (userExpressions c) (exprs c) (srcrefs c) (next c) (checkGraphics c) (failed c) (errorRecorded c) (evalue c) (traceback c) v.

Definition cell_count (c : Cell) : nat := length (exprs c).

Record RInterpreter := {
  m_server : bool;
  m_debugger : option Debugger;
  m_cell : option Cell;
  m_evaluating : bool;
  m_loopStarted : bool;
  m_topPrompt : str;
  m_continuePrompt : str;
  m_debugOutput : str;
  m_pendingLine : str;
  m_pendingTail : bool;
  m_pendingCapture : bool;
  m_inTail : bool;
  m_captureValue : bool;
  m_idleExpression : bool;
  m_rEnded : bool;
  m_executing : bool;
  m_interruptRequested : bool;
  (** the values of the symbols of R's base environment: the expressions kept
      alive, where the expression being evaluated is, and its value *)
  jv_cell : option (list obj);
  jv_cell_srcref : option obj;
  jv_last_value : option obj;
  (** of the base class: whether the request allows input *)
  allowsStdin : bool;
  (** ours: the time, what was asked of the base class and replied, the
      expressions given to R's evaluator, the lines R's console was handed and
      the sizes of its buffers, and how many cells were accepted *)
  clock : Z;
  steps : list Step;
  evaluated : list obj;
  handed : list (option str * Z);
  requests : nat
}.

Definition upd_debugger d i := Build_RInterpreter (m_server i) d (m_cell i) (m_evaluating i) (m_loopStarted i) (m_topPrompt i) (m_continuePrompt i) (m_debugOutput i) (m_pendingLine i) (m_pendingTail i) (m_pendingCapture i) (m_inTail i) (m_captureValue i) (m_idleExpression i) (m_rEnded i) (m_executing i) (m_interruptRequested i) (jv_cell i) (jv_cell_srcref i) (jv_last_value i) (allowsStdin i) (clock i) (steps i) (evaluated i) (handed i) (requests i).
Definition upd_cell c i := Build_RInterpreter (m_server i) (m_debugger i) c (m_evaluating i) (m_loopStarted i) (m_topPrompt i) (m_continuePrompt i) (m_debugOutput i) (m_pendingLine i) (m_pendingTail i) (m_pendingCapture i) (m_inTail i) (m_captureValue i) (m_idleExpression i) (m_rEnded i) (m_executing i) (m_interruptRequested i) (jv_cell i) (jv_cell_srcref i) (jv_last_value i) (allowsStdin i) (clock i) (steps i) (evaluated i) (handed i) (requests i).
Definition upd_evaluating b i := Build_RInterpreter (m_server i) (m_debugger i) (m_cell i) b (m_loopStarted i) (m_topPrompt i) (m_continuePrompt i) (m_debugOutput i) (m_pendingLine i) (m_pendingTail i) (m_pendingCapture i) (m_inTail i) (m_captureValue i) (m_idleExpression i) (m_rEnded i) (m_executing i) (m_interruptRequested i) (jv_cell i) (jv_cell_srcref i) (jv_last_value i) (allowsStdin i) (clock i) (steps i) (evaluated i) (handed i) (requests i).
Definition upd_loopStarted b i := Build_RInterpreter (m_server i) (m_debugger i) (m_cell i) (m_evaluating i) b (m_topPrompt i) (m_continuePrompt i) (m_debugOutput i) (m_pendingLine i) (m_pendingTail i) (m_pendingCapture i) (m_inTail i) (m_captureValue i) (m_idleExpression i) (m_rEnded i) (m_executing i) (m_interruptRequested i) (jv_cell i) (jv_cell_srcref i) (jv_last_value i) (allowsStdin i) (clock i) (steps i) (evaluated i) (handed i) (requests i).
Definition upd_prompts p q i := Build_RInterpreter (m_server i) (m_debugger i) (m_cell i) (m_evaluating i) (m_loopStarted i) p q (m_debugOutput i) (m_pendingLine i) (m_pendingTail i) (m_pendingCapture i) (m_inTail i) (m_captureValue i) (m_idleExpression i) (m_rEnded i) (m_executing i) (m_interruptRequested i) (jv_cell i) (jv_cell_srcref i) (jv_last_value i) (allowsStdin i) (clock i) (steps i) (evaluated i) (handed i) (requests i).
Definition upd_debugOutput s i := Build_RInterpreter (m_server i) (m_debugger i) (m_cell i) (m_evaluating i) (m_loopStarted i) (m_topPrompt i) (m_continuePrompt i) s (m_pendingLine i) (m_pendingTail i) (m_pendingCapture i) (m_inTail i) (m_captureValue i) (m_idleExpression i) (m_rEnded i) (m_executing i) (m_interruptRequested i) (jv_cell i) (jv_cell_srcref i) (jv_last_value i) (allowsStdin i) (clock i) (steps i) (evaluated i) (handed i) (requests i).
Definition upd_pending l t c i := Build_RInterpreter (m_server i) (m_debugger i) (m_cell i) (m_evaluating i) (m_loopStarted i) (m_topPrompt i) (m_continuePrompt i) (m_debugOutput i) l t c (m_inTail i) (m_captureValue i) (m_idleExpression i) (m_rEnded i) (m_executing i) (m_interruptRequested i) (jv_cell i) (jv_cell_srcref i) (jv_last_value i) (allowsStdin i) (clock i) (steps i) (evaluated i) (handed i) (requests i).
Definition upd_tail t c i := Build_RInterpreter (m_server i) (m_debugger i) (m_cell i) (m_evaluating i) (m_loopStarted i) (m_topPrompt i) (m_continuePrompt i) (m_debugOutput i) (m_pendingLine i) (m_pendingTail i) (m_pendingCapture i) t c (m_idleExpression i) (m_rEnded i) (m_executing i) (m_interruptRequested i) (jv_cell i) (jv_cell_srcref i) (jv_last_value i) (allowsStdin i) (clock i) (steps i) (evaluated i) (handed i) (requests i).
Definition upd_idle e b i := Build_RInterpreter (m_server i) (m_debugger i) (m_cell i) (m_evaluating i) (m_loopStarted i) (m_topPrompt i) (m_continuePrompt i) (m_debugOutput i) (m_pendingLine i) (m_pendingTail i) (m_pendingCapture i) (m_inTail i) (m_captureValue i) e b (m_executing i) (m_interruptRequested i) (jv_cell i) (jv_cell_srcref i) (jv_last_value i) (allowsStdin i) (clock i) (steps i) (evaluated i) (handed i) (requests i).
Definition upd_executing b i := Build_RInterpreter (m_server i) (m_debugger i) (m_cell i) (m_evaluating i) (m_loopStarted i) (m_topPrompt i) (m_continuePrompt i) (m_debugOutput i) (m_pendingLine i) (m_pendingTail i) (m_pendingCapture i) (m_inTail i) (m_captureValue i) (m_idleExpression i) (m_rEnded i) b (m_interruptRequested i) (jv_cell i) (jv_cell_srcref i) (jv_last_value i) (allowsStdin i) (clock i) (steps i) (evaluated i) (handed i) (requests i).
Definition upd_interrupt b i := Build_RInterpreter (m_server i) (m_debugger i) (m_cell i) (m_evaluating i) (m_loopStarted i) (m_topPrompt i) (m_continuePrompt i) (m_debugOutput i) (m_pendingLine i) (m_pendingTail i) (m_pendingCapture i) (m_inTail i) (m_captureValue i) (m_idleExpression i) (m_rEnded i) (m_executing i) b (jv_cell i) (jv_cell_srcref i) (jv_last_value i) (allowsStdin i) (clock i) (steps i) (evaluated i) (handed i) (requests i).
Definition upd_jv_cell x i := Build_RInterpreter (m_server i) (m_debugger i) (m_cell i) (m_evaluating i) (m_loopStarted i) (m_topPrompt i) (m_continuePrompt i) (m_debugOutput i) (m_pendingLine i) (m_pendingTail i) (m_pendingCapture i) (m_inTail i) (m_captureValue i) (m_idleExpression i) (m_rEnded i) (m_executing i) (m_interruptRequested i) x (jv_cell_srcref i) (jv_last_value i) (allowsStdin i) (clock i) (steps i) (evaluated i) (handed i) (requests i).
Definition upd_srcref x i := Build_RInterpreter (m_server i) (m_debugger i) (m_cell i) (m_evaluating i) (m_loopStarted i) (m_topPrompt i) (m_continuePrompt i) (m_debugOutput i) (m_pendingLine i) (m_pendingTail i) (m_pendingCapture i) (m_inTail i) (m_captureValue i) (m_idleExpression i) (m_rEnded i) (m_executing i) (m_interruptRequested i) (jv_cell i) x (jv_last_value i) (allowsStdin i) (clock i) (steps i) (evaluated i) (handed i) (requests i).
Definition upd_last_value x i := Build_RInterpreter (m_server i) (m_debugger i) (m_cell i) (m_evaluating i) (m_loopStarted i) (m_topPrompt i) (m_continuePrompt i) (m_debugOutput i) (m_pendingLine i) (m_pendingTail i) (m_pendingCapture i) (m_inTail i) (m_captureValue i) (m_idleExpression i) (m_rEnded i) (m_executing i) (m_interruptRequested i) (jv_cell i) (jv_cell_srcref i) x (allowsStdin i) (clock i) (steps i) (evaluated i) (handed i) (requests i).
Definition upd_stdin b i := Build_RInterpreter (m_server i) (m_debugger i) (m_cell i) (m_evaluating i) (m_loopStarted i) (m_topPrompt i) (m_continuePrompt i) (m_debugOutput i) (m_pendingLine i) (m_pendingTail i) (m_pendingCapture i) (m_inTail i) (m_captureValue i) (m_idleExpression i) (m_rEnded i) (m_executing i) (m_interruptRequested i) (jv_cell i) (jv_cell_srcref i) (jv_last_value i) b (clock i) (steps i) (evaluated i) (handed i) (requests i).
Definition upd_clock t i := Build_RInterpreter (m_server i) (m_debugger i) (m_cell i) (m_evaluating i) (m_loopStarted i) (m_topPrompt i) (m_continuePrompt i) (m_debugOutput i) (m_pendingLine i) (m_pendingTail i) (m_pendingCapture i) (m_inTail i) (m_captureValue i) (m_idleExpression i) (m_rEnded i) (m_executing i) (m_interruptRequested i) (jv_cell i) (jv_cell_srcref i) (jv_last_value i) (allowsStdin i) t (steps i) (evaluated i) (handed i) (requests i).
Definition upd_steps s i := Build_RInterpreter (m_server i) (m_debugger i) (m_cell i) (m_evaluating i) (m_loopStarted i) (m_topPrompt i) (m_continuePrompt i) (m_debugOutput i) (m_pendingLine i) (m_pendingTail i) (m_pendingCapture i) (m_inTail i) (m_captureValue i) (m_idleExpression i) (m_rEnded i) (m_executing i) (m_interruptRequested i) (jv_cell i) (jv_cell_srcref i) (jv_last_value i) (allowsStdin i) (clock i) s (evaluated i) (handed i) (requests i).
Definition upd_evaluated l i := Build_RInterpreter (m_server i) (m_debugger i) (m_cell i) (m_evaluating i) (m_loopStarted i) (m_topPrompt i) (m_continuePrompt i) (m_debugOutput i) (m_pendingLine i) (m_pendingTail i) (m_pendingCapture i) (m_inTail i) (m_captureValue i) (m_idleExpression i) (m_rEnded i) (m_executing i) (m_interruptRequested i) (jv_cell i) (jv_cell_srcref i) (jv_last_value i) (allowsStdin i) (clock i) (steps i) l (handed i) (requests i).
Definition upd_handed h i := Build_RInterpreter (m_server i) (m_debugger i) (m_cell i) (m_evaluating i) (m_loopStarted i) (m_topPrompt i) (m_continuePrompt i) (m_debugOutput i) (m_pendingLine i) (m_pendingTail i) (m_pendingCapture i) (m_inTail i) (m_captureValue i) (m_idleExpression i) (m_rEnded i) (m_executing i) (m_interruptRequested i) (jv_cell i) (jv_cell_srcref i) (jv_last_value i) (allowsStdin i) (clock i) (steps i) (evaluated i) h (requests i).
Definition upd_requests n i := Build_RInterpreter (m_server i) (m_debugger i) (m_cell i) (m_evaluating i) (m_loopStarted i) (m_topPrompt i) (m_continuePrompt i) (m_debugOutput i) (m_pendingLine i) (m_pendingTail i) (m_pendingCapture i) (m_inTail i) (m_captureValue i) (m_idleExpression i) (m_rEnded i) (m_executing i) (m_interruptRequested i) (jv_cell i) (jv_cell_srcref i) (jv_last_value i) (allowsStdin i) (clock i) (steps i) (evaluated i) (handed i) n.

(** The object as it is made, and with a server. *)
Definition newInterpreter (now : Z) : RInterpreter :=
  {| m_server := false; m_debugger := None; m_cell := None; m_evaluating := false; m_loopStarted := false;
     m_topPrompt := "> "%string; m_continuePrompt := "+ "%string; m_debugOutput := []; m_pendingLine := [];
     m_pendingTail := false; m_pendingCapture := false; m_inTail := false; m_captureValue := false;
     m_idleExpression := false; m_rEnded := false; m_executing := false; m_interruptRequested := false;
     jv_cell := None; jv_cell_srcref := None; jv_last_value := None; allowsStdin := false; clock := now; steps := [];
     evaluated := []; handed := []; requests := 0 |}.

Definition upd_server b i := Build_RInterpreter b (m_debugger i) (m_cell i) (m_evaluating i) (m_loopStarted i) (m_topPrompt i) (m_continuePrompt i) (m_debugOutput i) (m_pendingLine i) (m_pendingTail i) (m_pendingCapture i) (m_inTail i) (m_captureValue i) (m_idleExpression i) (m_rEnded i) (m_executing i) (m_interruptRequested i) (jv_cell i) (jv_cell_srcref i) (jv_last_value i) (allowsStdin i) (clock i) (steps i) (evaluated i) (handed i) (requests i).

(** [tmpPrefix]: the debugger's directory. *)
Definition with_a_debugger (tmpPrefix : str) i : RInterpreter :=
  upd_debugger (Some (default (newDebugger tmpPrefix) (m_debugger i))) i.

Definition attachServer (tmpPrefix : str) i : RInterpreter := with_a_debugger tmpPrefix (upd_server true i).

Definition do_call (c : Call) i : RInterpreter := upd_steps (steps i ++ [DoCall c]) i.
Definition cb (reply : json) i : RInterpreter := upd_steps (steps i ++ [Reply reply (clock i)]) i.
Definition publishStream (name text : str) i : RInterpreter := do_call (Stream name text (clock i)) i.
Definition publishExecutionError (ename evalue : str) (traceback : list str) i : RInterpreter :=
  do_call (ExecutionError ename evalue traceback (clock i)) i.

(** ** The debugger's side of things *)

Definition debugging i : bool := match m_debugger i with Some d => m_started d | None => false end.

(** The events a debugger has sent go out through the base class. *)
Definition publish_effect i (e : Effect) : RInterpreter :=
  match e with RDebugger.Event event flush => do_call (DebugEvent event flush (clock i)) i | _ => i end.

Definition with_debugger (d d' : Debugger) i : RInterpreter :=
  upd_debugger (Some d') (fold_left publish_effect (drop (length (effects d)) (effects d')) i).

(** An operation on the debugger, when there is one. *)
Definition on_debugger (f : Debugger -> Debugger) i : RInterpreter :=
  match m_debugger i with Some d => with_debugger d (f d) i | None => i end.

Definition take_browsed i : bool * RInterpreter :=
  match m_debugger i with
  | Some d => let (b, d') := takeBrowsed d in (b, upd_debugger (Some d') i)
  | None => (false, i)
  end.

(** ** Input *)

Definition input_refused : str :=
  "This execution didn't allow interactive input (allow_stdin was false) -- the caller needs to opt in (e.g. execute(code, { allowStdin: true })) and be ready to answer an input_request for a blocking read like this to work."%string.

(** [blockingInputRequest]; [answer] is what the client replies, or the exception
    of the wait. *)
Definition blockingInputRequest (prompt : str) (password allowStdin : bool) (ui : json) (answer : result str) i : result str * RInterpreter :=
  if allowStdin then (answer, do_call (Input prompt password ui (clock i)) i) else (Throw input_refused, i).

(** What is copied to R's buffer: a line, as R's ReadConsole wants it. *)
Definition stdin_line (res : str) (length_ : Z) : str := take (Z.to_nat (Z.min (Z.of_nat (length res)) (length_ - 2))) res ++ [newline].

Definition stdinInput (prompt : str) (length_ : Z) (answer : result str) i : option str * RInterpreter :=
  match blockingInputRequest prompt false (allowsStdin i) null answer i with
  | (Ok res, i) => (if length_ <? 2 then None else Some (stdin_line res length_), i)
  | (Throw what, i) => (None, publishStream "stderr"%string ("input: "%string ++ what ++ [newline]) i)
  | (Undefined, i) => (None, i)
  end.

(** ** Output *)

(** The whole lines of what was printed while debugging, and the rest. *)
Definition debug_line i (line : str) : RInterpreter :=
  match m_debugger i with
  | Some d =>
      let (hidden, d') := consoleLine line d in
      let i := upd_debugger (Some d') i in
      if hidden then i else publishStream "stdout"%string (line ++ [newline]) i
  | None => i
  end.

Definition writeConsole (buf : str) (otype : Z) i : RInterpreter :=
  if match m_cell i with Some c => silent_cell c | None => false end then i
  else if (otype =? 0) && debugging i && negb (m_inTail i && m_captureValue i) then
    let lines := split_all newline (m_debugOutput i ++ buf) in
    upd_debugOutput (List.last lines []) (fold_left debug_line (removelast lines) i)
  else if (otype =? 0) && m_inTail i then
    match m_cell i with
    | Some c => if m_captureValue i then upd_cell (Some (upd_value (valueText c ++ buf) c)) i else i
    | None => i
    end
  else publishStream (if otype =? 1 then "stderr"%string else "stdout"%string) buf i.

(** ** What R code asks of the kernel (routine.cpp) *)

Inductive RoutineCall :=
| PublishStream (name text : str)
| DisplayData (data metadata : sexp)
| UpdateDisplayData (data metadata : sexp)
| ClearOutput (wait : bool)
| UiAsk (method : str) (params : sexp) (password : bool) (answer : result str)
| RecordCellError (evalue : str) (traceback : list str)
| DebugTakePause.

(** [JOVIAN_SUPERVISED] is in the environment; the strict parser. *)
Context (supervised : bool) (parse_strict_json : str -> result basic_json).

Definition json_from_r (x : sexp) : result json := let? j := jsonFromR parse_json parse_strict_json x in Ok (embed j).

Definition wantsCellError i : bool :=
  match m_cell i with Some c => negb (errorRecorded c) && (m_evaluating i || m_inTail i) | None => false end.

Definition recordCellError (evalue_ : str) (traceback_ : list str) i : RInterpreter :=
  if negb (wantsCellError i) then i
  else match m_cell i with Some c => upd_cell (Some (upd_error true true evalue_ traceback_ c)) i | None => i end.

(** [None]: a C++ exception, which leaves through R's own frames. *)
Definition display (call_ : json -> json -> Call) (data metadata : sexp) i : option RInterpreter :=
  match json_from_r data, json_from_r metadata with
  | Ok d, Ok m => Some (do_call (call_ d m) i)
  | _, _ => None
  end.

(** The answer is R's; the question is sent also where no input is allowed, when
    the supervisor's client answers. *)
Definition uiAsk (method : str) (params : sexp) (password : bool) (answer : result str) i : option RInterpreter :=
  match sexpToJson parse_json false params with
  | Ok p =>
      let ui := mk_object [("method"%string : str, mk_str method); ("params"%string : str, embed p)] in
      Some (snd (blockingInputRequest [] password (supervised || allowsStdin i) ui answer i))
  | _ => None
  end.

Definition routine (r : RoutineCall) i : option RInterpreter :=
  match r with
  | PublishStream name text => Some (publishStream name text i)
  | DisplayData data metadata => display (fun d m => Display d m empty_object (clock i)) data metadata i
  | UpdateDisplayData data metadata => display (fun d m => UpdateDisplay d m empty_object (clock i)) data metadata i
  | ClearOutput wait => Some (do_call (Interpreter.ClearOutput wait (clock i)) i)
  | UiAsk method params password answer => uiAsk method params password answer i
  | RecordCellError e t => Some (recordCellError e t i)
  | DebugTakePause => Some (on_debugger (fun d => snd (takePauseRequest d)) i)
  end.

(** What running R code asks for: text for R's console, and routines. *)
Inductive Output :=
| Console (buf : str) (otype : Z)
| Routine (r : RoutineCall).

Definition output (o : Output) i : option RInterpreter :=
  match o with Console buf otype => Some (writeConsole buf otype i) | Routine r => routine r i end.

Fixpoint outputs (os : list Output) i : option RInterpreter :=
  match os with [] => Some i | o :: os => match output o i with Some i => outputs os i | None => None end end.

(** ** A cell's end *)

(** What R answers when a cell ends: what hera's [.jv.repl.cell_done] prints,
    the value of a user expression (what R's [tryCatch] gives: "ok" and its text,
    or "error" with its class and message; [None] when that fails), what that
    prints, and the session's state. *)
Record DoneAnswer := {
  done_outputs : list Output;
  expression_outputs : list Output;
  expression_value : str -> option (str * str * str);
  session_search : list str;
  session_globals : list str;
  session_loaded : list str
}.

Definition text_plain (text : str) : json := mk_object [("text/plain"%string : str, mk_str text)].

Definition expression_ok (text : str) : json :=
  mk_object [("status"%string : str, mk_str "ok"%string); ("data"%string : str, text_plain text); ("metadata"%string : str, empty_object)].

Definition expression_error (ename evalue_ : str) : json :=
  mk_object [("status"%string : str, mk_str "error"%string); ("ename"%string : str, mk_str ename);
             ("evalue"%string : str, mk_str evalue_); ("traceback"%string : str, mk_array [])].

Definition kSessionStateKey : str := ".jovian_state"%string.

(** The globals are at most 5000. *)
Definition sessionState (a : DoneAnswer) : result json :=
  let strings (l : list str) := mk_array (mk_str <$> l) in
  let? text := dump Strict (mk_object [("search"%string : str, strings (session_search a));
                                       ("globals"%string : str, strings (take 5000 (session_globals a)));
                                       ("loaded"%string : str, strings (session_loaded a))]) in
  Ok (expression_ok text).

Definition evaluate_expression (a : DoneAnswer) (key : str) (j : json) : result json :=
  if str_eqb key kSessionStateKey then sessionState a
  else
    let expr := match get_str j with Some s => s | None => [] end in
    Ok (match expression_value a expr with
        | None => expression_error "EvaluationError"%string "could not evaluate expression"%string
        | Some (status, one, two) => if str_eqb status "ok"%string then expression_ok one else expression_error one two
        end).

Fixpoint evaluate_expressions (a : DoneAnswer) (ms : list (str * json)) (out : json) : result json :=
  match ms with
  | [] => Ok out
  | (key, j) :: ms => let? v := evaluate_expression a key j in evaluate_expressions a ms (insert_key out key v)
  end.

Definition evalUserExpressions (a : DoneAnswer) (user_expressions : json) : result json :=
  if negb (is_object user_expressions) || bool_decide (members user_expressions = []) then Ok empty_object
  else evaluate_expressions a (members user_expressions) empty_object.

Definition strip_newline (text : str) : str :=
  match rev text with c :: rest => if char_eqb c newline then rev rest else text | [] => [] end.

(** The cell's result or error, then the reply. *)
Definition conclude (a : DoneAnswer) (interrupted : bool) (c : Cell) i : option RInterpreter :=
  if interrupted then
    let i := if silent_cell c then i else publishExecutionError "KeyboardInterrupt"%string [] [] i in
    Some (cb (createErrorReply "KeyboardInterrupt"%string [] (mk_array [])) i)
  else if failed c && negb (silent_cell c) then
    let i := publishExecutionError "ERROR"%string (evalue c) (traceback c) i in
    Some (cb (createErrorReply "ERROR"%string (evalue c) (mk_array (mk_str <$> traceback c))) i)
  else
    let i := if negb (silent_cell c) && negb (failed c) && negb (bool_decide (valueText c = []))
             then do_call (ExecutionResult (executionCount c) (text_plain (strip_newline (valueText c))) empty_object (clock i)) i
             else i in
    if failed c then Some (cb (createSuccessfulReply (mk_array []) empty_object) i)
    else match outputs (expression_outputs a) i with
         | Some i =>
             match evalUserExpressions a (userExpressions c) with
             | Ok e => Some (cb (createSuccessfulReply (mk_array []) e) i)
             | _ => None
             end
         | None => None
         end.

Definition finishCell (a : DoneAnswer) (c : Cell) i : option RInterpreter :=
  let i := upd_cell None i in
  let i := upd_tail false false i in
  let i := if negb (bool_decide (m_debugOutput i = [])) && negb (silent_cell c) then publishStream "stdout"%string (m_debugOutput i) i else i in
  let i := upd_debugOutput [] i in
  let i := snd (take_browsed i) in
  let interrupted := m_interruptRequested i in
  let i := upd_executing false (upd_interrupt false i) in
  match outputs (done_outputs a) i with
  | Some i =>
      let i := upd_jv_cell None i in
      let i := if debugging i then on_debugger (fun d => snd (applyBreakpoints d)) i else i in
      conclude a interrupted c i
  | None => None
  end.

(** ** A cell's start *)

(** What hera's parser gives: the call fails, the code does not parse, or its
    expressions and where they are. *)
Inductive Parsed :=
| ParseFails (what : str)
| ParseError (message : str)
| Expressions (es : list obj) (refs : option (list obj)).

(** What R answers when a cell starts; the options are [None] when they are not
    strings. *)
Record StartAnswer := {
  repl_parse : str -> Z -> Parsed;
  debug_parse : str -> str -> list Z -> Parsed;
  start_outputs : list Output;
  prompt_option : option str;
  continue_option : option str
}.

Definition new_cell (count : Z) (config : ExecuteRequestConfig) (ue : json) (es : list obj) (refs : option (list obj)) i : Cell :=
  {| identity := requests i; executionCount := count; silent_cell := silent config; userExpressions := ue; exprs := es;
     srcrefs := refs; next := 0; checkGraphics := false; failed := false; errorRecorded := false; evalue := []; traceback := [];
     valueText := [] |}.

(** While debugging, the cell is parsed from the file clients know it by, with
    the lines of its breakpoints. *)
Definition parse_cell (a : StartAnswer) (count : Z) (code_ : str) i : Parsed :=
  match m_debugger i with
  | Some d =>
      if m_started d then debug_parse a (withLineFeeds code_) (cellPath code_ d) (breakpointLines (cellPath code_ d) d)
      else repl_parse a (withLineFeeds code_) count
  | None => repl_parse a (withLineFeeds code_) count
  end.

(** The cell is queued; or its error is its reply. *)
Definition executeRequestImpl (a : StartAnswer) (count : Z) (code_ : str) (config : ExecuteRequestConfig) (ue : json) i : option RInterpreter :=
  let i := upd_stdin (allow_stdin config) i in
  let i := upd_interrupt false i in
  match parse_cell a count code_ i with
  | ParseFails what => Some (cb (createErrorReply "InternalError"%string what (mk_array [])) i)
  | ParseError message =>
      let i := if silent config then i else publishExecutionError "PARSE ERROR"%string message [] i in
      Some (cb (createErrorReply "PARSE ERROR"%string message (mk_array [])) i)
  | Expressions es refs =>
      let c := new_cell count config ue es refs i in
      match outputs (start_outputs a) (upd_jv_cell (Some es) i) with
      | Some i =>
          let i := upd_prompts (default (m_topPrompt i) (prompt_option a)) (default (m_continuePrompt i) (continue_option a)) i in
          Some (upd_requests (S (requests i)) (upd_cell (Some c) (upd_executing true i)))
      | None => None
      end
  end.

(** ** R's console *)

Inductive Place :=
(** R runs: its console loop, or the code of the innermost frame *)
| InR
(** in the loop of [readConsole], with R's buffer of this size *)
| Turning (length_ : Z)
(** at a browser() prompt *)
| StoppedAt (p : Stop) (length_ : Z)
(** undefined behaviour: an exception in R's frames, or a cell that is gone *)
| Crashed.

(** A call of [readConsole] that waits for an evaluation: the size of its buffer
    and the cell it holds. *)
Record State := {
  place : Place;
  frames : list (Z * nat);
  interp_r : RInterpreter
}.

Definition at_place (p : Place) (s : State) : State := {| place := p; frames := frames s; interp_r := interp_r s |}.
Definition with_interp (i : RInterpreter) (s : State) : State := {| place := place s; frames := frames s; interp_r := i |}.

(** R is handed a line, or 0 for the end of its input. *)
Definition hand (line : option str) (length_ : Z) (i : RInterpreter) (s : State) : State :=
  {| place := InR; frames := frames s; interp_r := upd_handed (handed i ++ [(line, length_)]) i |}.

Definition crash (s : State) : State := at_place Crashed s.

Definition try_interp (o : option RInterpreter) (s : State) : State :=
  match o with Some i => with_interp i s | None => crash s end.

Definition dquote : byte := "034"%char.

(** The lines R's console is handed, but for the newline. *)
Definition install_line : str :=
  "base::invisible(base::as.environment("%string ++ dquote :: "tools:jovian"%string ++ dquote :: ")$.jv.errors.install())"%string.
Definition recover_line : str := "base::invisible(base::.Last.value)"%string.
Definition visible_line : str := "base::.jv_last_value"%string.
Definition invisible_line : str := "base::invisible(base::.jv_last_value)"%string.
Definition reset_line : str := " "%string.

(** A line with its newline fits a buffer, its zero included. *)
Definition fits (line : str) (length_ : Z) : bool := Z.of_nat (length line) + 1 <=? length_.
Definition line_of (line : str) : str := line ++ [newline].

Definition browse : str := "Browse["%string.

Definition is_top_level (prompt : str) i : bool := str_eqb (m_topPrompt i) prompt || str_eqb (m_continuePrompt i) prompt.

(** R's own words for an error, without what ends them. *)
Fixpoint strip_end (text : str) : str :=
  match text with
  | [] => []
  | c :: rest =>
      match strip_end rest with
      | [] => if char_eqb c newline || char_eqb c " "%char then [] else [c]
      | rest => c :: rest
      end
  end.

(** An evaluation was under way: it has jumped to R's top level. *)
Definition abandoned (errorBuf : str) i : RInterpreter :=
  let i := upd_evaluating false i in
  match m_cell i with
  | Some c =>
      let evalue_ := if negb (errorRecorded c) && negb (m_interruptRequested i) then strip_end errorBuf else evalue c in
      upd_cell (Some (upd_error true (errorRecorded c) evalue_ (traceback c) c)) i
  | None => i
  end.

(** [readConsole], up to its loop.  (R's prompt is never null.) *)
Definition readConsole (prompt : str) (length_ : Z) (answer : result str) (errorBuf : str) (s : State) : State :=
  let i := interp_r s in
  let topLevel := is_top_level prompt i in
  if m_server i && negb topLevel && debugging i && starts_with browse prompt then at_place (StoppedAt Enter length_) s
  else if negb (m_server i) || negb topLevel then
    let (line, i) := stdinInput prompt length_ answer i in hand line length_ i s
  else
    let i := upd_tail false false i in
    if negb (bool_decide (m_pendingLine i = [])) && fits (m_pendingLine i) length_ then
      hand (Some (m_pendingLine i)) length_
        (upd_pending [] (m_pendingTail i) (m_pendingCapture i) (upd_tail (m_pendingTail i) (m_pendingCapture i) i)) s
    else if negb (m_loopStarted i) && fits (line_of install_line) length_ then
      hand (Some (line_of install_line)) length_ (upd_tail true (m_captureValue i) (upd_loopStarted true i)) s
    else
      let i := upd_loopStarted true i in
      let recovering := m_evaluating i in
      let i := if recovering then abandoned errorBuf i else i in
      if recovering && fits (line_of recover_line) length_
      then hand (Some (line_of recover_line)) length_ (upd_tail true (m_captureValue i) i) s
      else at_place (Turning length_) (with_interp i s).

(** [evaluateNext], up to the evaluation. *)
Definition begin_evaluation (length_ : Z) (c : Cell) (e : obj) (s : State) : State :=
  let i := interp_r s in
  let i := upd_srcref (refs ← srcrefs c; refs !! next c) i in
  let i := upd_cell (Some (upd_next (S (next c)) (checkGraphics c) c)) i in
  let i := upd_evaluated (evaluated i ++ [e]) (upd_evaluating true i) in
  {| place := InR; frames := (length_, identity c) :: frames s; interp_r := i |}.

(** A turn of the loop with a cell: [graphics] is what hera's check for a plot
    puts out. *)
Definition cell_turn (graphics : list Output) (a : DoneAnswer) (length_ : Z) (c : Cell) (s : State) : State :=
  let i := upd_cell (Some (upd_next (next c) false c)) (interp_r s) in
  match (if checkGraphics c && negb (silent_cell c) then outputs graphics i else Some i) with
  | None => crash s
  | Some i =>
      match m_cell i with
      | None => crash s
      | Some c =>
          let s := with_interp i s in
          match exprs c !! next c with
          | Some e =>
              if negb (failed c) && negb (m_interruptRequested i) then begin_evaluation length_ c e s
              else try_interp (finishCell a c i) s
          | None => try_interp (finishCell a c i) s
          end
      end
  end.

(** [evaluateNext], once R's evaluator has returned: the cell held is the one
    that runs, or it is gone. *)
Definition returned (v : obj) (visible : bool) (s : State) : State :=
  let i := upd_last_value (Some v) (upd_evaluating false (interp_r s)) in
  match frames s, m_cell i with
  | (length_, id) :: fs, Some c =>
      let s := {| place := InR; frames := fs; interp_r := i |} in
      let last := (next c =? cell_count c)%nat in
      let line := line_of (if visible then visible_line else invisible_line) in
      if negb (identity c =? id)%nat then crash s
      else if negb (fits line length_) then at_place (Turning length_) s
      else
        let i := upd_cell (Some (upd_next (next c) true c)) i in
        let (browsed, i) := take_browsed i in
        if browsed then hand (Some (line_of reset_line)) length_ (upd_pending line true (last && negb (silent_cell c)) i) s
        else hand (Some line) length_ (upd_tail true (last && negb (silent_cell c)) i) s
  | _, _ => crash s
  end.

(** ** What happens *)

Inductive Event :=
(** R: asks for a line, puts out, an evaluation returns, or jumps to the top level *)
| Asks (prompt : str) (length_ : Z) (answer : result str) (errorBuf : str)
| Puts (o : Output)
| Returned (v : obj) (visible : bool)
| Jumped
(** the loop of [readConsole]: a turn with a cell; and without, the server polls:
    it has stopped, a cell is asked for, a debug request, the language is shut
    down, idle work *)
| Turn (graphics : list Output) (a : DoneAnswer)
| PollStopped
| Requested (a : StartAnswer) (count : Z) (code_ : str) (config : ExecuteRequestConfig) (ue : json)
| DebugRequested (a : Answer (obj := obj)) (disk : str -> option str) (req : json)
| ShutDown
| Idle (parses : bool) (os : list Output)
(** the debugger's loop; the control thread; time *)
| DebuggerTurn (a : Answer (obj := obj))
| Interrupted
| ControlRequest (disk : str -> option str) (req : json)
| GivesUp (id : nat)
| Tick (now : Z).

Definition interruptRequestImpl i : RInterpreter := if m_executing i then upd_interrupt true i else i.

Definition idleImpl (parses : bool) (os : list Output) i : option RInterpreter :=
  if m_rEnded i then Some i
  else if m_idleExpression i then outputs os i
  else if parses then outputs os (upd_idle true false i)
  else Some (upd_idle false true i).

Definition debuggerTurn (a : Answer (obj := obj)) (p : Stop) (length_ : Z) (s : State) : State :=
  let i := interp_r s in
  match m_debugger i with
  | None => crash s
  | Some d =>
      match stopped_step R_GlobalEnv embed parse_json (m_interruptRequested i) a p d with
      | None => crash s
      | Some (Answered line, d') => hand (browser_answer line length_) length_ (with_debugger d d' i) s
      | Some (p', d') => at_place (StoppedAt p' length_) (with_interp (with_debugger d d' i) s)
      end
  end.

(** A step; [None]: not what can happen there.  Text and routines come from R's
    code, which also runs while the server polls. *)
Definition step (s : State) (e : Event) : option State :=
  match place s, e with
  | Crashed, _ => None
  | _, Interrupted => Some (with_interp (interruptRequestImpl (interp_r s)) s)
  | _, ControlRequest disk req =>
      Some (with_interp (on_debugger (fun d => snd (request R_GlobalEnv embed parse_json false no_answer disk req d)) (interp_r s)) s)
  | _, GivesUp id => Some (with_interp (on_debugger (stop_waiting id) (interp_r s)) s)
  | _, Tick now => Some (with_interp (upd_clock now (interp_r s)) s)
  | InR, Asks prompt length_ answer errorBuf => Some (readConsole prompt length_ answer errorBuf s)
  | (InR | Turning _), Puts o => Some (try_interp (output o (interp_r s)) s)
  | InR, Returned v visible => match frames s with [] => None | _ => Some (returned v visible s) end
  | InR, Jumped => Some {| place := InR; frames := []; interp_r := interp_r s |}
  | Turning length_, Turn graphics a =>
      match m_cell (interp_r s) with Some c => Some (cell_turn graphics a length_ c s) | None => None end
  | Turning length_, _ =>
      match m_cell (interp_r s) with
      | Some _ => None
      | None =>
          match e with
          | PollStopped => Some (hand None length_ (interp_r s) s)
          | Requested a count code_ config ue => Some (try_interp (executeRequestImpl a count code_ config ue (interp_r s)) s)
          | DebugRequested a disk req =>
              Some (with_interp (on_debugger (fun d => snd (request R_GlobalEnv embed parse_json true a disk req d)) (interp_r s)) s)
          | ShutDown => Some (with_interp (upd_idle (m_idleExpression (interp_r s)) true (interp_r s)) s)
          | Idle parses os => Some (try_interp (idleImpl parses os (interp_r s)) s)
          | _ => None
          end
      end
  | StoppedAt p length_, DebuggerTurn a => Some (debuggerTurn a p length_ s)
  | _, _ => None
  end.

Fixpoint run (s : State) (es : list Event) : option State :=
  match es with [] => Some s | e :: es => match step s e with Some s => run s es | None => None end end.

(** ** What text and routines leave alone *)

Definition is_reply (s : Step) : bool := match s with Reply _ _ => true | DoCall _ => false end.

(** Steps that are calls. *)
Definition only_calls (ss : list Step) : Prop := Forall (fun s => is_reply s = false) ss.

(** The same cell: what is fixed when it is made, and how far it has come. *)
Definition same_cell (c c' : Cell) : Prop :=
  identity c' = identity c /\ executionCount c' = executionCount c /\ silent_cell c' = silent_cell c
  /\ userExpressions c' = userExpressions c /\ exprs c' = exprs c /\ srcrefs c' = srcrefs c /\ next c' = next c
  /\ checkGraphics c' = checkGraphics c /\ (failed c = true -> failed c' = true).

Definition same_cells (a b : option Cell) : Prop :=
  match a, b with Some c, Some c' => same_cell c c' | None, None => True | _, _ => False end.

Record quiet (i i' : RInterpreter) : Prop := {
  quiet_steps : exists ss, steps i' = steps i ++ ss /\ only_calls ss;
  quiet_cell : same_cells (m_cell i) (m_cell i');
  quiet_executing : m_executing i' = m_executing i;
  quiet_interrupt : m_interruptRequested i' = m_interruptRequested i;
  quiet_evaluating : m_evaluating i' = m_evaluating i;
  quiet_evaluated : evaluated i' = evaluated i;
  quiet_handed : handed i' = handed i;
  quiet_requests : requests i' = requests i
}.

Lemma same_cell_refl c : same_cell c c.
Proof. done. Qed.

Lemma same_cells_refl c : same_cells c c.
Proof. by destruct c. Qed.

Lemma same_cells_trans a b c : same_cells a b -> same_cells b c -> same_cells a c.
Proof. destruct a, b, c; cbn; try done. unfold same_cell. intuition congruence. Qed.

Lemma only_calls_nil : only_calls [].
Proof. constructor. Qed.

Lemma quiet_refl i : quiet i i.
Proof. split; try done; [exists []; rewrite app_nil_r; split; [done | constructor] | apply same_cells_refl]. Qed.

Lemma quiet_trans i1 i2 i3 : quiet i1 i2 -> quiet i2 i3 -> quiet i1 i3.
Proof.
  intros [(s1 & E1 & H1) C1 ? ? ? ? ? ?] [(s2 & E2 & H2) C2 ? ? ? ? ? ?]. split; try congruence.
  - exists (s1 ++ s2). rewrite E2, E1, app_assoc. split; [done | by apply Forall_app].
  - by eapply same_cells_trans.
Qed.

#[local] Hint Resolve quiet_refl same_cells_refl only_calls_nil : core.

(** A change of fields that [quiet] does not see. *)
Ltac quietly := split; cbn; first [done | exists []; rewrite app_nil_r; split; [done | constructor] | apply same_cells_refl | idtac].

Lemma quiet_call c i : quiet i (do_call c i).
Proof. quietly. exists [DoCall c]. split; [done | by repeat constructor]. Qed.

Lemma quiet_publishStream name text i : quiet i (publishStream name text i).
Proof. apply quiet_call. Qed.

Lemma quiet_debugger d i : quiet i (upd_debugger d i).
Proof. quietly. Qed.

Lemma quiet_effects es i : quiet i (fold_left publish_effect es i).
Proof.
  revert i. induction es as [|e es IH]; intros i; cbn; [done |]. eapply quiet_trans; [| apply IH].
  destruct e; [apply quiet_call | done ..].
Qed.

Lemma quiet_with_debugger d d' i : quiet i (with_debugger d d' i).
Proof. eapply quiet_trans; [apply quiet_effects | apply quiet_debugger]. Qed.

Lemma quiet_on_debugger f i : quiet i (on_debugger f i).
Proof. unfold on_debugger. destruct (m_debugger i); [apply quiet_with_debugger | done]. Qed.

Lemma quiet_take_browsed i : quiet i (snd (take_browsed i)).
Proof. unfold take_browsed. destruct (m_debugger i); [apply quiet_debugger | done]. Qed.

Lemma quiet_debug_lines ls i : quiet i (fold_left debug_line ls i).
Proof.
  revert i. induction ls as [|l ls IH]; intros i; cbn [fold_left]; [done |]. eapply quiet_trans; [| apply IH].
  unfold debug_line. destruct (m_debugger i) as [d|]; [| done]. destruct (consoleLine l d) as [hidden d'].
  destruct hidden; [apply quiet_debugger |]. eapply quiet_trans; [apply quiet_debugger | apply quiet_publishStream].
Qed.

Lemma quiet_cell_value c c' i : m_cell i = Some c -> same_cell c c' -> quiet i (upd_cell (Some c') i).
Proof. intros E H. quietly. by rewrite E. Qed.

Lemma quiet_writeConsole buf otype i : quiet i (writeConsole buf otype i).
Proof.
  unfold writeConsole. destruct (match m_cell i with Some c => silent_cell c | None => false end); [done |].
  destruct (_ && _ && _).
  - eapply quiet_trans; [apply quiet_debug_lines |]. quietly.
  - destruct (_ && _); [| apply quiet_publishStream]. destruct (m_cell i) as [c|] eqn:E; [| done].
    destruct (m_captureValue i); [| done]. by apply (quiet_cell_value c).
Qed.

Lemma quiet_display call_ d m i i' : display call_ d m i = Some i' -> quiet i i'.
Proof. unfold display. destruct (json_from_r d), (json_from_r m); try done. intros [= <-]. apply quiet_call. Qed.

Lemma quiet_blockingInput p pw al ui ans i : quiet i (snd (blockingInputRequest p pw al ui ans i)).
Proof. unfold blockingInputRequest. destruct al; [apply quiet_call | done]. Qed.

Lemma quiet_routine r i i' : routine r i = Some i' -> quiet i i'.
Proof.
  destruct r; cbn; try (intros [= <-]; apply quiet_call); try apply quiet_display.
  - unfold uiAsk. destruct (sexpToJson _ _ _); [| done ..]. intros [= <-]. apply quiet_blockingInput.
  - intros [= <-]. unfold recordCellError. destruct (negb _); [done |]. destruct (m_cell i) as [c|] eqn:E; [| done].
    by apply (quiet_cell_value c).
  - intros [= <-]. apply quiet_on_debugger.
Qed.

Lemma quiet_output o i i' : output o i = Some i' -> quiet i i'.
Proof. destruct o; cbn; [intros [= <-]; apply quiet_writeConsole | apply quiet_routine]. Qed.

Lemma quiet_outputs os i i' : outputs os i = Some i' -> quiet i i'.
Proof.
  revert i. induction os as [|o os IH]; intros i; cbn; [by intros [= <-] |].
  destruct (output o i) as [i1|] eqn:E; [| done]. intros H. eapply quiet_trans; [by eapply quiet_output | by apply IH].
Qed.

Lemma quiet_stdinInput p l a i : quiet i (snd (stdinInput p l a i)).
Proof.
  unfold stdinInput. pose proof (quiet_blockingInput p false (allowsStdin i) null a i) as H.
  destruct (blockingInputRequest _ _ _ _ _ _) as [[res|what|] i']; cbn in *; [done | | done].
  eapply quiet_trans; [exact H | apply quiet_publishStream].
Qed.

(** ** One reply for every cell *)

Definition keyboard_interrupt : json := createErrorReply "KeyboardInterrupt"%string [] (mk_array []).
Definition error_reply (c : Cell) : json := createErrorReply "ERROR"%string (evalue c) (mk_array (mk_str <$> traceback c)).

(** The reply of a cell that ends. *)
Definition answer_of (a : DoneAnswer) (interrupted : bool) (c : Cell) (r : json) : Prop :=
  if interrupted then r = keyboard_interrupt
  else if failed c && negb (silent_cell c) then r = error_reply c
  else exists e, r = createSuccessfulReply (mk_array []) e /\ (failed c = false -> evalUserExpressions a (userExpressions c) = Ok e).

Record finished (a : DoneAnswer) (c : Cell) (i i' : RInterpreter) : Prop := {
  fin_steps : exists ss r now, steps i' = steps i ++ ss ++ [Reply r now] /\ only_calls ss /\ answer_of a (m_interruptRequested i) c r;
  fin_cell : m_cell i' = None;
  fin_executing : m_executing i' = false;
  fin_interrupt : m_interruptRequested i' = false;
  fin_evaluated : evaluated i' = evaluated i;
  fin_handed : handed i' = handed i;
  fin_requests : requests i' = requests i
}.

Definition concluded (a : DoneAnswer) (interrupted : bool) (c : Cell) (i i' : RInterpreter) : Prop :=
  (exists ss r now, steps i' = steps i ++ ss ++ [Reply r now] /\ only_calls ss /\ answer_of a interrupted c r)
  /\ same_cells (m_cell i) (m_cell i') /\ m_executing i' = m_executing i /\ m_interruptRequested i' = m_interruptRequested i
  /\ evaluated i' = evaluated i /\ handed i' = handed i /\ requests i' = requests i.

Lemma conclude_spec a interrupted c i i' : conclude a interrupted c i = Some i' -> concluded a interrupted c i i'.
Proof.
  assert (forall i1 r, quiet i i1 -> answer_of a interrupted c r -> concluded a interrupted c i (cb r i1)) as Hcb.
  { intros i1 r [(ss & E & H) ? ? ? ? ? ? ?] Ha. split; [| done]. exists ss, r, (clock i1). cbn. by rewrite E, <- app_assoc. }
  unfold conclude. destruct interrupted eqn:Ei; [| destruct (failed c && negb (silent_cell c)) eqn:Ef].
  - intros [= <-]. apply Hcb; [destruct (silent_cell c); [done | apply quiet_call] | done].
  - intros [= <-]. apply Hcb; [apply quiet_call | cbn; by rewrite Ef].
  - match goal with |- context [outputs _ ?x] => set (i1 := x) end.
    assert (quiet i i1) as Hq by (unfold i1; destruct (negb (silent_cell c) && _ && _); [apply quiet_call | done]).
    destruct (failed c) eqn:Ec.
    + intros [= <-]. apply Hcb; [done |]. cbn. rewrite Ec, Ef. exists empty_object. split; [done |]. discriminate.
    + destruct (outputs (expression_outputs a) i1) as [i2|] eqn:Eo; [| done].
      destruct (evalUserExpressions a (userExpressions c)) as [e|w|] eqn:Ee; [| done ..].
      intros [= <-]. apply Hcb; [eapply quiet_trans; [exact Hq | by eapply quiet_outputs] |].
      cbn. rewrite Ec, Ef. exists e. done.
Qed.

(** The cell is taken from the object: what it printed goes out, and its state
    is reset. *)
Definition released (c : Cell) i : RInterpreter :=
  let i := upd_tail false false (upd_cell None i) in
  let i := if negb (bool_decide (m_debugOutput i = [])) && negb (silent_cell c) then publishStream "stdout"%string (m_debugOutput i) i else i in
  upd_executing false (upd_interrupt false (snd (take_browsed (upd_debugOutput [] i)))).

Lemma released_spec c i : (exists ss, steps (released c i) = steps i ++ ss /\ only_calls ss)
  /\ m_cell (released c i) = None /\ evaluated (released c i) = evaluated i /\ handed (released c i) = handed i
  /\ requests (released c i) = requests i.
Proof.
  unfold released. set (i1 := upd_tail false false (upd_cell None i)).
  match goal with |- context [take_browsed ?x] => set (i2 := x); assert (quiet i1 i2) as Q end.
  { unfold i2. destruct (_ && _); [eapply quiet_trans; [apply quiet_publishStream |] |]; quietly. }
  pose proof (quiet_trans _ _ _ Q (quiet_take_browsed i2)) as [(ss & E & H) Hc _ _ _ He Hh Hr]. cbn.
  split; [by exists ss |]. cbn in Hc. destruct (m_cell (snd (take_browsed i2))); [done |]. done.
Qed.

Lemma released_interrupt c i : m_interruptRequested (snd (take_browsed (upd_debugOutput []
    (if negb (bool_decide (m_debugOutput i = [])) && negb (silent_cell c)
     then publishStream "stdout"%string (m_debugOutput i) (upd_tail false false (upd_cell None i)) else upd_tail false false (upd_cell None i)))))
  = m_interruptRequested i.
Proof. rewrite (quiet_interrupt _ _ (quiet_take_browsed _)). by destruct (_ && _). Qed.

Lemma finishCell_eq a c i : finishCell a c i
  = match outputs (done_outputs a) (released c i) with
    | Some i1 =>
        let i1 := upd_jv_cell None i1 in
        conclude a (m_interruptRequested i) c (if debugging i1 then on_debugger (fun d => snd (applyBreakpoints d)) i1 else i1)
    | None => None
    end.
Proof. rewrite <- (released_interrupt c i). reflexivity. Qed.

Lemma finishCell_spec a c i i' : finishCell a c i = Some i' -> finished a c i i'.
Proof.
  rewrite finishCell_eq. cbv zeta.
  destruct (released_spec c i) as ((s1 & E1 & H1) & Hc & He & Hh & Hr).
  assert (m_executing (released c i) = false) as Hx by done. assert (m_interruptRequested (released c i) = false) as Hi by done.
  generalize dependent (released c i). intros i1 E1 Hc He Hh Hr Hx Hi.
  destruct (outputs (done_outputs a) i1) as [i2|] eqn:Eo; [| done]. pose proof (quiet_outputs _ _ _ Eo) as Q2.
  match goal with |- conclude _ _ _ ?x = _ -> _ => set (i3 := x) end.
  assert (quiet i1 i3) as [(s3 & E3 & H3) C3 X3 I3 _ V3 D3 R3].
  { eapply quiet_trans; [exact Q2 |]. unfold i3. destruct (debugging _); [eapply quiet_trans; [| apply quiet_on_debugger]; quietly | quietly]. }
  clearbody i3. intros H. destruct (conclude_spec _ _ _ _ _ H) as ((s4 & r & now & E4 & H4 & Ha) & C4 & X4 & I4 & V4 & D4 & R4).
  split; try congruence.
  - exists (s1 ++ s3 ++ s4), r, now. rewrite E4, E3, E1, <- !app_assoc. split; [done |]. split; [| done].
    repeat (apply Forall_app; split); done.
  - rewrite Hc in C3. destruct (m_cell i3); [done |]. cbn in C4. by destruct (m_cell i').
Qed.

(** ** Every step *)

Definition pending i : nat := match m_cell i with Some _ => 1 | None => 0 end.
Definition replies i : nat := length (List.filter is_reply (steps i)).

(** A line with its final zero fits the buffer it is copied to. *)
Definition line_fits (h : option str * Z) : Prop :=
  match fst h with Some line => Z.of_nat (length line) + 1 <= snd h | None => True end.

(** An execution is under way exactly when there is a cell, and only then can an
    interrupt be pending. *)
Definition consistent i : Prop :=
  m_executing i = match m_cell i with Some _ => true | None => false end
  /\ (m_interruptRequested i = true -> m_executing i = true).

(** Interrupted, and still running without a further expression. *)
Definition still_interrupted (i i' : RInterpreter) : Prop :=
  m_interruptRequested i' = true /\ m_cell i' <> None /\ evaluated i' = evaluated i
  /\ exists ss, steps i' = steps i ++ ss /\ only_calls ss.

(** The next reply is that of an interrupted cell. *)
Definition replied_interrupted (i i' : RInterpreter) : Prop :=
  exists ss now rest, steps i' = steps i ++ ss ++ Reply keyboard_interrupt now :: rest /\ only_calls ss.

Record moves (n : nat) (i i' : RInterpreter) : Prop := {
  moves_grow : steps i `prefix_of` steps i';
  moves_interrupted : m_interruptRequested i = true -> m_cell i <> None -> still_interrupted i i' \/ replied_interrupted i i';
  moves_count : (replies i' + pending i' = replies i + pending i + n)%nat;
  moves_consistent : consistent i -> consistent i';
  moves_fits : Forall line_fits (handed i) -> Forall line_fits (handed i')
}.

Lemma only_calls_filter ss : only_calls ss -> List.filter is_reply ss = [].
Proof. induction 1 as [|s ss H _ IH]; cbn; [done |]. by rewrite H. Qed.

Lemma replies_more ss i i' : steps i' = steps i ++ ss -> only_calls ss -> replies i' = replies i.
Proof. intros E H. unfold replies. rewrite E, List.filter_app, (only_calls_filter _ H), app_nil_r. done. Qed.

Lemma moves_quiet i i' : quiet i i' -> moves 0 i i'.
Proof.
  intros [(ss & E & H) C X I _ V D _]. split.
  - rewrite E. by apply prefix_app_r.
  - intros Hi Hc. left. split; [congruence |]. split; [| split; [done | by exists ss]]. by destruct (m_cell i), (m_cell i').
  - rewrite (replies_more _ _ _ E H). unfold pending. destruct (m_cell i), (m_cell i'); cbn in C; lia || done.
  - unfold consistent. rewrite X, I. destruct (m_cell i), (m_cell i'); done.
  - by rewrite D.
Qed.

Lemma moves_trans n m i1 i2 i3 : moves n i1 i2 -> moves m i2 i3 -> moves (n + m) i1 i3.
Proof.
  intros [G1 K1 A1 B1 C1] [G2 K2 A2 B2 C2]. split; [by etrans | | lia | auto | auto]. intros Hi Hc. destruct (K1 Hi Hc) as [S | S].
  - pose proof S as (Hi2 & Hc2 & Hv & s1 & E1 & H1). destruct (K2 Hi2 Hc2) as [(Hi3 & Hc3 & Hv3 & s2 & E2 & H2) | (s2 & now & rest & E2 & H2)].
    + left. split; [done |]. split; [done |]. split; [congruence |]. exists (s1 ++ s2). rewrite E2, E1, app_assoc. split; [done | by apply Forall_app].
    + right. exists (s1 ++ s2), now, rest. rewrite E2, E1, <- !app_assoc. split; [done | by apply Forall_app].
  - right. destruct S as (s1 & now & rest & E1 & H1). destruct G2 as [s2 E2]. exists s1, now, (rest ++ s2).
    rewrite E2, E1, <- !app_assoc. done.
Qed.

Lemma moves_refl i : moves 0 i i.
Proof. apply moves_quiet, quiet_refl. Qed.

(** A change of fields that [moves] does not see. *)
Ltac unseen :=
  split; [done | intros ? ?; left; repeat split; cbn; try done; by exists []; rewrite app_nil_r; split; [| constructor]
         | unfold replies, pending; cbn; lia | by unfold consistent | try done].

Lemma moves_handed line length_ i : line_fits (line, length_) -> moves 0 i (upd_handed (handed i ++ [(line, length_)]) i).
Proof. intros H. unseen. intros F. apply Forall_app. split; [exact F | by repeat constructor]. Qed.

Lemma moves_hand i0 s i line length_ : moves 0 i0 i -> line_fits (line, length_) -> moves 0 i0 (interp_r (hand line length_ i s)).
Proof. intros H F. cbn. apply (moves_trans 0 0 _ i); [done | by apply moves_handed]. Qed.

(** A cell's fields change, or none of these. *)
Lemma moves_cell c c' i : m_cell i = Some c -> moves 0 i (upd_cell (Some c') i).
Proof.
  intros E. split; [done | | unfold replies, pending; cbn; rewrite E; lia | unfold consistent; cbn; by rewrite E | done].
  intros Hi _. left. split; [done |]. split; [done |]. split; [done |]. exists []. rewrite app_nil_r. split; [done | constructor].
Qed.

Lemma moves_finished a c i i' : m_cell i = Some c -> finished a c i i' -> moves 0 i i'.
Proof.
  intros Ec [(ss & r & now & E & H & Ha) C X I V D R]. split.
  - rewrite E. by apply prefix_app_r.
  - intros Hi _. right. exists ss, now, []. unfold answer_of in Ha. rewrite Hi in Ha. by subst r.
  - unfold replies, pending. rewrite C, Ec, E, !List.filter_app, (only_calls_filter _ H), length_app. cbn. lia.
  - intros _. unfold consistent. rewrite C, X, I. done.
  - by rewrite D.
Qed.

Lemma fits_line line length_ : fits line length_ = true -> line_fits (Some line, length_).
Proof. unfold fits, line_fits. rewrite Z.leb_le. done. Qed.

Lemma stdin_fits p l a i : line_fits (fst (stdinInput p l a i), l).
Proof.
  unfold stdinInput. destruct (blockingInputRequest _ _ _ _ _ _) as [[res|w|] i']; cbn; [| done ..].
  destruct (Z.ltb_spec l 2); [done |]. unfold line_fits, stdin_line. cbn. rewrite length_app, length_take. cbn. lia.
Qed.

Lemma moves_readConsole p l a e s : moves 0 (interp_r s) (interp_r (readConsole p l a e s)).
Proof.
  unfold readConsole. destruct (_ && _ && _ && _); [apply moves_refl |]. destruct (negb _ || negb _).
  - pose proof (quiet_stdinInput p l a (interp_r s)) as Q. pose proof (stdin_fits p l a (interp_r s)) as F.
    destruct (stdinInput _ _ _ _) as [line i]. apply moves_hand; [by apply moves_quiet | exact F].
  - set (i := upd_tail false false (interp_r s)). assert (moves 0 (interp_r s) i) as M by unseen. clearbody i.
    destruct (negb _ && fits (m_pendingLine i) l) eqn:E1.
    { apply andb_true_iff in E1 as [_ E1]. apply moves_hand; [| by apply fits_line].
      eapply (moves_trans 0 0); [exact M | unseen]. }
    destruct (negb (m_loopStarted i) && _) eqn:E2.
    { apply andb_true_iff in E2 as [_ E2]. apply moves_hand; [| by apply fits_line].
      eapply (moves_trans 0 0); [exact M | unseen]. }
    set (i1 := if m_evaluating (upd_loopStarted true i) then _ else _).
    assert (moves 0 (interp_r s) i1) as M1.
    { eapply (moves_trans 0 0); [exact M |]. unfold i1. destruct (m_evaluating _); [| unseen]. unfold abandoned. cbn.
      destruct (m_cell i) as [c|] eqn:Ec; [| unseen]. eapply (moves_trans 0 0); [| by apply (moves_cell c)]. unseen. }
    clearbody i1. destruct (m_evaluating _ && _) eqn:E3; [| exact M1].
    apply andb_true_iff in E3 as [_ E3]. apply moves_hand; [| by apply fits_line]. eapply (moves_trans 0 0); [exact M1 | unseen].
Qed.

Lemma moves_turn g a l c s : m_cell (interp_r s) = Some c -> place (cell_turn g a l c s) <> Crashed ->
  moves 0 (interp_r s) (interp_r (cell_turn g a l c s)).
Proof.
  intros Ec. unfold cell_turn. set (i := upd_cell _ _). assert (moves 0 (interp_r s) i) as M by (by apply (moves_cell c)).
  assert (m_cell i <> None) as Hn by done. clearbody i.
  destruct (if checkGraphics c && negb (silent_cell c) then outputs g i else Some i) as [i1|] eqn:Eo; [| done].
  assert (quiet i i1) as Q by (destruct (_ && _); [by eapply quiet_outputs | by injection Eo as <-]).
  pose proof (moves_trans 0 0 _ _ _ M (moves_quiet _ _ Q)) as M1. pose proof (quiet_cell _ _ Q) as C.
  destruct (m_cell i1) as [c1|] eqn:E1; [| destruct (m_cell i); [done | done]].
  assert (forall s', s' = try_interp (finishCell a c1 i1) (with_interp i1 s) -> place s' <> Crashed -> moves 0 (interp_r s) (interp_r s')) as Hf.
  { intros s' -> Hp. unfold try_interp in *. destruct (finishCell a c1 i1) as [i2|] eqn:Ef; [| done]. cbn.
    eapply (moves_trans 0 0); [exact M1 |]. eapply moves_finished; [exact E1 | by apply finishCell_spec]. }
  destruct (exprs c1 !! next c1); [destruct (negb (failed c1) && _) eqn:Eg |]; try by apply Hf.
  intros _. apply andb_true_iff in Eg as [_ Eg%negb_true_iff]. unfold begin_evaluation. cbn [interp_r with_interp].
  eapply (moves_trans 0 0); [exact M1 |]. split; try done.
  - intros Hi. congruence.
  - unfold replies, pending. cbn. rewrite E1. lia.
  - unfold consistent. cbn. by rewrite E1.
Qed.

Lemma fits_more line line' length_ : fits line length_ = true -> (length line' <= length line)%nat -> fits line' length_ = true.
Proof. unfold fits. rewrite !Z.leb_le. lia. Qed.

Lemma moves_returned v visible s : place (returned v visible s) <> Crashed -> moves 0 (interp_r s) (interp_r (returned v visible s)).
Proof.
  unfold returned. set (i := upd_last_value _ _). assert (moves 0 (interp_r s) i) as M by unseen. clearbody i.
  destruct (frames s) as [|[l id] fs]; [done |]. destruct (m_cell i) as [c|] eqn:Ec; [| done]. cbv zeta.
  destruct (negb (identity c =? id)%nat); [done |]. set (line := line_of _).
  destruct (fits line l) eqn:Ef; cbn [negb]; [| intros _; exact M]. intros _.
  set (i1 := upd_cell _ i). assert (moves 0 (interp_r s) i1) as M1 by (eapply (moves_trans 0 0); [exact M | by apply (moves_cell c)]).
  assert (quiet i1 (snd (take_browsed i1))) as Q by apply quiet_take_browsed. clearbody i1.
  destruct (take_browsed i1) as [browsed i2]. cbn [snd] in Q.
  pose proof (moves_trans 0 0 _ _ _ M1 (moves_quiet _ _ Q)) as M2. destruct browsed; apply moves_hand.
  - eapply (moves_trans 0 0); [exact M2 | unseen].
  - apply fits_line, (fits_more line); [exact Ef |]. unfold line. by destruct visible; cbn; lia.
  - eapply (moves_trans 0 0); [exact M2 | unseen].
  - by apply fits_line.
Qed.

Lemma moves_execute a count code_ config ue i i' : m_cell i = None -> consistent i ->
  executeRequestImpl a count code_ config ue i = Some i' -> moves 1 i i'.
Proof.
  intros Ec Hi. unfold executeRequestImpl. set (i0 := upd_interrupt false (upd_stdin (allow_stdin config) i)).
  assert (moves 0 i i0) as M0. { split; [done | done | unfold replies, pending; cbn; lia | | done]. intros [H _]. by split. }
  assert (m_cell i0 = None) as E0 by exact Ec. assert (m_interruptRequested i0 = false) as I0 by done. clearbody i0.
  assert (forall r i1, quiet i0 i1 -> moves 1 i (cb r i1)) as Hcb.
  { intros r i1 Q. apply (moves_trans 0 1 _ i0); [exact M0 |]. apply (moves_trans 0 1 _ i1); [by apply moves_quiet |].
    destruct Q as [_ C _ I _ _ _ _]. rewrite E0, I0 in *.
    split; [by apply prefix_app_r | cbn; congruence | | done | done]. unfold replies, pending. cbn. rewrite List.filter_app, length_app. cbn. lia. }
  destruct (parse_cell _ _ _ _) as [what | message | es refs].
  - intros [= <-]. by apply Hcb.
  - intros [= <-]. apply Hcb. destruct (silent config); [done | apply quiet_call].
  - destruct (outputs (start_outputs a) _) as [i1|] eqn:Eo; [| done]. intros [= <-].
    assert (moves 0 i i1) as M1.
    { eapply (moves_trans 0 0); [exact M0 |]. eapply (moves_trans 0 0); [| apply moves_quiet; by eapply quiet_outputs]. unseen. }
    pose proof (quiet_outputs _ _ _ Eo) as [_ C X I _ _ _ _]. cbn in C, X, I. rewrite E0 in C.
    apply (moves_trans 0 1 _ i1); [exact M1 |]. split; [done | congruence | | | done].
    + unfold replies, pending. cbn. destruct (m_cell i1); [done |]. lia.
    + intros _. by split.
Qed.

Definition asked (e : Event) : nat := match e with Requested _ _ _ _ _ => 1 | _ => 0 end.

Lemma browser_answer_fits line l : line_fits (browser_answer line l, l).
Proof. unfold browser_answer. destruct (Z.ltb_spec l (Z.of_nat (length line) + 1)); [done |]. unfold line_fits. cbn. lia. Qed.

Lemma moves_interrupt i : moves 0 i (interruptRequestImpl i).
Proof.
  unfold interruptRequestImpl. destruct (m_executing i) eqn:E; [| apply moves_refl]. split; [done | | unfold replies, pending; cbn; lia | | done].
  - intros _ Hc. left. repeat split; try done. exists []. rewrite app_nil_r. split; [done | constructor].
  - intros [H _]. split; [exact H | done].
Qed.

Lemma moves_try o s : (forall i, o = Some i -> moves 0 (interp_r s) i) -> place (try_interp o s) <> Crashed ->
  moves 0 (interp_r s) (interp_r (try_interp o s)).
Proof. intros H Hp. destruct o; [by apply H | done]. Qed.

Lemma quiet_idle parses os i i' : idleImpl parses os i = Some i' -> quiet i i'.
Proof.
  unfold idleImpl. destruct (m_rEnded i); [by intros [= <-] |]. destruct (m_idleExpression i); [apply quiet_outputs |].
  destruct parses; [| intros [= <-]; quietly]. intros H. eapply quiet_trans; [| by eapply quiet_outputs]. quietly.
Qed.

Lemma moves_debuggerTurn a p l s : place (debuggerTurn a p l s) <> Crashed -> moves 0 (interp_r s) (interp_r (debuggerTurn a p l s)).
Proof.
  unfold debuggerTurn. destruct (m_debugger (interp_r s)) as [d|]; [| done].
  destruct (stopped_step _ _ _ _ a p d) as [[p' d']|]; [| done]. intros _.
  pose proof (moves_quiet _ _ (quiet_with_debugger d d' (interp_r s))) as M.
  destruct p'; try exact M. apply moves_hand; [exact M | apply browser_answer_fits].
Qed.

Lemma step_moves s e s' : step s e = Some s' -> place s' <> Crashed -> consistent (interp_r s) ->
  moves (asked e) (interp_r s) (interp_r s').
Proof.
  assert (forall i, moves 0 i (interruptRequestImpl i)) as Hi by apply moves_interrupt.
  assert (forall f i, moves 0 i (on_debugger f i)) as Hd by (intros; apply moves_quiet, quiet_on_debugger).
  assert (forall now i, moves 0 i (upd_clock now i)) as Ht by (intros; unseen).
  assert (forall o, place (try_interp (output o (interp_r s)) s) <> Crashed ->
    moves 0 (interp_r s) (interp_r (try_interp (output o (interp_r s)) s))) as Ho.
  { intros o. apply moves_try. intros i H. by apply moves_quiet, (quiet_output o). }
  intros H Hp Hc. unfold step in H. destruct (place s) as [|l|p l|] eqn:Ep; [| | | done].
  - destruct e; try done; try (injection H as <-; cbn [asked interp_r with_interp]; by auto).
    + injection H as <-. apply moves_readConsole.
    + destruct (frames s); [done |]. injection H as <-. by apply moves_returned.
    + injection H as <-. apply moves_refl.
  - destruct e; try done; try (injection H as <-; cbn [asked interp_r with_interp]; by auto);
      destruct (m_cell (interp_r s)) as [c|] eqn:Ec; try done; try (injection H as <-).
    + by apply moves_turn.
    + apply moves_handed. done.
    + unfold try_interp in *. destruct (executeRequestImpl _ _ _ _ _ _) as [i'|] eqn:Ee; [| done]. cbn. by eapply moves_execute.
    + apply Hd.
    + cbn. unseen.
    + apply moves_try; [| exact Hp]. intros i H. by eapply moves_quiet, quiet_idle.
  - destruct e; try done; injection H as <-; cbn [asked interp_r with_interp]; auto. by apply moves_debuggerTurn.
Qed.

Lemma run_crashed s es s' : place s = Crashed -> run s es = Some s' -> place s' = Crashed.
Proof. destruct es as [|e es]; cbn; [by intros ? [= <-] |]. intros H. unfold step. by rewrite H. Qed.

Lemma run_moves es : forall s s', run s es = Some s' -> place s' <> Crashed -> consistent (interp_r s) ->
  moves (list_sum (asked <$> es)) (interp_r s) (interp_r s').
Proof.
  induction es as [|e es IH]; intros s s' H Hp Hc; cbn in H |- *; [injection H as <-; apply moves_refl |].
  destruct (step s e) as [s1|] eqn:E; [| done].
  assert (place s1 <> Crashed) as H1 by (intros H1; by apply Hp, (run_crashed s1 es)).
  pose proof (step_moves s e s1 E H1 Hc) as M. eapply moves_trans; [exact M | apply IH; [done | done | by apply M]].
Qed.

(** A started kernel's interpreter, or any between two cells. *)
Definition at_rest i : Prop := m_cell i = None /\ m_executing i = false /\ m_interruptRequested i = false /\ handed i = [].


(** R's buffers are never overrun.  Every line that R's console is handed -
    a cell's, the kernel's own, an answer of the user's however long, a command
    for its browser - fits the buffer R gave, with the zero that ends it. *)
Theorem lines_fit s es s' : at_rest (interp_r s) -> run s es = Some s' -> place s' <> Crashed ->
  forall line length_, (Some line, length_) ∈ handed (interp_r s') -> Z.of_nat (length line) + 1 <= length_.
Proof.
  intros (Hc & Hx & Hi & Hh) H Hp line length_ Hin.
  assert (consistent (interp_r s)) as Hs by (unfold consistent; by rewrite Hc, Hx, Hi).
  destruct (run_moves es s s' H Hp Hs) as [_ _ _ _ F]. rewrite Hh in F. specialize (F (List.Forall_nil _)).
  rewrite Forall_forall in F. exact (F _ Hin).
Qed.

(** An interrupt ends the cell.  The control thread interrupts while a cell
    runs: then, whatever R does next, no further expression of the cell is
    begun before its reply, and the reply is the error KeyboardInterrupt. *)
Theorem interrupt_ends_cell s es s' : place s <> Crashed -> consistent (interp_r s) -> m_cell (interp_r s) <> None ->
  run s (Interrupted :: es) = Some s' -> place s' <> Crashed ->
  still_interrupted (interp_r s) (interp_r s') \/ replied_interrupted (interp_r s) (interp_r s').
Proof.
  intros Hp [Hx Hi] Hc H Hp'. cbn in H. set (i := interruptRequestImpl (interp_r s)) in *.
  assert (i = upd_interrupt true (interp_r s)) as Ei.
  { unfold i, interruptRequestImpl. rewrite Hx. by destruct (m_cell (interp_r s)). }
  assert (run (with_interp i s) es = Some s') as Hr by (unfold step in H; by destruct (place s)).
  assert (consistent (interp_r (with_interp i s))) as Hs.
  { cbn. rewrite Ei. split; [exact Hx |]. intros _. cbn. rewrite Hx. by destruct (m_cell (interp_r s)). }
  destruct (run_moves es _ _ Hr Hp' Hs) as [_ K _ _ _]. cbn in K. rewrite Ei in K. destruct (K eq_refl Hc) as [S | S]; [left | right]; exact S.
Qed.

(** ** A cell from beginning to end

    What R does with a cell, expression by expression: what the plot check
    before it puts out, what its evaluation puts out, its value, and what R's
    console puts out after it - the printed value, warnings, task callbacks.
    The last may fail, through hera's error handler or without it. *)
Record ValueStep := {
  v_plot : list Output;
  v_during : list Output;
  v_value : obj;
  v_visible : bool;
  v_after : list Output
}.

Inductive Ending :=
| Completes
| Errs (plot during : list Output) (evalue : str) (traceback : list str)
| Breaks (plot during : list Output) (errorBuf : str).

Record Script := { values : list ValueStep; ending : Ending; last_plot : list Output }.

Section Script.
(** R's prompt and the size of its buffer; what it would answer to a question,
    and its last error, which no step here reads. *)
Context (p : str) (L : Z) (ans : result str) (errorBuf : str) (a : DoneAnswer).

Definition value_events (v : ValueStep) : list Event :=
  Turn (v_plot v) a :: (Puts <$> v_during v) ++ Returned (v_value v) (v_visible v) :: (Puts <$> v_after v) ++ [Asks p L ans errorBuf].

Definition ending_events (e : Ending) : list Event :=
  match e with
  | Completes => []
  | Errs plot during e t =>
      Turn plot a :: (Puts <$> during) ++ [Puts (Routine (RecordCellError e t)); Jumped; Asks p L ans errorBuf; Asks p L ans errorBuf]
  | Breaks plot during buf => Turn plot a :: (Puts <$> during) ++ [Jumped; Asks p L ans buf; Asks p L ans errorBuf]
  end.

Definition script_events (sc : Script) : list Event :=
  (values sc ≫= value_events) ++ ending_events (ending sc) ++ [Turn (last_plot sc) a].

(** What the client sees of it. *)
Section Shown.
Context (silent_ allow : bool) (now : Z).

Definition converted_json (x : sexp) : json := match json_from_r x with Ok j => j | _ => null end.

Definition ui_question (method : str) (params : sexp) : json :=
  mk_object [("method"%string : str, mk_str method);
             ("params"%string : str, match sexpToJson parse_json false params with Ok q => embed q | _ => null end)].

Definition routine_calls (r : RoutineCall) : list Call :=
  match r with
  | PublishStream name text => [Stream name text now]
  | DisplayData d m => [Display (converted_json d) (converted_json m) empty_object now]
  | UpdateDisplayData d m => [UpdateDisplay (converted_json d) (converted_json m) empty_object now]
  | ClearOutput w => [Interpreter.ClearOutput w now]
  | UiAsk method params password _ => if supervised || allow then [Input [] password (ui_question method params) now] else []
  | RecordCellError _ _ | DebugTakePause => []
  end.

(** [tail]: in what R's console prints after an expression, where text for
    stdout is not shown. *)
Definition output_calls (silent_ tail : bool) (o : Output) : list Call :=
  match o with
  | Console buf otype =>
      if silent_ then []
      else if (otype =? 0) && tail then [] else [Stream (if otype =? 1 then "stderr"%string else "stdout"%string) buf now]
  | Routine r => routine_calls r
  end.

Definition output_text (o : Output) : str := match o with Console buf otype => if otype =? 0 then buf else [] | Routine _ => [] end.

Definition plot_calls (check : bool) (plot : list Output) : list Call :=
  if check && negb silent_ then plot ≫= output_calls silent_ false else [].

Fixpoint values_calls (check : bool) (vs : list ValueStep) : list Call :=
  match vs with
  | [] => []
  | v :: vs =>
      plot_calls check (v_plot v) ++ (v_during v ≫= output_calls silent_ false) ++ (v_after v ≫= output_calls silent_ true)
      ++ values_calls true vs
  end.

Definition ending_calls (check : bool) (e : Ending) : list Call :=
  match e with
  | Completes => []
  | Errs plot during _ _ | Breaks plot during _ => plot_calls check plot ++ (during ≫= output_calls silent_ false)
  end.

(** The cell's result: what was printed after its last expression. *)
Definition result_text (sc : Script) : str :=
  match ending sc, last (values sc) with Completes, Some v => v_after v ≫= output_text | _, _ => [] end.

Definition script_error (e : Ending) : option (str * list str) :=
  match e with
  | Completes => None
  | Errs _ _ e t => Some (e, t)
  | Breaks _ _ buf => Some (strip_end buf, [])
  end.

Definition conclusion_calls (count : Z) (sc : Script) : list Call :=
  match script_error (ending sc) with
  | Some (e, t) => if silent_ then [] else [ExecutionError "ERROR"%string e t now]
  | None =>
      (if negb silent_ && negb (bool_decide (result_text sc = []))
       then [ExecutionResult count (text_plain (strip_newline (result_text sc))) empty_object now] else [])
      ++ (expression_outputs a ≫= output_calls false false)
  end.

Definition script_calls (count : Z) (sc : Script) : list Call :=
  let check := negb (bool_decide (values sc = [])) in
  values_calls false (values sc) ++ ending_calls check (ending sc)
  ++ (match ending sc with Completes => plot_calls check (last_plot sc) | _ => [] end)
  ++ (done_outputs a ≫= output_calls false false) ++ conclusion_calls count sc.

Definition script_reply (e : json) (sc : Script) : json :=
  match script_error (ending sc) with
  | Some (v, t) =>
      if silent_ then createSuccessfulReply (mk_array []) empty_object
      else createErrorReply "ERROR"%string v (mk_array (mk_str <$> t))
  | None => createSuccessfulReply (mk_array []) e
  end.
End Shown.

(** What is put out can be: values that JSON holds; errors are not reported from
    where none is expected, nor a pause taken. *)
Definition regular (o : Output) : Prop :=
  match o with
  | Console _ _ => True
  | Routine (DisplayData d m) | Routine (UpdateDisplayData d m) => is_ok (json_from_r d) = true /\ is_ok (json_from_r m) = true
  | Routine (UiAsk _ params _ _) => is_ok (sexpToJson parse_json false params) = true
  | Routine (RecordCellError _ _) | Routine DebugTakePause => False
  | Routine _ => True
  end.

Definition regular_value (v : ValueStep) : Prop := Forall regular (v_plot v) /\ Forall regular (v_during v) /\ Forall regular (v_after v).

Definition regular_script (sc : Script) : Prop :=
  Forall regular_value (values sc) /\ Forall regular (last_plot sc)
  /\ (match ending sc with
      | Completes => True
      | Errs plot during _ _ | Breaks plot during _ => Forall regular plot /\ Forall regular during
      end)
  /\ Forall regular (done_outputs a) /\ Forall regular (expression_outputs a).

(** No debugger, or one that is not debugging. *)
Definition no_debugger i : Prop := match m_debugger i with Some d => m_started d = false /\ m_browsed d = false | None => True end.

Lemma not_debugging i : no_debugger i -> debugging i = false.
Proof. unfold no_debugger, debugging. by destruct (m_debugger i) as [d|]; [intros [-> _] |]. Qed.

Lemma not_browsed i : no_debugger i -> take_browsed i = (false, i).
Proof.
  unfold no_debugger, take_browsed. destruct i as [? [d|]]; cbn; [| done]. intros [_ E]. destruct d. cbn in *. by rewrite E.
Qed.

(** The base class is asked for these. *)
Definition call_all (cs : list Call) i : RInterpreter := upd_steps (steps i ++ (DoCall <$> cs)) i.

Lemma call_all_nil i : call_all [] i = i.
Proof. unfold call_all. cbn. rewrite app_nil_r. by destruct i. Qed.

Lemma call_all_app cs cs' i : call_all (cs ++ cs') i = call_all cs' (call_all cs i).
Proof. unfold call_all. cbn. by rewrite fmap_app, app_assoc. Qed.

Definition silent_now i : bool := match m_cell i with Some c => silent_cell c | None => false end.

Lemma blocking_calls password allow_ ui reply_ i :
  snd (blockingInputRequest [] password allow_ ui reply_ i) = call_all (if allow_ then [Input [] password ui (clock i)] else []) i.
Proof. unfold blockingInputRequest. destruct allow_; [done | by rewrite call_all_nil]. Qed.

Lemma routine_shown r i : regular (Routine r) -> routine r i = Some (call_all (routine_calls (allowsStdin i) (clock i) r) i).
Proof.
  unfold converted_json. destruct r as [| d m | d m | | method params password reply_ | |]; cbn [routine]; try done; cbn [regular].
  - intros [Hd Hm]. unfold display, routine_calls, converted_json. by destruct (json_from_r d), (json_from_r m).
  - intros [Hd Hm]. unfold display, routine_calls, converted_json. by destruct (json_from_r d), (json_from_r m).
  - unfold uiAsk. destruct (sexpToJson parse_json false params) as [q| |] eqn:E; intros H; try done. cbv zeta.
    rewrite blocking_calls. unfold routine_calls, ui_question. by rewrite E.
Qed.

Lemma output_shown o i : no_debugger i -> regular o -> m_inTail i = false ->
  output o i = Some (call_all (output_calls (allowsStdin i) (clock i) (silent_now i) false o) i).
Proof.
  intros Hd Hr Ht. destruct o as [buf otype|r]; [| by apply routine_shown]. cbn [output output_calls]. unfold writeConsole.
  rewrite (not_debugging _ Hd), Ht. fold (silent_now i). rewrite !andb_false_r. cbn [andb].
  destruct (silent_now i); [by rewrite call_all_nil | done].
Qed.

(** What is put out where text is shown. *)
Lemma outputs_shown os : forall i, no_debugger i -> Forall regular os -> m_inTail i = false ->
  outputs os i = Some (call_all (os ≫= output_calls (allowsStdin i) (clock i) (silent_now i) false) i).
Proof.
  induction os as [|o os IH]; intros i Hd Hr Ht; cbn [outputs mbind list_bind]; [by rewrite call_all_nil |].
  apply Forall_cons in Hr as [Ho Hr]. rewrite (output_shown o i Hd Ho Ht), IH by done. by rewrite call_all_app.
Qed.

(** The text of the cell's value grows by what is printed, when it is captured. *)
Definition captured (t : str) i : RInterpreter :=
  match m_cell i with
  | Some c => if m_captureValue i && negb (silent_cell c) then upd_cell (Some (upd_value (valueText c ++ t) c)) i else i
  | None => i
  end.

Lemma captured_nil i : captured [] i = i.
Proof.
  unfold captured. destruct i as [? ? [c|]]; cbn; [| done]. destruct (_ && _); [| done]. rewrite app_nil_r. by destruct c.
Qed.

Lemma captured_app t t' i : captured (t ++ t') i = captured t' (captured t i).
Proof.
  unfold captured. destruct (m_cell i) as [c|] eqn:E; [| by rewrite E].
  destruct (m_captureValue i && negb (silent_cell c)) eqn:F; cbn [m_cell upd_cell m_captureValue]; rewrite ?E.
  - cbn. rewrite F. by rewrite app_assoc.
  - by rewrite F.
Qed.

Lemma captured_call_all t cs i : captured t (call_all cs i) = call_all cs (captured t i).
Proof. unfold captured. cbn. destruct (m_cell i); [| done]. by destruct (_ && _). Qed.

Lemma captured_same t i : (if m_cell i then true else false) = (if m_cell (captured t i) then true else false)
  /\ allowsStdin (captured t i) = allowsStdin i /\ clock (captured t i) = clock i /\ silent_now (captured t i) = silent_now i
  /\ m_inTail (captured t i) = m_inTail i /\ m_debugger (captured t i) = m_debugger i.
Proof. unfold captured, silent_now. destruct (m_cell i) as [c|] eqn:E; [| by rewrite E]. by destruct (_ && _); rewrite ?E. Qed.

Lemma output_tail o i : no_debugger i -> regular o -> m_inTail i = true -> m_cell i <> None ->
  output o i = Some (call_all (output_calls (allowsStdin i) (clock i) (silent_now i) true o) (captured (output_text o) i)).
Proof.
  intros Hd Hr Ht Hc. destruct o as [buf otype|r]; [| rewrite captured_nil; by apply routine_shown].
  cbn [output output_calls output_text]. unfold writeConsole, captured, silent_now.
  rewrite (not_debugging _ Hd), Ht. destruct (m_cell i) as [c|] eqn:Ec; [| done]. rewrite !andb_false_r, !andb_true_r. cbn [andb].
  destruct (silent_cell c) eqn:Es; [by rewrite andb_false_r, call_all_nil |]. rewrite andb_true_r.
  destruct (otype =? 0) eqn:Eo.
  - rewrite call_all_nil. done.
  - apply Z.eqb_neq in Eo. destruct (m_captureValue i); [| done]. rewrite app_nil_r.
    f_equal. unfold publishStream, do_call, call_all. destruct i. cbn in *. subst. by destruct c.
Qed.

(** What is put out after an expression. *)
Lemma outputs_tail os : forall i, no_debugger i -> Forall regular os -> m_inTail i = true -> m_cell i <> None ->
  outputs os i = Some (call_all (os ≫= output_calls (allowsStdin i) (clock i) (silent_now i) true) (captured (os ≫= output_text) i)).
Proof.
  induction os as [|o os IH]; intros i Hd Hr Ht Hc; cbn [outputs mbind list_bind]; [by rewrite captured_nil, call_all_nil |].
  apply Forall_cons in Hr as [Ho Hr]. rewrite (output_tail o i Hd Ho Ht Hc).
  destruct (captured_same (output_text o) i) as (Ec & Ea & En & Es & Et & Ed).
  rewrite IH; try done.
  - rewrite call_all_app, captured_app, captured_call_all. do 2 f_equal. unfold silent_now in *. cbn. by rewrite Ea, En, Es.
  - unfold no_debugger in *. cbn. by rewrite Ed.
  - cbn. by rewrite Et.
  - cbn. intros E. rewrite E in Ec. by destruct (m_cell i).
Qed.

(** The loop between two expressions of a cell. *)
Record between (c : Cell) i : Prop := {
  at_server : m_server i = true;
  at_prompt : m_topPrompt i = p;
  at_debugger : no_debugger i;
  at_debugOutput : m_debugOutput i = [];
  at_pendingLine : m_pendingLine i = [];
  at_loop : m_loopStarted i = true;
  at_interrupt : m_interruptRequested i = false;
  at_tail : m_inTail i = false;
  at_evaluating : m_evaluating i = false;
  at_cell : m_cell i = Some c
}.

(** What has been asked of the base class, and evaluated, since. *)
Record advanced (cs : list Call) (es : list obj) i i' : Prop := {
  adv_steps : steps i' = steps i ++ (DoCall <$> cs);
  adv_evaluated : evaluated i' = evaluated i ++ es;
  adv_clock : clock i' = clock i;
  adv_stdin : allowsStdin i' = allowsStdin i
}.

Lemma advanced_trans cs es cs' es' i i' i'' : advanced cs es i i' -> advanced cs' es' i' i'' -> advanced (cs ++ cs') (es ++ es') i i''.
Proof. intros [S1 E1 C1 A1] [S2 E2 C2 A2]. split; [| | congruence ..]. - by rewrite S2, S1, fmap_app, app_assoc. - by rewrite E2, E1, app_assoc. Qed.

(** A cell, so far. *)
Definition cell_at (n : nat) (g : bool) (text : str) (c : Cell) : Cell := upd_value text (upd_next n g c).

Definition turning i : State := {| place := Turning L; frames := []; interp_r := i |}.
Definition evaluating (c : Cell) i : State := {| place := InR; frames := [(L, identity c)]; interp_r := i |}.
Definition in_R i : State := {| place := InR; frames := []; interp_r := i |}.

Lemma run_app es es' s s' : run s es = Some s' -> run s (es ++ es') = run s' es'.
Proof. revert s. induction es as [|e es IH]; intros s; cbn; [by intros [= ->] |]. destruct (step s e); [apply IH | done]. Qed.

Lemma run_puts os fs i i' : outputs os i = Some i' ->
  run {| place := InR; frames := fs; interp_r := i |} (Puts <$> os) = Some {| place := InR; frames := fs; interp_r := i' |}.
Proof.
  revert i. induction os as [|o os IH]; intros i; cbn [outputs fmap list_fmap run]; [by intros [= ->] |].
  unfold step. cbn [place interp_r]. destruct (output o i) as [i1|]; [| done]. cbn. apply IH.
Qed.

(** The calls of a plot check. *)
Definition check_calls c i (plot : list Output) : list Call :=
  plot_calls (silent_cell c) (allowsStdin i) (clock i) (checkGraphics c) plot.

(** The loop's turn, up to what it does with the cell. *)
Lemma turn_checks plot c i : between c i -> Forall regular plot ->
  exists i', between (upd_next (next c) false c) i' /\ advanced (check_calls c i plot) [] i i'
  /\ cell_turn plot a L c (turning i)
     = match exprs c !! next c with
       | Some e => if negb (failed c) then begin_evaluation L (upd_next (next c) false c) e (turning i')
                   else try_interp (finishCell a (upd_next (next c) false c) i') (turning i')
       | None => try_interp (finishCell a (upd_next (next c) false c) i') (turning i')
       end.
Proof.
  intros [] Hr. set (c1 := upd_next (next c) false c).
  exists (call_all (check_calls c i plot) (upd_cell (Some c1) i)). split; [by split |]. split; [by split; cbn; rewrite ?app_nil_r |].
  assert ((if checkGraphics c && negb (silent_cell c) then outputs plot (upd_cell (Some c1) i) else Some (upd_cell (Some c1) i))
    = Some (call_all (check_calls c i plot) (upd_cell (Some c1) i))) as Ho.
  { unfold check_calls, plot_calls. destruct (checkGraphics c && negb (silent_cell c)) eqn:E; [| by rewrite call_all_nil].
    rewrite outputs_shown by done. unfold silent_now. cbn.
    apply andb_true_iff in E as [_ E%negb_true_iff]. by rewrite E. }
  unfold cell_turn. cbn [interp_r turning]. fold c1. rewrite Ho. cbn [m_cell call_all upd_steps upd_cell].
  change (exprs c1) with (exprs c). change (next c1) with (next c). change (failed c1) with (failed c).
  destruct (exprs c !! next c); [| done]. cbn [m_interruptRequested call_all upd_steps upd_cell]. rewrite at_interrupt0, andb_true_r. done.
Qed.

Lemma fits_short line : (length line <= 60)%nat -> 64 <= L -> fits line L = true.
Proof. unfold fits. intros ? ?. apply Z.leb_le. lia. Qed.

(** What the cell's value has become after an expression. *)
Definition value_after (c : Cell) (v : ValueStep) : str :=
  if (S (next c) =? cell_count c)%nat && negb (silent_cell c) then valueText c ++ (v_after v ≫= output_text) else valueText c.

Definition shown_calls (c : Cell) i (tail : bool) (os : list Output) : list Call :=
  os ≫= output_calls (allowsStdin i) (clock i) (silent_cell c) tail.

(** An evaluation begins: R runs its code. *)
Lemma evaluation_begins c e i during : between (upd_next (next c) false c) i -> Forall regular during ->
  exists i', run (begin_evaluation L (upd_next (next c) false c) e (turning i)) (Puts <$> during) = Some (evaluating c i')
  /\ advanced (shown_calls c i false during) [e] i i' /\ m_evaluating i' = true
  /\ between (upd_next (S (next c)) false c) (upd_evaluating false i').
Proof.
  intros [] Hr. unfold begin_evaluation. cbn [interp_r turning frames].
  match goal with |- context [run {| place := _; frames := _; interp_r := ?x |}] => set (i1 := x) end.
  exists (call_all (shown_calls c i false during) i1). split; [| split; [by split | split; [done | by split]]].
  unfold evaluating. apply run_puts. rewrite outputs_shown by done. done.
Qed.

(** It returns, and R's console prints the value. *)
Lemma evaluation_returns c v i : 64 <= L -> m_evaluating i = true -> between (upd_next (S (next c)) false c) (upd_evaluating false i) ->
  Forall regular (v_after v) ->
  exists i', run (evaluating c i) (Returned (v_value v) (v_visible v) :: (Puts <$> v_after v) ++ [Asks p L ans errorBuf]) = Some (turning i')
  /\ advanced (shown_calls c i true (v_after v)) [] i i' /\ between (cell_at (S (next c)) true (value_after c v) c) i'.
Proof.
  intros HL He [] Hr. cbn in at_server0, at_prompt0, at_debugger0, at_debugOutput0, at_pendingLine0, at_loop0, at_interrupt0, at_tail0, at_cell0.
  set (c1 := upd_next (S (next c)) true c).
  set (i1 := upd_cell (Some c1) (upd_last_value (Some (v_value v)) (upd_evaluating false i))).
  set (line := line_of (if v_visible v then visible_line else invisible_line)).
  set (i2 := upd_handed (handed i1 ++ [(Some line, L)]) (upd_tail true ((S (next c) =? cell_count c)%nat && negb (silent_cell c)) i1)).
  assert (fits line L = true) as Hf by (apply fits_short; [unfold line; by destruct (v_visible v); cbn; lia | done]).
  assert (step (evaluating c i) (Returned (v_value v) (v_visible v)) = Some (in_R i2)) as Hret.
  { unfold step, returned. cbn [place frames evaluating interp_r]. cbn [m_cell upd_last_value upd_evaluating]. rewrite at_cell0.
    change (identity (upd_next (S (next c)) false c)) with (identity c). rewrite Nat.eqb_refl. cbn [negb]. fold line. rewrite Hf. cbn [negb].
    change (upd_next (next (upd_next (S (next c)) false c)) true (upd_next (S (next c)) false c)) with c1.
    fold i1. rewrite (not_browsed i1) by done. done. }
  cbn [run]. rewrite Hret.
  set (i3 := call_all (shown_calls c i true (v_after v)) (captured (v_after v ≫= output_text) i2)).
  erewrite run_app; [| apply (run_puts (v_after v) [] i2 i3); rewrite outputs_tail by done; done].
  exists (upd_loopStarted true (upd_tail false false i3)).
  assert (i3 = call_all (shown_calls c i true (v_after v)) (upd_cell (Some (cell_at (S (next c)) true (value_after c v) c)) i2)) as ->.
  { unfold i3, captured, value_after. cbn [m_cell i2 i1 upd_cell upd_handed upd_tail m_captureValue].
    change (silent_cell c1) with (silent_cell c). rewrite <- andb_assoc, andb_diag. by destruct (_ && _). }
  split; [| split; [by split; cbn; rewrite ?app_nil_r | by split]].
  cbn [run]. unfold step, readConsole. cbn [place interp_r]. f_equal.
  cbn. unfold is_top_level. cbn. rewrite at_prompt0, at_server0, at_loop0, at_pendingLine0, str_eqb_refl. cbn. done.
Qed.

(** An expression of the cell, evaluated and printed. *)
Lemma value_runs v c i e : 64 <= L -> between c i -> exprs c !! next c = Some e -> failed c = false -> regular_value v ->
  exists i', run (turning i) (value_events v) = Some (turning i')
  /\ advanced (check_calls c i (v_plot v) ++ shown_calls c i false (v_during v) ++ shown_calls c i true (v_after v)) [e] i i'
  /\ between (cell_at (S (next c)) true (value_after c v) c) i'.
Proof.
  intros HL Hb He Hf (Hp & Hd & Ha).
  destruct (turn_checks (v_plot v) c i Hb Hp) as (i1 & B1 & A1 & T). rewrite He, Hf in T. cbn [negb] in T.
  destruct (evaluation_begins c e i1 (v_during v) B1 Hd) as (i2 & R2 & A2 & E2 & B2).
  destruct (evaluation_returns c v i2 HL E2 B2 Ha) as (i3 & R3 & A3 & B3).
  exists i3. split; [| split; [| done]].
  - unfold value_events. cbn [run]. unfold step at 1. cbn [place interp_r turning]. rewrite (at_cell _ _ Hb), T.
    erewrite run_app by exact R2. exact R3.
  - pose proof (advanced_trans _ _ _ _ _ _ _ A1 (advanced_trans _ _ _ _ _ _ _ A2 A3)) as A. cbn [app] in A.
    unfold shown_calls in *. destruct A1 as [_ _ C1 S1], A2 as [_ _ C2 S2]. rewrite ?C2, ?S2, ?C1, ?S1 in A. exact A.
Qed.

(** The text of the cell's value after some expressions. *)
Fixpoint values_text (c : Cell) (vs : list ValueStep) : str :=
  match vs with
  | [] => valueText c
  | v :: vs => values_text (cell_at (S (next c)) true (value_after c v) c) vs
  end.

Definition values_checks (c : Cell) (vs : list ValueStep) : bool := match vs with [] => checkGraphics c | _ => true end.

Lemma values_run vs : 64 <= L -> forall c i, between c i -> failed c = false -> Forall regular_value vs ->
  (next c + length vs <= cell_count c)%nat ->
  exists i', run (turning i) (vs ≫= value_events) = Some (turning i')
  /\ advanced (values_calls (silent_cell c) (allowsStdin i) (clock i) (checkGraphics c) vs) (take (length vs) (drop (next c) (exprs c))) i i'
  /\ between (cell_at (next c + length vs) (values_checks c vs) (values_text c vs) c) i'.
Proof.
  intros HL. induction vs as [|v vs IH]; intros c i Hb Hf Hr Hn; cbn [length mbind list_bind values_calls values_text values_checks] in *.
  - exists i. split; [done |]. split; [by split; cbn; rewrite ?app_nil_r |].
    rewrite Nat.add_0_r. by destruct c.
  - apply Forall_cons in Hr as [Hv Hr].
    destruct (lookup_lt_is_Some_2 (exprs c) (next c)) as [e He]; [unfold cell_count in Hn; lia |].
    destruct (value_runs v c i e HL Hb He Hf Hv) as (i1 & R1 & A1 & B1).
    destruct (IH _ _ B1 Hf Hr) as (i2 & R2 & A2 & B2); [unfold cell_count in *; cbn; lia |].
    exists i2. split; [by erewrite run_app by exact R1 |]. split.
    + pose proof (advanced_trans _ _ _ _ _ _ _ A1 A2) as A. destruct A1 as [_ _ C1 S1]. cbn in A. rewrite C1, S1, <- !app_assoc in A.
      rewrite (drop_S _ _ _ He). exact A.
    + replace (next c + S (length vs))%nat with (S (next c) + length vs)%nat by lia.
      assert (values_checks (cell_at (S (next c)) true (value_after c v) c) vs = true) as Hg by (by destruct vs).
      rewrite Hg in B2. exact B2.
Qed.

(** The text is what is printed after the last expression of all. *)
Lemma values_text_last vs : forall c, (next c + length vs = cell_count c)%nat -> silent_cell c = false ->
  values_text c vs = valueText c ++ (match last vs with Some v => v_after v ≫= output_text | None => [] end).
Proof.
  induction vs as [|v vs IH]; intros c Hn Hs; cbn [values_text length] in *; [by rewrite app_nil_r |].
  rewrite IH; [| unfold cell_count in *; cbn; lia | done].
  change (valueText (cell_at (S (next c)) true (value_after c v) c)) with (value_after c v). unfold value_after. rewrite Hs.
  destruct vs as [|w vs]; cbn [length] in Hn.
  - replace (S (next c) =? cell_count c)%nat with true by (symmetry; apply Nat.eqb_eq; lia). apply app_nil_r.
  - replace (S (next c) =? cell_count c)%nat with false by (symmetry; apply Nat.eqb_neq; lia). reflexivity.
Qed.

(** A cell that has failed. *)
Definition failed_cell (recorded : bool) (e : str) (t : list str) (c : Cell) : Cell :=
  upd_error true recorded e t (upd_next (S (next c)) false c).

(** R asks for a line after a jump, and again after it has evaluated the one it
    was handed: the cell has failed. *)
Lemma jump_recovers c buf i : 64 <= L -> m_evaluating i = true -> m_cell i = Some c -> between c (upd_evaluating false i) ->
  exists i', run (in_R i) [Asks p L ans buf; Asks p L ans errorBuf] = Some (turning i') /\ advanced [] [] i i'
  /\ between (upd_error true (errorRecorded c) (if errorRecorded c then evalue c else strip_end buf) (traceback c) c) i'.
Proof.
  intros HL He Hc []. cbn in at_server0, at_prompt0, at_debugger0, at_debugOutput0, at_pendingLine0, at_loop0, at_interrupt0, at_tail0.
  set (c' := upd_error _ _ _ _ _).
  set (i1 := upd_cell (Some c') (upd_evaluating false (upd_loopStarted true (upd_tail false false i)))).
  set (i2 := upd_handed (handed i1 ++ [(Some (line_of recover_line), L)]) (upd_tail true false i1)).
  exists (upd_loopStarted true (upd_tail false false i2)).
  split; [| split; [by split; cbn; rewrite ?app_nil_r | by split]].
  assert (is_top_level (m_topPrompt i) i = true) as Ht by (unfold is_top_level; by rewrite str_eqb_refl).
  assert (fits (line_of recover_line) L = true) as Hf by (apply fits_short; [cbn; lia | done]).
  assert (step (in_R i) (Asks p L ans buf) = Some (in_R i2)) as E1.
  { unfold step, readConsole. cbn [place interp_r in_R]. rewrite <- at_prompt0, Ht, at_server0. cbn [negb andb orb].
    cbn [m_pendingLine upd_tail m_loopStarted upd_loopStarted m_evaluating]. rewrite at_pendingLine0, at_loop0, He, Hf. cbn [bool_decide negb andb].
    unfold abandoned. cbn [m_cell upd_tail upd_loopStarted upd_evaluating m_interruptRequested]. rewrite Hc, at_interrupt0.
    unfold i2, i1, c'. by destruct (errorRecorded c). }
  assert (step (in_R i2) (Asks p L ans errorBuf) = Some (turning (upd_loopStarted true (upd_tail false false i2)))) as E2.
  { unfold step, readConsole. cbn [place interp_r in_R]. rewrite <- at_prompt0.
    change (is_top_level (m_topPrompt i) i2) with (is_top_level (m_topPrompt i) i). rewrite Ht.
    change (m_server i2) with (m_server i). rewrite at_server0. cbn [negb andb orb].
    cbn [m_pendingLine upd_tail i2 i1 upd_handed upd_cell upd_evaluating upd_loopStarted m_loopStarted m_evaluating].
    rewrite at_pendingLine0. done. }
  cbn [run]. by rewrite E1, E2.
Qed.

(** A new cell's state, where nothing has failed. *)
Definition unmarked (c : Cell) : Prop := failed c = false /\ errorRecorded c = false /\ evalue c = [] /\ traceback c = [].

(** The expression that fails, up to the jump. *)
Lemma failing_runs plot during c e i : between c i -> exprs c !! next c = Some e -> failed c = false ->
  Forall regular plot -> Forall regular during ->
  exists i', run (turning i) (Turn plot a :: (Puts <$> during)) = Some (evaluating c i')
  /\ advanced (check_calls c i plot ++ shown_calls c i false during) [e] i i' /\ m_evaluating i' = true
  /\ between (upd_next (S (next c)) false c) (upd_evaluating false i').
Proof.
  intros Hb He Hf Hp Hd. destruct (turn_checks plot c i Hb Hp) as (i1 & B1 & A1 & T). rewrite He, Hf in T. cbn [negb] in T.
  destruct (evaluation_begins c e i1 during B1 Hd) as (i2 & R2 & A2 & E2 & B2). exists i2. split; [| split; [| done]].
  - cbn [run]. unfold step at 1. cbn [place interp_r turning]. by rewrite (at_cell _ _ Hb), T.
  - pose proof (advanced_trans _ _ _ _ _ _ _ A1 A2) as A. unfold shown_calls in *. destruct A1 as [_ _ C1 S1]. by rewrite C1, S1 in A.
Qed.

(** The cell as its ending leaves it. *)
Definition ended_cell (en : Ending) (c : Cell) : Cell :=
  match en with
  | Completes => c
  | Errs _ _ e t => failed_cell true e t c
  | Breaks _ _ buf => failed_cell false (strip_end buf) [] c
  end.

Definition ending_regular (en : Ending) : Prop :=
  match en with
  | Completes => True
  | Errs plot during _ _ | Breaks plot during _ => Forall regular plot /\ Forall regular during
  end.

Lemma ending_runs en c i : 64 <= L -> between c i -> unmarked c -> ending_regular en ->
  (en <> Completes -> (next c < cell_count c)%nat) ->
  exists i', run (turning i) (ending_events en) = Some (turning i')
  /\ advanced (ending_calls (silent_cell c) (allowsStdin i) (clock i) (checkGraphics c) en)
       (match en with Completes => [] | _ => take 1 (drop (next c) (exprs c)) end) i i'
  /\ between (ended_cell en c) i'.
Proof.
  intros HL Hb (Hf & Hr & Hv & Ht) Hg Hn. destruct en as [| plot during e t | plot during buf].
  { exists i. split; [done |]. split; [by split; cbn; rewrite ?app_nil_r | exact Hb]. }
  all: destruct Hg as [Hp Hd]; destruct (lookup_lt_is_Some_2 (exprs c) (next c)) as [x Hx]; [by apply Hn |].
  all: destruct (failing_runs plot during c x i Hb Hx Hf Hp Hd) as (i1 & R1 & A1 & E1 & B1); rewrite (drop_S _ _ _ Hx).
  all: pose proof B1 as [S1 P1 D1 O1 N1 Lo1 I1 T1 V1 C1]; cbn in C1, I1, T1.
  - set (c' := upd_error true true e t (upd_next (S (next c)) false c)). set (i2 := upd_cell (Some c') i1).
    destruct (jump_recovers c' errorBuf i2 HL E1 eq_refl) as (i3 & R3 & A3 & B3); [by split |].
    exists i3. split; [| split; [| exact B3]].
    + assert (outputs [Routine (RecordCellError e t)] i1 = Some i2) as Ho.
      { cbn. unfold recordCellError, wantsCellError. rewrite C1, E1. cbn. by rewrite Hr. }
      unfold ending_events. rewrite app_comm_cons. erewrite run_app by exact R1.
      change [Puts (Routine (RecordCellError e t)); Jumped; Asks p L ans errorBuf; Asks p L ans errorBuf]
        with ((Puts <$> [Routine (RecordCellError e t)]) ++ Jumped :: [Asks p L ans errorBuf; Asks p L ans errorBuf]).
      erewrite run_app by (apply run_puts; exact Ho). cbn [run]. unfold step at 1. cbn [place interp_r].
      exact R3.
    + destruct A1, A3. split; cbn in *; [by rewrite adv_steps1, adv_steps0, app_nil_r | by rewrite adv_evaluated1, adv_evaluated0, app_nil_r | congruence ..].
  - destruct (jump_recovers (upd_next (S (next c)) false c) buf i1 HL E1 C1 B1) as (i3 & R3 & A3 & B3). cbn in B3. rewrite Hr, Ht in B3.
    exists i3. split; [| split; [| exact B3]].
    + unfold ending_events. rewrite app_comm_cons. erewrite run_app by exact R1. cbn [run]. unfold step at 1. exact R3.
    + destruct A1, A3. split; cbn in *; [by rewrite adv_steps1, adv_steps0, app_nil_r | by rewrite adv_evaluated1, adv_evaluated0, app_nil_r | congruence ..].
Qed.

(** What a cell ends with: its result or its error, then its reply. *)
Definition cell_conclusion (now : Z) (allow : bool) (c : Cell) : list Call :=
  if failed c then if silent_cell c then [] else [ExecutionError "ERROR"%string (evalue c) (traceback c) now]
  else (if negb (silent_cell c) && negb (bool_decide (valueText c = []))
        then [ExecutionResult (executionCount c) (text_plain (strip_newline (valueText c))) empty_object now] else [])
       ++ (expression_outputs a ≫= output_calls allow now false false).

Definition cell_reply (e : json) (c : Cell) : json :=
  if failed c then if silent_cell c then createSuccessfulReply (mk_array []) empty_object else error_reply c
  else createSuccessfulReply (mk_array []) e.

Lemma released_calm c i : between c i ->
  released c i = upd_executing false (upd_interrupt false (upd_debugOutput [] (upd_tail false false (upd_cell None i)))).
Proof.
  intros []. unfold released. cbn [m_debugOutput upd_tail upd_cell]. rewrite at_debugOutput0. cbn [bool_decide negb andb].
  by rewrite not_browsed.
Qed.

Lemma finish_runs e c i : between c i -> (failed c = false -> evalUserExpressions a (userExpressions c) = Ok e) ->
  Forall regular (done_outputs a) -> Forall regular (expression_outputs a) ->
  exists i', finishCell a c i = Some i' /\ m_cell i' = None /\ m_executing i' = false /\ evaluated i' = evaluated i
  /\ steps i' = steps i ++ (DoCall <$> (done_outputs a ≫= output_calls (allowsStdin i) (clock i) false false)
                                       ++ cell_conclusion (clock i) (allowsStdin i) c) ++ [Reply (cell_reply e c) (clock i)].
Proof.
  intros Hb He Hd Hx. rewrite finishCell_eq, (released_calm c i Hb). destruct Hb. set (i1 := upd_executing _ _).
  rewrite outputs_shown by done. cbv zeta. rewrite at_interrupt0. change (allowsStdin i1) with (allowsStdin i).
  change (clock i1) with (clock i). change (silent_now i1) with false.
  set (done_calls := done_outputs a ≫= _).
  set (i2 := upd_jv_cell None (call_all done_calls i1)). rewrite (not_debugging i2) by done.
  unfold conclude, cell_conclusion, cell_reply. destruct (failed c) eqn:Ef; cbn [andb negb]; [destruct (silent_cell c); cbn [andb negb] |].
  - eexists. split; [reflexivity |]. repeat split. cbn. by rewrite app_nil_r, <- app_assoc.
  - eexists. split; [reflexivity |]. repeat split. cbn. by rewrite fmap_app, <- !app_assoc.
  - rewrite andb_true_r.
    set (result_calls := if negb (silent_cell c) && negb (bool_decide (valueText c = []))
      then [ExecutionResult (executionCount c) (text_plain (strip_newline (valueText c))) empty_object (clock i)] else []).
    match goal with |- context [outputs _ ?x] => set (i3 := x) end.
    assert (i3 = call_all result_calls i2) as ->
      by (unfold i3, result_calls; destruct (negb (silent_cell c) && _); [done | by rewrite call_all_nil]).
    rewrite outputs_shown by done. rewrite (He eq_refl). eexists. split; [reflexivity |]. repeat split.
    cbn. by rewrite !fmap_app, <- !app_assoc.
Qed.

(** A cell that has just been queued. *)
Definition fresh (c : Cell) : Prop := next c = 0%nat /\ checkGraphics c = false /\ unmarked c /\ valueText c = [].

(** The script fits the cell: all its expressions, or up to the one that fails. *)
Definition fits_cell (sc : Script) (c : Cell) : Prop :=
  match ending sc with Completes => length (values sc) = cell_count c | _ => (length (values sc) < cell_count c)%nat end.

(** How many expressions are evaluated: the one that fails is. *)
Definition script_length (sc : Script) : nat := match ending sc with Completes => length (values sc) | _ => S (length (values sc)) end.

(** The cell at the script's end. *)
Definition script_cell (sc : Script) (c : Cell) : Cell :=
  ended_cell (ending sc) (cell_at (length (values sc)) (values_checks c (values sc)) (values_text c (values sc)) c).

Lemma script_checks sc c : fresh c -> values_checks c (values sc) = negb (bool_decide (values sc = [])).
Proof. intros (_ & H & _). destruct (values sc); [exact H | done]. Qed.

Lemma script_shown sc c now allow : fresh c -> fits_cell sc c ->
  cell_conclusion now allow (upd_next (next (script_cell sc c)) false (script_cell sc c))
    = conclusion_calls (silent_cell c) allow now (executionCount c) sc
  /\ forall e, cell_reply e (upd_next (next (script_cell sc c)) false (script_cell sc c)) = script_reply (silent_cell c) e sc.
Proof.
  intros (Hn & _ & (Hf & _) & Ht) Hl. unfold cell_conclusion, cell_reply, conclusion_calls, script_reply, script_cell, fits_cell in *.
  destruct (ending sc) as [| plot during e t | plot during buf] eqn:E; cbn; [rewrite Hf | done ..].
  split; [| done]. destruct (silent_cell c) eqn:Es; [done |]. cbn.
  assert (values_text c (values sc) = result_text sc) as ->; [| done].
  rewrite values_text_last; [| lia | done]. unfold result_text. by rewrite E, Ht.
Qed.

Lemma script_runs sc c i : 64 <= L -> between c i -> fresh c -> fits_cell sc c -> regular_script sc ->
  exists i', run (turning i) ((values sc ≫= value_events) ++ ending_events (ending sc)) = Some (turning i')
  /\ advanced (values_calls (silent_cell c) (allowsStdin i) (clock i) false (values sc)
               ++ ending_calls (silent_cell c) (allowsStdin i) (clock i) (negb (bool_decide (values sc = []))) (ending sc))
       (take (script_length sc) (exprs c)) i i'
  /\ between (script_cell sc c) i'.
Proof.
  intros HL Hb Hfr Hfit (Hv & _ & Hg & _). pose proof Hfr as (Hn & Hc & Hu & Ht).
  destruct (values_run (values sc) HL c i Hb) as (i1 & R1 & A1 & B1); [by destruct Hu | done | |].
  { unfold fits_cell in Hfit. destruct (ending sc); lia. }
  rewrite Hn in A1, B1. cbn [Nat.add] in B1. rewrite Hc in A1. cbn [drop] in A1.
  destruct (ending_runs (ending sc) _ i1 HL B1 Hu) as (i2 & R2 & A2 & B2); [by destruct (ending sc) | |].
  { intros Hne. unfold fits_cell in Hfit. unfold cell_count in *. cbn. by destruct (ending sc). }
  exists i2. split; [by erewrite run_app by exact R1 |]. split; [| exact B2].
  pose proof (advanced_trans _ _ _ _ _ _ _ A1 A2) as A. destruct A1 as [_ _ C1 S1]. cbn in A. rewrite C1, S1, (script_checks sc c Hfr) in A.
  assert (take (script_length sc) (exprs c)
    = take (length (values sc)) (exprs c) ++ match ending sc with Completes => [] | _ => take 1 (drop (length (values sc)) (exprs c)) end) as ->;
    [| exact A].
  unfold script_length. destruct (ending sc); [by rewrite app_nil_r | ..]; by rewrite take_take_drop, Nat.add_1_r.
Qed.

(** A cell, from its queue to its reply. *)
Lemma r_cell_runs sc c i e : 64 <= L -> between c i -> fresh c -> fits_cell sc c -> regular_script sc ->
  evalUserExpressions a (userExpressions c) = Ok e ->
  exists i', run (turning i) (script_events sc) = Some (turning i')
  /\ m_cell i' = None
  /\ steps i' = steps i ++ (DoCall <$> script_calls (silent_cell c) (allowsStdin i) (clock i) (executionCount c) sc)
                        ++ [Reply (script_reply (silent_cell c) e sc) (clock i)]
  /\ evaluated i' = evaluated i ++ take (script_length sc) (exprs c).
Proof.
  intros HL Hb Hfr Hfit Hr He. destruct (script_runs sc c i HL Hb Hfr Hfit Hr) as (i1 & R1 & A1 & B1).
  destruct Hr as (_ & Hlast & _ & Hdone & Hexpr). set (c1 := script_cell sc c) in *.
  destruct (turn_checks (last_plot sc) c1 i1 B1 Hlast) as (i2 & B2 & A2 & T).
  assert (userExpressions c1 = userExpressions c) as Hue by (unfold c1, script_cell; by destruct (ending sc)).
  destruct (finish_runs e (upd_next (next c1) false c1) i2 B2) as (i3 & F & Hc3 & _ & Hv & Hs); [| done | done |].
  { intros _. cbn. by rewrite Hue. }
  assert (cell_turn (last_plot sc) a L c1 (turning i1) = turning i3) as Hturn.
  { rewrite T, F. cbn. destruct (exprs c1 !! next c1) as [x|] eqn:Ex; [| done]. destruct (failed c1) eqn:Ef; [done |]. exfalso.
    revert Ex Ef. unfold c1, script_cell, fits_cell, cell_count in *. destruct (ending sc); cbn; [| done ..].
    intros Ex _. apply lookup_lt_Some in Ex. lia. }
  exists i3. split; [| split; [done |]].
  - unfold script_events. rewrite app_assoc. erewrite run_app by exact R1. cbn [run]. unfold step. cbn [place interp_r turning].
    rewrite (at_cell _ _ B1). f_equal. exact Hturn.
  - pose proof (advanced_trans _ _ _ _ _ _ _ A1 A2) as [S12 E12 C12 A12]. rewrite app_nil_r in E12.
    destruct A1 as [_ _ C1 S1]. destruct (script_shown sc c (clock i) (allowsStdin i) Hfr Hfit) as [Hshown Hreply].
    fold c1 in Hshown, Hreply. rewrite Hs, Hv, S12, E12, C12, A12, (Hreply e), Hshown. split; [| done].
    assert (check_calls c1 i1 (last_plot sc)
      = match ending sc with
        | Completes => plot_calls (silent_cell c) (allowsStdin i) (clock i) (negb (bool_decide (values sc = []))) (last_plot sc)
        | _ => []
        end) as ->.
    { unfold check_calls. rewrite C1, S1, <- (script_checks sc c Hfr). unfold c1, script_cell. by destruct (ending sc). }
    unfold script_calls. by rewrite !fmap_app, <- !app_assoc.
Qed.

(** C21: a cell, from its queue to its reply.  R evaluates the cell's expressions
    in order and prints each value, and either gets through all of them, or
    one fails - reported by hera's handler, or only by R.  Then the loop ends the
    cell: the base class has been asked for exactly what was printed, in order
    and with no value but the last, as the cell's result; then for the error, if
    there is one; the reply is the last step, and it says which. *)
Theorem r_cell sc c i e : 64 <= L -> between c i -> fresh c -> fits_cell sc c -> regular_script sc ->
  evalUserExpressions a (userExpressions c) = Ok e ->
  exists i', run (turning i) (script_events sc) = Some (turning i')
  /\ m_cell i' = None
  /\ steps i' = steps i ++ (DoCall <$> script_calls (silent_cell c) (allowsStdin i) (clock i) (executionCount c) sc)
                        ++ [Reply (script_reply (silent_cell c) e sc) (clock i)]
  /\ evaluated i' = evaluated i ++ take (script_length sc) (exprs c).
Proof. apply r_cell_runs. Qed.

End Script.
End RConsole.

(** ** The hypotheses can hold *)

Definition no_json (_ : str) : basic_json := Null.
Definition no_strict_json (_ : str) : result basic_json := Throw [].

(** R's console loop has run its first line. *)
Definition example_console : RInterpreter (J := Concrete.concrete) (obj := nat) :=
  upd_loopStarted true (attachServer "/tmp/elara_debug_7/"%string (newInterpreter 7)).

Abbreviation example_turning := (turning (J := Concrete.concrete) (obj := nat) 4096).
Abbreviation run_R := (run (J := Concrete.concrete) (obj := nat) 0%nat example_embed no_json false no_strict_json).

Definition example_config : ExecuteRequestConfig := {| silent := false; store_history := true; allow_stdin := false |}.

Definition example_done : DoneAnswer :=
  {| done_outputs := []; expression_outputs := []; expression_value := fun _ => None; session_search := [];
     session_globals := []; session_loaded := [] |}.

Definition example_start (es : list nat) : StartAnswer (obj := nat) :=
  {| repl_parse := fun _ _ => Expressions es None; debug_parse := fun _ _ _ => Expressions es None; start_outputs := [];
     prompt_option := Some ("> "%string : str); continue_option := Some ("+ "%string : str) |}.

Definition requests_cell (es : list nat) : Event (J := Concrete.concrete) :=
  Requested (example_start es) 1 "cell"%string example_config null.

Definition asks_top : Event (J := Concrete.concrete) (obj := nat) := Asks "> "%string 4096 (Throw []) [].

Definition hello : str := "hello"%string ++ [newline].

(** A cell of two expressions: the first prints, the second has a value. *)
Definition example_script : Script (obj := nat) :=
  {| values := [{| v_plot := []; v_during := [Console hello 0]; v_value := 11%nat; v_visible := false; v_after := [] |};
                {| v_plot := []; v_during := []; v_value := 12%nat; v_visible := true; v_after := [Console ("[1] 2"%string ++ [newline]) 0] |}];
     ending := Completes; last_plot := [] |}.

Definition example_events : list (Event (J := Concrete.concrete)) :=
  requests_cell [1; 2]%nat :: script_events "> "%string 4096 (Throw []) [] example_done example_script.

Definition interp_of (o : option (State (J := Concrete.concrete) (obj := nat))) : RInterpreter :=
  match o with Some s => interp_r s | None => example_console end.

Definition end_of (es : list Event) : State := match run_R (example_turning example_console) es with Some s => s | None => example_turning example_console end.

Lemma example_runs : run_R (example_turning example_console) example_events = Some (end_of example_events).
Proof. vm_compute. reflexivity. Qed.

Lemma example_place : place (end_of example_events) = Turning 4096.
Proof. vm_compute. reflexivity. Qed.


Lemma example_hands : (Some (line_of visible_line), 4096) ∈ handed (interp_r (end_of example_events)).
Proof.
  assert (handed (interp_r (end_of example_events)) = [(Some (line_of invisible_line), 4096); (Some (line_of visible_line), 4096)]) as ->;
    [vm_compute; reflexivity |]. right. by left.
Qed.

Lemma lines_fit_witness : Z.of_nat (length (line_of visible_line)) + 1 <= 4096.
Proof.
  apply (lines_fit (J := Concrete.concrete) 0%nat example_embed no_json false no_strict_json
    (example_turning example_console) example_events (end_of example_events)).
  - done.
  - exact example_runs.
  - rewrite example_place. discriminate.
  - exact example_hands.
Defined.

(** Interrupted while the first expression runs: R jumps, the loop ends it. *)
Definition running_events : list (Event (J := Concrete.concrete)) := [requests_cell [1; 2]%nat; Turn [] example_done].
Definition interrupted_events : list (Event (J := Concrete.concrete)) :=
  [Puts (Console hello 0); Jumped; asks_top; asks_top; Turn [] example_done].
Definition running_end : State (J := Concrete.concrete) := end_of running_events.
Definition interrupted_end : State (J := Concrete.concrete) :=
  match run_R running_end (Interrupted :: interrupted_events) with Some s => s | None => running_end end.

Lemma interrupted_runs : run_R running_end (Interrupted :: interrupted_events) = Some interrupted_end.
Proof. vm_compute. reflexivity. Qed.

Lemma running_facts : place running_end = InR /\ consistent (interp_r running_end) /\ m_cell (interp_r running_end) <> None
  /\ place interrupted_end = Turning 4096 /\ m_cell (interp_r interrupted_end) = None.
Proof.
  split; [vm_compute; reflexivity |]. split; [split; [vm_compute; reflexivity | vm_compute; discriminate] |].
  split; [vm_compute; discriminate |]. split; vm_compute; reflexivity.
Qed.

Lemma interrupt_ends_cell_witness : replied_interrupted (interp_r running_end) (interp_r interrupted_end).
Proof.
  destruct running_facts as (Hp & Hc & Hn & Hp' & Hc').
  destruct (interrupt_ends_cell (J := Concrete.concrete) 0%nat example_embed no_json false no_strict_json
    running_end interrupted_events interrupted_end) as [H | H].
  - rewrite Hp. discriminate.
  - exact Hc.
  - exact Hn.
  - exact interrupted_runs.
  - rewrite Hp'. discriminate.
  - destruct H as (_ & H & _). exact (False_ind _ (H Hc')).
  - exact H.
Defined.

(** The cell of two expressions, queued. *)
Definition queued : RInterpreter (J := Concrete.concrete) := interp_r (end_of [requests_cell [1; 2]%nat]).
Definition queued_cell : Cell (J := Concrete.concrete) := new_cell 1 example_config null [1; 2]%nat None example_console.

Lemma queued_facts : between "> "%string queued_cell queued /\ steps queued = [] /\ evaluated queued = [] /\ clock queued = 7.
Proof.
  split; [split; first [vm_compute; reflexivity | vm_compute; split; reflexivity] |]. split; [vm_compute; reflexivity |].
  split; vm_compute; reflexivity.
Qed.

Lemma r_cell_witness : exists i',
  run_R (example_turning queued) (script_events "> "%string 4096 (Throw []) [] example_done example_script) = Some (example_turning i')
  /\ steps i' = [DoCall (Stream "stdout"%string hello 7); DoCall (ExecutionResult 1 (text_plain "[1] 2"%string) empty_object 7);
                 Reply (createSuccessfulReply (mk_array []) empty_object) 7]
  /\ evaluated i' = [1; 2]%nat.
Proof.
  destruct queued_facts as (Hb & Hs & Hv & Hn).
  destruct (r_cell (J := Concrete.concrete) 0%nat example_embed no_json false no_strict_json "> "%string 4096 (Throw []) [] example_done
    example_script queued_cell queued empty_object) as (i' & R & _ & S & V).
  - done.
  - exact Hb.
  - done.
  - done.
  - repeat constructor.
  - vm_compute. reflexivity.
  - exists i'. split; [exact R |]. rewrite S, V, Hs, Hv, Hn. split; [vm_compute; reflexivity | reflexivity].
Defined.

(** [readline("> ")] asks for its line with R's own prompt: [readConsole] takes it
    for R's top level, and for a jump there; the user is not asked, the cell has
    failed, and what the evaluation is handed is a line of the kernel's own. *)
Example readline_with_the_top_prompt :
  match run_R (example_turning example_console) (running_events ++ [asks_top]) with
  | Some s => handed (interp_r s) = [(Some (line_of recover_line), 4096)]
              /\ match m_cell (interp_r s) with Some c => failed c = true | None => False end
  | None => False
  end.
Proof. vm_compute. split; reflexivity. Qed.

(** Twice in one expression, the second call runs the loop inside the
    evaluation: it ends the cell, whose evaluation then returns to it. *)
Example readline_twice_frees_the_cell :
  match run_R (example_turning example_console)
          (running_events ++ [asks_top; asks_top; Turn [] example_done; PollStopped; Returned 3%nat true]) with
  | Some s => place s = Crashed
  | None => False
  end.
Proof. vm_compute. reflexivity. Qed.

(** An error while R's console prints the cell's value, when hera's handler does
    not see it: nothing was being evaluated, so the cell has not failed. *)
Example error_in_print_is_lost :
  match run_R (example_turning example_console)
          (requests_cell [1]%nat :: Turn [] example_done :: [Returned 3%nat true; Jumped; asks_top; Turn [] example_done]) with
  | Some s => steps (interp_r s) = [Reply (createSuccessfulReply (mk_array []) empty_object) 7]
  | None => False
  end.
Proof. vm_compute. reflexivity. Qed.
