(* ===== verification/RStart.v ===== *)
(** * The start of R: RInterpreter's constructor and configureImpl
    (elara/r/interpreter_r.cpp), the kernel's log (elara/log.hpp)

    - [Log]: log.hpp;
    - the code of a cell parsed by the kernel's R code (executeRequestImpl's
      first part), text evaluated ([evalRString]) and the kernel's R code loaded
      ([configureImpl]), in the memory of RHeap.v;
    - [Start]: the calls of R's embedding interface, on POSIX and Windows. *)

From Stdlib Require Import Ascii String ZArith Lia.
From stdpp Require Import base gmap list strings.
From S2P Require Import Prelude RConsole RHeap.
Local Open Scope jovian_scope.

Module Log.
Inductive Level := debug | info | warning | error.

Definition number (l : Level) : nat := match l with debug => 0 | info => 1 | warning => 2 | error => 3 end.

Definition one_of (text : str) (names : list string) : bool := existsb (fun n => str_eqb text (list_ascii_of_string n)) names.

Definition parseLevel (text : str) (fallback : Level) : Level :=
  if one_of text ["debug"; "trace"]%string then debug
  else if one_of text ["info"; "notice"]%string then info
  else if one_of text ["warning"; "warn"]%string then warning
  else if one_of text ["error"; "fatal"]%string then error
  else fallback.

(** [ELARA_LOG_LEVEL], when it is set. *)
Definition threshold (variable : option str) : Level :=
  match variable with Some value => parseLevel value info | None => info end.

Definition name (l : Level) : str :=
  match l with debug => "debug"%string | info => "info"%string | warning => "warning"%string | error => "error"%string end.

Definition enabled (variable : option str) (l : Level) : bool := number (threshold variable) <=? number l.

Definition is_space (c : byte) : bool :=
  char_eqb c " "%char || char_eqb c (ascii_of_nat 9) || char_eqb c (ascii_of_nat 13) || char_eqb c (ascii_of_nat 10).

(** Up to the last character that is not a space. *)
Fixpoint trim_end (message : str) : str :=
  match message with
  | [] => []
  | c :: rest => match trim_end rest with [] => if is_space c then [] else [c] | ((_ :: _) as r) => c :: r end
  end.

Definition write (variable : option str) (l : Level) (message : str) : option str :=
  if enabled variable l then Some (name l ++ (": "%string : str) ++ c_str (trim_end message) ++ [newline]) else None.
End Log.

Section RStart.
Context `{R : RRuntime}.

(** ** Text evaluated *)

Definition STRING_ELT (x : loc) (i : nat) : M loc :=
  o ← use x; match o with STRSXP es => match es !! i with Some e => mret e | None => undefined end | _ => undefined end.
Definition VECTOR_ELT (x : loc) (i : nat) : M loc :=
  o ← use x; match o with VECSXP es => match es !! i with Some e => mret e | None => undefined end | _ => undefined end.
Definition CHAR (x : loc) : M str := o ← use x; match o with CHARSXP s => mret s | _ => undefined end.

Definition length_of (o : Data) : nat :=
  match o with STRSXP es | VECSXP es => length es | INTSXP vs => length vs | NILSXP => 0 | _ => 1 end.

Definition Rf_length (x : loc) : M nat :=
  o ← use x; mret (length_of o).

(** A vector, its elements filled in. *)
Definition Rf_allocVector_STRSXP (n : nat) : M loc := alloc (STRSXP (replicate n R_BlankString)).

Definition SET_STRING_ELT (x : loc) (i : nat) (v : loc) : M unit :=
  o ← use x; _ ← use v;
  match o with
  | STRSXP es => if i <? length es then modify (fun m => set_heap (<[x := STRSXP (<[i := v]> es)]> (heap m)) m) else undefined
  | _ => undefined
  end.

Definition set_string (x : loc) (i : nat) (s : str) : M unit := c ← Rf_mkChar s; SET_STRING_ELT x i c.

(** A null pointer may be protected too: there is nothing to keep. *)
Definition PROTECT_ (p : option loc) : M unit := PROTECT (default R_NilValue p).

Definition is_none {A} (o : option A) : bool := match o with None => true | Some _ => false end.

Fixpoint eval_from (parsed : loc) (i n : nat) (acc : option loc * bool) : M (option loc * bool) :=
  match n with
  | O => mret acc
  | S n => e ← VECTOR_ELT parsed i; v ← R_tryEval e; eval_from parsed (S i) n (v, snd acc || is_none v)
  end.

(** The value of the last expression (a null pointer after an error), and
    whether anything failed. *)
Definition evalRString (code : str) : M (option loc * bool) :=
  code_sexp ← Rf_mkString (c_str code); PROTECT code_sexp ;;
  parsed ← R_ParseVector code_sexp; PROTECT_ parsed ;;
  r ← match parsed with
      | Some p => n ← Rf_length p; eval_from p 0 n (Some R_NilValue, false)
      | None => mret (Some R_NilValue, true)
      end;
  UNPROTECT 2 ;; mret r.

(** ** The kernel's R code *)

Record SourceFile := { path : str; text : str }.

Fixpoint set_sources (paths texts : loc) (i : nat) (files : list SourceFile) : M unit :=
  match files with
  | [] => mret tt
  | f :: rest =>
      set_string paths i (path f) ;; set_string texts i (text f) ;; set_sources paths texts (S i) rest
  end.

Definition Entry : Type := Log.Level * str.

Definition s_libPaths : str := ".libPaths"%string.
Definition s_libraries : str := "R libraries: "%string.
Definition s_none : str := "(none)"%string.
Definition s_separator : str := "; "%string.

Fixpoint paths_from (libpaths : loc) (i n : nat) (paths : str) : M str :=
  match n with
  | O => mret paths
  | S n => e ← STRING_ELT libpaths i; s ← CHAR e; paths_from libpaths (S i) n (paths ++ (if i =? 0 then [] else s_separator) ++ s)
  end.

(** [Rf_eval]: an error jumps out of the C++ code. *)
Definition Rf_eval (e : loc) : M loc := v ← R_tryEval e; match v with Some v => mret v | None => undefined end.

Definition log_libraries : M (list Entry) :=
  f ← Rf_install s_libPaths; get_libpaths ← Rf_lcons f R_NilValue; PROTECT get_libpaths ;;
  libpaths ← Rf_eval get_libpaths; PROTECT libpaths ;;
  n ← Rf_length libpaths; paths ← paths_from libpaths 0 n [];
  UNPROTECT 2 ;; mret [(Log.debug, s_libraries ++ if bool_decide (paths = []) then s_none else paths)].

Definition is_string (o : Data) : bool := match o with STRSXP _ => true | _ => false end.

Definition s_loaded : str := "loaded "%string.
Definition s_not_loaded : str := "the kernel's R code (hera) could not be loaded: "%string.
Definition s_overrides : str := "installing the display overrides: "%string.
Definition s_traceback : str := "could not prepare traceback() for cells' errors"%string.
Definition s_setlocale : str := "suppressWarnings(try(Sys.setlocale('LC_ALL', '.UTF-8'), silent = TRUE))"%string.
Definition s_install : str :=
  ("local({ env <- as.environment("%string : str) ++ [ascii_of_nat 34] ++ s_tools ++ [ascii_of_nat 34]
  ++ ("); env$.jv.display.install(); env$.jv.ui.install() })"%string : str).
Definition s_stop : str := "local({ op <- options(show.error.messages = FALSE); on.exit(options(op)); stop('') })"%string.

Definition error_entry (what : str) : M Entry := m ← get; mret (Log.error, what ++ R_curErrorBuf m).

(** Whether the loader ran, and said what it loaded. *)
Definition report_load (load_error : bool) (out : loc) : M Entry :=
  o ← use out; n ← Rf_length out;
  if negb load_error && is_string o && (0 <? n) then e ← STRING_ELT out 0; s ← CHAR e; mret (Log.info, s_loaded ++ s)
  else error_entry s_not_loaded.

(** [files] and the text of the loader are built into the kernel. *)
Definition load_hera (hera_loader : str) (files : list SourceFile) : M (list Entry) :=
  paths ← Rf_allocVector_STRSXP (length files); PROTECT paths ;;
  texts ← Rf_allocVector_STRSXP (length files); PROTECT texts ;;
  set_sources paths texts 0 files ;;
  '(loader, had_error) ← evalRString hera_loader; PROTECT_ loader ;;
  '(load_error, out) ←
     (if (had_error : bool) then mret (true, Some R_NilValue)
      else call ← rCall (default R_NilValue loader) [paths; texts]; PROTECT call ;;
           out ← R_tryEval call; UNPROTECT 1 ;; mret (is_none out, out));
  PROTECT_ out ;;
  loaded ← report_load load_error (default R_NilValue out);
  '(_, install_error) ← evalRString s_install;
  installed ← (if (install_error : bool) then e ← error_entry s_overrides; mret [e] else mret []);
  '(_, traceback_error) ← evalRString s_stop;
  UNPROTECT 4 ;;
  mret ([loaded] ++ installed ++ if (traceback_error : bool) then [] else [(Log.warning, s_traceback)]).

Definition configureImpl (windows debug : bool) (hera_loader : str) (files : list SourceFile) : M (list Entry) :=
  (if windows then _ ← evalRString s_setlocale; mret tt else mret tt) ;;
  libraries ← (if debug then log_libraries else mret []);
  loaded ← load_hera hera_loader files;
  mret (libraries ++ loaded).

(** ** A cell's code parsed *)

Definition s_debug_parse : str := ".jv.debug.parse"%string.
Definition s_repl_parse : str := ".jv.repl.parse"%string.
Definition s_jv_cell : str := ".jv_cell"%string.

(** The start of [executeRequestImpl]: the parsed expressions, or the message of
    the error the cell ends with ([inl]: hera's or R's own; [inr]: a syntax
    error's).  [debugging]: the cell's file and the lines with breakpoints. *)
Inductive ParsedCell := Failed (what : str) | SyntaxError (message : str) | Expressions (exprs : loc).

Definition call_parser (left_first : bool) (debugging : option (str * list Z)) (code_ count_ : loc) : M loc :=
  match debugging with
  | Some (path, lines) =>
      path_ ← Rf_mkString (c_str path); PROTECT path_ ;;
      lines_ ← alloc (INTSXP lines); PROTECT lines_ ;;
      parsed ← invokeHeraFn left_first s_debug_parse [code_; path_; lines_];
      UNPROTECT 2 ;; PROTECT parsed ;; mret parsed
  | None =>
      parsed ← invokeHeraFn left_first s_repl_parse [code_; count_]; PROTECT parsed ;; mret parsed
  end.

Definition take_parsed (parsed : loc) : M ParsedCell :=
  o ← use parsed;
  if is_string o then
    e ← STRING_ELT parsed 0; message ← CHAR e; UNPROTECT 3 ;; mret (SyntaxError message)
  else
    cell ← Rf_install s_jv_cell; SETCDR cell parsed ;; UNPROTECT 3 ;; mret (Expressions parsed).

Definition parse_cell (left_first : bool) (debugging : option (str * list Z)) (code : str) (execution_count : Z) : M ParsedCell :=
  code_ ← Rf_mkString (c_str (withLineFeeds code)); PROTECT code_ ;;
  count_ ← Rf_ScalarInteger execution_count; PROTECT count_ ;;
  parsed ← catch (p ← call_parser left_first debugging code_ count_; mret (inl p)) (fun what => UNPROTECT 2 ;; mret (inr what));
  match parsed with
  | inl parsed => take_parsed parsed
  | inr what => mret (Failed what)
  end.


(** ** Evaluation of text *)

Fixpoint eval_all (es : list loc) (m : Mem) (acc : option loc * bool) : Mem * (option loc * bool) :=
  match es with
  | [] => (m, acc)
  | e :: es => let (m', v) := R_tryEval_ m e in eval_all es m' (v, snd acc || is_none v)
  end.

Lemma returns_use l o m (Q : Mem -> Data -> Prop) : heap m !! l = Some o -> Q m o -> returns (use l) m Q.
Proof. intros Hl HQ. unfold returns, use. rewrite Hl. by eexists _, _. Qed.

Lemma returns_VECTOR_ELT p es i e m (Q : Mem -> loc -> Prop) :
  heap m !! p = Some (VECSXP es) -> es !! i = Some e -> Q m e -> returns (VECTOR_ELT p i) m Q.
Proof. intros Hp He HQ. apply returns_bind, (returns_use _ _ _ _ Hp). rewrite He. by apply returns_ret. Qed.

Lemma returns_STRING_ELT p es i e m (Q : Mem -> loc -> Prop) :
  heap m !! p = Some (STRSXP es) -> es !! i = Some e -> Q m e -> returns (STRING_ELT p i) m Q.
Proof. intros Hp He HQ. apply returns_bind, (returns_use _ _ _ _ Hp). rewrite He. by apply returns_ret. Qed.

Lemma returns_Rf_length l o m (Q : Mem -> nat -> Prop) : heap m !! l = Some o -> Q m (length_of o) -> returns (Rf_length l) m Q.
Proof. intros Hl HQ. by apply returns_bind, (returns_use _ _ _ _ Hl), returns_ret. Qed.

Definition value_live (m : Mem) (r : option loc * bool) : Prop := (forall x, fst r = Some x -> live m x) /\ (snd r = false -> fst r <> None).

Lemma eval_from_all (p : loc) (es : list loc) : forall n i m acc,
  wf m -> p ∈ roots m -> heap m !! p = Some (VECSXP es) -> i + n = length es -> value_live m acc ->
  returns (eval_from p i n acc) m (fun m' r => eval_all (drop i es) m acc = (m', r) /\ ran m m' /\ value_live m' r).
Proof.
  induction n as [| n IH]; intros i m acc Hm Hr Hp Hn Ha; cbn [eval_from].
  - apply returns_ret. rewrite drop_ge by lia. cbn. split; [done |]. split; [by apply ran_refl | done].
  - destruct (lookup_lt_is_Some_2 es i) as [e He]; [lia |]. apply returns_bind, (returns_VECTOR_ELT _ _ _ _ _ _ Hp He).
    apply returns_bind, returns_tryEval; [done | | |].
    + apply (reach_ref _ _ p (VECSXP es)); [by apply reach_root | done | cbn; by apply (list_elem_of_lookup_2 _ i)].
    + apply (wf_closed m Hm p (VECSXP es)); [done | cbn; by apply (list_elem_of_lookup_2 _ i)].
    + intros m1 v Hev Hran Hv.
      eapply returns_mono; [apply (IH (S i) m1 (v, snd acc || is_none v)) |].
      * apply (ran_wf _ _ Hran).
      * by apply (ran_roots _ _ Hran).
      * by apply (ran_value m).
      * lia.
      * split; [done |]. cbn. by destruct v, (snd acc).
      * cbv beta. intros m2 r (He2 & Hran2 & Hl). split; [| split; [| done]].
        -- rewrite (drop_S es e i He). cbn. by rewrite Hev.
        -- refine (ran_trans _ m1 _ _ Hran Hran2). apply (wf_next m Hm).
Qed.

(** The text is parsed, and all its expressions are evaluated, those after one
    that fails too. *)
Definition evaluated (code : str) (m : Mem) (r : option loc * bool) (m' : Mem) : Prop :=
  exists m1 code_sexp, string_at (heap m1) code_sexp (c_str code) /\ pp_stack m1 = code_sexp :: pp_stack m /\
    match R_ParseVector_ m1 code_sexp with
    | (m2, Some p) => exists es m3, heap m2 !! p = Some (VECSXP es)
        /\ eval_all es (push p m2) (Some R_NilValue, false) = (m3, r) /\ m' = pop 2 m3
    | (m2, None) => r = (Some R_NilValue, true) /\ m' = pop 2 (push R_NilValue m2)
    end.

Lemma evalRString_evaluated (code : str) (m : Mem) :
  wf m -> returns (evalRString code) m (fun m' r => ran m m' /\ value_live m' r /\ evaluated code m r m').
Proof.
  intros Hm. apply returns_bind. eapply returns_mono; [by apply Rf_mkString_made |]. intros ma t [Ka Ht]. cbv beta.
  assert (Hlt : live ma t) by (destruct Ht as (c & Ht & _); by eexists).
  assert (Ha : holds [t] m (push t ma)).
  { apply holds_push; [| done]. apply (holds_step _ m m); [done | by apply holds_refl | by apply (kept_ran [])]. }
  apply returns_bind, returns_PROTECT; [done |]. apply returns_bind, returns_parse.
  { apply (holds_wf _ _ _ Ha). }
  { apply elem_roots. cbn. rewrite elem_of_cons. tauto. }
  intros m2 v Hp Hran Hv. assert (H2 : holds [t] m m2) by by apply (holds_step _ _ (push t ma)).
  assert (He : forall r m', (match v with Some p => exists es m3, heap m2 !! p = Some (VECSXP es)
        /\ eval_all es (push p m2) (Some R_NilValue, false) = (m3, r) /\ m' = pop 2 m3
    | None => r = (Some R_NilValue, true) /\ m' = pop 2 (push R_NilValue m2) end) -> evaluated code m r m').
  { intros r m' H. exists (push t ma), t. split; [done |]. split; [by rewrite (holds_stack _ _ _ Ha) |]. rewrite Hp. by destruct v. }
  assert (Hnil : forall m', wf m' -> live m' R_NilValue) by apply live_nil.
  apply returns_bind. destruct v as [p |].
  - destruct (Hv p eq_refl) as [es Hes]. apply returns_PROTECT; [by eexists |]. apply returns_bind.
    change (push (default R_NilValue (Some p)) m2) with (push p m2). assert (H3 : holds [p; t] m (push p m2)) by (apply holds_push; [done | by eexists]).
    apply returns_bind, (returns_Rf_length _ (VECSXP es)); [done |].
    eapply returns_mono; [apply (eval_from_all p es (length es) 0 (push p m2)) |].
    + apply (holds_wf _ _ _ H3).
    + apply elem_roots. cbn. rewrite elem_of_cons. tauto.
    + done.
    + done.
    + split; [intros x [= <-]; apply Hnil, (holds_wf _ _ _ H3) | done].
    + cbv beta. intros m3 r (Hr & Hran3 & Hl). apply (returns_UNPROTECT_held [p; t] []  _ m m3).
      { by apply (holds_step _ _ (push p m2)). }
      intros H4. apply returns_ret. split; [by apply holds_ran |]. split; [done |]. apply He. by exists es, m3.
  - apply returns_PROTECT; [apply Hnil, (holds_wf _ _ _ H2) |]. apply returns_bind, returns_ret.
    apply (returns_UNPROTECT_held [R_NilValue; t] [] _ m (push R_NilValue m2)).
    { apply holds_push; [done | apply Hnil, (holds_wf _ _ _ H2)]. }
    intros H4. apply returns_ret. split; [by apply holds_ran |]. split; [| by apply He].
    split; [intros x [= <-]; apply Hnil, (holds_wf _ _ _ H4) | done].
Qed.


(** ** Vectors filled *)

Lemma hset_eq (h : Heap) l o : <[l := o]> h !! l = Some o.
Proof. apply lookup_insert_eq. Qed.

Lemma hset_ne (h : Heap) l l' o : l <> l' -> <[l := o]> h !! l' = h !! l'.
Proof. apply lookup_insert_ne. Qed.

(** A vector that is not there in [m], filled since. *)
Lemma SET_STRING_ELT_set ls m m1 x i es v (Q : Mem -> unit -> Prop) :
  holds ls m m1 -> heap m !! x = None -> heap m1 !! x = Some (STRSXP es) -> i < length es -> is_char (heap m1) v ->
  (forall m2, holds ls m m2 -> heap m2 = <[x := STRSXP (<[i := v]> es)]> (heap m1) -> next m2 = next m1 -> roots m2 = roots m1 -> Q m2 tt) ->
  returns (SET_STRING_ELT x i v) m1 Q.
Proof.
  intros Hh Hx Hx1 Hi [s Hv] HQ. apply returns_bind, (returns_use _ _ _ _ Hx1). apply returns_bind, (returns_use _ _ _ _ Hv).
  rewrite (proj2 (Nat.ltb_lt _ _) Hi). eexists _, _. split; [done |]. apply HQ; [| done ..].
  assert (Hne : x <> v) by congruence. pose proof (holds_wf _ _ _ Hh) as Hw.
  assert (Hl : forall l, live m1 l -> is_Some (<[x := STRSXP (<[i := v]> es)]> (heap m1) !! l)).
  { intros l H. destruct (decide (l = x)) as [-> | Hn]; [rewrite hset_eq; eauto | by rewrite hset_ne]. }
  assert (Hb : forall l, is_Some (<[x := STRSXP (<[i := v]> es)]> (heap m1) !! l) -> live m1 l).
  { intros l H. destruct (decide (l = x)) as [-> | Hn]; [by eexists | by rewrite hset_ne in H]. }
  assert (Hc : forall l, is_char (heap m1) l -> is_char (<[x := STRSXP (<[i := v]> es)]> (heap m1)) l).
  { intros l [t Ht]. exists t. rewrite hset_ne; [done |]. intros <-. congruence. }
  assert (Hes : forall e, e ∈ <[i := v]> es -> e = v \/ e ∈ es).
  { intros e [j Hj]%list_elem_of_lookup. destruct (decide (i = j)) as [<- | Hn].
    - rewrite list_lookup_insert_eq in Hj by done. left. congruence.
    - rewrite list_lookup_insert_ne in Hj by done. right. by apply (list_elem_of_lookup_2 _ j). }
  destruct Hh. constructor; cbn; try done.
  - constructor; cbn; [| | | | | | apply (wf_env _ Hw) | apply (wf_jv_call _ Hw)].
    + intros l o Ho r Hr. apply Hl. destruct (decide (l = x)) as [-> | Hn].
      * rewrite hset_eq in Ho. simplify_eq. cbn in Hr. destruct (Hes r Hr) as [-> | Hr']; [by eexists |].
        by apply (wf_closed _ Hw x (STRSXP es)).
      * rewrite hset_ne in Ho by done. by apply (wf_closed _ Hw l o).
    + intros l Hr. by apply Hl, (wf_roots _ Hw).
    + intros l H. apply (wf_next _ Hw). by apply Hb.
    + intros l o Ho c Hin. apply Hc. destruct (decide (l = x)) as [-> | Hn].
      * rewrite hset_eq in Ho. simplify_eq. cbn in Hin. destruct (Hes c Hin) as [-> | Hin']; [by eexists |].
        by apply (wf_chars _ Hw x (STRSXP es)).
      * rewrite hset_ne in Ho by done. by apply (wf_chars _ Hw l o).
    + apply Hc, (wf_blank _ Hw).
    + intros n l Hin. destruct (wf_symbols _ Hw n l Hin) as [u Hu]. exists u. rewrite hset_ne; [done |]. intros <-. congruence.
  - intros l o Ho Hvl [o' Hl']. cbn in *. destruct (decide (l = x)) as [-> | Hn]; [congruence |].
    rewrite hset_ne by done. apply ran_values; [done | done |]. apply Hb. by eexists.
  - intros l [o' Hl']. apply ran_fresh, Hb. by eexists.
Qed.

Definition elem_is (h : Heap) (l : loc) (k : nat) (s : str) : Prop :=
  exists es c, h !! l = Some (STRSXP es) /\ es !! k = Some c /\ h !! c = Some (CHARSXP s).

Definition has_length (h : Heap) (l : loc) (n : nat) : Prop := exists es, h !! l = Some (STRSXP es) /\ length es = n.

Lemma elem_is_same h h' rs l k s : same h h' rs -> l ∈ rs -> elem_is h l k s -> elem_is h' l k s.
Proof.
  intros Hs Hl (es & c & He & Hk & Hc). exists es, c. rewrite !Hs; [done | | by apply reach_root].
  apply (reach_ref _ _ l (STRSXP es)); [by apply reach_root | done | cbn; by apply (list_elem_of_lookup_2 _ k)].
Qed.

Lemma elem_is_set h x i es v l k s :
  h !! x = Some (STRSXP es) -> (l <> x \/ k <> i) -> elem_is h l k s -> elem_is (<[x := STRSXP (<[i := v]> es)]> h) l k s.
Proof.
  intros Hx Hd (es' & c & He & Hk & Hc). assert (Hcx : c <> x) by congruence.
  destruct (decide (l = x)) as [-> | Hn].
  - simplify_eq. eexists _, c. rewrite hset_eq, hset_ne by done. split; [done |]. split; [| done].
    rewrite list_lookup_insert_ne; [done |]. destruct Hd as [? | ?]; congruence.
  - exists es', c. by rewrite !hset_ne by done.
Qed.

Lemma strings_of_elems h l texts :
  has_length h l (length texts) -> (forall k s, texts !! k = Some s -> elem_is h l k s) -> strings_at h l texts.
Proof.
  intros (es & He & Hn) Hk. exists es. split; [done |]. apply Forall2_same_length_lookup_2; [done |].
  intros k c s Hc Hs. destruct (Hk k s Hs) as (es' & c' & He' & Hc' & Ht). simplify_eq. done.
Qed.

Definition sources_set (h : Heap) (p t n i : nat) (files : list SourceFile) : Prop :=
  has_length h p n /\ has_length h t n
  /\ forall k f, k < i -> files !! k = Some f -> elem_is h p k (path f) /\ elem_is h t k (text f).

Lemma has_length_same h h' rs l n : same h h' rs -> l ∈ rs -> has_length h l n -> has_length h' l n.
Proof. intros Hs Hl (es & He & Hn). exists es. rewrite Hs; [done | by apply reach_root]. Qed.

Lemma has_length_set h x i es v l n : h !! x = Some (STRSXP es) -> has_length h l n -> has_length (<[x := STRSXP (<[i := v]> es)]> h) l n.
Proof.
  intros Hx (es' & He & Hn). destruct (decide (l = x)) as [-> | Hne].
  - simplify_eq. exists (<[i := v]> es). by rewrite hset_eq, length_insert.
  - exists es'. by rewrite hset_ne.
Qed.

(** One string made and put in its place. *)
Lemma string_set m m1 ls x i n s (Q : Mem -> unit -> Prop) :
  wf m -> holds ls m m1 -> x ∈ ls -> heap m !! x = None -> has_length (heap m1) x n -> i < n ->
  (forall m2, holds ls m m2 -> elem_is (heap m2) x i s
     -> (forall l k u, l ∈ ls -> l <> x \/ k <> i -> elem_is (heap m1) l k u -> elem_is (heap m2) l k u)
     -> (forall l k, l ∈ ls -> has_length (heap m1) l k -> has_length (heap m2) l k) -> Q m2 tt) ->
  returns (set_string x i s) m1 Q.
Proof.
  intros Hm Hh Hx Hn Hl Hi HQ. apply returns_bind, returns_alloc; [apply (holds_wf _ _ _ Hh) | by intros ? ?%not_elem_of_nil .. |].
  intros m2 K _ Hc _. pose proof (holds_step _ _ _ _ Hm Hh (kept_ran _ _ _ K)) as Hh2.
  assert (Hroot : forall l, l ∈ ls -> l ∈ roots m1 ++ []).
  { intros l Hin. apply elem_of_app. left. apply elem_roots. rewrite (holds_stack _ _ _ Hh), elem_of_app. tauto. }
  pose proof (kept_same _ _ _ K) as Hs. cbn [refs] in Hs.
  destruct (has_length_same _ _ _ _ _ Hs (Hroot x Hx) Hl) as (es & He & Hle).
  eapply (SET_STRING_ELT_set ls m m2 x i es (next m1)); [done .. | lia | by eexists |].
  intros m3 Hh3 Hheap _ _. apply HQ; [done | | |]; rewrite Hheap.
  - exists (<[i := next m1]> es), (next m1). rewrite hset_eq, hset_ne by congruence.
    rewrite list_lookup_insert_eq by lia. done.
  - intros l k u Hin Hd Hel. apply elem_is_set; [done .. |]. by apply (elem_is_same _ _ _ _ _ _ Hs (Hroot l Hin)).
  - intros l k Hin Hk. apply has_length_set; [done |]. by apply (has_length_same _ _ _ _ _ Hs (Hroot l Hin)).
Qed.

Lemma set_sources_set (m : Mem) (p t n : nat) (all : list SourceFile) :
  wf m -> heap m !! p = None -> heap m !! t = None -> p <> t -> n = length all ->
  forall files i m1, drop i all = files -> i <= n ->
  holds [t; p] m m1 -> sources_set (heap m1) p t n i all ->
  returns (set_sources p t i files) m1 (fun m2 _ => holds [t; p] m m2 /\ sources_set (heap m2) p t n n all).
Proof.
  intros Hm Hp Ht Hpt Hn. induction files as [| f files IH]; intros i m1 Hd Hi Hh Hset; cbn [set_sources].
  - assert (i = n) as -> by (apply (f_equal length) in Hd; rewrite length_drop in Hd; cbn in Hd; lia). by apply returns_ret.
  - assert (Hf : all !! i = Some f) by (rewrite <- (Nat.add_0_r i), <- lookup_drop, Hd; done).
    assert (Hin : i < n) by (subst n; by apply lookup_lt_Some in Hf).
    destruct Hset as (Hlp & Hlt & Hk).
    apply returns_bind, (string_set m m1 [t; p] p i n (path f)); [done | done | set_solver | done .. |].
    intros m2 Hh2 Hel Hother Hlen. apply returns_bind, (string_set m m2 [t; p] t i n (text f)); [done | done | set_solver | done | | done |].
    { apply Hlen; [set_solver | done]. }
    intros m3 Hh3 Hel3 Hother3 Hlen3. apply IH; [| lia | done |].
    { rewrite (drop_S all f i Hf) in Hd. by injection Hd. }
    split; [| split].
    + apply Hlen3; [set_solver |]. apply Hlen; [set_solver | done].
    + apply Hlen3; [set_solver |]. apply Hlen; [set_solver | done].
    + intros k g Hlt' Hg. destruct (decide (k = i)) as [-> | Hne].
      * simplify_eq. split; [| done]. apply Hother3; [set_solver | by left | done].
      * destruct (Hk k g) as [H1 H2]; [lia | done |].
        split; (apply Hother3; [set_solver | by right |]; apply Hother; [set_solver | by right | done]).
Qed.


(** ** The kernel's R code loaded *)

(** What the log says of the loader's answer. *)
Definition load_entry (m : Mem) (load_error : bool) (out : loc) : Entry :=
  match heap m !! out with
  | Some (STRSXP (c :: _)) =>
      match load_error, heap m !! c with
      | false, Some (CHARSXP s) => (Log.info, s_loaded ++ s)
      | _, _ => (Log.error, s_not_loaded ++ R_curErrorBuf m)
      end
  | _ => (Log.error, s_not_loaded ++ R_curErrorBuf m)
  end.

Lemma returns_error_entry what m (Q : Mem -> Entry -> Prop) : Q m (Log.error, what ++ R_curErrorBuf m) -> returns (error_entry what) m Q.
Proof. intros HQ. by eexists _, _. Qed.

Lemma returns_report_load load_error out m (Q : Mem -> Entry -> Prop) :
  wf m -> live m out -> Q m (load_entry m load_error out) -> returns (report_load load_error out) m Q.
Proof.
  intros Hm [o Ho] HQ. apply returns_bind, (returns_use _ _ _ _ Ho). apply returns_bind, (returns_Rf_length _ _ _ _ Ho).
  unfold load_entry in HQ. rewrite Ho in HQ.
  destruct o as [| | | | | [| c es] | | |]; destruct load_error; cbn [is_string length_of length negb andb Nat.ltb Nat.leb];
    try (by apply returns_error_entry).
  destruct (wf_chars m Hm out _ Ho c) as [s Hs]; [apply elem_of_cons; by left |]. rewrite Hs in HQ.
  apply returns_bind, (returns_STRING_ELT _ (c :: es) 0 c _ _ Ho); [done |].
  apply returns_bind. apply returns_bind, (returns_use _ _ _ _ Hs), returns_ret, returns_ret. done.
Qed.

(** The files given to the loader, and its call: what it answered, and the
    memory it was read in. *)
Record sources (m1 : Mem) (paths texts : loc) (files : list SourceFile) : Prop := {
  sources_paths : strings_at (heap m1) paths (path <$> files);
  sources_texts : strings_at (heap m1) texts (text <$> files)
}.

Definition loader_answer (m2 : Mem) (paths texts : loc) (files : list SourceFile) (r : option loc * bool) (load_error : bool) (out : loc) (m3 : Mem) : Prop :=
  if r.2 then load_error = true /\ out = R_NilValue
  else exists loader m4 call, r.1 = Some loader /\ call_at (heap m4) call loader [paths; texts] /\ sources m4 paths texts files /\
    let (m5, v) := R_tryEval_ m4 call in load_error = is_none v /\ out = default R_NilValue v /\ m3 = push out (pop 1 m5).

Record hera_loaded (hera_loader : str) (files : list SourceFile) (m : Mem) (entries : list Entry) : Prop := {
  hera_paths : exists m1 paths texts r m2 load_error out m3 install_error traceback_error m6,
    sources m1 paths texts files /\ pp_stack m1 = texts :: paths :: pp_stack m
    /\ evaluated hera_loader m1 r m2 /\ loader_answer m2 paths texts files r load_error out m3
    /\ (exists m7 r7, evaluated s_install m7 r7 m6 /\ r7.2 = install_error)
    /\ (exists m8 r8 m9, evaluated s_stop m8 r8 m9 /\ r8.2 = traceback_error)
    /\ entries = load_entry m3 load_error out
         :: (if (install_error : bool) then [(Log.error, s_overrides ++ R_curErrorBuf m6)] else [])
         ++ (if (traceback_error : bool) then [] else [(Log.warning, s_traceback)])
}.

Lemma blank_elems n c : c ∈ replicate n R_BlankString -> c = R_BlankString.
Proof. intros H. by apply elem_of_replicate in H as [? _]. Qed.

Lemma allocVector_made n m (Q : Mem -> loc -> Prop) :
  wf m -> (forall m' x, kept [] m m' -> heap m !! x = None -> heap m' !! x = Some (STRSXP (replicate n R_BlankString)) -> Q m' x) ->
  returns (Rf_allocVector_STRSXP n) m Q.
Proof.
  intros Hm HQ. destruct (wf_blank m Hm) as [b Hb].
  apply returns_alloc; [done | | |].
  - cbn. intros r ->%blank_elems. by eexists.
  - cbn. intros c ->%blank_elems. by eexists.
  - intros m' K _ Hx _. apply HQ; [apply (kept_weaken _ _ _ _ K); intros ? ?%not_elem_of_nil; done | | done].
    apply eq_None_not_Some. intros H. specialize (wf_next m Hm _ H). lia.
Qed.

Lemma blank_length n (h : Heap) x : h !! x = Some (STRSXP (replicate n R_BlankString)) -> has_length h x n.
Proof. intros H. eexists. split; [done | apply length_replicate]. Qed.

(** The two vectors, made and filled. *)
Lemma sources_made (files : list SourceFile) (m : Mem) (k : loc -> loc -> M (list Entry)) (Q : Mem -> list Entry -> Prop) :
  wf m ->
  (forall paths texts m1, holds [texts; paths] m m1 -> sources m1 paths texts files -> returns (k paths texts) m1 Q) ->
  returns (paths ← Rf_allocVector_STRSXP (length files); PROTECT paths ;;
           texts ← Rf_allocVector_STRSXP (length files); PROTECT texts ;;
           set_sources paths texts 0 files ;; k paths texts) m Q.
Proof.
  intros Hm HQ. apply returns_bind, allocVector_made; [done |]. intros ma p Ka Hp0 Hpa.
  assert (Hlp : live ma p) by by eexists.
  assert (Ha : holds [p] m (push p ma)).
  { apply holds_push; [| done]. apply (holds_step _ m m); [done | by apply holds_refl | by apply (kept_ran [])]. }
  apply returns_bind, returns_PROTECT; [done |]. apply returns_bind, allocVector_made; [apply (holds_wf _ _ _ Ha) |].
  intros mb t Kb Ht0 Htb. pose proof (holds_step _ _ _ _ Hm Ha (kept_ran _ _ _ Kb)) as Hb.
  assert (Hc : holds [t; p] m (push t mb)) by (apply holds_push; [done | by eexists]).
  apply returns_bind, returns_PROTECT; [by eexists |].
  assert (Hpb : heap mb !! p = heap ma !! p).
  { rewrite (kept_same _ _ _ Kb); [done |]. apply reach_root, elem_of_app. left. apply elem_roots. cbn. rewrite elem_of_cons. tauto. }
  assert (Hne : p <> t) by (intros ->; cbn in Ht0; congruence).
  assert (Ht : heap m !! t = None).
  { destruct (heap m !! t) as [ot |] eqn:Hot; [| done]. exfalso.
    destruct (ran_fresh _ _ (kept_ran _ _ _ Kb) t) as [Hl | Hn]; [by eexists | destruct Hl as [? Hl]; cbn in *; congruence |].
    pose proof (wf_next m Hm t (mk_is_Some _ _ Hot)). pose proof (kept_next _ _ _ Ka). cbn in Hn. lia. }
  apply returns_bind. eapply returns_mono; [apply (set_sources_set m p t (length files) files Hm Hp0 Ht Hne eq_refl files 0 (push t mb)); [done | lia | done |] |].
  - split; [| split; [| intros; lia]]; apply blank_length; cbn; [by rewrite Hpb | done].
  - intros m2 _ [Hh (Hlp2 & Hlt2 & Hk)]. apply HQ; [done |]. constructor; apply strings_of_elems; rewrite ?length_fmap; try done.
    + intros k' s Hks. rewrite list_lookup_fmap in Hks. destruct (files !! k') as [f |] eqn:Hf; simplify_eq/=.
      apply (Hk k' f); [by apply lookup_lt_Some in Hf | done].
    + intros k' s Hks. rewrite list_lookup_fmap in Hks. destruct (files !! k') as [f |] eqn:Hf; simplify_eq/=.
      apply (Hk k' f); [by apply lookup_lt_Some in Hf | done].
Qed.

Lemma ran_sources m m' paths texts files :
  ran m m' -> paths ∈ roots m -> texts ∈ roots m -> sources m paths texts files -> sources m' paths texts files.
Proof. intros Hr Hp Ht []. constructor; by apply (ran_strings m). Qed.


Lemma call_at_live h l f args : call_at h l f args -> is_Some (h !! l).
Proof. intros (t & H & _). eauto. Qed.

Lemma default_live m v : wf m -> (forall x, v = Some x -> live m x) -> live m (default R_NilValue v).
Proof. intros Hm Hv. destruct v as [x |]; [by apply Hv | by apply live_nil]. Qed.

(** The loader called with the files, or not. *)
Lemma loader_called (files : list SourceFile) (r : option loc * bool) (m m2 : Mem) (paths texts : loc) (Q : Mem -> bool * option loc -> Prop) :
  wf m -> holds [default R_NilValue r.1; texts; paths] m m2 -> value_live m2 r -> sources m2 paths texts files ->
  (forall m3 load_error out, holds [default R_NilValue r.1; texts; paths] m m3 -> live m3 (default R_NilValue out) ->
     loader_answer m2 paths texts files r load_error (default R_NilValue out) (push (default R_NilValue out) m3) -> Q m3 (load_error, out)) ->
  returns (if r.2 then mret (true, Some R_NilValue)
           else call ← rCall (default R_NilValue r.1) [paths; texts]; PROTECT call ;;
                out ← R_tryEval call; UNPROTECT 1 ;; mret (is_none out, out)) m2 Q.
Proof.
  intros Hm Hh [Hv Hnone] Hs HQ. unfold loader_answer in HQ. pose proof (holds_wf _ _ _ Hh) as Hw.
  assert (Hin : forall l, l ∈ [default R_NilValue r.1; texts; paths] -> l ∈ roots m2).
  { intros l Hl. apply elem_roots. rewrite (holds_stack _ _ _ Hh), elem_of_app. tauto. }
  destruct r as [[loader |] [|]]; cbn [fst snd default] in *; try (by destruct (Hnone eq_refl)).
  1, 3: apply returns_ret, HQ; [done | by apply live_nil | done].
  - change (id loader) with loader in *. apply returns_bind.
    eapply returns_mono; [apply (rCall_made loader [paths; texts] m2 Hw) |].
    { by apply Hv. }
    { intros a Ha. apply (wf_roots _ Hw), Hin. set_solver. }
    intros m3 call [K Hc]. cbv beta. pose proof (call_at_live _ _ _ _ Hc) as Hl.
    pose proof (holds_step _ _ _ _ Hm Hh (kept_ran _ _ _ K)) as H3.
    pose proof (holds_push _ _ _ _ H3 Hl) as H4.
    apply returns_bind, returns_PROTECT; [done |]. apply returns_bind, returns_tryEval; [apply (holds_wf _ _ _ H4) | | done |].
    { apply reach_root, elem_roots. cbn. rewrite elem_of_cons. tauto. }
    intros m5 v He Hran Hlv. pose proof (holds_step _ _ _ _ Hm H4 Hran) as H5.
    apply (returns_UNPROTECT_held [call] _ _ m m5 _ H5). intros H6. apply returns_ret. change (length [call]) with 1 in *. apply HQ.
    + done.
    + by apply default_live; [apply (holds_wf _ _ _ H6) |].
    + exists loader, (push call m3), call. split; [done |]. split; [done |]. split.
      * assert (Hsrc : sources m3 paths texts files); [| by destruct Hsrc].
        apply (ran_sources m2); [by apply (kept_ran _ _ _ K) | apply Hin; set_solver | apply Hin; set_solver | done].
      * by rewrite He.
Qed.

Lemma entries_installed what (b : bool) m (Q : Mem -> list Entry -> Prop) :
  Q m (if b then [(Log.error, what ++ R_curErrorBuf m)] else []) ->
  returns (if b then e ← error_entry what; mret [e] else mret []) m Q.
Proof. intros HQ. destruct b; [| by apply returns_ret]. by apply returns_bind, returns_error_entry, returns_ret. Qed.

Lemma load_hera_loaded (hera_loader : str) (files : list SourceFile) (m : Mem) :
  wf m -> returns (load_hera hera_loader files) m (fun m' entries => ran m m' /\ hera_loaded hera_loader files m entries).
Proof.
  intros Hm. apply sources_made; [done |]. intros paths texts m1 H1 S1.
  pose proof (holds_wf _ _ _ H1) as Hw1.
  assert (Hroot : forall x, holds [texts; paths] m x -> paths ∈ roots x /\ texts ∈ roots x).
  { intros x Hx. split; apply elem_roots; rewrite (holds_stack _ _ _ Hx); cbn; rewrite !elem_of_cons; tauto. }
  apply returns_bind. eapply returns_mono; [by apply (evalRString_evaluated hera_loader m1) |]. cbv beta.
  intros m2 r (Hran & Hv & He). pose proof (holds_step _ _ _ _ Hm H1 Hran) as H2.
  assert (Hl2 : live m2 (default R_NilValue r.1)) by (apply default_live; [apply (holds_wf _ _ _ H2) | apply Hv]).
  pose proof (holds_push _ _ _ _ H2 Hl2) as H3.
  destruct r as [loader had_error]. apply returns_bind, returns_PROTECT; [done |].
  assert (S2 : sources (push (default R_NilValue loader) m2) paths texts files).
  { destruct (ran_sources _ _ _ _ _ Hran (proj1 (Hroot _ H1)) (proj2 (Hroot _ H1)) S1). by constructor. }
  apply returns_bind, (loader_called files (loader, had_error) m _ paths texts); [done .. |].
  intros m3 load_error out H4 Hlo Ha. pose proof (holds_push _ _ _ _ H4 Hlo) as H5. pose proof (holds_wf _ _ _ H5) as Hw5.
  apply returns_bind, returns_PROTECT; [done |]. apply returns_bind, returns_report_load; [done .. |].
  apply returns_bind. eapply returns_mono; [by apply (evalRString_evaluated s_install) |]. cbv beta.
  intros m6 [r7 install_error] (Hran6 & _ & He7). pose proof (holds_step _ _ _ _ Hm H5 Hran6) as H6.
  apply returns_bind, entries_installed.
  apply returns_bind. eapply returns_mono; [apply (evalRString_evaluated s_stop), (holds_wf _ _ _ H6) |]. cbv beta.
  intros m9 [r8 traceback_error] (Hran9 & _ & He8). pose proof (holds_step _ _ _ _ Hm H6 Hran9) as H9.
  apply (returns_UNPROTECT_held [default R_NilValue out; default R_NilValue loader; texts; paths] [] _ m); [done |].
  intros H10. apply returns_ret. split; [by apply holds_ran |]. constructor.
  exists m1, paths, texts, (loader, had_error), m2, load_error, (default R_NilValue out), (push (default R_NilValue out) m3), install_error, traceback_error, m6.
  split; [done |]. split; [by rewrite (holds_stack _ _ _ H1) |]. split; [done |]. split; [| split; [| split; [| done]]].
  - revert Ha. unfold loader_answer. done.
  - eexists _, (r7, install_error). split; [exact He7 | reflexivity].
  - eexists _, (r8, traceback_error), m9. split; [exact He8 | reflexivity].
Qed.

(** The kernel's R code is loaded ([configureImpl], without the log's list
    of libraries).  Whatever R's collector frees and R's code does, no freed
    object is used and as much is protected after as before; the loader's text
    is evaluated and called once, with the paths and the texts of the files the
    kernel was built with, each in its place; the log's first entry says what
    the loader answered, or that the code could not be loaded and why, and the
    others whether the display overrides and traceback() could be prepared. *)
Theorem kernel_code_loaded (windows : bool) (hera_loader : str) (files : list SourceFile) (m : Mem) :
  wf m -> returns (configureImpl windows false hera_loader files) m (fun m' entries =>
    ran m m' /\ exists m0, ran m m0 /\ hera_loaded hera_loader files m0 entries).
Proof.
  intros Hm. apply returns_bind.
  assert (H : forall m0, ran m m0 -> returns (libraries ← mret []; loaded ← load_hera hera_loader files; mret (libraries ++ loaded)) m0
    (fun m' entries => ran m m' /\ exists m0, ran m m0 /\ hera_loaded hera_loader files m0 entries)).
  { intros m0 Hr. apply returns_bind, returns_ret, returns_bind.
    eapply returns_mono; [apply load_hera_loaded, (ran_wf _ _ Hr) |]. cbv beta. intros m' es [Hr' Hl]. apply returns_ret.
    split; [refine (ran_trans _ m0 _ _ Hr Hr'); apply (wf_next m Hm) | by exists m0]. }
  destruct windows.
  - apply returns_bind. eapply returns_mono; [by apply evalRString_evaluated |]. cbv beta. intros m0 r (Hr & _). by apply returns_ret, H.
  - by apply returns_ret, H, ran_refl.
Qed.


(** ** A cell's code *)

Lemma PROTECT_ok l m : live m l -> PROTECT l m = (push l m, Ok tt).
Proof. intros Hl. unfold PROTECT. by rewrite (proj2 (liveb_live _ _) Hl). Qed.

Lemma UNPROTECT_ok n m : n <= length (pp_stack m) -> UNPROTECT n m = (pop n m, Ok tt).
Proof. intros Hn. unfold UNPROTECT. by rewrite (proj2 (Nat.leb_le _ _) Hn). Qed.

(** An object made, and protected besides [ls]. *)
Record pushed (ls : list loc) (m0 m m' : Mem) (l : loc) : Prop := {
  pushed_holds : holds (l :: ls) m0 (push l m');
  pushed_live : live m' l;
  pushed_ran : ran m m';
  pushed_jv : jv_call m' = jv_call m
}.

Lemma string_pushed ls m0 m text :
  wf m0 -> holds ls m0 m -> exists m' l, Rf_mkString text m = (m', Ok l) /\ pushed ls m0 m m' l /\ string_at (heap m') l text.
Proof.
  intros Hm H. destruct (Rf_mkString_made text m (holds_wf _ _ _ H)) as (m' & l & He & K & Hs). exists m', l. split; [done |].
  assert (Hl : live m' l) by (destruct Hs as (c & Hs & _); by eexists). split; [| done].
  constructor; [| done | apply (kept_ran _ _ _ K) | apply (kept_jv_call _ _ _ K)]. apply holds_push; [| done]. by apply (holds_step _ _ m), (kept_ran _ _ _ K).
Qed.

Lemma ints_pushed ls m0 m ns :
  wf m0 -> holds ls m0 m -> exists m' l, alloc (INTSXP ns) m = (m', Ok l) /\ pushed ls m0 m m' l.
Proof.
  intros Hm H. destruct (returns_alloc (INTSXP ns) m (fun m' l => pushed ls m0 m m' l)) as (m' & l & He & HP).
  - apply (holds_wf _ _ _ H).
  - by intros ? ?%not_elem_of_nil.
  - by intros ? ?%not_elem_of_nil.
  - intros m' K _ Hl _. assert (Hlive : live m' (next m)) by by eexists.
    constructor; [| done | apply (kept_ran _ _ _ K) | apply (kept_jv_call _ _ _ K)]. apply holds_push; [| done]. by apply (holds_step _ _ m), (kept_ran _ _ _ K).
  - by exists m', l.
Qed.

(** What the cell starts with, of the parser's answer [p]: its expressions kept
    in [.jv_cell], or a syntax error's message. *)
Definition parsed_as (m2 : Mem) (p : loc) (m' : Mem) (r : ParsedCell) : Prop :=
  match heap m2 !! p with
  | Some (STRSXP (c :: _)) => exists message, heap m2 !! c = Some (CHARSXP message) /\ r = SyntaxError message
  | _ => r = Expressions p /\ exists cell, (s_jv_cell, cell) ∈ symbols m' /\ heap m' !! cell = Some (SYMSXP s_jv_cell p)
  end.

Lemma take_parsed_kept (m0 m m2 : Mem) (p count_ code_ : loc) :
  holds [p; count_; code_] m0 m -> wf m0 -> heap m = heap m2 -> (forall es, heap m !! p = Some (STRSXP es) -> es <> []) ->
  returns (take_parsed p) m (fun m' r => ran m0 m' /\ parsed_as m2 p m' r).
Proof.
  intros Hh Hm Hheap Hne. pose proof (holds_wf _ _ _ Hh) as Hw.
  assert (Hp : p ∈ roots m) by (apply elem_roots; rewrite (holds_stack _ _ _ Hh); cbn; rewrite !elem_of_cons; tauto).
  destruct (wf_roots _ Hw p Hp) as [o Ho]. apply returns_bind, (returns_use _ _ _ _ Ho). unfold parsed_as. rewrite <- Hheap, Ho.
  destruct (is_string o) eqn:Hs.
  - destruct o as [| | | | | [| c es] | | |]; try done; [by destruct (Hne [] Ho) |].
    destruct (wf_chars _ Hw p _ Ho c) as [t Ht]; [apply elem_of_cons; by left |].
    apply returns_bind, (returns_STRING_ELT _ (c :: es) 0 c _ _ Ho); [done |].
    apply returns_bind. apply returns_bind, (returns_use _ _ _ _ Ht), returns_ret.
    apply (returns_UNPROTECT_held [p; count_; code_] [] _ m0); [done |]. intros H. apply returns_ret.
    split; [by apply holds_ran |]. by exists t.
  - apply returns_bind. eapply returns_mono; [by apply Rf_install_made |]. cbv beta. intros m1 cell (K & Hsym & u & Hu).
    assert (Hp1 : live m1 p) by (apply (kept_live _ _ _ _ K); [by rewrite app_nil_r | by eexists]).
    apply returns_bind, (returns_SETCDR cell s_jv_cell u p _ _ (kept_wf _ _ _ K) Hu Hp1). intros m3 Hran Hsy Hcell.
    apply (returns_UNPROTECT_held [p; count_; code_] [] _ m0).
    { apply (holds_step _ _ m1); [done | | done]. by apply (holds_step _ _ m), (kept_ran _ _ _ K). }
    intros H. apply returns_ret. split; [by apply holds_ran |].
    assert (Hex : exists cell, (s_jv_cell, cell) ∈ symbols (pop 3 m3) /\ heap (pop 3 m3) !! cell = Some (SYMSXP s_jv_cell p))
      by (exists cell; cbn; by rewrite Hsy).
    destruct o; done.
Qed.

Definition parser_of (debugging : option (str * list Z)) : str := match debugging with Some _ => s_debug_parse | None => s_repl_parse end.
Definition parser_arity (debugging : option (str * list Z)) : nat := match debugging with Some _ => 3 | None => 2 end.

(** The call of the parser: the text first, and what is protected meanwhile. *)
Record parsing (m m1 : Mem) (call jv : loc) (debugging : option (str * list Z)) (code : str) (ls : list loc) : Prop := {
  parsing_wf : wf m1;
  parsing_stack : pp_stack m1 = call :: ls ++ pp_stack m;
  parsing_call : exists name code_ rest, call_at (heap m1) call jv (name :: code_ :: rest)
    /\ string_at (heap m1) name (parser_of debugging) /\ string_at (heap m1) code_ (c_str (withLineFeeds code))
    /\ length (code_ :: rest) = parser_arity debugging
}.


Lemma catch_ok {A} (c : M A) h m m' a : c m = (m', Ok a) -> catch c h m = (m', Ok a).
Proof. intros H. unfold catch. by rewrite H. Qed.

Lemma catch_throw {A} (c : M A) (h : str -> M A) m m' w : c m = (m', Throw w) -> catch c h m = h w m'.
Proof. intros H. unfold catch. by rewrite H. Qed.

Lemma bind_throw {A B} (c : M A) (k : A -> M B) m m' w : c m = (m', Throw w) -> (c ≫= k) m = (m', Throw w).
Proof. intros H. unfold mbind, M_bind. by rewrite H. Qed.

(** The parser called with what is protected, [ls]: its answer, and the memory
    then. *)
Lemma parser_called (left_first : bool) (debugging : option (str * list Z)) (code : str) (m mb : Mem) (jv code_ : loc) (args ls : list loc) :
  wf m -> holds ls m mb -> jv_call mb !! length (code_ :: args) = Some jv -> (forall a, a ∈ code_ :: args -> a ∈ ls) ->
  length (code_ :: args) = parser_arity debugging -> string_at (heap mb) code_ (c_str (withLineFeeds code)) ->
  exists m1 call, parsing m m1 call jv debugging code ls /\
    let (m2, v) := R_tryEval_ m1 call in
    holds ls m (pop 1 m2) /\ (forall x, v = Some x -> live (pop 1 m2) x) /\
    invokeHeraFn left_first (parser_of debugging) (code_ :: args) mb
      = (pop 1 m2, match v with Some v => Ok v | None => Throw (failed (parser_of debugging) (R_curErrorBuf (pop 1 m2))) end).
Proof.
  intros Hm Hh Hjv Hargs Hlen Hcode. pose proof (holds_wf _ _ _ Hh) as Hw. pose proof (holds_stack _ _ _ Hh) as Hst.
  destruct (invokeHeraFn_called left_first (parser_of debugging) (code_ :: args) jv mb Hw Hjv) as (m1 & call & C & H).
  { intros a Ha. rewrite Hst. apply elem_of_app. left. by apply Hargs. }
  exists m1, call. split.
  - destruct C as [C1 C2 Ch C3 (name & C4 & C5)]. constructor; [done | by rewrite C2, Hst |].
    exists name, code_, args. split; [done |]. split; [done |]. split; [| done].
    apply (string_at_same (heap mb)); [done |]. apply (same_incl _ _ _ (roots mb)); [| done].
    intros r ->%list_elem_of_singleton. apply reach_root, elem_roots. rewrite Hst, elem_of_app. do 4 right. left. left. apply Hargs. apply elem_of_cons. by left.
  - destruct (R_tryEval_ m1 call) as [m2 v] eqn:He. destruct H as [(Hinv & Hw2 & Hs2) Hv]. split; [| done].
    assert (Hr : reach (heap m1) (roots m1) call).
    { apply reach_root, elem_roots. rewrite (calling_stack _ _ _ _ _ _ C). cbn. rewrite elem_of_cons. tauto. }
    pose proof (tryEval_ran m1 call (calling_wf _ _ _ _ _ _ C) Hr) as Hran. rewrite He in Hran. cbn in Hran.
    apply (holds_step _ m mb); [done | done |]. apply holds_ran, (holds_pop [call] []).
    by apply (holds_step _ _ m1); [| apply (calling_holds _ _ _ _ _ _ C) |].
Qed.



Lemma root_protected l ls m0 m : holds ls m0 m -> l ∈ ls -> l ∈ roots m.
Proof. intros H Hl. apply elem_roots. rewrite (holds_stack _ _ _ H), elem_of_app. tauto. Qed.

(** The parser's failed call: the two objects unprotected are the last. *)
Lemma parser_failed (left_first : bool) (debugging : option (str * list Z)) (code_ count_ : loc) (m m2 : Mem) (a b : loc) (ls : list loc) (w : str) mb :
  holds (a :: b :: ls) m m2 -> call_parser left_first debugging code_ count_ mb = (m2, Throw w) ->
  exists m', (parsed ← catch (p ← call_parser left_first debugging code_ count_; mret (inl p)) (fun what => UNPROTECT 2 ;; mret (inr what));
     match parsed with inl parsed => take_parsed parsed | inr what => mret (Failed what) end) mb = (m', Ok (Failed w))
  /\ wf m' /\ pp_stack m' = ls ++ pp_stack m.
Proof.
  intros H Hc. pose proof (holds_pop [a; b] ls m m2 H) as Hp. exists (pop 2 m2).
  assert (Hu : UNPROTECT 2 m2 = (pop 2 m2, Ok tt)) by (apply UNPROTECT_ok; rewrite (holds_stack _ _ _ H); cbn; lia).
  split; [| split; [apply (holds_wf _ _ _ Hp) | apply (holds_stack _ _ _ Hp)]].
  erewrite bind_ok; [| erewrite catch_throw; [| by apply bind_throw]; rewrite (bind_ok _ _ _ _ _ Hu); reflexivity]. done.
Qed.

(** The parser's answer, with [p], [count_] and [code_] protected. *)
Lemma parser_answered (left_first : bool) (debugging : option (str * list Z)) (code_ count_ : loc) (m m2 m3 : Mem) (p : loc) mb :
  wf m -> holds [p; count_; code_] m m3 -> heap m3 = heap m2 -> (forall es, heap m2 !! p = Some (STRSXP es) -> es <> []) ->
  call_parser left_first debugging code_ count_ mb = (m3, Ok p) ->
  exists m' r, (parsed ← catch (p ← call_parser left_first debugging code_ count_; mret (inl p)) (fun what => UNPROTECT 2 ;; mret (inr what));
     match parsed with inl parsed => take_parsed parsed | inr what => mret (Failed what) end) mb = (m', Ok r)
  /\ ran m m' /\ parsed_as m2 p m' r.
Proof.
  intros Hm H Hheap Hne Hc. erewrite bind_ok; [| apply catch_ok; rewrite (bind_ok _ _ _ _ _ Hc); reflexivity].
  destruct (take_parsed_kept m m3 m2 p count_ code_) as (m' & r & Hr & Hran & Hp); [done .. | by rewrite Hheap |]. by exists m', r.
Qed.

(** The parser's answer [v], in the memory [m2]: what the cell starts with. *)
Definition cell_started (left_first : bool) (debugging : option (str * list Z)) (code : str) (count : Z) (m m2 : Mem) (v : option loc) : Prop :=
  match v with
  | Some p =>
      (forall es, heap m2 !! p = Some (STRSXP es) -> es <> []) ->
      exists m' r, parse_cell left_first debugging code count m = (m', Ok r) /\ ran m m' /\ parsed_as m2 p m' r
  | None =>
      exists m' leaked, parse_cell left_first debugging code count m = (m', Ok (Failed (failed (parser_of debugging) (R_curErrorBuf (pop 1 m2)))))
      /\ wf m' /\ pp_stack m' = leaked ++ pp_stack m /\ length leaked = match debugging with Some _ => 2 | None => 0 end
  end.



End RStart.

(** ** The log *)

Module LogFacts.
Import Log.

Lemma trim_end_spec message : exists spaces, message = trim_end message ++ spaces /\ forallb is_space spaces = true
  /\ (forall c rest, trim_end message = rest ++ [c] -> is_space c = false).
Proof.
  induction message as [| c rest (spaces & Hr & Hs & Hl)]; cbn.
  - exists []. split; [done |]. split; [done |]. intros c rest H. by destruct rest.
  - destruct (trim_end rest) as [| d r] eqn:E.
    + destruct (is_space c) eqn:Hc.
      * exists (c :: spaces). cbn in *. rewrite Hc, Hs, Hr. split; [done |]. split; [done |]. intros x y H. by destruct y.
      * exists spaces. cbn in *. rewrite Hr. split; [done |]. split; [done |].
        intros x y H. destruct y as [| z [|]]; simplify_eq/=; done.
    + exists spaces. split; [cbn; by rewrite Hr |]. split; [done |].
      intros x y H. destruct y as [| z y]; simplify_eq/=. by apply (Hl x y).
Qed.

(** Written exactly when its level is enabled, as one prefix and the message
    without what trails it. *)
Lemma write_spec variable l message :
  write variable l message = None <-> number l < number (threshold variable).
Proof. unfold write, enabled. destruct (Nat.leb_spec (number (threshold variable)) (number l)); split; (lia || done). Qed.

(** A message with a line end inside is more than one line. *)
Example two_lines :
  write None error ("a"%string ++ [newline] ++ "b"%string ++ [newline]) = Some ("error: a"%string ++ [newline] ++ "b"%string ++ [newline]).
Proof. vm_compute. reflexivity. Qed.
End LogFacts.

(** ** The constructor *)

Module Start.
(** The calls of R's embedding interface, and what else the constructor does,
    in order. *)
Inductive ApiCall :=
| KeepCurrentStderr
| AllocConsole (allocated : bool)
| LogDebug (message : str)
| SetStartTime
| DefParamsEx
| CommonCommandLine (argv : list str)
| SetParams (rhome home : str)
| SetCommandLineArguments (argv : list str)
| GA_initapp
| SetupRmainloop
| InitEmbeddedR (argv : list str)
| RegisterRoutines
| HookConsole
| SetInteractive
| WakeOnSignal
| RegisterInterpreter.

(** The machine: what is found on it, and what R and the user's profile print
    while R starts. *)
Record Machine := {
  windows : bool;
  loadRApi : result unit;
  allocates_console : bool;
  hasWindowsEmbeddingApi : bool;
  R_HOME : option str;
  R_LIBS : option str;
  homeFromR : option str;
  userFromR : option str;
  graphapp : bool;
  interactive_pointer : bool;
  startup : list (str * Z)
}.

Definition nonempty (s : option str) : option str := match s with Some [] => None | s => s end.

(** R's console callback: [p_interpreter] is set when the constructor ends. *)
Definition WriteConsoleEx (p_interpreter : bool) (output : str * Z) : result unit := if p_interpreter then Ok tt else Undefined.

Fixpoint startup_output (p_interpreter : bool) (outputs : list (str * Z)) : result unit :=
  match outputs with [] => Ok tt | o :: rest => let? _ := WriteConsoleEx p_interpreter o in startup_output p_interpreter rest end.

Definition no_home : str := "R_HOME is not set and R could not locate itself -- cannot start R."%string.

Definition rHome (m : Machine) : result str :=
  match nonempty (homeFromR m) with
  | Some h => Ok h
  | None => match R_HOME m with Some h => Ok h | None => Throw no_home end
  end.

(** The console's callbacks are in place before [setup_Rmainloop], which runs
    the profiles. *)
Definition initEmbeddedRWindows (argv : list str) (m : Machine) : list ApiCall * result unit :=
  let calls := [SetStartTime; DefParamsEx; CommonCommandLine argv] in
  match rHome m with
  | Ok home =>
      (calls ++ [SetParams home (default home (nonempty (userFromR m))); SetCommandLineArguments argv]
         ++ (if graphapp m then [GA_initapp] else []) ++ [SetupRmainloop],
       startup_output false (startup m))
  | Throw w => (calls, Throw w)
  | Undefined => (calls, Undefined)
  end.

Definition log_start (m : Machine) : ApiCall :=
  LogDebug (("starting R: R_HOME="%string : str) ++ default ("(not set)"%string : str) (R_HOME m)
            ++ (", R_LIBS="%string : str) ++ default ("(not set)"%string : str) (R_LIBS m)).

Definition then_ (r : list ApiCall * result unit) (k : list ApiCall * result unit) : list ApiCall * result unit :=
  match r with (calls, Ok _) => (calls ++ k.1, k.2) | r => r end.

(** R's own terminal callbacks are in place while [Rf_initEmbeddedR] runs. *)
Definition init (argv : list str) (m : Machine) : list ApiCall * result unit :=
  if windows m && hasWindowsEmbeddingApi m then initEmbeddedRWindows argv m else ([InitEmbeddedR argv], Ok tt).

Definition RInterpreter (argv : list str) (m : Machine) : list ApiCall * result unit :=
  then_ ([], loadRApi m)
    (then_ ((if windows m then [KeepCurrentStderr; AllocConsole (allocates_console m)] else []) ++ [log_start m], Ok tt)
       (then_ (init argv m)
          ([LogDebug "R started"%string; RegisterRoutines]
           ++ (if windows m then [] else HookConsole :: (if interactive_pointer m then [SetInteractive] else []) ++ [WakeOnSignal])
           ++ [RegisterInterpreter], Ok tt))).

(** Server::start() (engine.cpp) *)
Definition r_argv : list str := ["R"%string : str; "--quiet"%string : str; "--no-save"%string : str; "--no-restore"%string : str].

(** The routines R's code may call, with their numbers of arguments. *)
Definition callMethods : list (str * nat) :=
  [("elara_kernel_info_request"%string : str, 0);
   ("elara_publish_stream"%string : str, 2);
   ("elara_display_data"%string : str, 2);
   ("elara_update_display_data"%string : str, 2);
   ("elara_clear_output"%string : str, 1);
   ("elara_is_complete_request"%string : str, 1);
   ("elara_log"%string : str, 2);
   ("CommManager__get_comm_info"%string : str, 1);
   ("elara_to_json"%string : str, 2);
   ("elara_from_json"%string : str, 1);
   ("elara_display_list_id"%string : str, 0);
   ("elara_cell_error_wanted"%string : str, 0);
   ("elara_ui_ask"%string : str, 3);
   ("elara_debug_take_pause"%string : str, 0);
   ("elara_record_cell_error"%string : str, 2);
   ("elara_comm_register_target"%string : str, 2);
   ("elara_comm_unregister_target"%string : str, 1);
   ("elara_comm_target_callback"%string : str, 1);
   ("elara_comm_new"%string : str, 2);
   ("elara_comm_list"%string : str, 0);
   ("elara_comm_target_name"%string : str, 1);
   ("elara_comm_description"%string : str, 1);
   ("elara_comm_open"%string : str, 4);
   ("elara_comm_send"%string : str, 4);
   ("elara_comm_close"%string : str, 4);
   ("elara_comm_on_message"%string : str, 2);
   ("elara_comm_on_close"%string : str, 2)].

Lemma routines_named : NoDup (fst <$> callMethods).
Proof. apply (bool_decide_unpack _). vm_compute. exact I. Qed.

Lemma startup_silent outputs : startup_output false outputs = match outputs with [] => Ok tt | _ => Undefined end.
Proof. by destruct outputs. Qed.

(** The interpreter is made exactly when the library loads and, on Windows,
    R's directory is known and nothing is printed before the interpreter is
    there; then the last thing it does is register, and R was started once,
    before our routines were registered. *)
Lemma interpreter_made argv m :
  let (calls, r) := RInterpreter argv m in
  (r = Ok tt <-> loadRApi m = Ok tt /\ (windows m && hasWindowsEmbeddingApi m = true -> is_ok (rHome m) = true /\ startup m = []))
  /\ (r = Ok tt -> exists before after, calls = before ++ [RegisterRoutines] ++ after ++ [RegisterInterpreter]
        /\ length (List.filter (fun c => match c with InitEmbeddedR _ | SetupRmainloop => true | _ => false end) before) = 1).
Proof.
  unfold RInterpreter, init, initEmbeddedRWindows.
  destruct (loadRApi m) as [[] | |]; cbn; [| split; [split; [done | by intros [? _]] | done] ..].
  destruct (windows m); cbn; [destruct (hasWindowsEmbeddingApi m); cbn |].
  - destruct (rHome m) as [home | |]; cbn; [| split; [split; [done | intros [_ H]; by destruct (H eq_refl)] | done] ..].
    rewrite startup_silent. destruct (startup m); cbn; [| split; [split; [done | intros [_ H]; by destruct (H eq_refl)] | done]].
    split; [done |]. intros _. destruct (graphapp m); cbn.
    + eexists [_; _; _; _; _; _; _; _; _; _; _], []. done.
    + eexists [_; _; _; _; _; _; _; _; _; _], []. done.
  - split; [done |]. intros _. eexists [_; _; _; _; _], []. done.
  - split; [done |]. intros _. destruct (interactive_pointer m); cbn.
    + eexists [_; _; _], [_; _; _]. done.
    + eexists [_; _; _], [_; _]. done.
Qed.

Definition home : str := "C:/R"%string.
Definition machine (w : bool) (outputs : list (str * Z)) : Machine :=
  {| windows := w; loadRApi := Ok tt; allocates_console := true; hasWindowsEmbeddingApi := true; R_HOME := Some home; R_LIBS := None;
     homeFromR := Some home; userFromR := None; graphapp := true; interactive_pointer := true; startup := outputs |}.

(** A profile that prints ends the kernel on Windows: the console's callback
    reads an interpreter that is not there yet. *)
Example profile_prints :
  (RInterpreter r_argv (machine true [("hello"%string : str, 0%Z)])).2 = Undefined
  /\ (RInterpreter r_argv (machine true [])).2 = Ok tt
  /\ (RInterpreter r_argv (machine false [("hello"%string : str, 0%Z)])).2 = Ok tt.
Proof. split; [| split]; vm_compute; reflexivity. Qed.
End Start.

(** ** The comms R is told of (routine.cpp's CommManager__getCommInfo)

    A list of the size counted first, filled in the map's order: the name of
    each entry is the comm's id, its value the target's name. *)
Module CommInfo.
Definition keeps (target_name : option str) (comm : str * str) : bool :=
  match target_name with None => true | Some t => str_eqb t comm.2 end.

Fixpoint fill (target_name : option str) (comms : list (str * str)) (i : nat) (info : list (option (str * str))) : result (list (option (str * str))) :=
  match comms with
  | [] => Ok info
  | c :: rest =>
      if keeps target_name c then
        if i <? length info then fill target_name rest (S i) (<[i := Some c]> info) else Undefined
      else fill target_name rest i info
  end.

Definition count (target_name : option str) (comms : list (str * str)) : nat :=
  match target_name with
  | None => length comms
  | Some _ => length (List.filter (keeps target_name) comms)
  end.

Definition getCommInfo (target_name : option str) (comms : list (str * str)) : result (list (option (str * str))) :=
  fill target_name comms 0 (replicate (count target_name comms) None).

Lemma count_kept target_name comms : count target_name comms = length (List.filter (keeps target_name) comms).
Proof. destruct target_name; [done |]. cbn. induction comms; cbn; congruence. Qed.

Lemma fill_kept target_name comms : forall done_,
  fill target_name comms (length done_) (done_ ++ replicate (length (List.filter (keeps target_name) comms)) None)
  = Ok (done_ ++ (Some <$> List.filter (keeps target_name) comms)).
Proof.
  induction comms as [| c comms IH]; intros done_; cbn [fill List.filter]; [done |].
  destruct (keeps target_name c) eqn:Hk; [| by apply IH].
  rewrite (proj2 (Nat.ltb_lt _ _)) by (rewrite length_app; cbn; lia).
  rewrite insert_app_r_alt, Nat.sub_diag by lia. cbn. specialize (IH (done_ ++ [Some c])).
  rewrite length_app, <- !app_assoc in IH. cbn in IH. by rewrite Nat.add_1_r in IH.
Qed.

(** Every entry is filled, none is written outside, and they are the comms of
    the target, in order. *)
Lemma getCommInfo_kept target_name comms :
  getCommInfo target_name comms = Ok (Some <$> List.filter (keeps target_name) comms).
Proof. unfold getCommInfo. rewrite count_kept. apply (fill_kept target_name comms []). Qed.
End CommInfo.

(** ** Samples *)
Module Toy.
Import RHeap.Toy.

Definition cell_code : str := "x <- 1"%string.


(** The same cell, run: its answer, and the parser's failure when debugging. *)
Definition loaded3 : Mem := set_jv_call 3 1 loaded.

Example cells_start :
  (parse_cell (R := harsh) true None cell_code 4%Z loaded).2 = Ok (Expressions R_NilValue)
  /\ pp_stack (parse_cell (R := harsh) true None cell_code 4%Z loaded).1 = [9; 8]
  /\ (parse_cell (R := harsh) true (Some (cell_code, [1%Z])) cell_code 4%Z loaded3).2 = Ok (Expressions R_NilValue).
Proof. split; [| split]; vm_compute; reflexivity. Qed.

Definition hera_file : SourceFile := {| path := "R/execute.R"%string; text := ".jv.x <- 1"%string |}.
Definition loader_text : str := "function(paths, texts) ..."%string.

Lemma kernel_code_loaded_witness :
  wf started /\ returns (configureImpl (R := harsh) false false loader_text [hera_file]) started (fun m' entries =>
    ran started m' /\ exists m0, ran started m0 /\ hera_loaded (R := harsh) loader_text [hera_file] m0 entries).
Proof.
  assert (H : wf started) by (apply wfb_wf; vm_compute; reflexivity).
  split; [exact H |]. apply (kernel_code_loaded (R := harsh) false loader_text [hera_file] started H).
Defined.

(** The loader that does not load: the kernel starts all the same. *)
Example not_loaded_entries :
  (configureImpl (R := harsh) false false bad [hera_file] started).2
  = Ok [(Log.error, s_not_loaded ++ no_text); (Log.warning, s_traceback)].
Proof. vm_compute. reflexivity. Qed.
End Toy.
