(* ===== verification/Elara.v ===== *)
(** * The R kernel's language (elara/r/interpreter_r.cpp)

    What the interpreter answers besides its cells, and the whole of it as the
    kernel's [Language]: [executeRequestImpl] of RConsole.v queues a cell and
    returns, R's console loop runs it, and the reply comes later.  What R and
    hera answer when asked is [RAnswers]. *)

From Stdlib Require Import Ascii String ZArith Lia.
From stdpp Require Import base list strings.
From S2P Require Import Prelude RJson Json RDebugger Wire Interpreter Comm Kernel RConsole.

Local Open Scope Z_scope.
Local Open Scope jovian_scope.

Section Elara.
Context `{J : JsonLib}.
Context {obj : Type} (R_GlobalEnv : obj) (embed : basic_json -> json) (parse_json : str -> basic_json).
Context (supervised : bool) (parse_strict_json : str -> result basic_json).

Abbreviation RInterpreter := (RConsole.RInterpreter (obj := obj)).

Inductive ParseStatus := PARSE_NULL | PARSE_OK | PARSE_INCOMPLETE | PARSE_ERROR | PARSE_EOF.

Record RAnswers := {
  (** for the n-th cell *)
  cell_answer : nat -> StartAnswer (obj := obj);
  (** [None]: R's parser raises an error *)
  parse_vector : str -> option ParseStatus;
  hera_complete : str -> Z -> result (list str * Z * Z);
  (** a help page, when there is one *)
  hera_inspect : str -> Z -> result (option sexp);
  debug_answer : json -> Answer (obj := obj);
  files_on_disk : str -> option str;
  r_version : str;
  debug_directory : str
}.

Context (r : RAnswers).

Definition isCompleteRequestImpl (code_ : str) : json :=
  createIsCompleteReply (match parse_vector r (withLineFeeds code_) with
                         | Some PARSE_INCOMPLETE => "incomplete"%string
                         | Some PARSE_ERROR | None => "invalid"%string
                         | Some _ => "complete"%string
                         end) [].

(** hera's error is a C++ exception ([invokeHeraFn]). *)
Definition completeRequestImpl (code_ : str) (cursor_pos : Z) : result json :=
  let? x := hera_complete r code_ cursor_pos in
  let '(matches_, cursor_start, cursor_end) := x in
  Ok (createCompleteReply (mk_array (mk_str <$> matches_)) cursor_start cursor_end empty_object).

Definition inspectRequestImpl (code_ : str) (cursor_pos : Z) : result json :=
  let? x := hera_inspect r code_ cursor_pos in
  match x with
  | None => Ok (createInspectReply false empty_object empty_object)
  | Some page => let? data := json_from_r embed parse_json parse_strict_json page in Ok (createInspectReply true data empty_object)
  end.

(** R is ended by its console loop, once the server has stopped. *)
Definition shutdownRequestImpl (restart : bool) (i : RInterpreter) : json * RInterpreter :=
  (createShutdownReply restart, upd_idle (m_idleExpression i) true i).

Definition kernelInfoRequestImpl : json :=
  insert_key
    (createInfoReply "xr"%string getProtocolVersion "R"%string (r_version r) "text/x-R"%string ".R"%string "r"%string (mk_str [])
       [] "xr"%string (mk_array []) [])
    "debugger"%string (mk_bool true).

(** On R's thread: answered at once. *)
Definition debugRequestImpl (req : json) (i : RInterpreter) : result json * RInterpreter :=
  let i := with_a_debugger (debug_directory r) i in
  match m_debugger i with
  | Some d =>
      let (reply, d') := request R_GlobalEnv embed parse_json true (debug_answer r req) (files_on_disk r) req d in
      (let? reply := reply in match reply with Now response => Ok response | Promised _ => Undefined end, with_debugger d d' i)
  | None => (Undefined, i)
  end.

(** ** The language *)

Definition call_of (s : Step) : option Call := match s with DoCall c => Some c | Reply _ _ => None end.

(** The steps of a request, which the kernel takes. *)
Definition taken (i : RInterpreter) : list Step * RInterpreter := (steps i, upd_steps [] i).

Definition elara : Language := {|
  lstate := RInterpreter;
  Kernel.executeRequestImpl count code_ config ue i :=
    match executeRequestImpl embed parse_json supervised parse_strict_json (cell_answer r (requests i)) count code_ config ue (upd_steps [] i) with
    | Some i' => let (ss, i') := taken i' in (ss, None, i')
    | None => ([], Some [], i)
    end;
  Kernel.completeRequestImpl code_ pos i := ([], completeRequestImpl code_ pos, i);
  Kernel.inspectRequestImpl code_ pos detail i := ([], inspectRequestImpl code_ pos, i);
  Kernel.isCompleteRequestImpl code_ i := ([], Ok (isCompleteRequestImpl code_), i);
  Kernel.kernelInfoRequestImpl i := ([], Ok kernelInfoRequestImpl, i);
  Kernel.shutdownRequestImpl restart i := let (reply, i) := shutdownRequestImpl restart i in ([], Ok reply, i);
  Kernel.interruptRequestImpl i := ([], Ok createInterruptReply, RConsole.interruptRequestImpl i);
  Kernel.debugRequestImpl_ req i :=
    let (reply, i) := debugRequestImpl req (upd_steps [] i) in let (ss, i) := taken i in (omap call_of ss, reply, i);
  inputReply v i := Ok i
|}.

(** ** A cell is queued *)

(** R's console loop between two cells, with no debugger at work. *)
Record idle_console (i : RInterpreter) : Prop := {
  idle_server : m_server i = true;
  idle_debugger : no_debugger i;
  idle_debugOutput : m_debugOutput i = [];
  idle_pendingLine : m_pendingLine i = [];
  idle_loop : m_loopStarted i = true;
  idle_tail : m_inTail i = false;
  idle_evaluating : m_evaluating i = false;
  idle_cell : m_cell i = None
}.

(** R's prompt as the cell starts. *)
Definition prompt_of (a : StartAnswer (obj := obj)) (i : RInterpreter) : str := default (m_topPrompt i) (prompt_option a).

Lemma cell_queues a count code_ config ue i es refs : idle_console i ->
  repl_parse a (withLineFeeds code_) count = Expressions es refs ->
  Forall (regular embed parse_json parse_strict_json) (start_outputs a) ->
  exists i' cs, executeRequestImpl embed parse_json supervised parse_strict_json a count code_ config ue i = Some i'
  /\ between (prompt_of a i) (new_cell count config ue es refs i) i'
  /\ RConsole.steps i' = RConsole.steps i ++ (DoCall <$> cs) /\ evaluated i' = evaluated i /\ clock i' = clock i
  /\ allowsStdin i' = allow_stdin config.
Proof.
  intros [] Hp Hr. unfold executeRequestImpl.
  set (i1 := upd_interrupt false (upd_stdin (allow_stdin config) i)).
  assert (parse_cell a count code_ i1 = Expressions es refs) as ->.
  { unfold parse_cell. cbn [m_debugger i1 upd_interrupt upd_stdin]. unfold no_debugger in *.
    destruct (m_debugger i) as [d|]; [destruct idle_debugger0 as [-> _] |]; exact Hp. }
  rewrite outputs_shown by done.
  do 2 eexists. split; [reflexivity |]. split; [by split |]. done.
Qed.

(** ** A cell, from the client's request to idle *)

(** What the reply says. *)
Definition script_status (silent_ : bool) (sc : Script (obj := obj)) : str :=
  match script_error (ending sc) with Some _ => if silent_ then "ok"%string else "error"%string | None => "ok"%string end.

Section Laws.
Context `{JL : !JsonLaws J}.

Lemma script_reply_status silent_ e sc :
  type_of (script_reply silent_ e sc) = Jobject
  /\ value get_str (script_reply silent_ e sc) "status"%string "error"%string = Ok (script_status silent_ sc).
Proof.
  assert (forall p u, type_of (createSuccessfulReply p u) = Jobject
    /\ value get_str (createSuccessfulReply p u) "status"%string "error"%string = Ok ("ok"%string : str)) as Hs.
  { intros p u. split; [apply type_with_keys; right; split; [apply type_null | done] |].
    apply (value_found _ _ _ (mk_str "ok"%string)); [unfold createSuccessfulReply; by find_key | by rewrite get_str_mk]. }
  assert (forall n v t, type_of (createErrorReply n v t) = Jobject
    /\ value get_str (createErrorReply n v t) "status"%string "error"%string = Ok ("error"%string : str)) as He.
  { intros n v t. split; [apply type_with_keys; right; split; [apply type_null | done] |].
    apply (value_found _ _ _ (mk_str "error"%string)); [unfold createErrorReply; by find_key | by rewrite get_str_mk]. }
  unfold script_reply, script_status. destruct (script_error (ending sc)) as [[v t]|]; [destruct silent_ |]; [apply Hs | apply He | apply Hs].
Qed.

(** C18: what a client of the R kernel sees of a cell, from the request the kernel
    reads to idle: the kernel with R's interpreter as its language and R's
    console loop running the cell.  Dispatching the request queues the cell
    and publishes busy; R then evaluates it expression by expression, as it
    may; and what the loop has asked of the base class, taken by the kernel,
    ends the execution, aborts the waiting cells exactly when the cell's error
    was reported and that was asked for, answers the client with the one reply,
    stores the input, and publishes idle. *)
Theorem r_kernel_cell `{Hist : !HistoryManager} `{CT : CommTypes} `{UL : !CommUserLaws U} env_ms env_bytes m_kernelId uninitialised local
    msg c (k : Kernel (Lang := elara)) code_ config soe ue es refs L ans errorBuf d sc e :
  value get_str (header_of msg) "msg_type"%string [] = Ok ("execute_request"%string : str) ->
  parsed msg code_ config soe ue -> Forall abortable (queue k) -> idle_console (lang k) ->
  let a := cell_answer r (requests (lang k)) in
  let count := m_executionCount (for_language msg code_ config k) in
  repl_parse a (withLineFeeds code_) count = Expressions es refs ->
  Forall (regular embed parse_json parse_strict_json) (start_outputs a) ->
  64 <= L -> fits_cell sc (new_cell count config ue es refs (lang k)) -> regular_script embed parse_json parse_strict_json d sc ->
  evalUserExpressions d ue = Ok e ->
  exists k1 i2 k2 out,
    dispatch env_ms env_bytes m_kernelId uninitialised local msg c k = (Ok tt, k1)
    /\ RConsole.run R_GlobalEnv embed parse_json supervised parse_strict_json (turning L (lang k1))
         (script_events (prompt_of a (lang k)) L ans errorBuf d sc) = Some (turning L i2)
    /\ Kernel.steps env_ms env_bytes m_kernelId (closure_of msg code_ config soe k) (RConsole.steps i2) (upd_lang (Lang := elara) (upd_steps [] i2 : @lstate _ elara) k1) = (Ok tt, k2)
    /\ Forall Kernel.quiet out /\ evaluated i2 = evaluated (lang k) ++ take (script_length sc) es
    /\ trace k2 = trace k ++ status m_kernelId (header_of msg) "busy"%string c :: BeginExecution :: out ++ EndExecution
         :: (if negb (silent config) && str_eqb (script_status (silent config) sc) "error"%string && soe then abort_reply <$> queue k else [])
         ++ [SendReply (identities msg) "execute_reply"%string (header_of msg) (getMetadata k)
               (insert_key (script_reply (silent config) e sc) "execution_count"%string (mk_int count)) SHELL]
         ++ (if negb (silent config) && store_history config then [StoreInputs 0 count code_] else [])
         ++ [status m_kernelId (header_of msg) "idle"%string SHELL].
Proof.
  intros Hty Hp Hq Hi a count Hparse Hstart HL Hfit Hreg He.
  destruct (cell_queues a count code_ config ue (upd_steps [] (lang k)) es refs) as (i1 & cs & Hx & Hb & Hs & Hv & Hc & Ha);
    [by destruct Hi | exact Hparse | exact Hstart |].
  assert (Kernel.executeRequestImpl (Language := elara) count code_ config ue (lang k) = (DoCall <$> cs, None, upd_steps [] i1)) as Himpl.
  { cbn. fold a. rewrite Hx. cbn. by rewrite Hs. }
  rewrite (dispatch_eq _ _ _ _ _ _ _ _ _ Hty). unfold getHandler, handlers. cbn [lookup_handler]. rewrite str_eqb_refl. cbn [fst snd].
  set (k0 := upd_trace _ k).
  destruct (execute_prefix env_ms env_bytes m_kernelId msg code_ config soe ue k0 _ _ _ Hp Himpl)
    as (kp & out0 & E & F & T & Q & N & D & _ & Hl).
  destruct (moved_steps env_ms env_bytes m_kernelId (closure_of msg code_ config soe k0) cs kp []) as (k1 & n1 & E1 & [F1 [j1 ->]]).
  rewrite app_nil_r in E1. set (k1 := upd_interp j1 (upd_trace (trace kp ++ n1) kp)) in *.
  assert (lang k1 = upd_steps [] i1) as Hl1 by exact Hl.
  destruct (r_cell_runs R_GlobalEnv embed parse_json supervised parse_strict_json (prompt_of a (lang k)) L ans errorBuf d sc
    (new_cell count config ue es refs (upd_steps [] (lang k))) (upd_steps [] i1) e HL) as (i2 & R2 & _ & S2 & V2).
  { by destruct Hb. } { done. } { exact Hfit. } { exact Hreg. } { exact He. }
  cbn [RConsole.steps upd_steps app clock allowsStdin] in S2.
  set (k1' := upd_lang (Lang := elara) (upd_steps [] i2 : @lstate _ elara) k1).
  destruct (script_reply_status (silent config) e sc) as [Ho Hst].
  set (calls := script_calls _ _ _ _ _ _ _ _ _ _) in S2. set (reply := script_reply _ _ _) in *.
  set (cl := closure_of msg code_ config soe k).
  destruct (moved_steps env_ms env_bytes m_kernelId cl calls k1' [Reply reply (clock i1)]) as (k2 & n2 & E2 & [F2 [j2 ->]]).
  set (k2 := upd_interp j2 (upd_trace (trace k1' ++ n2) k1')) in *.
  destruct (language_reply_spec m_kernelId cl reply (clock i1) k2 _ Ho Hst) as (k3 & n3 & E3 & F3 & T3);
    [cbn; rewrite D; by apply list_lookup_middle | cbn; by rewrite Q |].
  exists k1, i2, k3, (out0 ++ n1 ++ n2 ++ n3). split; [| split; [| split; [| split; [| split]]]].
  - unfold bind at 1, try_catch at 1.
    change (executeRequest env_ms env_bytes m_kernelId msg c k0) with (executeRequest env_ms env_bytes m_kernelId msg SHELL k0).
    rewrite E. unfold try_catch, bind. rewrite E1. done.
  - rewrite Hl1. exact R2.
  - rewrite S2. etrans; [exact E2 |]. cbn [Kernel.steps]. unfold bind. by rewrite E3.
  - repeat (apply Forall_app; split); done.
  - rewrite V2. cbn. by rewrite Hv.
  - rewrite T3. unfold aborted_by, stored_by, getMetadata. cbn [k2 k1' k1 trace upd_interp upd_trace upd_lang queue iso_now].
    rewrite T, Q, N. unfold k0. cbn [trace upd_trace queue iso_now]. unfold cl. cbn [closure_of cl_config cl_stop_on_error cl_code cl_context ctx_id ctx_header cl_count].
    repeat (rewrite <- ?app_assoc; cbn [app]). reflexivity.
Qed.
End Laws.
End Elara.

(** ** The hypotheses can hold *)

Definition example_answers : RAnswers (obj := nat) :=
  {| cell_answer := fun _ => RConsole.example_start [1; 2]%nat; parse_vector := fun _ => Some PARSE_OK;
     hera_complete := fun _ pos => Ok ([], pos, pos); hera_inspect := fun _ _ => Ok None; debug_answer := fun _ => no_answer;
     files_on_disk := fun _ => None; r_version := "4.5.1"%string; debug_directory := "/tmp/elara_debug_7/"%string |}.

Abbreviation example_elara := (elara (J := Concrete.concrete) 0%nat example_embed no_json false no_strict_json example_answers).

Definition r_kernel : Kernel (J := Concrete.concrete) (Lang := example_elara) (Hist := no_history) :=
  {| trace := []; interp := Interpreter.example_start; lang := (example_console : @lstate _ example_elara); comms := empty_world; history := tt;
     queue := [(example_cell "next"%string, true)]; ended := []; awaiting := []; iso_now := "now"%string |}.

Lemma r_kernel_cell_witness : exists k1 i2 k2,
  dispatch (Lang := example_elara) (Hist := no_history) (U := keeper) None None ("k"%string : str) false 0%nat
    (example_cell "f(1); 2"%string) SHELL r_kernel = (Ok tt, k1)
  /\ run_R (example_turning (lang k1)) (script_events "> "%string 4096 (Throw []) [] example_done example_script) = Some (example_turning i2)
  /\ Kernel.steps (Lang := example_elara) (Hist := no_history) None None ("k"%string : str)
       (closure_of (example_cell "f(1); 2"%string) "f(1); 2"%string Kernel.example_config true r_kernel) (RConsole.steps i2)
       (upd_lang (Lang := example_elara) (upd_steps [] i2 : @lstate _ example_elara) k1) = (Ok tt, k2)
  /\ evaluated i2 = [1; 2]%nat.
Proof.
  destruct (r_kernel_cell (JL := Concrete.concrete_laws) (Hist := no_history) (U := keeper) 0%nat example_embed no_json false no_strict_json
    example_answers None None ("k"%string : str) false 0%nat (example_cell "f(1); 2"%string) SHELL r_kernel "f(1); 2"%string
    Kernel.example_config true empty_object [1; 2]%nat None 4096 (Throw []) [] example_done example_script empty_object)
    as (k1 & i2 & k2 & out & E1 & E2 & E3 & _ & E4 & _).
  - vm_compute. reflexivity.
  - apply example_parsed.
  - apply example_abortable.
  - split; done.
  - reflexivity.
  - constructor.
  - discriminate.
  - reflexivity.
  - repeat constructor.
  - vm_compute. reflexivity.
  - exists k1, i2, k2. split; [exact E1 |]. split; [exact E2 |]. split; [exact E3 | exact E4].
Defined.
