(* ===== verification/Callisto.v ===== *)
(** * The Stata kernel: callisto/interpreter_stata.cpp

    [StataInterpreter] answers every request by running Stata commands.  Stata
    itself is a parameter ([StataLib]): what a command prints (in the pieces in
    which the output is found while it runs), its return code, and what it does
    to Stata and to the disk it shares with the kernel.  What the kernel asks of
    the rest of the system is [System].  An operation is a computation of the
    monad [M]: the calls it makes of the interpreter's base (Interpreter.v) and
    of the reply callback are recorded in [steps], the commands it runs in
    [commands].  [callisto] is the kernel's [Language].  Times are in
    milliseconds; paths are those of POSIX. *)

From Stdlib Require Import Ascii ZArith Lia.
From stdpp Require Import sorting.
From S2P Require Import Prelude Utf8 StataCode StataOutput Json Wire Interpreter Comm Kernel.
Local Open Scope Z_scope.

(** ** Texts *)

(** Stata's own commands (stata_text.cpp). *)
Definition builtinCommands : list str :=
  words_from [] "about adopath anova append args assert break by bysort capture cd
    char checksum clear cls collapse compress confirm constraint continue
    copy correlate count creturn datasignature describe dir discard display
    do doedit drop edit egen else encode decode end erase error estimates
    ereturn exit expand export file foreach format forvalues frame frames
    generate global graph gsort help if import include infile infix input
    insheet keep label list local log logistic logit macro mark markout
    marksample mata matrix memory merge mkdir more net noisily notes numlist
    order outfile outsheet plugin postfile post postclose predict preserve
    probit program python query quietly recast regress rename replace reshape
    restore return rmdir run save scalar set shell sleep sort ssc
    summarize syntax sysuse tabulate tempfile tempname tempvar timer tokenize
    translate tsset type update use version webuse which while xtset"%string.

Definition kErrorTailBytes : nat := Z.to_nat (16 * 1024).
Definition kHoldQuiet : Z := 150.
Definition kMataFunctionNotFound : Z := 3499.
Definition kMaxRows : Z := 100000.
Definition kMaxLabelValues : Z := 1000.

(** A compound-quoted string of Stata. *)
Definition quoted (value : str) : str := backtick :: dquote :: value ++ [dquote; squote].

Definition toupper (c : byte) : byte :=
  if (97 <=? code c) && (code c <=? 122) then chr (code c - 32) else c.
Definition upper (value : str) : str := toupper <$> value.

(** Plain Stata names only: they go into commands. *)
Definition isName (name : str) : bool :=
  match name with
  | [] => false
  | c :: _ => negb (32 <? length name)%nat && negb (isdigit c)
              && forallb (fun c => (128 <=? code c) || isalnum c || char_eqb c "_"%char) name
  end.

(** The text before and after the first [p] in [s]. *)
Fixpoint cut_at (p s : str) : option (str * str) :=
  if starts_with p s then Some ([], drop (length p) s)
  else match s with
       | [] => None
       | c :: rest => match cut_at p rest with Some (before, after) => Some (c :: before, after) | None => None end
       end.

(** [s.replace(s.find(p), p.size(), r)]: throws when there is no [p]. *)
Definition replace_first (p r s : str) : result str :=
  match cut_at p s with
  | Some (before, after) => Ok (before ++ r ++ after)
  | None => Throw "basic_string::replace"%string
  end.

(** The loop over every [p]; what was put in is not looked at again. *)
Fixpoint replace_all (fuel : nat) (p r s : str) : str :=
  match fuel with
  | O => s
  | S fuel => match cut_at p s with
              | Some (before, after) => before ++ r ++ replace_all fuel p r after
              | None => s
              end
  end.

(** [push] with the text alone; its loop always ends ([decoder_pushes]). *)
Definition decoder_push (d : Utf8Decoder.t) (bytes : str) : str * Utf8Decoder.t :=
  match Utf8Decoder.push d bytes with Some r => r | None => ([], d) end.

Definition newDecoder : Utf8Decoder.t := {| Utf8Decoder.m_pending := [] |}.

Definition utf8 (bytes : str) : str :=
  let (out, d) := decoder_push newDecoder bytes in out ++ fst (Utf8Decoder.finish d).

(** [std::stoll]: blanks, a sign, and the digits there are. *)
Definition stoll (text : str) : result Z :=
  let s := skip_space text in
  let (negative, s) := match s with
                       | c :: rest => if char_eqb c "-"%char then (true, rest)
                                      else if char_eqb c "+"%char then (false, rest) else (false, s)
                       | [] => (false, s)
                       end in
  match take_while isdigit s with
  | [] => Throw "stoll"%string
  | digits =>
      let n := fold_left (fun n c => 10 * n + (code c - 48)) digits 0 in
      let n := if negative then - n else n in
      if (- 2 ^ 63 <=? n) && (n <? 2 ^ 63) then Ok n else Throw "stoll"%string
  end.

(** [(^|[\s;:])(br|bro|brow|brows|browse|ed|edi|edit)\b]: whether it is found. *)
Definition browse_words : list str :=
  ["br"%string : str; "bro"%string : str; "brow"%string : str; "brows"%string : str; "browse"%string : str;
   "ed"%string : str; "edi"%string : str; "edit"%string : str].

Definition word_char (c : byte) : bool := isalnum c || char_eqb c "_"%char.

Definition browse_here (s : str) : bool :=
  existsb (fun w => starts_with w s && match drop (length w) s with c :: _ => negb (word_char c) | [] => true end) browse_words.

Fixpoint browse_after (s : str) : bool :=
  match s with
  | [] => false
  | c :: rest =>
      ((isspace c || char_eqb c ";"%char || char_eqb c ":"%char) && browse_here rest) || browse_after rest
  end.

Definition browsed (code_ : str) : bool := browse_here code_ || browse_after code_.

(** Sorted, each once ([std::sort], then [std::unique]). *)
Definition str_le (a b : str) : Prop := str_lt b a = false.
#[export] Instance str_le_dec a b : Decision (str_le a b).
Proof. unfold str_le. apply _. Defined.

Fixpoint unique (l : list str) : list str :=
  match l with
  | a :: (b :: _) as rest => if str_eqb a b then unique rest else a :: unique rest
  | _ => l
  end.

Definition sort_unique (names : list str) : list str := unique (merge_sort str_le names).

(** ** What it is built on *)
Section Callisto.
Context `{J : JsonLib}.

(** What the plugin hands to the sink while a command runs; a double is its 64
    bits. *)
Inductive SinkCall :=
| Number (bits : Z)
| Missing (code_ : Z)
| Text (bytes : str)
| RowEnd.

(** A look at the output buffer while a command runs: the bytes it takes, and
    the clock when they are shown and when the quiet is checked. *)
Record Poll := { chunk : str; read_at : Z; checked_at : Z }.

(** How Stata ran a command: its return code, what it printed (in the pieces
    the polls find, and the rest), what the plugin did, and the time then. *)
Record Outcome := {
  rc : Z;
  polls : list Poll;
  rest : str;
  sink : list SinkCall;
  ended_at : Z
}.

Definition disk := gmap str str.

Class StataLib := {
  stata : Type;
  StataSO_Execute : str -> stata -> disk -> Outcome * stata * disk;
  StataSO_Shutdown : stata -> stata;
  StataSO_SetBreak : stata -> stata;
  EVP_EncodeBlock : str -> str
}.

(** An entry of a directory: its name, and whether it is one. *)
Record Entry := { filename : str; is_directory : bool }.

Class System := {
  temp_directory_path : str;
  (** the n-th guid drawn, the files that can be written *)
  newGuid : nat -> str;
  writable : str -> bool;
  directory_iterator : str -> list Entry;
  (** JOVIAN_SUPERVISED is set; the answer to the n-th question *)
  supervised : bool;
  answer : nat -> str;
  (** the texts of stata_mata.hpp *)
  kMataLibrary : str;
  kBrowseProgram : str;
  kBrowseNames : list str;
  (** the address of a local variable, as the plugin is given it *)
  sink_address : Z;
  (** the json of a double *)
  json_of_double : Z -> json
}.

Context `{Stata : !StataLib} `{Sys : !System}.

Record StataInterpreter := {
  library : stata;
  files : disk;
  clock : Z;
  drawn : nat;
  questions : nat;
  steps : list Step;
  commands : list str;
  m_edition : str;
  m_version : str;
  m_executing : bool;
  m_shutdown : bool;
  m_adoCommands : list str;
  m_adoCommandsRead : bool;
  m_libraryDir : str;
  m_pluginPath : str
}.

Definition upd_library s f t cmds i := Build_StataInterpreter s f t (drawn i) (questions i) (steps i) cmds (m_edition i) (m_version i) (m_executing i) (m_shutdown i) (m_adoCommands i) (m_adoCommandsRead i) (m_libraryDir i) (m_pluginPath i).
Definition upd_files f i := Build_StataInterpreter (library i) f (clock i) (drawn i) (questions i) (steps i) (commands i) (m_edition i) (m_version i) (m_executing i) (m_shutdown i) (m_adoCommands i) (m_adoCommandsRead i) (m_libraryDir i) (m_pluginPath i).
Definition upd_drawn d i := Build_StataInterpreter (library i) (files i) (clock i) d (questions i) (steps i) (commands i) (m_edition i) (m_version i) (m_executing i) (m_shutdown i) (m_adoCommands i) (m_adoCommandsRead i) (m_libraryDir i) (m_pluginPath i).
Definition upd_questions q i := Build_StataInterpreter (library i) (files i) (clock i) (drawn i) q (steps i) (commands i) (m_edition i) (m_version i) (m_executing i) (m_shutdown i) (m_adoCommands i) (m_adoCommandsRead i) (m_libraryDir i) (m_pluginPath i).
Definition upd_steps s i := Build_StataInterpreter (library i) (files i) (clock i) (drawn i) (questions i) s (commands i) (m_edition i) (m_version i) (m_executing i) (m_shutdown i) (m_adoCommands i) (m_adoCommandsRead i) (m_libraryDir i) (m_pluginPath i).
Definition upd_version v i := Build_StataInterpreter (library i) (files i) (clock i) (drawn i) (questions i) (steps i) (commands i) (m_edition i) v (m_executing i) (m_shutdown i) (m_adoCommands i) (m_adoCommandsRead i) (m_libraryDir i) (m_pluginPath i).
Definition upd_executing e i := Build_StataInterpreter (library i) (files i) (clock i) (drawn i) (questions i) (steps i) (commands i) (m_edition i) (m_version i) e (m_shutdown i) (m_adoCommands i) (m_adoCommandsRead i) (m_libraryDir i) (m_pluginPath i).
Definition upd_shutdown s b i := Build_StataInterpreter s (files i) (clock i) (drawn i) (questions i) (steps i) (commands i) (m_edition i) (m_version i) (m_executing i) b (m_adoCommands i) (m_adoCommandsRead i) (m_libraryDir i) (m_pluginPath i).
Definition upd_ado l b i := Build_StataInterpreter (library i) (files i) (clock i) (drawn i) (questions i) (steps i) (commands i) (m_edition i) (m_version i) (m_executing i) (m_shutdown i) l b (m_libraryDir i) (m_pluginPath i).
Definition upd_dir d i := Build_StataInterpreter (library i) (files i) (clock i) (drawn i) (questions i) (steps i) (commands i) (m_edition i) (m_version i) (m_executing i) (m_shutdown i) (m_adoCommands i) (m_adoCommandsRead i) d (m_pluginPath i).
Definition upd_plugin p i := Build_StataInterpreter (library i) (files i) (clock i) (drawn i) (questions i) (steps i) (commands i) (m_edition i) (m_version i) (m_executing i) (m_shutdown i) (m_adoCommands i) (m_adoCommandsRead i) (m_libraryDir i) p.

(** ** The monad *)
Definition M (A : Type) : Type := StataInterpreter -> result A * StataInterpreter.
Definition ret {A} (a : A) : M A := fun i => (Ok a, i).
Definition bind {A B} (m : M A) (f : A -> M B) : M B :=
  fun i => match m i with
           | (Ok a, i) => f a i
           | (Throw w, i) => (Throw w, i)
           | (Undefined, i) => (Undefined, i)
           end.
Definition lift {A} (r : result A) : M A := fun i => (r, i).
Definition gets {A} (f : StataInterpreter -> A) : M A := fun i => (Ok (f i), i).
Definition modify (f : StataInterpreter -> StataInterpreter) : M unit := fun i => (Ok tt, f i).
Definition catch {A} (m : M A) (handler : str -> M A) : M A :=
  fun i => match m i with (Throw w, i) => handler w i | r => r end.

Notation "'let*' x ':=' m 'in' f" := (bind m (fun x => f)) (at level 10, x pattern, m at level 200, f at level 200).

Fixpoint mapM {A B} (f : A -> M B) (l : list A) : M (list B) :=
  match l with
  | [] => ret []
  | a :: l => let* b := f a in let* bs := mapM f l in ret (b :: bs)
  end.

Fixpoint iterM {A} (f : A -> M unit) (l : list A) : M unit :=
  match l with
  | [] => ret tt
  | a :: l => let* _ := f a in iterM f l
  end.

Definition emit (s : Step) : M unit := modify (fun i => upd_steps (steps i ++ [s]) i).
Definition cb (reply : json) : M unit := fun i => emit (Reply reply (clock i)) i.
Definition publishStream_ (name text : str) : M unit := fun i => emit (DoCall (Stream name text (clock i))) i.

(** ** Commands and files *)
Definition execute (command : str) : M Outcome :=
  fun i => let '(o, s, f) := StataSO_Execute command (library i) (files i) in
           (Ok o, upd_library s f (ended_at o) (commands i ++ [command]) i).

Definition output_of (o : Outcome) : str := List.concat (chunk <$> polls o) ++ rest o.

(** [runCaptured]: the output and the return code. *)
Definition runCaptured (command : str) : M (str * Z) :=
  let* o := execute command in ret (utf8 (output_of o), rc o).

Definition run_silent (command : str) : M unit := let* _ := runCaptured command in ret tt.
Definition run_rc (command : str) : M Z := let* r := runCaptured command in ret r.2.

Definition tempFile (extension : str) : M str :=
  fun i => (Ok (temp_directory_path ++ "/callisto-"%string ++ newGuid (drawn i) ++ extension), upd_drawn (S (drawn i)) i).

Definition readFile (path : str) : M str := gets (fun i => default [] (files i !! path)).
Definition remove (path : str) : M unit := modify (fun i => upd_files (delete path (files i)) i).
(** Writes what it can; whether it could. *)
Definition writeFile (path content : str) : M bool :=
  fun i => if writable path then (Ok true, upd_files (<[path := content]> (files i)) i) else (Ok false, i).

Definition installMataLibrary : M bool :=
  let* dir := gets m_libraryDir in
  let* _ := (if bool_decide (dir = []) then
               fun i => (Ok tt, upd_dir (temp_directory_path ++ "/callisto-lib-"%string ++ newGuid (drawn i)) (upd_drawn (S (drawn i)) i))
             else ret tt) in
  let* dir := gets m_libraryDir in
  let source := replace_all (length kMataLibrary) "@DIR@"%string dir kMataLibrary in
  let doFile := dir ++ "/callisto.do"%string in
  let* _ := writeFile doFile source in
  let* _ := iterM (fun name : str => let* program := lift (replace_first "@NAME@"%string name kBrowseProgram) in
                               let* _ := writeFile (dir ++ "/"%string ++ name ++ ".ado"%string) program in ret tt) kBrowseNames in
  let* rc := run_rc ("quietly do "%string ++ quoted doFile) in
  ret (rc =? 0).

Definition mataJson (call : str) : M (option json) :=
  let* out := tempFile ".json"%string in
  let* command := lift (replace_first "@OUT@"%string (dquote :: out ++ [dquote]) call) in
  let* rc := run_rc ("mata: "%string ++ command) in
  let* rc := (if rc =? kMataFunctionNotFound then
                let* installed := installMataLibrary in
                if installed then run_rc ("mata: "%string ++ command) else ret rc
              else ret rc) in
  let* answer := (if rc =? 0 then
                    let* text := readFile out in
                    ret (match parse_strict (utf8 text) with Ok j => Some j | _ => None end)
                  else ret None) in
  let* _ := remove out in
  ret answer.

Definition mataNames (kind : str) : M (list str) :=
  let* names := mataJson ("callisto_names("%string ++ dquote :: kind ++ dquote :: ", @OUT@)"%string) in
  ret (match names with
       | Some names => if is_array names then omap (fun name => if is_string name then get_str name else None) (elements names) else []
       | None => []
       end).
Definition describeDataset : M json :=
  let* dataset := mataJson ("callisto_dataset(@OUT@, "%string ++ to_string kMaxLabelValues ++ ")"%string) in
  match dataset with
  | Some dataset => ret dataset
  | None => lift (Throw "the dataset could not be read"%string)
  end.

(** *** The plugin's rows *)
Definition missing_text (code_ : Z) : json :=
  if code_ =? 0 then null else mk_str ["."%char; chr (97 + code_ - 1)].

(** [RowCollector]: the finished rows and the row begun. *)
Definition sink_call (r : list json * list json) (c : SinkCall) : list json * list json :=
  let (rows, row) := r in
  match c with
  | Number bits => (rows, row ++ [json_of_double bits])
  | Missing code_ => (rows, row ++ [missing_text code_])
  | Text bytes => (rows, row ++ [mk_str (utf8 bytes)])
  | RowEnd => (rows ++ [mk_array row], [])
  end.

Definition collected (calls : list SinkCall) : json := mk_array (fst (fold_left sink_call calls ([], []))).

(** The plugin's side (plugin/callisto_plugin.cpp), on what Stata's plugin
    interface says of the dataset. *)
Record PluginInterface := {
  SF_nvars : Z;
  SF_in1 : Z;
  SF_in2 : Z;
  SF_ifobs : Z -> bool;
  SF_var_is_string : Z -> bool;
  SF_var_is_strl : Z -> bool;
  SF_var_is_binary : Z -> Z -> bool;
  SF_sdatalen : Z -> Z -> Z;
  (** the bytes of a value, or a failure *)
  SF_strldata : Z -> Z -> option str;
  SF_sdata : Z -> Z -> option str;
  SF_vdata : Z -> Z -> option Z;
  SF_is_missing : Z -> bool
}.

Definition missingCode (bits : Z) : Z :=
  let code_ := Z.land (Z.shiftr bits 40) 0xfff in if code_ <=? 26 then code_ else 0.

Definition plugin_value (d : PluginInterface) (obs var : Z) : SinkCall :=
  if SF_var_is_string d var then
    if SF_var_is_strl d var then
      if SF_var_is_binary d var obs then Text "<binary>"%string
      else
        let length := Z.max 0 (SF_sdatalen d var obs) in
        match SF_strldata d var obs with Some data => Text (take (Z.to_nat length) data) | None => Text [] end
    else match SF_sdata d var obs with Some data => Text (take_while (fun c => negb (char_eqb c nul)) data) | None => Text [] end
  else
    match SF_vdata d var obs with
    | Some bits => if SF_is_missing d bits then Missing (missingCode bits) else Number bits
    | None => Missing (missingCode 0)
    end.

(** [seqZ a n]: a, a + 1, ..., n of them. *)
Definition stata_call (d : PluginInterface) : list SinkCall :=
  seqZ (SF_in1 d) (SF_in2 d - SF_in1 d + 1) ≫= fun obs =>
    if SF_ifobs d obs then (plugin_value d obs <$> seqZ 1 (SF_nvars d)) ++ [RowEnd] else [].

Definition varlist (variables : list str) : str := variables ≫= fun name => " "%char :: name.

Definition range_text (first last : Z) : str := to_string first ++ "/"%char :: to_string last.

Definition pluginRows (variables : list str) (first last : Z) : M (option json) :=
  let* path := gets m_pluginPath in
  if bool_decide (path = []) then ret None
  else
    let* _ := run_silent ("capture program _callisto_plugin, plugin using("%string ++ quoted path ++ ")"%string) in
    let* o := execute ("plugin call _callisto_plugin"%string ++ varlist variables ++ " in "%string ++ range_text first last
                       ++ ", "%string ++ to_string sink_address) in
    ret (if rc o =? 0 then Some (collected (sink o)) else None).

(** *** Observations *)
Definition json_size (j : json) : Z :=
  match type_of j with
  | Jnull => 0
  | Jarray => Z.of_nat (length (elements j))
  | Jobject => Z.of_nat (length (members j))
  | _ => 1
  end.

Definition require (b : bool) (what : str) : M unit := lift (if b then Ok tt else Throw what).

(** The variables a request names. *)
Fixpoint named_variables (names : list json) : result (list str) :=
  match names with
  | [] => Ok []
  | name :: names =>
      match get_str name with
      | Some n => if isName n then let? ns := named_variables names in Ok (n :: ns)
                  else let? text := dump Strict name in Throw ("not a variable name: "%string ++ text)
      | None => let? text := dump Strict name in Throw ("not a variable name: "%string ++ text)
      end
  end.

Definition confirm_variables (variables : list str) : M unit :=
  let* rc := run_rc ("confirm variable"%string ++ varlist variables ++ ", exact"%string) in
  if rc =? 0 then ret tt
  else iterM (fun name => let* rc := run_rc ("confirm variable "%string ++ name ++ ", exact"%string) in
                          require (rc =? 0) ("no variable "%string ++ name)) variables.

Definition mata_rows (variables : list str) (start last : Z) (formatted : bool) : M (option json) :=
  mataJson ("callisto_rows(@OUT@, "%string ++ dquote :: join [" "%char] variables ++ dquote :: ", "%string ++ to_string start
            ++ ", "%string ++ to_string last ++ ", "%string ++ (if formatted then "1"%string else "0"%string) ++ ")"%string).

(** [start + count - 1] in [long long]. *)
Definition last_of (start count : Z) : result Z :=
  if start + count <? 2 ^ 63 then Ok (start + count - 1) else Undefined.

Definition readData (request : json) : M json :=
  let params := if is_object request then request else empty_object in
  let* variables := lift (match find params "variables"%string with
                          | Some v => if is_array v then named_variables (elements v) else Ok []
                          | None => Ok []
                          end) in
  let named := negb (bool_decide (variables = [])) in
  let* variables := (if named then ret variables else mataNames "variables"%string) in
  let* formatted := lift (value get_bool params "formatted"%string false) in
  let* r := runCaptured "display _N"%string in
  let* observations := lift (stoll (trim r.1)) in
  let* start := lift (value get_int params "start"%string 1) in
  let start := Z.max 1 start in
  let* count := lift (value get_int params "count"%string 100) in
  let count := clamp count 0 kMaxRows in
  let* last := lift (last_of start count) in
  let last := Z.min observations last in
  let* rows := (if negb (bool_decide (variables = [])) && (start <=? last) then
                  let* _ := (if named then confirm_variables variables else ret tt) in
                  let* read := (if formatted then ret None else pluginRows variables start last) in
                  let* read := (match read with Some _ => ret read | None => mata_rows variables start last formatted end) in
                  match read with
                  | Some rows => ret rows
                  | None => lift (Throw "the data could not be read"%string)
                  end
                else ret (mk_array [])) in
  ret (mk_object [("start"%string : str, mk_int start); ("count"%string : str, mk_int (json_size rows));
                  ("observations"%string : str, mk_int observations); ("variables"%string : str, mk_array (mk_str <$> variables));
                  ("formatted"%string : str, mk_bool formatted); ("rows"%string : str, rows)]).

(** *** user_expressions *)
Definition plain (text : str) : json := mk_object [("text/plain"%string : str, mk_str text)].

Definition expression_ok (text : str) : json :=
  mk_object [("status"%string : str, mk_str "ok"%string); ("data"%string : str, plain text); ("metadata"%string : str, empty_object)].

Definition expression_error (ename evalue : str) : json :=
  mk_object [("status"%string : str, mk_str "error"%string); ("ename"%string : str, mk_str ename);
             ("evalue"%string : str, mk_str evalue); ("traceback"%string : str, mk_array [])].

Definition return_code (rc : Z) : str := "r("%string ++ to_string rc ++ ")"%string.

Definition evaluate_one (key expr : str) : M json :=
  if str_eqb key ".callisto_dataset"%string || str_eqb key ".callisto_data"%string then
    catch
      (let* answer := (if str_eqb key ".callisto_dataset"%string then describeDataset
                       else let* request := lift (parse_strict (if bool_decide (expr = []) then "{}"%string else expr)) in
                            readData request) in
       let* text := lift (dump Strict answer) in
       ret (expression_ok text))
      (fun what => ret (expression_error "CallistoError"%string what))
  else
    let* r := runCaptured ("display "%string ++ expr) in
    ret (if r.2 =? 0 then expression_ok (trim r.1) else expression_error (return_code r.2) (errorMessage r.1 r.2)).

Fixpoint evaluate_members (ms : list (str * json)) (results : json) : M json :=
  match ms with
  | [] => ret results
  | (key, v) :: ms =>
      let* r := evaluate_one key (match get_str v with Some expr => expr | None => [] end) in
      evaluate_members ms (insert_key results key r)
  end.

Definition evaluateUserExpressions (expressions : json) : M json :=
  if is_object expressions then evaluate_members (members expressions) empty_object else ret empty_object.

(** ** Commands one can type *)
Definition join_path (directory name : str) : str :=
  if bool_decide (last directory = Some slash) then directory ++ name else directory ++ slash :: name.

Definition ado_suffix : str := ".ado"%string.

(** [stem()] of a file whose [extension()] is ".ado". *)
Definition ado_stem (name : str) : option str :=
  let stem := take (length name - length ado_suffix) name in
  if bool_decide (stem <> []) && str_eqb (drop (length name - length ado_suffix) name) ado_suffix then Some stem else None.

Definition is_private (name : str) : bool := match name with c :: _ => char_eqb c "_"%char | [] => false end.

(** The folders of one directory of the adopath, and the names in one folder. *)
Definition ado_folders (directory : str) : list str :=
  directory :: omap (fun e => if is_directory e && (length (filename e) =? 1)%nat then Some (join_path directory (filename e)) else None)
                    (directory_iterator directory).

Definition ado_names (folder : str) : list str :=
  omap (fun e => match ado_stem (filename e) with Some name => if is_private name then None else Some name | None => None end)
       (directory_iterator folder).

(** [seen.insert(name).second]: each name once, as first found. *)
Fixpoint first_seen (seen names : list str) : list str :=
  match names with
  | [] => []
  | n :: names => if bool_decide (n ∈ seen) then first_seen seen names else n :: first_seen (n :: seen) names
  end.

(** Whether what comes before some '_' of the name is in [seen]. *)
Fixpoint part_of (seen : list str) (before name : str) : bool :=
  match name with
  | [] => false
  | c :: rest => (char_eqb c "_"%char && bool_decide (before ∈ seen)) || part_of seen (before ++ [c]) rest
  end.

Definition ado_commands (directories : list str) : list str :=
  let found := first_seen [] ((directories ≫= ado_folders) ≫= ado_names) in
  List.filter (fun name => negb (part_of (found ++ builtinCommands) [] name)) found.

Definition program_names (listed : str) : list str :=
  omap (fun line => match after_last " "%char line with
                    | [] => None
                    | c :: _ as name => if isdigit c || char_eqb c "_"%char then None else Some name
                    end) (printedLines listed).

Definition commandNames : M (list str) :=
  let* read := gets m_adoCommandsRead in
  let* _ := (if read then ret tt
             else
               let* _ := modify (upd_ado [] true) in
               let* directories := mataNames "adopath"%string in
               modify (upd_ado (ado_commands directories) true)) in
  let* ado := gets m_adoCommands in
  let* r := runCaptured "program dir"%string in
  ret (sort_unique (builtinCommands ++ ado ++ program_names r.1)).
(** ** A cell *)

(** What the polls keep from one to the next. *)
Record Showing := {
  decoder : Utf8Decoder.t;
  echo : EchoFilter;
  hold : str;
  tail : str;
  lastOutput : Z
}.

Definition last_bytes (n : nat) (s : str) : str := drop (length s - n) s.

(** [show]: the call it makes. *)
Definition show (silent : bool) (text : str) (now : Z) : list Step :=
  if silent || bool_decide (text = []) then [] else [DoCall (Stream "stdout"%string text now)].

(** [publish(chunk, last)]. *)
Definition publish_chunk (asTyped silent : bool) (p : Poll) (is_last : bool) (w : Showing) : list Step * Showing :=
  let (decoded, d) := decoder_push (decoder w) (chunk p) in
  let decoded := if is_last then decoded ++ fst (Utf8Decoder.finish d) else decoded in
  let lastOutput := if bool_decide (decoded = []) then lastOutput w else read_at p in
  let tail := last_bytes kErrorTailBytes (tail w ++ decoded) in
  let (shown, echo) := if asTyped then (decoded, echo w) else echo_push (echo w) decoded in
  let (shown, echo) := if is_last && negb asTyped
                       then let (more, echo) := echo_finish echo in (shown ++ more, echo) else (shown, echo) in
  let (out, held) := hold_push (hold w) shown in
  let (released, held) := if negb is_last && (kHoldQuiet <=? checked_at p - lastOutput) then hold_release held else ([], held) in
  (show silent out (read_at p) ++ show silent released (checked_at p),
   {| decoder := d; echo := echo; hold := held; tail := tail; lastOutput := lastOutput |}).

(** The poller's thread, while the command runs. *)
Fixpoint publish_polls (asTyped silent : bool) (ps : list Poll) (w : Showing) : list Step * Showing :=
  match ps with
  | [] => ([], w)
  | p :: ps =>
      let (ss, w) := publish_chunk asTyped silent p false w in
      let (more, w) := publish_polls asTyped silent ps w in
      (ss ++ more, w)
  end.

Definition showing (now : Z) : Showing :=
  {| decoder := newDecoder; echo := echo_start; hold := []; tail := []; lastOutput := now |}.

(** The polls, and then what is left of the output. *)
Definition show_output (asTyped silent : bool) (began : Z) (o : Outcome) : list Step * Showing :=
  let (ss, w) := publish_polls asTyped silent (polls o) (showing began) in
  let (more, w) := publish_chunk asTyped silent {| chunk := rest o; read_at := ended_at o; checked_at := ended_at o |} true w in
  (ss ++ more, w).

(** The error's name and text, and the text as Stata printed it ([printedError]). *)
Definition cell_error (tail : str) (rc : Z) : str * str * str :=
  if rc =? 0 then ([], [], [])
  else
    let ename := return_code rc in
    match errorMessage tail rc with
    | [] => (ename, (if rc =? 1 then "--Break--"%string : str else "Stata returned an error"%string : str), [])
    | evalue => (ename, evalue, evalue ++ newline :: ename ++ ";"%string)
    end.

Definition errorTraceback (ename evalue : str) : list str := [evalue; ename ++ ";"%string].

Definition emit_all (ss : list Step) : M unit := modify (fun i => upd_steps (steps i ++ ss) i).

(** *** Graphs and the data viewer *)
Definition base64 (bytes : str) : str := EVP_EncodeBlock bytes.

Definition graph_data (name bytes : str) : json :=
  mk_object [("image/png"%string : str, mk_str (base64 bytes));
             ("text/plain"%string : str, mk_str ("<Stata graph: "%string ++ name ++ ">"%string))].

Definition publish_graph (name : str) : M unit :=
  let* rc := run_rc ("quietly graph display "%string ++ name) in
  if negb (rc =? 0) then ret tt
  else
    let* png := tempFile ".png"%string in
    let* rc := run_rc ("quietly graph export "%string ++ quoted png ++ ", name("%string ++ name ++ ") replace"%string) in
    let* bytes := readFile png in
    let* _ := remove png in
    if negb (rc =? 0) || bool_decide (bytes = []) then ret tt
    else fun i => emit (DoCall (Display (graph_data name bytes) empty_object empty_object (clock i))) i.

Definition hold_results : str := "capture _return hold __callisto_r"%string.
Definition restore_results : str := "capture _return restore __callisto_r"%string.

Definition publishGraphs : M unit :=
  let* _ := run_silent hold_results in
  let* _ := run_silent "quietly _gr_list list"%string in
  let* names := mataNames "graphs"%string in
  let* _ := run_silent restore_results in
  iterM publish_graph names.

Definition no_viewer : str := "(there is no data viewer here: list shows the data)"%string ++ [newline].

(** Whether the answer of the host says that it opened the viewer. *)
Definition opened (reply : str) : result bool :=
  match parse_strict (if bool_decide (reply = []) then "null"%string else reply) with
  | Ok answer => if is_object answer then value get_bool answer "ok"%string false else Ok false
  | _ => Ok false
  end.

(** [blockingInputRequest]: refused unless it may ask. *)
Definition blockingInputRequest (prompt : str) (password allowStdin : bool) (ui : json) : M str :=
  if negb allowStdin then lift (Throw "This execution didn't allow interactive input"%string)
  else
    let* _ := (fun i => emit (DoCall (Input prompt password ui (clock i))) i) in
    fun i => (Ok (answer (questions i)), upd_questions (S (questions i)) i).

Definition askToViewData : M unit :=
  let* view := mataJson "callisto_take_view(@OUT@)"%string in
  match view with
  | None => ret tt
  | Some view =>
      let* requested := lift (value get_bool view "requested"%string false) in
      if negb requested then ret tt
      else
        let variables := match find view "variables"%string with Some v => v | None => mk_array [] end in
        let ui := mk_object [("method"%string : str, mk_str "viewData"%string);
                             ("params"%string : str, mk_object [("variables"%string : str, variables)])] in
        let* opened := catch (let* reply := blockingInputRequest [] false supervised ui in lift (opened reply))
                             (fun _ => ret false) in
        if opened then ret tt else publishStream_ "stdout"%string no_viewer
  end.

(** *** executeRequestImpl *)
Definition may_install (code_ : str) : bool :=
  contains "install"%string code_ || contains "adopath"%string code_ || contains "sysdir"%string code_
  || contains "net "%string code_.

(** The command runs, [m_executing] around it, and its output is shown. *)
Definition run_cell (asTyped silent : bool) (command : str) : M (Outcome * Showing) :=
  let* began := gets clock in
  let* _ := modify (upd_executing true) in
  let* o := execute command in
  let* _ := modify (upd_executing false) in
  let (ss, w) := show_output asTyped silent began o in
  let* _ := emit_all ss in
  ret (o, w).

Definition executeRequestImpl (execution_count : Z) (code_ : str) (config : ExecuteRequestConfig) (user_expressions : json) : M unit :=
  if bool_decide (trim code_ = []) then
    let* results := evaluateUserExpressions user_expressions in
    cb (createSuccessfulReply (mk_array []) results)
  else
    let* doFile := tempFile ".do"%string in
    let* written := writeFile doFile (code_ ++ [newline]) in
    if negb written then
      let message := "could not write the cell to "%string ++ doFile in
      let* _ := (fun i => emit (DoCall (ExecutionError "CallistoInternalError"%string message [] (clock i))) i) in
      cb (createErrorReply "CallistoInternalError"%string message (mk_array []))
    else
      let showGraphs := negb (silent config) in
      let* _ := (if showGraphs then run_silent "quietly _gr_list on"%string else ret tt) in
      let asTyped := isSingleCommand code_ in
      let* (o, w) := run_cell asTyped (silent config)
                        (if asTyped then trim code_ else "include "%string ++ quoted doFile) in
      let '(ename, evalue, printedError) := cell_error (tail w) (rc o) in
      let* _ := emit_all (show (silent config) (fst (hold_finish (hold w) printedError)) (ended_at o)) in
      let* _ := remove doFile in
      let* _ := (if may_install code_ then modify (fun i => upd_ado (m_adoCommands i) false i) else ret tt) in
      let* _ := (if showGraphs then let* _ := publishGraphs in run_silent "quietly _gr_list off"%string else ret tt) in
      let* _ := (if negb (silent config) && browsed code_ then askToViewData else ret tt) in
      if negb (rc o =? 0) then
        let* _ := (fun i => emit (DoCall (ExecutionError ename evalue (errorTraceback ename evalue) (clock i))) i) in
        cb (createErrorReply ename evalue (mk_array (mk_str <$> errorTraceback ename evalue)))
      else
        let* results := evaluateUserExpressions user_expressions in
        cb (createSuccessfulReply (mk_array []) results).

(** ** The other requests *)
Definition completion_names (token : CompletionToken) : M (list str) :=
  match kind token with
  | Variable_ =>
      let* names := mataNames "variables"%string in
      let* scalars := mataNames "scalars"%string in
      ret (names ++ scalars)
  | Global_ => mataNames "globals"%string
  | Local_ => mataNames "locals"%string
  | Result => mataNames (resultClass token :: "()"%string)
  | Command => commandNames
  | KindNone => ret []
  end.

Definition completeRequestImpl (code_ : str) (cursor_pos : Z) : M json :=
  let token := completionToken code_ cursor_pos in
  match kind token with
  | KindNone => ret (createCompleteReply (mk_array []) cursor_pos cursor_pos empty_object)
  | _ =>
    let* names := completion_names token in
    ret (createCompleteReply (mk_array (mk_str <$> matchingNames names (token_prefix token))) (token_start token) cursor_pos empty_object)
  end.

(** The characters of a name before the cursor. *)
Definition before_name (code_ : str) (cursor_pos : Z) : str :=
  let start := Z.to_nat (Z.min (Z.max 0 cursor_pos) (Z.of_nat (length code_))) in
  let code_ := take start code_ in
  take (length code_ - length (take_while_end (fun c => negb (char_eqb c "$"%char) && (isalnum c || char_eqb c "_"%char)) code_)) code_.

Definition inspect_found (text : str) : json := createInspectReply true (plain (trim text)) empty_object.
Definition inspect_nothing : json := createInspectReply false empty_object empty_object.

Definition describe_variable (token : str) : M str :=
  let* _ := run_silent hold_results in
  let* described := runCaptured ("describe "%string ++ token) in
  let* summarized := runCaptured ("summarize "%string ++ token) in
  let* _ := run_silent restore_results in
  ret (described.1 ++ summarized.1).

Definition inspectRequestImpl (code_ : str) (cursor_pos detail_level : Z) : M json :=
  let token := tokenAt code_ cursor_pos in
  if bool_decide (token = []) then ret inspect_nothing
  else if bool_decide (last (before_name code_ cursor_pos) = Some "$"%char) then
    let* listed := runCaptured ("macro list "%string ++ token) in
    ret (if listed.2 =? 0 then inspect_found listed.1 else inspect_nothing)
  else
    let* rc := run_rc ("confirm variable "%string ++ token ++ ", exact"%string) in
    if rc =? 0 then let* description := describe_variable token in ret (inspect_found description)
    else
      let* rc := run_rc ("confirm scalar "%string ++ token) in
      if rc =? 0 then let* listed := runCaptured ("scalar list "%string ++ token) in ret (inspect_found listed.1)
      else
        let* which := runCaptured ("which "%string ++ token) in
        ret (if which.2 =? 0 then inspect_found which.1 else inspect_nothing).

Definition isCompleteRequestImpl (code_ : str) : json := createIsCompleteReply (isComplete code_) [].

Definition answersWhileBusyImpl (msg_type : str) : bool := str_eqb msg_type "is_complete_request"%string.

Definition shutdownStata : M unit :=
  modify (fun i => if m_shutdown i then i else upd_shutdown (StataSO_Shutdown (library i)) true i).

Definition shutdownRequestImpl (restart : bool) : M json :=
  let* _ := shutdownStata in ret (createShutdownReply restart).

Definition interruptRequestImpl : M json :=
  let* executing := gets m_executing in
  let* _ := (if executing then modify (fun i => upd_library (StataSO_SetBreak (library i)) (files i) (clock i) (commands i) i)
             else ret tt) in
  ret createInterruptReply.

Definition kernelInfoRequestImpl : M json :=
  fun i => (Ok (createInfoReply "callisto"%string getProtocolVersion "stata"%string (m_version i) "text/x-stata"%string ".do"%string
    "stata"%string (mk_str "stata"%string) [] ("callisto (Stata "%string ++ m_version i ++ " "%string ++ m_edition i ++ ")"%string)
    (mk_array []) []), i).

(** ** The start *)

(** What [loadStataApi] found. *)
Record Library := { lib_path : str; lib_edition : str; installed : list str }.

(** Where the library of an edition is, in the order it is looked for. *)
Definition candidatePaths (home edition : str) : list str :=
  let name : str := if str_eqb edition "be"%string then "libstata.so"%string else "libstata-"%string ++ edition ++ ".so"%string in
  [join_path home name; join_path home ("../distn/linux64/"%string ++ name);
   join_path home ("../distn/linux.64p/"%string ++ name); join_path home ("../distn/linux.64/"%string ++ name)].

Definition editions : list str := ["mp"%string : str; "se"%string : str; "be"%string : str].

(** What the system says of files: [open_library] gives the error of [dlopen],
    [missing_symbol] the function a library does not export. *)
Record Loader := {
  absolute_dir : str -> option str;
  is_regular_file : str -> bool;
  lexically_normal : str -> str;
  open_library : str -> option str;
  missing_symbol : str -> option str
}.

Section Load.
Context (os : Loader).

Definition firstPresent (home edition : str) : option str :=
  head (List.filter (is_regular_file os) (candidatePaths home edition)).

Definition load_candidate (candidate edition : str) (all : list str) : result Library :=
  let libPath := lexically_normal os candidate in
  match open_library os candidate with
  | Some error => Throw ("Could not load Stata's library "%string ++ libPath ++ ": "%string ++ error)
  | None =>
      match missing_symbol os candidate with
      | Some name => Throw ("Stata's library "%string ++ libPath ++ " does not export "%string ++ name ++ " -- it needs Stata 17 or newer."%string)
      | None => Ok {| lib_path := libPath; lib_edition := edition; installed := all |}
      end
  end.

(** The two loops, over the editions and their paths; [tried] are the paths
    where there was no file. *)
Fixpoint search_library (stataHome : str) (all : list str) (candidates : list (str * str)) (tried : list str) : result Library :=
  match candidates with
  | [] => Throw ("No Stata shared library found in "%string ++ stataHome ++ " (Stata 17 or newer is needed). Looked for:"%string
                 ++ (tried ≫= fun path => newline :: "  "%string ++ path))
  | (edition, candidate) :: candidates =>
      if is_regular_file os candidate then load_candidate candidate edition all
      else search_library stataHome all candidates (tried ++ [lexically_normal os candidate])
  end.

Definition loadStataApi (loaded : option Library) (stataHome edition : str) : result Library :=
  match loaded with
  | Some library => Ok library
  | None =>
      if bool_decide (stataHome = []) then
        Throw "No Stata installation was given -- pass stataHome (the directory holding Stata's executable) or set STATA_HOME."%string
      else
        match absolute_dir os stataHome with
        | None => Throw ("Stata directory not found: "%string ++ stataHome)
        | Some home =>
            let all := List.filter (fun ed => match firstPresent home ed with Some _ => true | None => false end) editions in
            let searched := if bool_decide (edition = []) then editions else [edition] in
            search_library stataHome all (searched ≫= fun ed => (fun path => (ed, path)) <$> candidatePaths home ed) []
        end
  end.
End Load.

(** The message when Stata does not start. *)
Definition other_editions (library : Library) : str :=
  join " or "%string ((fun ed => squote :: ed ++ [squote]) <$> List.filter (fun ed => negb (str_eqb ed (lib_edition library))) (installed library)).

Definition start_failure (library : Library) (edition : str) (rc : Z) (startup : str) : str :=
  "Stata ("%string ++ lib_path library ++ ") could not start: "%string
  ++ (if bool_decide (startup = []) then "StataSO_Main returned "%string ++ to_string rc else startup)
  ++ (if bool_decide (edition = []) && (1 <? length (installed library))%nat then
        newline :: "(Stata/"%string ++ upper (lib_edition library)
        ++ " was loaded because it is the first edition installed there; if your license is for another edition, pass stataEdition "%string
        ++ other_editions library ++ ".)"%string
      else []).

(** The constructor, once the library is loaded: what [StataSO_Main] returned
    and printed, the two environment variables and whether the plugin is where
    it is looked for. *)
Definition StataInterpreter_start (library : Library) (edition : str) (main_rc : Z) (main_output : str)
    (plugin : option str) (executableDirectory : str) (exists_ : str -> bool) : M unit :=
  let startup := trim (utf8 main_output) in
  if (main_rc <? 0) && negb (main_rc =? -7100) then lift (Throw (start_failure library edition main_rc startup))
  else
    let* version := runCaptured "display c(stata_version)"%string in
    let* _ := modify (upd_version (trim version.1)) in
    let* _ := run_silent "set more off"%string in
    let* _ := installMataLibrary in
    let pluginPath := match plugin with
                      | Some (c :: p) => c :: p
                      | _ => join_path executableDirectory "callisto_stata.plugin"%string
                      end in
    if exists_ pluginPath then modify (upd_plugin pluginPath) else ret tt.

(** ** The kernel's language *)

(** A request: its steps, then its result. *)
Definition request {A} (m : M A) (i : StataInterpreter) : list Step * result A * StataInterpreter :=
  let (r, i) := m (upd_steps [] i) in (steps i, r, upd_steps [] i).

Definition simple {A} (m : M A) (i : StataInterpreter) : list Call * result A * StataInterpreter :=
  let '(_, r, i) := request m i in ([], r, i).

Definition callisto : Language := {|
  lstate := StataInterpreter;
  Kernel.executeRequestImpl count code_ config ue i :=
    let '(ss, r, i) := request (executeRequestImpl count code_ config ue) i in
    (ss, match r with Ok _ => None | Throw w => Some w | Undefined => Some [] end, i);
  Kernel.completeRequestImpl code_ pos := simple (completeRequestImpl code_ pos);
  Kernel.inspectRequestImpl code_ pos detail := simple (inspectRequestImpl code_ pos detail);
  Kernel.isCompleteRequestImpl code_ i := ([], Ok (isCompleteRequestImpl code_), i);
  Kernel.kernelInfoRequestImpl := simple kernelInfoRequestImpl;
  Kernel.shutdownRequestImpl restart := simple (shutdownRequestImpl restart);
  Kernel.interruptRequestImpl := simple interruptRequestImpl;
  Kernel.debugRequestImpl_ request_ i := ([], debugRequestImpl request_, i);
  inputReply v i := Ok i
|}.

End Callisto.
