(* ===== verification/CallistoFacts.v ===== *)
(** * What the Stata kernel promises

    The theorems about Callisto.v: the output of a cell however it is polled,
    the contract of a [Language] and what the kernel makes of it, the data page,
    the plugin's rows and the names of commands. *)

From Stdlib Require Import Ascii ZArith Lia.
From stdpp Require Import sorting.
From S2P Require Import Prelude Utf8 StataCode StataOutput Json Wire Interpreter Comm Kernel Callisto.
Local Open Scope Z_scope.

(** ** The output of a cell *)
Section Output.
Context `{J : JsonLib}.

(** The text of the stream calls. *)
Fixpoint stdout_text (ss : list Step) : str :=
  match ss with
  | [] => []
  | DoCall (Stream n t _) :: ss => t ++ stdout_text ss
  | _ :: ss => stdout_text ss
  end.

Definition to_stdout (s : Step) : Prop := exists t now, s = DoCall (Stream "stdout"%string t now).

Lemma stdout_text_app a b : stdout_text (a ++ b) = stdout_text a ++ stdout_text b.
Proof.
  induction a as [|s a IH]; [done |]. destruct s as [c | r now]; cbn; [destruct c |]; rewrite ?IH; try done.
  by rewrite app_assoc.
Qed.

Lemma show_text text now : stdout_text (show false text now) = text.
Proof. unfold show. cbn [orb]. case_bool_decide as H; [by rewrite H | cbn; by rewrite app_nil_r]. Qed.

Lemma show_calls silent text now : Forall to_stdout (show silent text now).
Proof. unfold show. destruct (_ || _); [constructor | constructor; [by eexists _, _ | constructor]]. Qed.

Lemma last_bytes_app n a b : last_bytes n (last_bytes n a ++ b) = last_bytes n (a ++ b).
Proof.
  unfold last_bytes. rewrite !length_app, length_drop.
  destruct (decide (length a <= n)%nat) as [H | H].
  - replace (length a - n)%nat with 0%nat by lia. by rewrite drop_0, Nat.sub_0_r.
  - set (k := (length a - n)%nat). assert (Hk : length (take k a) = k) by (rewrite length_take; lia).
    replace (length a + length b - n)%nat with (length (take k a) + (length a - k + length b - n))%nat by lia.
    assert (E : a ++ b = take k a ++ (drop k a ++ b)) by (by rewrite app_assoc, take_drop).
    by rewrite E, drop_app_add.
Qed.

(** One chunk: what it adds. *)
Lemma publish_chunk_spec asTyped silent p is_last w out d : Utf8Decoder.push (decoder w) (chunk p) = Some (out, d) ->
  let (ss, w') := publish_chunk asTyped silent p is_last w in
  let piece := if is_last then out ++ fst (Utf8Decoder.finish d) else out in
  Forall to_stdout ss /\ decoder w' = d /\ tail w' = last_bytes kErrorTailBytes (tail w ++ piece)
  /\ (silent = true -> ss = [])
  /\ (silent = false ->
      stdout_text ss ++ hold w' = hold w ++
        (if asTyped then piece
         else let (shown, echo) := echo_push (echo w) piece in if is_last then shown ++ fst (echo_finish echo) else shown))
  /\ (asTyped = false -> is_last = false -> echo w' = snd (echo_push (echo w) piece)).
Proof.
  intros Hp. unfold publish_chunk, decoder_push. rewrite Hp. cbv zeta.
  set (piece := if is_last then _ else _).
  generalize (if bool_decide (piece = []) then lastOutput w else read_at p) as quiet. intros quiet.
  destruct (if asTyped then (piece, echo w) else echo_push (echo w) piece) as [shown1 e1] eqn:E1.
  destruct (if is_last && negb asTyped then _ else _) as [shown e2] eqn:E2.
  pose proof (hold_push_spec (hold w) shown) as H. destruct (hold_push (hold w) shown) as [o h]. destruct H as (H & _ & _).
  destruct (if negb is_last && _ then hold_release h else ([], h)) as [r h'] eqn:E3.
  assert (Hr : r ++ h' = h) by (destruct (negb is_last && _); injection E3 as <- <-; by rewrite ?app_nil_r).
  cbn [decoder tail hold echo]. repeat apply conj; try done.
  - apply Forall_app. split; apply show_calls.
  - intros ->. done.
  - intros ->. rewrite stdout_text_app, !show_text, <- app_assoc, Hr, H. f_equal.
    destruct asTyped, is_last; cbn [negb andb] in E2.
    + injection E1 as <- <-. by injection E2 as <- <-.
    + injection E1 as <- <-. by injection E2 as <- <-.
    + rewrite E1. destruct (echo_finish e1) as [more e3]. by injection E2 as <- <-.
    + rewrite E1. by injection E2 as <- <-.
  - intros -> ->. cbn in E2. injection E2 as <- <-. by rewrite E1.
Qed.
Lemma publish_all asTyped silent p ps : forall w out,
  Utf8Decoder.decode_from (decoder w) ((chunk <$> ps) ++ [chunk p]) = Some out ->
  let (ss, w1) := publish_polls asTyped silent ps w in
  let (more, w2) := publish_chunk asTyped silent p true w1 in
  exists pieces, List.concat pieces = out /\ Forall to_stdout (ss ++ more)
  /\ tail w2 = last_bytes kErrorTailBytes (tail w ++ out)
  /\ (silent = true -> ss ++ more = [])
  /\ (silent = false -> stdout_text (ss ++ more) ++ hold w2 = hold w ++ (if asTyped then out else echo_chunks (echo w) pieces)).
Proof.
  induction ps as [|q ps IH]; intros w out H; cbn [fmap list_fmap app Utf8Decoder.decode_from publish_polls] in H |- *.
  - destruct (Utf8Decoder.push (decoder w) (chunk p)) as [[o d]|] eqn:Hp; [| done]. injection H as <-.
    pose proof (publish_chunk_spec asTyped silent p true w o d Hp) as Hc.
    destruct (publish_chunk asTyped silent p true w) as [more w2]. destruct Hc as (H1 & _ & H2 & H3 & H4 & _).
    exists [o ++ fst (Utf8Decoder.finish d)]. cbn [List.concat]. rewrite app_nil_r. cbn [app].
    by repeat apply conj.
  - destruct (Utf8Decoder.push (decoder w) (chunk q)) as [[o d]|] eqn:Hp; [| done].
    pose proof (publish_chunk_spec asTyped silent q false w o d Hp) as Hc.
    destruct (publish_chunk asTyped silent q false w) as [ss1 w1] eqn:E. destruct Hc as (H1 & Hd & H2 & H3 & H4 & H5).
    destruct (Utf8Decoder.decode_from d ((chunk <$> ps) ++ [chunk p])) as [out'|] eqn:Hf; [| done].
    injection H as <-. rewrite <- Hd in Hf. specialize (IH w1 out' Hf).
    destruct (publish_polls asTyped silent ps w1) as [ss2 w2], (publish_chunk asTyped silent p true w2) as [more w3].
    destruct IH as (pieces & <- & I1 & I2 & I3 & I4). exists (o :: pieces). rewrite <- app_assoc.
    repeat apply conj.
    + done.
    + by apply Forall_app.
    + by rewrite I2, H2, last_bytes_app, <- app_assoc.
    + intros Hs. by rewrite H3, I3.
    + intros Hs. rewrite stdout_text_app, <- app_assoc, (I4 Hs), app_assoc, (H4 Hs), <- app_assoc. f_equal.
      destruct asTyped; [done |]. rewrite (H5 eq_refl eq_refl). cbn [echo_chunks].
      by destruct (echo_push (echo w) o).
Qed.

(** However the bytes are cut, the same text. *)
Lemma decode_pieces chunks : Utf8Decoder.decode_from newDecoder chunks = Some (utf8 (List.concat chunks)).
Proof.
  destruct (Utf8Decoder.decode_from_spec newDecoder chunks I) as (out & E & R). rewrite E. f_equal.
  destruct (Utf8Decoder.decode_from_spec newDecoder [List.concat chunks] I) as (out' & E' & R'). cbn in E', R, R'.
  rewrite app_nil_r in R'. unfold utf8, decoder_push. revert E'.
  destruct (Utf8Decoder.push newDecoder (List.concat chunks)) as [[o d]|]; [| done]. intros [= E']. cbn. rewrite E'.
  by eapply Utf8Decoder.repairs_deterministic.
Qed.

Definition cell_text (asTyped : bool) (o : Outcome) : str :=
  if asTyped then utf8 (output_of o) else echo_text (utf8 (output_of o)).

Lemma show_output_spec asTyped silent began o :
  let (ss, w) := show_output asTyped silent began o in
  Forall to_stdout ss /\ tail w = last_bytes kErrorTailBytes (utf8 (output_of o))
  /\ (silent = true -> ss = [])
  /\ (asTyped = true \/ whole_text (utf8 (output_of o)) -> silent = false -> stdout_text ss ++ hold w = cell_text asTyped o).
Proof.
  unfold show_output.
  pose proof (publish_all asTyped silent {| chunk := rest o; read_at := ended_at o; checked_at := ended_at o |} (polls o)
    (showing began) _ (decode_pieces _)) as H.
  destruct (publish_polls _ _ _ _) as [ss w], (publish_chunk _ _ _ true w) as [more w2].
  assert (E : List.concat ((chunk <$> polls o) ++ [rest o]) = output_of o).
  { unfold output_of. rewrite concat_app. cbn. by rewrite app_nil_r. }
  cbn [chunk] in H. rewrite E in H. destruct H as (pieces & Hp & H1 & H2 & H3 & H4).
  repeat apply conj; [done | done | done |]. intros Hw Hs. rewrite (H4 Hs). unfold cell_text. cbn [hold showing app].
  destruct asTyped; [done |]. cbn [echo showing]. destruct Hw as [Hw | Hw]; [done |].
  rewrite <- Hp in Hw |- *. by apply echo_chunks_text.
Qed.

(** What a cell shows does not depend on when its output is polled.  Stata's
    bytes are decoded, a do-file's echo is taken out, and the result goes to
    stdout in order and once, whatever the pieces in which the buffer is found
    and the pauses between them; the only text left out is the error that the
    cell ends with, when it is still held, since that is published as the error.
    A silent cell shows nothing.  The error is looked for in the last bytes of
    the whole output.  (For a do-file: no carriage return, and no line of blanks
    alone, whose filtering depends on the pieces.) *)
Theorem cell_output asTyped silent began o error :
  asTyped = true \/ whole_text (utf8 (output_of o)) ->
  let (ss, w) := show_output asTyped silent began o in
  let all := ss ++ show silent (fst (hold_finish (hold w) error)) (ended_at o) in
  tail w = last_bytes kErrorTailBytes (utf8 (output_of o))
  /\ Forall to_stdout all
  /\ (silent = true -> all = [])
  /\ (silent = false ->
      stdout_text all = cell_text asTyped o
      \/ error <> [] /\ exists blanks, forallb isSpace blanks = true /\ cell_text asTyped o = stdout_text all ++ error ++ blanks).
Proof.
  intros Hw. pose proof (show_output_spec asTyped silent began o) as H.
  destruct (show_output asTyped silent began o) as [ss w]. destruct H as (H1 & H2 & H3 & H4). cbv zeta.
  repeat apply conj; [done | apply Forall_app; split; [done | apply show_calls] | intros ->; by rewrite H3 |].
  intros ->. specialize (H4 Hw eq_refl). rewrite stdout_text_app, show_text.
  assert (Hf : hold_finish (hold w) error = (fst (hold_finish (hold w) error), [])) by (unfold hold_finish, hold_release; by cases).
  destruct (hold_finish_spec _ _ _ Hf) as [-> | (He & _ & blanks & Hh & Hb)]; [left; done | right].
  split; [done |]. exists blanks. split; [done |]. rewrite <- H4, <- app_assoc. f_equal. exact Hh.
Qed.

End Output.

(** ** The steps of a request *)
Section Steps.
Context `{J : JsonLib} `{Stata : !StataLib} `{Sys : !System}.

Definition no_error (c : Call) : Prop := match c with ExecutionError _ _ _ _ => False | _ => True end.

(** [m] only calls the interpreter's base, and publishes no error. *)
Definition calls_only {A} (m : M A) : Prop :=
  forall i, exists cs, steps (snd (m i)) = steps i ++ (DoCall <$> cs) /\ Forall no_error cs.

Lemma calls_none {A} (m : M A) : (forall i, steps (snd (m i)) = steps i) -> calls_only m.
Proof. intros H i. exists []. rewrite H. cbn. by rewrite app_nil_r. Qed.

Lemma calls_bind {A B} (m : M A) (f : A -> M B) : calls_only m -> (forall a, calls_only (f a)) -> calls_only (bind m f).
Proof.
  intros Hm Hf i. unfold bind. destruct (Hm i) as (cs & E & F). destruct (m i) as [[a | w |] i']; cbn [snd] in E |- *.
  - destruct (Hf a i') as (cs' & E' & F'). exists (cs ++ cs'). rewrite E', E, fmap_app, <- app_assoc.
    split; [done | by apply Forall_app].
  - by exists cs.
  - by exists cs.
Qed.

Lemma calls_catch {A} (m : M A) handler : calls_only m -> (forall w, calls_only (handler w)) -> calls_only (catch m handler).
Proof.
  intros Hm Hf i. unfold catch. destruct (Hm i) as (cs & E & F). destruct (m i) as [[a | w |] i']; cbn [snd] in E |- *.
  - by exists cs.
  - destruct (Hf w i') as (cs' & E' & F'). exists (cs ++ cs'). rewrite E', E, fmap_app, <- app_assoc.
    split; [done | by apply Forall_app].
  - by exists cs.
Qed.

Lemma calls_iter {A} (f : A -> M unit) l : (forall a, calls_only (f a)) -> calls_only (iterM f l).
Proof. intros Hf. induction l as [|a l IH]; cbn; [by apply calls_none | by apply calls_bind]. Qed.

Lemma calls_emit_all ss : Forall (fun s => exists c, s = DoCall c /\ no_error c) ss -> calls_only (emit_all ss).
Proof.
  intros H i. assert (exists cs, ss = DoCall <$> cs /\ Forall no_error cs) as (cs & -> & F).
  { induction H as [|s ss (c & -> & Hc) _ (cs & -> & F)]; [by exists [] |]. exists (c :: cs). by split; [| constructor]. }
  by exists cs.
Qed.

Lemma calls_emit (c : StataInterpreter -> Call) : (forall i, no_error (c i)) -> calls_only (fun i => emit (DoCall (c i)) i).
Proof. intros H i. exists [c i]. split; [done | by constructor]. Qed.

Lemma calls_execute command : calls_only (execute command).
Proof. apply calls_none. intros i. unfold execute. by destruct (StataSO_Execute _ _ _) as [[o s] f]. Qed.

Lemma calls_writeFile path content : calls_only (writeFile path content).
Proof. apply calls_none. intros i. unfold writeFile. by destruct (writable path). Qed.

(** Follows the structure of a computation. *)
Ltac calls :=
  repeat match goal with
  | |- forall _, calls_only _ => intros ?
  | |- calls_only (match ?x with _ => _ end) => destruct x
  | |- calls_only (bind _ _) => apply calls_bind
  | |- calls_only (catch _ _) => apply calls_catch
  | |- calls_only (iterM _ _) => apply calls_iter
  | |- calls_only (execute _) => apply calls_execute
  | |- calls_only (writeFile _ _) => apply calls_writeFile
  | |- calls_only (fun i => emit (DoCall _) i) => by apply calls_emit
  | |- calls_only _ => first [by auto with callisto | by apply calls_none]
  end.

Create HintDb callisto.

Lemma calls_runCaptured command : calls_only (runCaptured command).
Proof. unfold runCaptured. calls. Qed.
Lemma calls_run_rc command : calls_only (run_rc command).
Proof. unfold run_rc. apply calls_bind; [apply calls_runCaptured | calls]. Qed.
Lemma calls_run_silent command : calls_only (run_silent command).
Proof. unfold run_silent. apply calls_bind; [apply calls_runCaptured | calls]. Qed.
#[local] Hint Resolve calls_runCaptured calls_run_rc calls_run_silent : callisto.

Lemma calls_installMataLibrary : calls_only installMataLibrary.
Proof. unfold installMataLibrary. calls. Qed.
#[local] Hint Resolve calls_installMataLibrary : callisto.

Lemma calls_mataJson call : calls_only (mataJson call).
Proof. unfold mataJson. calls. Qed.
#[local] Hint Resolve calls_mataJson : callisto.

Lemma calls_mataNames kind : calls_only (mataNames kind).
Proof. unfold mataNames. calls. Qed.
#[local] Hint Resolve calls_mataNames : callisto.

Lemma calls_readData request : calls_only (readData request).
Proof. unfold readData, pluginRows, mata_rows, confirm_variables, require. calls. Qed.

Lemma calls_evaluate_one key expr : calls_only (evaluate_one key expr).
Proof. pose proof calls_readData. unfold evaluate_one, describeDataset. calls. Qed.

Lemma calls_evaluate expressions : calls_only (evaluateUserExpressions expressions).
Proof.
  unfold evaluateUserExpressions. destruct (is_object expressions); [| calls]. generalize empty_object.
  induction (members expressions) as [|[k v] ms IH]; intros results; cbn; [calls |].
  apply calls_bind; [apply calls_evaluate_one | intros; apply IH].
Qed.

Lemma calls_publishGraphs : calls_only publishGraphs.
Proof. unfold publishGraphs, publish_graph. calls. Qed.

Lemma calls_askToViewData : calls_only askToViewData.
Proof. unfold askToViewData, blockingInputRequest, publishStream_. calls. Qed.
#[local] Hint Resolve calls_evaluate calls_publishGraphs calls_askToViewData : callisto.

(** [m] ends with the reply, once, after calls that are as [Q] says; when it
    throws there was no reply. *)
Definition answers (Q : list Call -> json -> Prop) (m : M unit) : Prop :=
  forall i, let (r, i') := m i in
    match r with
    | Ok _ => exists cs reply now, steps i' = steps i ++ (DoCall <$> cs) ++ [Reply reply now] /\ Q cs reply
    | _ => exists cs, steps i' = steps i ++ (DoCall <$> cs)
    end.

Definition prefixed (Q : list Call -> json -> Prop) : Prop :=
  forall before cs reply, Forall no_error before -> Q cs reply -> Q (before ++ cs) reply.

Lemma reply_bind {A} Q (m : M A) (f : A -> M unit) : prefixed Q -> calls_only m -> (forall a, answers Q (f a)) ->
  answers Q (bind m f).
Proof.
  intros HQ Hm Hf i. unfold bind. destruct (Hm i) as (cs & E & F). destruct (m i) as [[a | w |] i1]; cbn [snd] in E.
  - specialize (Hf a i1). destruct (f a i1) as [[u | w |] i'].
    + destruct Hf as (cs' & reply & now & E' & H). exists (cs ++ cs'), reply, now.
      rewrite E', E, fmap_app, <- !app_assoc. split; [done | by apply HQ].
    + destruct Hf as (cs' & E'). exists (cs ++ cs'). by rewrite E', E, fmap_app, <- app_assoc.
    + destruct Hf as (cs' & E'). exists (cs ++ cs'). by rewrite E', E, fmap_app, <- app_assoc.
  - by exists cs.
  - by exists cs.
Qed.

Lemma answers_cb (Q : list Call -> json -> Prop) reply : Q [] reply -> answers Q (cb reply).
Proof. intros H i. by exists [], reply, (clock i). Qed.

(** The two ways to answer. *)
Definition success (cs : list Call) (reply : json) : Prop :=
  Forall no_error cs /\ exists results, reply = createSuccessfulReply (mk_array []) results.

Definition failure (ename evalue : str) (trace_back : list str) (cs : list Call) (reply : json) : Prop :=
  exists cs' now, cs = cs' ++ [ExecutionError ename evalue trace_back now] /\ Forall no_error cs'
  /\ reply = createErrorReply ename evalue (mk_array (mk_str <$> trace_back)).

Lemma success_prefixed : prefixed success.
Proof. intros before cs reply H [F R]. split; [by apply Forall_app | done]. Qed.

Lemma failure_prefixed ename evalue tb : prefixed (failure ename evalue tb).
Proof.
  intros before cs reply H (cs' & now & -> & F & R). exists (before ++ cs'), now. rewrite app_assoc.
  split; [done |]. split; [by apply Forall_app | done].
Qed.

Lemma answers_failure ename evalue tb :
  answers (failure ename evalue tb)
    (bind (fun i => emit (DoCall (ExecutionError ename evalue tb (clock i))) i)
          (fun _ => cb (createErrorReply ename evalue (mk_array (mk_str <$> tb))))).
Proof.
  intros i. cbn. exists [ExecutionError ename evalue tb (clock i)]. eexists _, _. cbn. rewrite <- app_assoc. cbn.
  split; [reflexivity |]. exists [], (clock i). by repeat apply conj.
Qed.

Lemma answers_success user_expressions :
  answers success (bind (evaluateUserExpressions user_expressions) (fun results => cb (createSuccessfulReply (mk_array []) results))).
Proof.
  apply reply_bind; [apply success_prefixed | apply calls_evaluate |]. intros results. apply answers_cb.
  split; [constructor | by exists results].
Qed.

(** How the command of a cell was run, as its answer tells. *)
Definition cell_answer (command : str) (cs : list Call) (reply : json) : Prop :=
  exists s f, let o := fst (fst (StataSO_Execute command s f)) in
    if rc o =? 0 then success cs reply
    else
      let '(ename, evalue, _) := cell_error (last_bytes kErrorTailBytes (utf8 (output_of o))) (rc o) in
      failure ename evalue (errorTraceback ename evalue) cs reply.

Lemma cell_answer_prefixed command : prefixed (cell_answer command).
Proof.
  intros before cs reply H (s & f & Q). exists s, f. cbv zeta in *. destruct (rc _ =? 0).
  - by apply success_prefixed.
  - destruct (cell_error _ _) as [[ename evalue] p]. by apply failure_prefixed.
Qed.

Lemma answers_weaken (Q Q' : list Call -> json -> Prop) m : (forall cs reply, Q cs reply -> Q' cs reply) -> answers Q m -> answers Q' m.
Proof.
  intros HQ Hm i. specialize (Hm i). destruct (m i) as [[u | w |] i']; [| done | done].
  destruct Hm as (cs & reply & now & E & H). exists cs, reply, now. split; [done | by apply HQ].
Qed.

Lemma stdout_calls ss : Forall to_stdout ss -> exists cs, ss = DoCall <$> cs /\ Forall no_error cs.
Proof.
  induction 1 as [|x l (t & now & ->) _ (cs & -> & F)]; [by exists [] |].
  exists (Stream "stdout"%string t now :: cs). by split; [| constructor].
Qed.

(** The command runs once; what it ends with is known to what follows. *)
Lemma answers_run_cell Q asTyped silent command (f : Outcome * Showing -> M unit) : prefixed Q ->
  (forall s d, let o := fst (fst (StataSO_Execute command s d)) in
     forall w, tail w = last_bytes kErrorTailBytes (utf8 (output_of o)) -> answers Q (f (o, w))) ->
  answers Q (bind (run_cell asTyped silent command) f).
Proof.
  intros HQ Hf i. unfold bind at 1, run_cell, bind, gets, modify, execute.
  set (i1 := upd_executing true i). specialize (Hf (library i1) (files i1)). cbv zeta in Hf. unfold i1 in *.
  destruct (StataSO_Execute command (library (upd_executing true i)) (files (upd_executing true i))) as [[o s] d]. cbn [fst] in Hf.
  pose proof (show_output_spec asTyped silent (clock i) o) as Hs.
  destruct (show_output asTyped silent (clock i) o) as [ss w]. destruct Hs as (Hss & Ht & _).
  specialize (Hf w Ht). unfold emit_all, modify, ret.
  match goal with |- context [f (o, w) ?j] => specialize (Hf j); set (i2 := j) in * end.
  assert (exists cs, steps i2 = steps i ++ (DoCall <$> cs) /\ Forall no_error cs) as (cs & E & F).
  { assert (exists cs, ss = DoCall <$> cs /\ Forall no_error cs) as (cs & -> & F).
    { by apply stdout_calls. }
    by exists cs. }
  destruct (f (o, w) i2) as [[u | e |] i'].
  - destruct Hf as (cs' & reply & now & E' & H). exists (cs ++ cs'), reply, now.
    rewrite E', E, fmap_app, <- !app_assoc. split; [done | by apply HQ].
  - destruct Hf as (cs' & E'). exists (cs ++ cs'). by rewrite E', E, fmap_app, <- app_assoc.
  - destruct Hf as (cs' & E'). exists (cs ++ cs'). by rewrite E', E, fmap_app, <- app_assoc.
Qed.

(** What Stata is given for a cell. *)
Definition cell_command (code_ doFile : str) : str :=
  if isSingleCommand code_ then trim code_ else "include "%string ++ quoted doFile.

Definition cell_file (n : nat) : str := temp_directory_path ++ "/callisto-"%string ++ newGuid n ++ ".do"%string.

Definition cell_result (code_ doFile : str) (cs : list Call) (reply : json) : Prop :=
  if bool_decide (trim code_ = []) then success cs reply
  else if writable doFile then cell_answer (cell_command code_ doFile) cs reply
  else failure "CallistoInternalError"%string ("could not write the cell to "%string ++ doFile) [] cs reply.

Lemma calls_show silent text now : calls_only (emit_all (show silent text now)).
Proof.
  apply calls_emit_all. eapply Forall_impl; [apply show_calls |]. intros x (t & n & ->). by eexists.
Qed.

Lemma executeRequestImpl_answers count code_ config ue i :
  let (r, i') := executeRequestImpl count code_ config ue i in
  match r with
  | Ok _ => exists cs reply now, steps i' = steps i ++ (DoCall <$> cs) ++ [Reply reply now]
                                 /\ cell_result code_ (cell_file (drawn i)) cs reply
  | _ => exists cs, steps i' = steps i ++ (DoCall <$> cs)
  end.
Proof.
  unfold executeRequestImpl, cell_result. destruct (bool_decide (trim code_ = [])); [apply answers_success |].
  unfold bind at 1, tempFile. fold (cell_file (drawn i)). generalize (cell_file (drawn i)) as doFile. intros doFile.
  unfold bind at 1, writeFile. destruct (writable doFile); cbn [negb].
  - match goal with |- let (r, i') := ?m ?j in _ => enough (answers (cell_answer (cell_command code_ doFile)) m) as Ha
      by (specialize (Ha j); exact Ha) end.
    apply reply_bind; [apply cell_answer_prefixed | calls |]. intros _.
    apply answers_run_cell; [apply cell_answer_prefixed |]. intros s d. cbv zeta. fold (cell_command code_ doFile).
    intros w Ht. rewrite Ht.
    pose proof (cell_answer_prefixed (cell_command code_ doFile)) as HQ.
    destruct (cell_error _ _) as [[ename evalue] printed] eqn:Ee.
    apply reply_bind; [done | apply calls_show | intros _].
    apply reply_bind; [done | calls | intros _].
    apply reply_bind; [done | calls | intros _].
    apply reply_bind; [done | calls | intros _].
    apply reply_bind; [done | calls | intros _].
    destruct (rc _ =? 0) eqn:Hrc; cbn [negb].
    + apply (answers_weaken success); [| apply answers_success]. intros cs reply H. exists s, d. cbv zeta. by rewrite Hrc.
    + apply (answers_weaken (failure ename evalue (errorTraceback ename evalue))); [| apply answers_failure].
      intros cs reply H. exists s, d. cbv zeta. by rewrite Hrc, Ee.
  - match goal with |- let (r, i') := ?m ?j in _ => enough (answers (failure "CallistoInternalError"%string
      ("could not write the cell to "%string ++ doFile) []) m) as Ha by (specialize (Ha j); exact Ha) end.
    apply answers_failure.
Qed.

(** The status of either answer. *)
Context `{JL : !JsonLaws J}.

Lemma cell_result_status code_ doFile cs reply : cell_result code_ doFile cs reply ->
  type_of reply = Jobject
  /\ exists st, value get_str reply "status"%string "error"%string = Ok st /\ (st = "ok"%string \/ st = "error"%string).
Proof.
  assert (Hs : success cs reply -> type_of reply = Jobject
    /\ exists st, value get_str reply "status"%string "error"%string = Ok st /\ (st = "ok"%string \/ st = "error"%string)).
  { intros [_ (results & ->)]. split; [apply type_with_keys; right; split; [apply type_null | done] |].
    exists ("ok"%string : str). split; [| by left].
    apply (value_found _ _ _ (mk_str "ok"%string)); [unfold createSuccessfulReply; by find_key | by rewrite get_str_mk]. }
  assert (Hf : forall ename evalue tb, failure ename evalue tb cs reply -> type_of reply = Jobject
    /\ exists st, value get_str reply "status"%string "error"%string = Ok st /\ (st = "ok"%string \/ st = "error"%string)).
  { intros ename evalue tb (cs' & now & _ & _ & ->). split; [apply type_with_keys; right; split; [apply type_null | done] |].
    exists ("error"%string : str). split; [| by right].
    apply (value_found _ _ _ (mk_str "error"%string)); [unfold createErrorReply; by find_key | by rewrite get_str_mk]. }
  unfold cell_result. destruct (bool_decide _); [exact Hs |]. destruct (writable _); [| apply Hf].
  intros (s & f & H). cbv zeta in H. destruct (rc _ =? 0); [by apply Hs |].
  destruct (cell_error _ _) as [[ename evalue] p]. by eapply Hf.
Qed.

(** A cell whose run is defined (a request for data past 2^63 is not). *)
Definition defined_cell (count : Z) (code_ : str) (config : ExecuteRequestConfig) (ue : json) (i : StataInterpreter) : Prop :=
  fst (executeRequestImpl count code_ config ue (upd_steps [] i)) <> Undefined.

Lemma callisto_runs count code_ config ue i :
  let '(ss, exn, i') := @Kernel.executeRequestImpl J callisto count code_ config ue i in
  exists answer, well_behaved ss exn answer
  /\ match answer with
     | Some (reply, now) => exists cs, ss = (DoCall <$> cs) ++ [Reply reply now] /\ cell_result code_ (cell_file (drawn i)) cs reply
     | None => exists cs, ss = DoCall <$> cs
     end.
Proof.
  cbn [callisto Kernel.executeRequestImpl]. unfold request.
  pose proof (executeRequestImpl_answers count code_ config ue (upd_steps [] i)) as H.
  destruct (executeRequestImpl count code_ config ue (upd_steps [] i)) as [[u | w |] i']; cbn [drawn upd_steps steps app] in H.
  - destruct H as (cs & reply & now & E & H). destruct (cell_result_status _ _ _ _ H) as (Ho & st & Hst & _).
    exists (Some (reply, now)). rewrite E. split; [| by exists cs]. by apply (replies_once cs reply now [] st).
  - destruct H as (cs & E). exists None. rewrite E. split; [apply throws_first | by exists cs].
  - destruct H as (cs & E). exists None. rewrite E. split; [apply throws_first | by exists cs].
Qed.

(** The Stata kernel keeps the contract of a language.  Running a cell, it
    calls the reply callback exactly once, as its last act, or throws before it
    does.  The reply says ok exactly when Stata's return code for the cell's
    command (the cell as typed, or the do-file it was written to) is zero, with
    no error published; otherwise the error published last and the reply carry
    the same name r(<rc>), text and traceback, taken from the end of what Stata
    printed.  A cell of blanks runs nothing of the user's; a cell that cannot
    be written is an error. *)
Theorem callisto_cell count code_ config ue i : defined_cell count code_ config ue i ->
  let '(ss, exn, i') := @Kernel.executeRequestImpl J callisto count code_ config ue i in
  exists answer, well_behaved ss exn answer
  /\ match answer with
     | Some (reply, now) => exists cs, ss = (DoCall <$> cs) ++ [Reply reply now] /\ cell_result code_ (cell_file (drawn i)) cs reply
     | None => exists cs, ss = DoCall <$> cs
     end.
Proof. intros _. apply callisto_runs. Qed.

(** C17: what a client of the Stata kernel sees of a cell, from the request that
    the kernel reads to idle: the kernel's own guarantee, with the Stata
    interpreter as its language.  Whatever Stata does, there is one reply, to the
    client that asked, between the end of the execution and idle, and it is the
    interpreter's, or an InternalError when the interpreter threw; the waiting
    cells are aborted exactly when it is an error, as asked. *)
Theorem stata_cell `{Hist : !HistoryManager} `{CT : CommTypes} `{U : !CommUser} env_ms env_bytes m_kernelId uninitialised local msg c
    (k : Kernel (Lang := callisto)) code_ config soe ue :
  value get_str (header_of msg) "msg_type"%string [] = Ok ("execute_request"%string : str) ->
  parsed msg code_ config soe ue ->
  Forall abortable (queue k) ->
  let count := m_executionCount (for_language msg code_ config k) in
  defined_cell count code_ config ue (lang k) ->
  exists k' out1 out2 answer exn st,
    dispatch env_ms env_bytes m_kernelId uninitialised local msg c k = (Ok tt, k')
    /\ Forall quiet out1 /\ Forall quiet out2
    /\ match answer with
       | Some (reply, _) => (exists cs, cell_result code_ (cell_file (drawn (lang k))) cs reply)
                            /\ value get_str reply "status"%string "error"%string = Ok st /\ (st = "ok"%string \/ st = "error"%string)
       | None => st = "error"%string
       end
    /\ trace k' = trace k ++ status m_kernelId (header_of msg) "busy"%string c :: BeginExecution :: out1 ++ EndExecution
         :: (if negb (silent config) && str_eqb st "error"%string && soe then abort_reply <$> queue k else [])
         ++ [SendReply (identities msg) "execute_reply"%string (header_of msg) (getMetadata k) (final_reply count answer exn) SHELL]
         ++ (if negb (silent config) && store_history config then [StoreInputs 0 (final_count count answer) code_] else [])
         ++ [status m_kernelId (header_of msg) "idle"%string SHELL] ++ out2.
Proof.
  intros Hty Hp Hq count _. pose proof (callisto_runs count code_ config ue (lang k)) as H.
  destruct (Kernel.executeRequestImpl count code_ config ue (lang k)) as [[ss exn] i'] eqn:Himpl.
  destruct H as (answer & Hw & Ha).
  assert (exists st, match answer with
       | Some (reply, _) => (exists cs, cell_result code_ (cell_file (drawn (lang k))) cs reply)
                            /\ value get_str reply "status"%string "error"%string = Ok st /\ (st = "ok"%string \/ st = "error"%string)
       | None => st = "error"%string
       end) as (st & Hst).
  { destruct answer as [[reply now]|]; [| by eexists]. destruct Ha as (cs & _ & Hr).
    destruct (cell_result_status _ _ _ _ Hr) as (_ & st & H). exists st. split; [by exists cs | exact H]. }
  destruct (execute_cell_trace env_ms env_bytes m_kernelId uninitialised local msg c k code_ config soe ue ss exn i' answer st
    Hty Hp Himpl Hw) as (k' & o1 & o2 & E & F1 & F2 & T); [by destruct answer as [[reply now]|]; [apply Hst | apply Hst] | done |].
  exists k', o1, o2, answer, exn, st. done.
Qed.

End Steps.

(** ** The plugin's rows *)
Section Rows.
Context `{J : JsonLib} `{Stata : !StataLib} `{Sys : !System}.

(** What the client gets of a value. *)
Definition value_json (c : SinkCall) : json :=
  match c with
  | Number bits => json_of_double bits
  | Missing code_ => missing_text code_
  | Text bytes => mk_str (utf8 bytes)
  | RowEnd => null
  end.

Lemma plugin_value_no_end d obs var : plugin_value d obs var <> RowEnd.
Proof. unfold plugin_value. by cases. Qed.

Lemma collect_row cs rows row : Forall (fun c => c <> RowEnd) cs ->
  fold_left sink_call cs (rows, row) = (rows, row ++ (value_json <$> cs)).
Proof.
  intros H. revert row. induction H as [|c cs Hc _ IH]; intros row; cbn; [by rewrite app_nil_r |].
  destruct c; cbn; rewrite ?IH, <- ?app_assoc; done.
Qed.

Lemma collect_rows l : forall rows, Forall (Forall (fun c => c <> RowEnd)) l ->
  fold_left sink_call (l ≫= fun cs => cs ++ [RowEnd]) (rows, []) = (rows ++ ((fun cs => mk_array (value_json <$> cs)) <$> l), []).
Proof.
  induction l as [|cs l IH]; intros rows H; cbn; [by rewrite app_nil_r |]. apply Forall_cons in H as [Hc Hl].
  rewrite !fold_left_app, collect_row by done. cbn. rewrite IH by done. by rewrite <- app_assoc.
Qed.

(** The code of a missing value, from the bits of its double: Stata's are
    2^1023 times 1 + k/4096. *)
Definition missing_bits (k : Z) : Z := Z.lor (Z.shiftl 0x7FE 52) (Z.shiftl k 40).

(** The raw values of a page.  What the plugin hands over, a value at a time,
    arrives in the kernel as one row for each observation of the range that
    [if] selects, in order, each with one value for each variable, in order: a
    string's bytes as UTF-8 (up to its end, or by its length), a number, null
    for the missing value "." and ".a" to ".z" for the others, which the bits
    of the double tell apart. *)
Theorem plugin_rows d :
  collected (stata_call d)
  = mk_array ((fun obs => mk_array ((fun var => value_json (plugin_value d obs var)) <$> seqZ 1 (SF_nvars d)))
              <$> List.filter (SF_ifobs d) (seqZ (SF_in1 d) (SF_in2 d - SF_in1 d + 1)))
  /\ forall k, 0 <= k <= 26 ->
       missing_text (missingCode (missing_bits k)) = (if k =? 0 then null else mk_str ["."%char; chr (96 + k)]).
Proof.
  split.
  - unfold collected, stata_call. f_equal. generalize (seqZ (SF_in1 d) (SF_in2 d - SF_in1 d + 1)) as obs. intros obs.
    assert ((obs ≫= fun o => if SF_ifobs d o then (plugin_value d o <$> seqZ 1 (SF_nvars d)) ++ [RowEnd] else [])
      = ((fun o => plugin_value d o <$> seqZ 1 (SF_nvars d)) <$> List.filter (SF_ifobs d) obs) ≫= fun cs => cs ++ [RowEnd]) as ->.
    { induction obs as [|o obs IH]; [done |]. cbn. rewrite IH. by destruct (SF_ifobs d o). }
    rewrite collect_rows; cbn.
    + rewrite <- list_fmap_compose. apply list_fmap_ext. intros i o _. cbn. by rewrite <- list_fmap_compose.
    + apply Forall_fmap, Forall_true. intros o. cbn. apply Forall_fmap, Forall_true. intros var. apply plugin_value_no_end.
  - intros k Hk. assert (forallb (fun k => missingCode (missing_bits k) =? k) (seqZ 0 27) = true) as H by (vm_compute; reflexivity).
    rewrite forallb_forall in H. rewrite (proj1 (Z.eqb_eq _ _) (H k ltac:(apply list_elem_of_In, elem_of_seqZ; lia))).
    unfold missing_text. destruct (k =? 0); [done |]. by replace (97 + k - 1) with (96 + k) by lia.
Qed.

(** ** What a request for data makes Stata run *)

(** [m] only runs commands that [P] allows. *)
Definition runs (P : str -> Prop) {A} (m : M A) : Prop :=
  forall i, exists cs, commands (snd (m i)) = commands i ++ cs /\ Forall P cs.

(** What [m] gives is as [R] says. *)
Definition gives {A} (R : A -> Prop) (m : M A) : Prop :=
  forall i, match fst (m i) with Ok a => R a | _ => True end.

Lemma runs_none (P : str -> Prop) {A} (m : M A) : (forall i, commands (snd (m i)) = commands i) -> runs P m.
Proof. intros H i. exists []. rewrite H. by rewrite app_nil_r. Qed.

Lemma runs_bind_gives (P : str -> Prop) {A B} (R : A -> Prop) (m : M A) (f : A -> M B) :
  runs P m -> gives R m -> (forall a, R a -> runs P (f a)) -> runs P (bind m f).
Proof.
  intros Hm Hg Hf i. unfold bind. destruct (Hm i) as (cs & E & F). specialize (Hg i).
  destruct (m i) as [[a | w |] i']; cbn [fst snd] in *; [| by exists cs | by exists cs].
  destruct (Hf a Hg i') as (cs' & E' & F'). exists (cs ++ cs'). rewrite E', E, <- app_assoc.
  split; [done | by apply Forall_app].
Qed.

Lemma runs_bind (P : str -> Prop) {A B} (m : M A) (f : A -> M B) : runs P m -> (forall a, runs P (f a)) -> runs P (bind m f).
Proof. intros Hm Hf. apply (runs_bind_gives P (fun _ => True)); [done | | auto]. intros i. by destruct (fst (m i)). Qed.

Lemma runs_iter (P : str -> Prop) {A} (f : A -> M unit) l : (forall a, a ∈ l -> runs P (f a)) -> runs P (iterM f l).
Proof.
  induction l as [|a l IH]; intros Hf; cbn; [by apply runs_none |]. apply runs_bind; [apply Hf; by left |].
  intros _. apply IH. intros b Hb. apply Hf. by right.
Qed.

Lemma runs_execute (P : str -> Prop) command : P command -> runs P (execute command).
Proof.
  intros H i. unfold execute. destruct (StataSO_Execute _ _ _) as [[o s] f]. exists [command]. by split; [| constructor].
Qed.

Lemma runs_writeFile P path content : runs P (writeFile path content).
Proof. apply runs_none. intros i. unfold writeFile. by destruct (writable path). Qed.

(** Follows the structure of a computation; the commands it runs are left. *)
Ltac runs :=
  repeat match goal with
  | |- forall _, runs _ _ => intros ?
  | |- forall _, _ -> runs _ _ => intros ? ?
  | |- runs _ (match ?x with _ => _ end) => destruct x
  | |- runs _ (bind _ _) => apply runs_bind
  | |- runs _ (iterM _ _) => apply runs_iter
  | |- runs _ (execute _) => apply runs_execute
  | |- runs _ (writeFile _ _) => apply runs_writeFile
  | |- runs _ (run_rc _) => unfold run_rc
  | |- runs _ (run_silent _) => unfold run_silent
  | |- runs _ (runCaptured _) => unfold runCaptured
  | |- runs _ _ => by apply runs_none
  end.

(** The commands of a request for the observations of [variables], in a dataset
    of [N] observations. *)
Inductive data_command (ok : list str -> Prop) : str -> Prop :=
| asks_size : data_command ok "display _N"%string
| asks_names out : data_command ok ("mata: callisto_names("%string ++ dquote :: "variables"%string ++ dquote :: ", "%string ++ (dquote :: out ++ [dquote]) ++ ")"%string)
| confirms vs : ok vs -> data_command ok ("confirm variable"%string ++ varlist vs ++ ", exact"%string)
| loads_library file : data_command ok ("quietly do "%string ++ quoted file)
| loads_plugin file : data_command ok ("capture program _callisto_plugin, plugin using("%string ++ quoted file ++ ")"%string)
| reads_raw vs a b : ok vs -> 1 <= a <= b -> b - a < kMaxRows ->
    data_command ok ("plugin call _callisto_plugin"%string ++ varlist vs ++ " in "%string ++ range_text a b ++ ", "%string ++ to_string sink_address)
| reads_formatted vs a b out flag : ok vs -> 1 <= a <= b -> b - a < kMaxRows ->
    data_command ok ("mata: callisto_rows("%string ++ (dquote :: out ++ [dquote]) ++ ", "%string ++ dquote :: join [" "%char] vs ++ dquote :: ", "%string ++ to_string a
            ++ ", "%string ++ to_string b ++ ", "%string ++ flag ++ ")"%string).

Lemma runs_installMataLibrary ok : runs (data_command ok) installMataLibrary.
Proof. unfold installMataLibrary. runs. constructor. Qed.

Lemma runs_mataJson ok call : (forall out, match replace_first "@OUT@"%string (dquote :: out ++ [dquote]) call with
                                      | Ok c => data_command ok ("mata: "%string ++ c) | _ => True end) ->
  runs (data_command ok) (mataJson call).
Proof.
  intros H. unfold mataJson. apply runs_bind; [by apply runs_none | intros out]. specialize (H out).
  apply (runs_bind_gives _ (fun c => data_command ok ("mata: "%string ++ c))); [by apply runs_none | intros i; exact H | intros c Hc].
  pose proof (runs_installMataLibrary ok). runs; done.
Qed.

Lemma runs_mataNames ok : runs (data_command ok) (mataNames "variables"%string).
Proof.
  unfold mataNames. apply runs_bind; [| intros ?; runs]. apply runs_mataJson. intros out. cbn. apply (asks_names ok out).
Qed.

Lemma range_ok start count last observations : last_of start count = Ok last -> 0 <= count <= kMaxRows -> 1 <= start ->
  start <= Z.min observations last ->
  1 <= start <= Z.min observations last /\ Z.min observations last - start < kMaxRows.
Proof. unfold last_of. destruct (_ <? _); [| done]. intros [= <-]. lia. Qed.

Lemma runs_pluginRows ok vs a b : ok vs -> 1 <= a <= b -> b - a < kMaxRows -> runs (data_command ok) (pluginRows vs a b).
Proof. intros. unfold pluginRows. runs; by constructor. Qed.

Lemma runs_mata_rows ok vs a b formatted : ok vs -> 1 <= a <= b -> b - a < kMaxRows ->
  runs (data_command ok) (mata_rows vs a b formatted).
Proof.
  intros. unfold mata_rows. apply runs_mataJson. intros out. cbn.
  pose proof (reads_formatted ok vs a b out (if formatted then "1"%string else "0"%string)) as H'. cbn in H'.
  rewrite <- ?app_assoc in H' |- *. cbn in *. by apply H'.
Qed.

Lemma runs_confirm (ok : list str -> Prop) vs : ok vs -> (forall v, v ∈ vs -> ok [v]) -> runs (data_command ok) (confirm_variables vs).
Proof.
  intros H1 H2. unfold confirm_variables, require. runs; [by constructor |].
  match goal with H : ?v ∈ vs |- data_command _ ?c => pose proof (confirms ok [v] (H2 v H)) as Hc end.
  cbn in Hc |- *. rewrite app_nil_r in Hc. exact Hc.
Qed.

(** The names a request for data gives. *)
Definition requested (request : json) : result (list str) :=
  match find (if is_object request then request else empty_object) "variables"%string with
  | Some v => if is_array v then named_variables (elements v) else Ok []
  | None => Ok []
  end.

Lemma requested_names request vs : requested request = Ok vs -> Forall (fun v => isName v = true) vs.
Proof.
  unfold requested. destruct (find _ _) as [v|]; [| by intros [= <-]]. destruct (is_array v); [| by intros [= <-]].
  revert vs. generalize (elements v) as names. clear. intros names. induction names as [|n names IH]; intros vs; cbn [named_variables].
  - intros [= <-]. constructor.
  - destruct (get_str n) as [name|]; [| by destruct (dump _ n)]. destruct (isName name) eqn:Hn; [| by destruct (dump _ n)].
    destruct (named_variables names) as [ns | |]; [| done | done]. intros [= <-]. constructor; [done | by apply IH].
Qed.

(** What may follow the commands: the names of the request, or those of the
    dataset when it names none. *)
Definition allowed (request : json) (vs : list str) : Prop :=
  match requested request with
  | Ok (_ :: _) => Forall (fun v => isName v = true) vs
  | _ => True
  end.

(** What a request for observations makes Stata run.  Text of the request
    gets into a command only as a plain Stata name: a request with anything
    else among its variables is refused before any command is run.  Values are
    only read for a range of observations that starts at 1 or later, is not
    empty and has at most 100,000 of them; every other command is one of the
    fixed ones. *)
Theorem data_request_commands request i :
  (exists cs, commands (snd (readData request i)) = commands i ++ cs /\ Forall (data_command (allowed request)) cs)
  /\ (forall what, requested request = Throw what -> readData request i = (Throw what, i)).
Proof.
  split; [| intros what H; unfold readData, bind at 1, lift; fold (requested request); by rewrite H].
  enough (H : runs (data_command (allowed request)) (readData request)) by apply H. unfold readData. fold (requested request).
  apply (runs_bind_gives _ (fun vs => requested request = Ok vs)).
  { by apply runs_none. } { intros j. cbn. by destruct (requested request). }
  intros vs Hvs. set (named := negb (bool_decide (vs = []))).
  assert (Hok : forall ws, (if named then ws = vs \/ (exists v, v ∈ vs /\ ws = [v]) else True) -> allowed request ws).
  { intros ws Hws. unfold allowed. rewrite Hvs. destruct vs as [|v vs']; [done |]. pose proof (requested_names _ _ Hvs) as Hn.
    unfold named in Hws. rewrite bool_decide_eq_false_2 in Hws by done. cbn in Hws.
    destruct Hws as [-> | (w & Hw & ->)]; [done |]. constructor; [| constructor]. rewrite Forall_forall in Hn. by apply Hn. }
  apply (runs_bind_gives _ (fun ws => named = true -> ws = vs)).
  { destruct named; [by apply runs_none | apply runs_mataNames]. }
  { intros j. destruct named; [done |]. by destruct (fst _). }
  intros ws Hws. apply runs_bind; [by apply runs_none | intros formatted].
  apply runs_bind; [runs; apply asks_size | intros r]. apply runs_bind; [by apply runs_none | intros observations].
  apply runs_bind; [by apply runs_none | intros start0]. apply runs_bind; [by apply runs_none | intros count0].
  set (start := Z.max 1 start0). set (count := clamp count0 0 kMaxRows).
  pose proof (clamp_range count0 0 kMaxRows ltac:(unfold kMaxRows; lia)) as Hcount. fold count in Hcount.
  apply (runs_bind_gives _ (fun last => last_of start count = Ok last)).
  { by apply runs_none. } { intros j. cbn. by destruct (last_of start count). }
  intros last Hlast. apply runs_bind; [| intros rows; runs].
  assert (Hallowed : allowed request ws).
  { apply Hok. destruct named; [left; by apply Hws | done]. }
  destruct (negb (bool_decide (ws = [])) && (start <=? Z.min observations last)) eqn:Hr; [| by apply runs_none].
  apply andb_true_iff in Hr as [_ Hr%Z.leb_le].
  destruct (range_ok start count last observations Hlast Hcount ltac:(lia) Hr) as [R1 R2].
  apply runs_bind.
  { destruct named eqn:Hn; [| by apply runs_none]. apply runs_confirm; [done |]. intros v Hv. apply Hok.
    right. exists v. split; [by rewrite <- (Hws eq_refl) | done]. }
  intros _. apply runs_bind; [destruct formatted; [by apply runs_none | by apply runs_pluginRows] | intros read].
  apply runs_bind; [destruct read; [by apply runs_none | by apply runs_mata_rows] | intros read']. destruct read'; by apply runs_none.
Qed.

End Rows.

(** ** The names of commands *)
Section Names.

#[local] Instance str_le_total : Total str_le.
Proof.
  intros a b. unfold str_le. destruct (str_lt b a) eqn:H; [right | by left].
  destruct (str_lt a b) eqn:H'; [| done]. pose proof (str_lt_trans _ _ _ H H') as Hr. by rewrite str_lt_irrefl in Hr.
Qed.

#[local] Instance str_le_trans : Transitive str_le.
Proof.
  intros a b c. unfold str_le. intros H1 H2. destruct (str_lt c a) eqn:H; [| done].
  destruct (str_eqb a b) eqn:E; [apply str_eqb_eq in E as ->; congruence |].
  pose proof (str_lt_total b a) as Ht. rewrite H1 in Ht.
  assert (str_eqb b a = false) as Hne by (revert E; unfold str_eqb; rewrite !bool_decide_eq_false; congruence).
  specialize (Ht Hne eq_refl). pose proof (str_lt_trans _ _ _ H Ht). congruence.
Qed.

Lemma unique_elem l x : x ∈ unique l <-> x ∈ l.
Proof.
  induction l as [|a l IH]; [done |]. destruct l as [|b l]; [done |]. cbn [unique] in *.
  destruct (str_eqb a b) eqn:E; rewrite !elem_of_cons in *; [apply str_eqb_eq in E as -> |]; rewrite IH; tauto.
Qed.

Lemma unique_sorted l : StronglySorted str_le l -> StronglySorted (fun a b => str_lt a b = true) (unique l).
Proof.
  induction l as [|a l IH]; [constructor |]. intros H. apply StronglySorted_inv in H as [Hl Ha].
  destruct l as [|b l]; [by repeat constructor |]. cbn [unique] in *. specialize (IH Hl).
  destruct (str_eqb a b) eqn:E; [done |]. constructor; [done |]. rewrite Forall_forall in *. intros x Hx%(proj1 (unique_elem (b :: l) x)).
  assert (Hab : str_lt a b = true).
  { specialize (Ha b ltac:(by left)). unfold str_le in Ha.
    apply str_lt_total; [| done]. revert E. unfold str_eqb. rewrite !bool_decide_eq_false. congruence. }
  apply elem_of_cons in Hx as [-> | Hx]; [done |]. apply StronglySorted_inv in Hl as [_ Hb]. rewrite Forall_forall in Hb.
  specialize (Hb x Hx). unfold str_le in Hb. destruct (str_eqb b x) eqn:Ebx; [by apply str_eqb_eq in Ebx as <- |].
  eapply str_lt_trans; [exact Hab |]. apply str_lt_total; [| done].
  revert Ebx. unfold str_eqb. rewrite !bool_decide_eq_false. congruence.
Qed.

Lemma sort_unique_spec names :
  StronglySorted (fun a b => str_lt a b = true) (sort_unique names) /\ forall x, x ∈ sort_unique names <-> x ∈ names.
Proof.
  unfold sort_unique. split; [apply unique_sorted, StronglySorted_merge_sort; apply _ |]. intros x.
  etrans; [apply unique_elem |]. by rewrite merge_sort_Permutation.
Qed.

Lemma first_seen_elem names : forall seen x, x ∈ first_seen seen names <-> x ∈ names /\ x ∉ seen.
Proof.
  induction names as [|n names IH]; intros seen x; cbn [first_seen].
  - rewrite elem_of_nil. tauto.
  - case_bool_decide as H; rewrite ?elem_of_cons, IH, ?not_elem_of_cons; [| destruct (decide (x = n)) as [-> |]; tauto].
    split; [tauto |]. intros [[-> | Hx] Hs]; [done | tauto].
Qed.

Lemma part_of_spec seen name : forall before,
  part_of seen before name = true <-> exists a b, name = a ++ "_"%char :: b /\ before ++ a ∈ seen.
Proof.
  induction name as [|c name IH]; intros before; cbn [part_of].
  - split; [done |]. intros (a & b & H & _). by destruct a.
  - rewrite orb_true_iff, andb_true_iff, char_eqb_eq, bool_decide_eq_true, IH. split.
    + intros [[-> H] | (a & b & -> & H)]; [exists [], name; by rewrite app_nil_r | exists (c :: a), b].
      by rewrite <- app_assoc in H.
    + intros ([|x a] & b & [= -> H] & Hin); [left; by rewrite app_nil_r in Hin | right].
      exists a, b. by rewrite <- app_assoc.
Qed.

Context `{J : JsonLib} `{Stata : !StataLib} `{Sys : !System}.

(** An ado-file of a folder of the adopath: in one of its directories, or in a
    one-letter folder of it. *)
Definition ado_file (directories : list str) (name : str) : Prop :=
  exists directory folder e, directory ∈ directories /\ folder ∈ ado_folders directory
  /\ e ∈ directory_iterator folder /\ ado_stem (filename e) = Some name /\ is_private name = false.

Lemma found_elem directories name :
  name ∈ first_seen [] ((directories ≫= ado_folders) ≫= ado_names) <-> ado_file directories name.
Proof.
  rewrite first_seen_elem. split.
  - intros [H _]. apply list_elem_of_bind in H as (folder & Hn & Hf). apply list_elem_of_bind in Hf as (directory & Hf & Hd).
    unfold ado_names in Hn. apply list_elem_of_omap in Hn as (e & He & Hs).
    destruct (ado_stem (filename e)) as [n|] eqn:E; [| done]. destruct (is_private n) eqn:P; [done |]. injection Hs as <-.
    by exists directory, folder, e.
  - intros (directory & folder & e & Hd & Hf & He & Hs & Hp). split; [| apply not_elem_of_nil].
    apply list_elem_of_bind. exists folder. split; [| apply list_elem_of_bind; by exists directory].
    apply list_elem_of_omap. exists e. by rewrite Hs, Hp.
Qed.

(** The commands that completion offers for a command's first word: in
    order, each once, and exactly Stata's own, those of the ado-files on the
    adopath that are not private (_name) and not a part of another command (a
    name before one of its '_' being a command), and the programs of the
    session. *)
Theorem command_names directories listed :
  let names := sort_unique (builtinCommands ++ ado_commands directories ++ program_names listed) in
  StronglySorted (fun a b => str_lt a b = true) names
  /\ forall name, name ∈ names <->
       name ∈ builtinCommands \/ name ∈ program_names listed
       \/ ado_file directories name
          /\ ~ exists part rest, name = part ++ "_"%char :: rest /\ (ado_file directories part \/ part ∈ builtinCommands).
Proof.
  cbv zeta. destruct (sort_unique_spec (builtinCommands ++ ado_commands directories ++ program_names listed)) as [Hs Hin].
  split; [done |]. intros name. rewrite Hin, !elem_of_app.
  assert (name ∈ ado_commands directories <-> ado_file directories name
    /\ ~ exists part rest, name = part ++ "_"%char :: rest /\ (ado_file directories part \/ part ∈ builtinCommands)) as ->; [| tauto].
  unfold ado_commands. rewrite list_elem_of_In, filter_In, <- list_elem_of_In, found_elem.
  apply and_iff_under. intros _. rewrite negb_true_iff, <- not_true_iff_false. apply not_iff_compat. rewrite part_of_spec.
  split; intros (part & rest & -> & H); exists part, rest; (split; [done |]).
  - apply elem_of_app in H as [H | H]; [left; by apply found_elem in H | by right].
  - apply elem_of_app. destruct H as [H | H]; [left; by apply found_elem | by right].
Qed.

(** What [commandNames] answers: the names for the folders that Mata gave last
    and the programs listed now. *)
Lemma commandNames_result i names i' : commandNames i = (Ok names, i') ->
  exists listed, names = sort_unique (builtinCommands ++ m_adoCommands i' ++ program_names listed) /\ m_adoCommandsRead i' = true
  /\ (m_adoCommandsRead i = true -> m_adoCommands i' = m_adoCommands i).
Proof.
  unfold commandNames, bind at 1, gets. generalize sort_unique as S, builtinCommands as B, program_names as P. intros S B P. destruct (m_adoCommandsRead i) eqn:Hr.
  - unfold bind, ret, runCaptured, bind, execute. destruct (StataSO_Execute _ _ _) as [[o s] f]. cbn.
    intros [= <- <-]. by exists (utf8 (output_of o)).
  - unfold bind at 1 2, modify at 1. unfold bind at 1. destruct (mataNames _ _) as [[dirs | |] i1]; [| done | done].
    unfold modify, bind, ret, runCaptured, bind, execute. cbn. destruct (StataSO_Execute _ _ _) as [[o s] f]. cbn.
    intros [= <- <-]. by exists (utf8 (output_of o)).
Qed.

End Names.

(** ** The library that is loaded *)

(** The first path with a file decides; when there is none, the message names
    every path that was looked at. *)
Lemma search_library_first os stataHome all before edition path after : forall tried,
  Forall (fun c => is_regular_file os c.2 = false) before -> is_regular_file os path = true ->
  search_library os stataHome all (before ++ (edition, path) :: after) tried = load_candidate os path edition all.
Proof.
  induction before as [|[ed p] before IH]; intros tried Hb Hp; cbn; [by rewrite Hp |].
  apply Forall_cons in Hb as [Hq Hb]. cbn in Hq. rewrite Hq. by apply IH.
Qed.

Lemma search_library_none os stataHome all candidates : forall tried,
  Forall (fun c => is_regular_file os c.2 = false) candidates ->
  search_library os stataHome all candidates tried
  = Throw ("No Stata shared library found in "%string ++ stataHome ++ " (Stata 17 or newer is needed). Looked for:"%string
           ++ ((tried ++ ((fun c => lexically_normal os c.2) <$> candidates)) ≫= fun path => newline :: "  "%string ++ path)).
Proof.
  induction candidates as [|[ed p] candidates IH]; intros tried H; [cbn; by rewrite app_nil_r |].
  apply Forall_cons in H as [Hq H]. cbn [search_library snd] in *. rewrite Hq, IH by done. cbn. by rewrite <- app_assoc.
Qed.

(** ** The hypotheses can hold: a Stata that prints *)
Section Toy.

Definition stata_line (s : str) : str := s ++ [newline].

Definition toy_run (command : str) : Outcome :=
  if str_eqb command "display 1"%string then
    {| rc := 0; polls := [{| chunk := "1"%string; read_at := 10; checked_at := 10 |}]; rest := [newline]; sink := []; ended_at := 20 |}
  else if str_eqb command "display x"%string then
    {| rc := 111; polls := []; rest := stata_line "x not found"%string ++ stata_line "r(111);"%string; sink := []; ended_at := 20 |}
  else if str_eqb command "display _N"%string then {| rc := 0; polls := []; rest := stata_line "74"%string; sink := []; ended_at := 20 |}
  else {| rc := 0; polls := []; rest := []; sink := []; ended_at := 30 |}.

#[local] Instance toy : StataLib := {|
  stata := unit;
  StataSO_Execute command s f := (toy_run command, s, f);
  StataSO_Shutdown s := s;
  StataSO_SetBreak s := s;
  EVP_EncodeBlock bytes := bytes
|}.

#[local] Instance desk : System (J := Concrete.concrete) := {|
  temp_directory_path := "/tmp"%string;
  newGuid n := to_string (Z.of_nat n);
  writable _ := true;
  directory_iterator _ := [];
  supervised := false;
  answer _ := [];
  kMataLibrary := "adopath + @DIR@"%string;
  kBrowseProgram := "program define @NAME@"%string;
  kBrowseNames := ["browse"%string : str];
  sink_address := 4096;
  json_of_double bits := mk_int (JsonLib := Concrete.concrete) bits
|}.

Definition fresh : StataInterpreter (J := Concrete.concrete) (Stata := toy) :=
  Build_StataInterpreter tt ∅ 0 0%nat 0%nat [] [] "SE"%string "18"%string false false [] false "/tmp/lib"%string [].

Definition plain_config : ExecuteRequestConfig := {| silent := false; store_history := true; allow_stdin := false |}.

(** A cell that prints, and one that fails: its error is published, not
    printed. *)
Example toy_cells :
  stdout_text (fst (fst (@Kernel.executeRequestImpl _ callisto 1 "display 1"%string plain_config null fresh))) = stata_line "1"%string
  /\ stdout_text (fst (fst (@Kernel.executeRequestImpl _ callisto 1 "display x"%string plain_config null fresh))) = []
  /\ List.last (fst (fst (@Kernel.executeRequestImpl _ callisto 1 "display x"%string plain_config null fresh))) (Reply null 0)
     = Reply (createErrorReply "r(111)"%string "x not found"%string (mk_array [mk_str "x not found"%string; mk_str "r(111);"%string])) 30.
Proof. by vm_compute. Qed.

Lemma whole_text_b s :
  forallb (fun l => negb (existsb (char_eqb carriage_return) l) && (bool_decide (l = []) || negb (bool_decide (trim l = [])))) (split_all newline s) = true ->
  whole_text s.
Proof.
  intros H. unfold whole_text. apply Forall_forall. intros l Hl. rewrite forallb_forall in H.
  specialize (H l ltac:(by apply list_elem_of_In)). apply andb_true_iff in H as [H1 H2]. split.
  - intros Hc. apply negb_true_iff, not_true_iff_false in H1. apply H1, existsb_exists. exists carriage_return.
    split; [by apply list_elem_of_In | apply char_eqb_refl].
  - apply orb_true_iff in H2 as [H2 | H2]; [left; by apply bool_decide_eq_true in H2 | right].
    by apply negb_true_iff, bool_decide_eq_false in H2.
Qed.

Definition echoed : Outcome :=
  {| rc := 0; polls := [{| chunk := newline :: ". dis"%string; read_at := 10; checked_at := 200 |}];
     rest := "play 1"%string ++ newline :: stata_line "1"%string; sink := []; ended_at := 400 |}.

Lemma cell_output_witness :
  cell_text false echoed = stata_line "1"%string
  /\ let (ss, w) := show_output false false 0 echoed in
     tail w = last_bytes kErrorTailBytes (utf8 (output_of echoed)).
Proof.
  split; [by vm_compute |].
  assert (Hw : whole_text (utf8 (output_of echoed))) by (apply whole_text_b; by vm_compute).
  pose proof (cell_output false false 0 echoed [] (or_intror Hw)) as H.
  destruct (show_output false false 0 echoed) as [ss w]. exact (proj1 H).
Defined.

Lemma callisto_cell_witness : exists answer,
  well_behaved (fst (fst (@Kernel.executeRequestImpl _ callisto 1 "display 1"%string plain_config null fresh))) None answer.
Proof.
  assert (Hd : defined_cell 1 "display 1"%string plain_config null fresh) by (vm_compute; discriminate).
  pose proof (callisto_cell (JL := Concrete.concrete_laws) 1 "display 1"%string plain_config null fresh Hd) as H. clear Hd.
  assert (E : snd (fst (@Kernel.executeRequestImpl _ callisto 1 "display 1"%string plain_config null fresh)) = None) by (by vm_compute).
  revert H E. destruct (Kernel.executeRequestImpl _ _ _ _ _) as [[ss exn] i']. intros (answer & Hw & _) E. cbn in E |- *. subst exn.
  by exists answer.
Defined.

Definition stata_kernel : Kernel (J := Concrete.concrete) (Lang := callisto) (Hist := no_history) :=
  {| trace := []; interp := example_start; lang := (fresh : @lstate _ callisto); comms := empty_world; history := tt;
     queue := []; ended := []; awaiting := []; iso_now := "now"%string |}.

Lemma stata_cell_witness : exists k' : Kernel (J := Concrete.concrete) (Lang := callisto) (Hist := no_history),
  dispatch (U := keeper) None None ("k"%string : str) false 0%nat (example_cell "display 1"%string) SHELL stata_kernel = (Ok tt, k').
Proof.
  destruct (stata_cell (JL := Concrete.concrete_laws) (Hist := no_history) (U := keeper) None None ("k"%string : str) false 0%nat
    (example_cell "display 1"%string) SHELL stata_kernel "display 1"%string example_config true empty_object)
    as (k' & out1 & out2 & answer & exn & st & E & _).
  - vm_compute. reflexivity.
  - apply example_parsed.
  - constructor.
  - vm_compute. discriminate.
  - exists k'. exact E.
Defined.

Definition ask_data (members : list (str * json (JsonLib := Concrete.concrete))) := readData (mk_object members) fresh.

Lemma data_request_commands_witness :
  ask_data [("variables"%string : str, mk_array [mk_str "x; shell rm *"%string])]
  = (Throw ("not a variable name: "%string ++ match dump Strict (mk_str "x; shell rm *"%string) with Ok t => t | _ => [] end), fresh).
Proof.
  unfold ask_data. apply (data_request_commands _ fresh). vm_compute. reflexivity.
Defined.

Definition two_by_two : PluginInterface := {|
  SF_nvars := 2; SF_in1 := 3; SF_in2 := 4; SF_ifobs _ := true; SF_var_is_string var := var =? 1; SF_var_is_strl _ := false;
  SF_var_is_binary _ _ := false; SF_sdatalen _ _ := 0; SF_strldata _ _ := None;
  SF_sdata _ _ := Some ("ab"%string : str); SF_vdata var obs := Some (if obs =? 3 then 7 else missing_bits 2);
  SF_is_missing bits := negb (bits =? 7) |}.

Lemma plugin_rows_witness :
  collected (stata_call two_by_two) = mk_array [mk_array [mk_str "ab"%string; mk_int 7]; mk_array [mk_str "ab"%string; mk_str ".b"%string]]
  /\ missing_text (missingCode (missing_bits 2)) = mk_str (JsonLib := Concrete.concrete) ".b"%string.
Proof.
  split; [vm_compute; reflexivity |]. rewrite (proj2 (plugin_rows two_by_two) 2 ltac:(lia)). reflexivity.
Defined.

(** A page far past the end overflows a signed integer. *)
Example far_page_overflows : fst (ask_data [("start"%string : str, mk_int (2 ^ 63 - 1))]) = Undefined.
Proof. vm_compute. reflexivity. Qed.

End Toy.
