(* ===== verification/Server.v ===== *)
(** * The server: transport/server (server_zmq_impl.cpp, server_zmq.cpp,
    server_zmq_default.cpp) and transport/server.cpp

    Three threads share the server.  The main thread polls the sockets and runs
    the handlers; while a cell runs it cannot, and the watcher thread reads the
    sockets for it: an interrupt or debug request is handled there at once, a
    shell request that the interpreter answers while busy goes to the busy
    thread's queue, and the rest is set aside for the main thread.  What a
    thread does while it holds [m_controlMutex] (or [m_busyMutex]) is one
    [Call], so a run is any sequence of calls: every interleaving of the threads
    with the clients.  A socket is the list of the multipart messages that wait
    in it. *)

From Stdlib Require Import ZArith Lia.
From S2P Require Import Prelude Crypto Json Wire.

(** [l] is made of [l1] and [l2], each in its order. *)
Inductive interleave {A} : list A -> list A -> list A -> Prop :=
| interleave_nil : interleave [] [] []
| interleave_left x l1 l2 l : interleave l1 l2 l -> interleave (x :: l1) l2 (x :: l)
| interleave_right x l1 l2 l : interleave l1 l2 l -> interleave l1 (x :: l2) (x :: l).
#[export] Hint Constructors interleave : core.

Lemma interleave_snoc_left {A} (x : A) l1 l2 l : interleave l1 l2 l -> interleave (l1 ++ [x]) l2 (l ++ [x]).
Proof. intros H. induction H; cbn; auto. Qed.

Lemma interleave_snoc_right {A} (x : A) l1 l2 l : interleave l1 l2 l -> interleave l1 (l2 ++ [x]) (l ++ [x]).
Proof. intros H. induction H; cbn; auto. Qed.

Section Server.
Context `{J : JsonLib} `{Ossl : OpenSSL}.

(** The key of the connection; which handlers were set ([ServerZmq] sets both);
    the filter of the requests answered while busy; and whether the listener
    that aborts a request throws on it. *)
Context (p_auth : Authentication) (m_interruptHandler m_busyShellHandler : bool)
        (m_busyShellFilter : option (str -> bool)) (abort_throws : Message -> bool).

Inductive socket := SHELL | CONTROL.

(** What was done with the messages read: given to the main thread's listener,
    to the interrupt handler on the watcher thread, to the busy thread, aborted;
    and the main thread's idle work, and the end of the channels' threads. *)
Inductive Event :=
| Dispatched (m : Message) (c : socket)
| Interrupted (m : Message)
| Answered (m : Message)
| Aborted (m : Message)
| Idle
| ChannelsStopped.

Record Server := {
  m_shell : list frames;
  m_controller : list frames;
  m_deferredShell : list Message;
  m_deferredControl : list Message;
  m_busyQueue : list Message;
  m_watching : bool;
  m_requestStop : bool;
  m_channelsStopped : bool;
  log : list Event;
  (** what the clients sent so far *)
  shell_arrived : list frames;
  control_arrived : list frames
}.

Definition set_shell l s := {| m_shell := l; m_controller := m_controller s; m_deferredShell := m_deferredShell s;
  m_deferredControl := m_deferredControl s; m_busyQueue := m_busyQueue s; m_watching := m_watching s;
  m_requestStop := m_requestStop s; m_channelsStopped := m_channelsStopped s; log := log s;
  shell_arrived := shell_arrived s; control_arrived := control_arrived s |}.
Definition set_controller l s := {| m_shell := m_shell s; m_controller := l; m_deferredShell := m_deferredShell s;
  m_deferredControl := m_deferredControl s; m_busyQueue := m_busyQueue s; m_watching := m_watching s;
  m_requestStop := m_requestStop s; m_channelsStopped := m_channelsStopped s; log := log s;
  shell_arrived := shell_arrived s; control_arrived := control_arrived s |}.
Definition set_deferredShell l s := {| m_shell := m_shell s; m_controller := m_controller s; m_deferredShell := l;
  m_deferredControl := m_deferredControl s; m_busyQueue := m_busyQueue s; m_watching := m_watching s;
  m_requestStop := m_requestStop s; m_channelsStopped := m_channelsStopped s; log := log s;
  shell_arrived := shell_arrived s; control_arrived := control_arrived s |}.
Definition set_deferredControl l s := {| m_shell := m_shell s; m_controller := m_controller s;
  m_deferredShell := m_deferredShell s; m_deferredControl := l; m_busyQueue := m_busyQueue s; m_watching := m_watching s;
  m_requestStop := m_requestStop s; m_channelsStopped := m_channelsStopped s; log := log s;
  shell_arrived := shell_arrived s; control_arrived := control_arrived s |}.
Definition set_busyQueue l s := {| m_shell := m_shell s; m_controller := m_controller s;
  m_deferredShell := m_deferredShell s; m_deferredControl := m_deferredControl s; m_busyQueue := l; m_watching := m_watching s;
  m_requestStop := m_requestStop s; m_channelsStopped := m_channelsStopped s; log := log s;
  shell_arrived := shell_arrived s; control_arrived := control_arrived s |}.
Definition set_watching b s := {| m_shell := m_shell s; m_controller := m_controller s;
  m_deferredShell := m_deferredShell s; m_deferredControl := m_deferredControl s; m_busyQueue := m_busyQueue s; m_watching := b;
  m_requestStop := m_requestStop s; m_channelsStopped := m_channelsStopped s; log := log s;
  shell_arrived := shell_arrived s; control_arrived := control_arrived s |}.
Definition setRequestStop b s := {| m_shell := m_shell s; m_controller := m_controller s;
  m_deferredShell := m_deferredShell s; m_deferredControl := m_deferredControl s; m_busyQueue := m_busyQueue s;
  m_watching := m_watching s; m_requestStop := b; m_channelsStopped := m_channelsStopped s; log := log s;
  shell_arrived := shell_arrived s; control_arrived := control_arrived s |}.
Definition stopChannels s := {| m_shell := m_shell s; m_controller := m_controller s;
  m_deferredShell := m_deferredShell s; m_deferredControl := m_deferredControl s; m_busyQueue := m_busyQueue s;
  m_watching := m_watching s; m_requestStop := m_requestStop s; m_channelsStopped := true; log := log s ++ [ChannelsStopped];
  shell_arrived := shell_arrived s; control_arrived := control_arrived s |}.
Definition record_event e s := {| m_shell := m_shell s; m_controller := m_controller s;
  m_deferredShell := m_deferredShell s; m_deferredControl := m_deferredControl s; m_busyQueue := m_busyQueue s;
  m_watching := m_watching s; m_requestStop := m_requestStop s; m_channelsStopped := m_channelsStopped s; log := log s ++ [e];
  shell_arrived := shell_arrived s; control_arrived := control_arrived s |}.
Definition arrive_shell w s := {| m_shell := m_shell s ++ [w]; m_controller := m_controller s; m_deferredShell := m_deferredShell s;
  m_deferredControl := m_deferredControl s; m_busyQueue := m_busyQueue s; m_watching := m_watching s;
  m_requestStop := m_requestStop s; m_channelsStopped := m_channelsStopped s; log := log s;
  shell_arrived := shell_arrived s ++ [w]; control_arrived := control_arrived s |}.
Definition arrive_control w s := {| m_shell := m_shell s; m_controller := m_controller s ++ [w]; m_deferredShell := m_deferredShell s;
  m_deferredControl := m_deferredControl s; m_busyQueue := m_busyQueue s; m_watching := m_watching s;
  m_requestStop := m_requestStop s; m_channelsStopped := m_channelsStopped s; log := log s;
  shell_arrived := shell_arrived s; control_arrived := control_arrived s ++ [w] |}.

Definition receive (wire_msg : frames) : result Message := deserialize wire_msg p_auth false.
Definition type_of_message (m : Message) : result str := value get_str (m_header (base m)) "msg_type"%string [].

(** ** The watcher thread *)
Definition accepts (msg_type : str) : bool := match m_busyShellFilter with Some f => f msg_type | None => false end.

Definition pollShellOnce (s : Server) : result Server :=
  if negb m_busyShellHandler then Ok s
  else match m_shell s with
       | [] => Ok s
       | wire_msg :: rest =>
           let s := set_shell rest s in
           match (let? m := receive wire_msg in let? t := type_of_message m in Ok (m, t)) with
           | Ok (m, t) =>
               Ok (if bool_decide (m_deferredShell s = []) && accepts t then set_busyQueue (m_busyQueue s ++ [m]) s
                   else set_deferredShell (m_deferredShell s ++ [m]) s)
           | Throw _ => Ok s
           | Undefined => Undefined
           end
       end.

Definition answered_at_once (msg_type : str) : bool :=
  m_interruptHandler && (str_eqb msg_type "interrupt_request"%string || str_eqb msg_type "debug_request"%string).

Definition pollControlOnce (s : Server) : result Server :=
  match m_controller s with
  | [] => Ok s
  | wire_msg :: rest =>
      let s := set_controller rest s in
      match (let? m := receive wire_msg in let? t := type_of_message m in Ok (m, t)) with
      | Ok (m, t) =>
          Ok (if answered_at_once t then record_event (Interrupted m) s
              else set_deferredControl (m_deferredControl s ++ [m]) s)
      | Throw _ => Ok s
      | Undefined => Undefined
      end
  end.

(** One turn of the watcher's loop. *)
Definition watchControl (s : Server) : result Server :=
  if m_watching s then let? s := pollControlOnce s in pollShellOnce s else Ok s.

(** ** The busy thread: one turn of its loop *)
Definition answerBusyRequests (s : Server) : Server :=
  match m_busyQueue s with
  | [] => s
  | m :: rest => record_event (Answered m) (set_busyQueue rest s)
  end.

Definition beginExecution (s : Server) : Server := set_watching true s.
Definition endExecution (s : Server) : Server := set_watching false s.

(** ** The main thread *)
Definition pollChannels (s : Server) : result (Server * option (Message * socket)) :=
  match m_deferredControl s with
  | m :: rest => Ok (set_deferredControl rest s, Some (m, CONTROL))
  | [] =>
      match (if m_requestStop s then [] else m_deferredShell s) with
      | m :: rest => Ok (set_deferredShell rest s, Some (m, SHELL))
      | [] =>
          match m_controller s with
          | wire_msg :: rest =>
              let s := set_controller rest s in
              match receive wire_msg with
              | Ok m => Ok (s, Some (m, CONTROL))
              | Throw _ => Ok (s, None)
              | Undefined => Undefined
              end
          | [] =>
              match (if m_requestStop s then [] else m_shell s) with
              | wire_msg :: rest =>
                  let s := set_shell rest s in
                  match receive wire_msg with
                  | Ok m => Ok (s, Some (m, SHELL))
                  | Throw _ => Ok (s, None)
                  | Undefined => Undefined
                  end
              | [] => Ok (s, None)
              end
          end
      end
  end.

(** [abortQueue]: what was set aside, then the socket.  The listener's
    exception is caught for the second only. *)
Fixpoint abort_deferred (deferred : list Message) (s : Server) : Server * bool :=
  match deferred with
  | [] => (s, true)
  | m :: rest =>
      let s := record_event (Aborted m) (set_deferredShell rest s) in
      if abort_throws m then (s, false) else abort_deferred rest s
  end.

Fixpoint abort_socket (wires : list frames) (s : Server) : result Server :=
  match wires with
  | [] => Ok s
  | wire_msg :: rest =>
      let s := set_shell rest s in
      match receive wire_msg with
      | Ok m => abort_socket rest (record_event (Aborted m) s)
      | Throw _ => abort_socket rest s
      | Undefined => Undefined
      end
  end.

Definition abortQueue (s : Server) : result Server :=
  let (s, returned) := abort_deferred (m_deferredShell s) s in
  if returned then abort_socket (m_shell s) s else Ok s.

(** ** Runs *)

(** What happens beside the polling: the clients' messages, the watcher's and
    the busy thread's turns, and what the kernel asks. *)
Inductive Call :=
| ArriveShell (wire_msg : frames)
| ArriveControl (wire_msg : frames)
| WatcherTurn
| BusyTurn
| Begin
| End
| Abort
| Stop.

Definition call (c : Call) (s : Server) : result Server :=
  match c with
  | ArriveShell w => Ok (arrive_shell w s)
  | ArriveControl w => Ok (arrive_control w s)
  | WatcherTurn => watchControl s
  | BusyTurn => Ok (answerBusyRequests s)
  | Begin => Ok (beginExecution s)
  | End => Ok (endExecution s)
  | Abort => abortQueue s
  | Stop => Ok (setRequestStop true s)
  end.

Fixpoint calls (cs : list Call) (s : Server) : result Server :=
  match cs with
  | [] => Ok s
  | c :: rest => let? s := call c s in calls rest s
  end.

(** [pollOnceImpl]: [during] is what happens while the listener, or the idle
    work, runs. *)
Definition pollOnceImpl (during : list Call) (s : Server) : result (Server * bool) :=
  let? s :=
    (if m_requestStop s then Ok s
     else let? (s, msg) := pollChannels s in
          match msg with
          | Some (m, c) => calls during (record_event (Dispatched m c) s)
          | None => if m_requestStop s then Ok s else calls during (record_event Idle s)
          end) in
  if m_requestStop s then Ok (if m_channelsStopped s then s else stopChannels s, false)
  else Ok (s, true).

(** [startImpl], without a loop of the language: it polls until it is told to
    stop.  [durings] is what happens in each poll; [None] when the run is not
    over by then. *)
Fixpoint serve (durings : list (list Call)) (s : Server) : result (option Server) :=
  match durings with
  | [] => Ok None
  | during :: rest =>
      let? (s, continue) := pollOnceImpl during s in
      if continue : bool then serve rest s
      else Ok (Some (if m_channelsStopped s then s else stopChannels s))
  end.

Inductive Step :=
| Other (c : Call)
| PollOnce (during : list Call).

Definition step (st : Step) (s : Server) : result Server :=
  match st with
  | Other c => call c s
  | PollOnce during => let? (s, _) := pollOnceImpl during s in Ok s
  end.

Fixpoint run (steps : list Step) (s : Server) : result Server :=
  match steps with
  | [] => Ok s
  | st :: rest => let? s := step st s in run rest s
  end.

(** The message that waits for the client's answer to a question. *)
Definition sendStdin (wire_reply : frames) : result (option Message) :=
  match receive wire_reply with
  | Ok m => Ok (Some m)
  | Throw _ => Ok None
  | Undefined => Undefined
  end.

End Server.

(** ** Nothing is lost, reordered or handled twice *)
Section Conservation.
Context `{J : JsonLib} `{Ossl : OpenSSL}.
Context (p_auth : Authentication) (m_interruptHandler m_busyShellHandler : bool)
        (m_busyShellFilter : option (str -> bool)) (abort_throws : Message -> bool).
Abbreviation Receive := (receive p_auth).
Abbreviation CallStep := (call p_auth m_interruptHandler m_busyShellHandler m_busyShellFilter abort_throws).
Abbreviation Calls := (calls p_auth m_interruptHandler m_busyShellHandler m_busyShellFilter abort_throws).
Abbreviation Poll := (pollOnceImpl p_auth m_interruptHandler m_busyShellHandler m_busyShellFilter abort_throws).
Abbreviation Run := (run p_auth m_interruptHandler m_busyShellHandler m_busyShellFilter abort_throws).

(** A message whose type can be read. *)
Definition typed (m : Message) : bool := match type_of_message m with Ok _ => true | _ => false end.

(** The message of a multipart, when it is one and says its type. *)
Definition readable (w : frames) : option Message :=
  match Receive w with Ok m => if typed m then Some m else None | _ => None end.

Definition main_shell (e : Event) : option Message := match e with Dispatched m SHELL | Aborted m => Some m | _ => None end.
Definition main_control (e : Event) : option Message := match e with Dispatched m CONTROL => Some m | _ => None end.
Definition busy_shell (e : Event) : option Message := match e with Answered m => Some m | _ => None end.
Definition watch_control (e : Event) : option Message := match e with Interrupted m => Some m | _ => None end.

(** [waiting] is what is still in the socket, of all that [arrived]; what was
    read of it is [aside], then [main], each in the order of arrival. *)
Definition conserved (aside main : list Message) (waiting arrived : list frames) : Prop :=
  exists read, arrived = read ++ waiting /\ interleave aside main (omap readable read).

Lemma conserved_arrive aside main waiting arrived new : conserved aside main waiting arrived ->
  conserved aside main (waiting ++ new) (arrived ++ new).
Proof. intros (read & -> & H). exists read. by rewrite <- app_assoc. Qed.

Lemma conserved_drop aside main w waiting arrived : conserved aside main (w :: waiting) arrived ->
  readable w = None -> conserved aside main waiting arrived.
Proof.
  intros (read & -> & H) Hw. exists (read ++ [w]). rewrite <- app_assoc. split; [done |].
  rewrite omap_app. cbn. by rewrite Hw, app_nil_r.
Qed.

Lemma conserved_aside aside main m w waiting arrived : conserved aside main (w :: waiting) arrived ->
  readable w = Some m -> conserved (aside ++ [m]) main waiting arrived.
Proof.
  intros (read & -> & H) Hw. exists (read ++ [w]). rewrite <- app_assoc. split; [done |].
  rewrite omap_app. cbn. rewrite Hw. by apply interleave_snoc_left.
Qed.

Lemma conserved_main aside main m w waiting arrived : conserved aside main (w :: waiting) arrived ->
  readable w = Some m -> conserved aside (main ++ [m]) waiting arrived.
Proof.
  intros (read & -> & H) Hw. exists (read ++ [w]). rewrite <- app_assoc. split; [done |].
  rewrite omap_app. cbn. rewrite Hw. by apply interleave_snoc_right.
Qed.

Lemma filter_typed m : filter (fun m => typed m) [m] = if typed m then [m] else [].
Proof. rewrite filter_cons, filter_nil. destruct (typed m); cbn; [by rewrite decide_True | by rewrite decide_False by auto]. Qed.

(** A message given to the main thread, which does not look at its type. *)
Lemma conserved_received aside main m w waiting arrived : conserved aside main (w :: waiting) arrived ->
  Receive w = Ok m -> conserved aside (main ++ filter (fun m => typed m) [m]) waiting arrived.
Proof.
  intros H Hw. destruct (typed m) eqn:Ht.
  - rewrite filter_typed, Ht. eapply conserved_main; [exact H |]. unfold readable. by rewrite Hw, Ht.
  - rewrite filter_typed, Ht, app_nil_r. eapply conserved_drop; [exact H |]. unfold readable. by rewrite Hw, Ht.
Qed.

Record inv (s : Server) : Prop := {
  inv_shell : conserved (omap busy_shell (log s) ++ m_busyQueue s)
                (filter (fun m => typed m) (omap main_shell (log s)) ++ m_deferredShell s) (m_shell s) (shell_arrived s);
  inv_control : conserved (omap watch_control (log s))
                  (filter (fun m => typed m) (omap main_control (log s)) ++ m_deferredControl s) (m_controller s) (control_arrived s);
  inv_typed_shell : Forall typed (m_deferredShell s);
  inv_typed_control : Forall typed (m_deferredControl s)
}.

Ltac logs := cbn [log shell_arrived control_arrived record_event arrive_shell arrive_control set_shell set_controller set_deferredShell set_deferredControl set_busyQueue
  m_shell m_controller m_deferredShell m_deferredControl m_busyQueue];
  rewrite ?omap_app, ?filter_app; cbn [omap list_omap busy_shell main_shell main_control watch_control];
  rewrite ?filter_nil, ?app_nil_r.

Lemma readable_typed w m : readable w = Some m -> typed m.
Proof. unfold readable. destruct (Receive w) as [m'| |]; [| done | done]. destruct (typed m') eqn:E; [| done]. intros [= <-]. by rewrite E. Qed.

(** Reading a message and its type. *)
Lemma read_typed w m t : (let? m := Receive w in let? t := type_of_message m in Ok (m, t)) = Ok (m, t) -> readable w = Some m.
Proof.
  unfold readable, typed. destruct (Receive w) as [m'| |]; [| done | done].
  destruct (type_of_message m') eqn:E; [| done | done]. intros [= <- <-]. done.
Qed.

Lemma read_untyped w e : (let? m := Receive w in let? t := type_of_message m in Ok (m, t)) = Throw e -> readable w = None.
Proof.
  unfold readable, typed. destruct (Receive w) as [m'| |]; [| done | done]. by destruct (type_of_message m').
Qed.

Lemma inv_pollShell s s' : inv s ->
  pollShellOnce p_auth m_busyShellHandler m_busyShellFilter s = Ok s' -> inv s'.
Proof.
  intros Hi. unfold pollShellOnce. destruct (negb _); [by intros [= <-] |].
  destruct (m_shell s) as [|w rest] eqn:Hs; [by intros [= <-] |]. destruct Hi as [I1 I2 I3 I4]. rewrite Hs in I1.
  destruct (let? m := Receive w in _) as [[m t]|e|] eqn:Hr; [| | done]; intros [= <-].
  - apply read_typed in Hr. destruct (_ && _); split; logs; try done.
    + rewrite app_assoc. by apply (conserved_aside _ _ _ w).
    + rewrite app_assoc. by apply (conserved_main _ _ _ w).
    + apply Forall_app. split; [done |]. repeat constructor. by eapply readable_typed.
  - apply read_untyped in Hr. split; logs; try done. by apply (conserved_drop _ _ w).
Qed.

Lemma inv_pollControl s s' : inv s ->
  pollControlOnce p_auth m_interruptHandler s = Ok s' -> inv s'.
Proof.
  intros Hi. unfold pollControlOnce.
  destruct (m_controller s) as [|w rest] eqn:Hs; [by intros [= <-] |]. destruct Hi as [I1 I2 I3 I4]. rewrite Hs in I2.
  destruct (let? m := Receive w in _) as [[m t]|e|] eqn:Hr; [| | done]; intros [= <-].
  - apply read_typed in Hr. destruct (answered_at_once _ _); split; logs; try done.
    + by apply (conserved_aside _ _ _ w).
    + rewrite app_assoc. by apply (conserved_main _ _ _ w).
    + apply Forall_app. split; [done |]. repeat constructor. by eapply readable_typed.
  - apply read_untyped in Hr. split; logs; try done. by apply (conserved_drop _ _ w).
Qed.

(** Taking the first message set aside, and handling it on the main thread. *)
Lemma inv_take_shell s m rest e : inv s -> m_deferredShell s = m :: rest ->
  e = Aborted m \/ e = Dispatched m SHELL -> inv (record_event e (set_deferredShell rest s)).
Proof.
  intros [I1 I2 I3 I4] Hd He. rewrite Hd in I1, I3. apply Forall_cons in I3 as [Hm I3].
  split; logs; destruct He as [-> | ->]; logs; try done;
    rewrite filter_typed; destruct (typed m); try done; by rewrite <- app_assoc.
Qed.

Lemma inv_take_control s m rest : inv s -> m_deferredControl s = m :: rest ->
  inv (record_event (Dispatched m CONTROL) (set_deferredControl rest s)).
Proof.
  intros [I1 I2 I3 I4] Hd. rewrite Hd in I2, I4. apply Forall_cons in I4 as [Hm I4].
  split; logs; try done. rewrite filter_typed. destruct (typed m); [by rewrite <- app_assoc | done].
Qed.

(** Reading the shell socket on the main thread, with nothing set aside. *)
Lemma inv_receive_shell s w rest m e : inv s -> m_deferredShell s = [] ->
  m_shell s = w :: rest -> Receive w = Ok m -> e = Aborted m \/ e = Dispatched m SHELL ->
  inv (record_event e (set_shell rest s)).
Proof.
  intros [I1 I2 I3 I4] Hd Hs Hr He. rewrite Hs, Hd, app_nil_r in I1.
  split; logs; destruct He as [-> | ->]; logs; try done; rewrite Hd, app_nil_r; by eapply conserved_received.
Qed.

Lemma inv_receive_control s w rest m : inv s -> m_deferredControl s = [] ->
  m_controller s = w :: rest -> Receive w = Ok m ->
  inv (record_event (Dispatched m CONTROL) (set_controller rest s)).
Proof.
  intros [I1 I2 I3 I4] Hd Hs Hr. rewrite Hs, Hd, app_nil_r in I2.
  split; logs; try done. rewrite Hd, app_nil_r. by eapply conserved_received.
Qed.

Lemma unreadable w e : Receive w = Throw e -> readable w = None.
Proof. unfold readable. by intros ->. Qed.

Lemma inv_drop_shell s w rest : inv s -> m_shell s = w :: rest -> readable w = None ->
  inv (set_shell rest s).
Proof. intros [I1 I2 I3 I4] Hs Hr. rewrite Hs in I1. split; logs; try done. by eapply conserved_drop. Qed.

Lemma inv_drop_control s w rest : inv s -> m_controller s = w :: rest -> readable w = None ->
  inv (set_controller rest s).
Proof. intros [I1 I2 I3 I4] Hs Hr. rewrite Hs in I2. split; logs; try done. by eapply conserved_drop. Qed.

Lemma inv_abort_deferred deferred : forall s, inv s -> m_deferredShell s = deferred ->
  let (s', returned) := abort_deferred abort_throws deferred s in
  inv s' /\ (returned = true -> m_deferredShell s' = []).
Proof.
  induction deferred as [|m rest IH]; intros s Hi Hd; cbn [abort_deferred]; [done |].
  assert (Hi' : inv (record_event (Aborted m) (set_deferredShell rest s)))
    by (apply (inv_take_shell _ m); auto).
  destruct (abort_throws m); [done |]. by apply IH.
Qed.

Lemma inv_abort_socket wires : forall s s', inv s -> m_deferredShell s = [] ->
  m_shell s = wires -> abort_socket p_auth wires s = Ok s' -> inv s'.
Proof.
  induction wires as [|w rest IH]; intros s s' Hi Hd Hs; cbn [abort_socket]; [by intros [= <-] |].
  destruct (Receive w) as [m|e|] eqn:Hr; [| | done]; apply IH; try done.
  - by eapply inv_receive_shell; eauto.
  - eapply inv_drop_shell; [exact Hi | exact Hs | by eapply unreadable].
Qed.

Lemma inv_call c s s' : inv s -> CallStep c s = Ok s' ->
  inv s'.
Proof.
  intros Hi. destruct c; cbn [call].
  - intros [= <-]. destruct Hi as [I1 I2 I3 I4]. split; logs; try done. by apply conserved_arrive.
  - intros [= <-]. destruct Hi as [I1 I2 I3 I4]. split; logs; try done. by apply conserved_arrive.
  - unfold watchControl. destruct (m_watching s); [| by intros [= <-]].
    destruct (pollControlOnce _ _ s) as [s1| |] eqn:H1; [| done | done].
    eapply inv_pollShell, inv_pollControl; eauto.
  - intros [= <-]. unfold answerBusyRequests. destruct (m_busyQueue s) as [|m rest] eqn:Hq; [done |].
    destruct Hi as [I1 I2 I3 I4]. rewrite Hq in I1. split; logs; try done. by rewrite <- app_assoc.
  - intros [= <-]. by destruct Hi.
  - intros [= <-]. by destruct Hi.
  - unfold abortQueue. pose proof (inv_abort_deferred _ s Hi eq_refl) as H.
    destruct (abort_deferred _ _ s) as [s1 [|]]; destruct H as [H1 H2]; [| by intros [= <-]].
    by apply inv_abort_socket; auto.
  - intros [= <-]. by destruct Hi.
Qed.

Lemma inv_calls cs : forall s s', inv s -> Calls cs s = Ok s' ->
  inv s'.
Proof.
  induction cs as [|c cs IH]; intros s s' Hi; cbn.
  - by intros [= <-].
  - destruct (CallStep c s) as [s1| |] eqn:H1; [| done | done]. intros H.
    eapply IH; [| exact H]. by eapply inv_call.
Qed.


Lemma inv_pollChannels s s' msg : inv s -> pollChannels p_auth s = Ok (s', msg) ->
  match msg with Some (m, c) => inv (record_event (Dispatched m c) s') | None => inv s' end.
Proof.
  intros Hi. unfold pollChannels. destruct (m_deferredControl s) as [|m rest] eqn:Hc.
  2: { intros [= <- <-]. by apply inv_take_control. }
  destruct (m_requestStop s).
  - destruct (m_controller s) as [|w rest] eqn:Hw; [by intros [= <- <-] |].
    destruct (Receive w) as [m|e|] eqn:Hr; [| | done]; intros [= <- <-].
    + by eapply inv_receive_control.
    + eapply inv_drop_control; [done | exact Hw | by eapply unreadable].
  - destruct (m_deferredShell s) as [|m rest] eqn:Hd.
    2: { intros [= <- <-]. apply (inv_take_shell _ m); auto. }
    destruct (m_controller s) as [|w rest] eqn:Hw.
    + destruct (m_shell s) as [|w rest] eqn:Hs; [by intros [= <- <-] |].
      destruct (Receive w) as [m|e|] eqn:Hr; [| | done]; intros [= <- <-].
      * eapply inv_receive_shell; eauto.
      * eapply inv_drop_shell; [done | exact Hs | by eapply unreadable].
    + destruct (Receive w) as [m|e|] eqn:Hr; [| | done]; intros [= <- <-].
      * by eapply inv_receive_control.
      * eapply inv_drop_control; [done | exact Hw | by eapply unreadable].
Qed.

Lemma inv_silent_event s e : e = Idle \/ e = ChannelsStopped -> inv s -> inv (record_event e s).
Proof. intros He [I1 I2 I3 I4]. split; logs; destruct He as [-> | ->]; logs; done. Qed.

Lemma inv_stopChannels s : inv s -> inv (if m_channelsStopped s then s else stopChannels s).
Proof.
  intros Hi. destruct (m_channelsStopped s); [done |].
  destruct (inv_silent_event s ChannelsStopped) as [I1 I2 I3 I4]; [by right | done | by split].
Qed.

(** A property of the server kept by what a poll is made of is kept by it. *)
Lemma poll_keeps (P : Server -> Prop) during s s' b :
  (forall s s' msg, P s -> pollChannels p_auth s = Ok (s', msg) ->
     match msg with Some (m, c) => P (record_event (Dispatched m c) s') | None => P s' /\ P (record_event Idle s') end) ->
  (forall s s', P s -> Calls during s = Ok s' -> P s') ->
  (forall s, m_requestStop s = true -> P s -> P (if m_channelsStopped s then s else stopChannels s)) ->
  P s -> Poll during s = Ok (s', b) -> P s'.
Proof.
  intros Hpoll Hcalls Hstop Hs. unfold pollOnceImpl.
  assert (Hend : forall s1, P s1 -> (if m_requestStop s1 then Ok (if m_channelsStopped s1 then s1 else stopChannels s1, false)
                                    else Ok (s1, true)) = Ok (s', b) -> P s').
  { intros s1 H1. destruct (m_requestStop s1) eqn:Hr; intros [= <- <-]; auto. }
  destruct (m_requestStop s); [by apply Hend |].
  destruct (pollChannels _ s) as [[s1 msg]| |] eqn:Hp; [| done | done]. pose proof (Hpoll _ _ _ Hs Hp) as H1.
  destruct msg as [[m c]|].
  - destruct (Calls during _) as [s2| |] eqn:Hc; [| done | done]. apply Hend. by eapply Hcalls.
  - destruct H1 as [H1 H1']. destruct (m_requestStop s1); [by apply Hend |].
    destruct (Calls during _) as [s2| |] eqn:Hc; [| done | done]. apply Hend. by eapply Hcalls.
Qed.

Lemma inv_poll during s s' b : inv s -> Poll during s = Ok (s', b) -> inv s'.
Proof.
  apply poll_keeps; [| intros s1 s2; apply inv_calls | intros s1 _; apply inv_stopChannels].
  intros s1 s2 msg Hi Hp. pose proof (inv_pollChannels _ _ _ Hi Hp) as H. destruct msg as [[m c]|]; [done |].
  split; [done |]. apply inv_silent_event; auto.
Qed.

Lemma run_keeps (P : Server -> Prop) :
  (forall c s s', P s -> CallStep c s = Ok s' -> P s') ->
  (forall during s s' b, P s -> Poll during s = Ok (s', b) -> P s') ->
  forall steps s s', P s -> Run steps s = Ok s' -> P s'.
Proof.
  intros Hc Hp steps. induction steps as [|st steps IH]; intros s s' Hs; cbn; [by intros [= <-] |].
  destruct (step _ _ _ _ _ st s) as [s1| |] eqn:H1; [| done | done]. apply IH.
  destruct st as [c|during]; cbn in H1; [by eapply Hc |].
  destruct (Poll during s) as [[s2 b]| |] eqn:H2; [| done | done]. injection H1 as <-. by eapply Hp.
Qed.

(** A server that has just been made. *)
Definition fresh (s : Server) : Prop :=
  m_shell s = [] /\ m_controller s = [] /\ m_deferredShell s = [] /\ m_deferredControl s = [] /\ m_busyQueue s = []
  /\ log s = [] /\ shell_arrived s = [] /\ control_arrived s = [].

(** C2: requests are neither lost, nor handled twice, nor overtaken.  However
    the watcher, the busy thread, the main thread and the clients interleave,
    the shell messages read so far split in two: those given to the busy thread
    (answered, then queued) and those of the main thread (dispatched or
    aborted, then set aside), each in the order of arrival; the rest is still
    in the socket.  The same for the control messages, between the watcher and
    the main thread.  (A message whose multipart or type cannot be read counts
    in neither.) *)
Theorem requests_conserved steps s s' : fresh s -> Run steps s = Ok s' ->
  conserved (omap busy_shell (log s') ++ m_busyQueue s')
    (filter (fun m => typed m) (omap main_shell (log s')) ++ m_deferredShell s') (m_shell s') (shell_arrived s')
  /\ conserved (omap watch_control (log s'))
       (filter (fun m => typed m) (omap main_control (log s')) ++ m_deferredControl s') (m_controller s') (control_arrived s').
Proof.
  intros Hf Hrun. assert (Hi : inv s).
  { destruct s; unfold fresh in Hf; cbn in Hf. destruct Hf as (-> & -> & -> & -> & -> & -> & -> & ->).
    split; cbn; try done; by exists []. }
  destruct (run_keeps inv) with (steps := steps) (s := s) (s' := s') as [I1 I2 _ _]; try done.
  - intros c s1 s2. apply inv_call.
  - intros during s1 s2 b. apply inv_poll.
Qed.

(** One call while a shell message is set aside. *)
Lemma queued_behind_step c s s1 : m_deferredShell s <> [] -> c <> Abort -> CallStep c s = Ok s1 ->
  (exists answered, m_busyQueue s = answered ++ m_busyQueue s1
     /\ omap busy_shell (log s1) = omap busy_shell (log s) ++ answered)
  /\ (exists more, m_deferredShell s1 = m_deferredShell s ++ more)
  /\ omap main_shell (log s1) = omap main_shell (log s).
Proof.
  intros Hd Hc. assert (Hsame : forall s2, m_busyQueue s2 = m_busyQueue s -> m_deferredShell s2 = m_deferredShell s ->
      omap busy_shell (log s2) = omap busy_shell (log s) -> omap main_shell (log s2) = omap main_shell (log s) ->
      (exists answered, m_busyQueue s = answered ++ m_busyQueue s2
         /\ omap busy_shell (log s2) = omap busy_shell (log s) ++ answered)
      /\ (exists more, m_deferredShell s2 = m_deferredShell s ++ more)
      /\ omap main_shell (log s2) = omap main_shell (log s)).
  { intros s2 -> -> -> ->. repeat split; [exists [] | exists []]; by rewrite ?app_nil_r. }
  destruct c; cbn [call]; try (intros [= <-]; by apply Hsame); [| | done].
  - unfold watchControl. destruct (m_watching s); [| intros [= <-]; by apply Hsame].
    destruct (pollControlOnce _ _ s) as [s2| |] eqn:H2; [| done | done].
    assert (H2' : m_busyQueue s2 = m_busyQueue s /\ m_deferredShell s2 = m_deferredShell s
                  /\ omap busy_shell (log s2) = omap busy_shell (log s) /\ omap main_shell (log s2) = omap main_shell (log s)).
    { revert H2. unfold pollControlOnce. destruct (m_controller s); [by intros [= <-] |].
      destruct (let? m := _ in _) as [[m t]|e|]; [| by intros [= <-] | done].
      destruct (answered_at_once _ t); intros [= <-]; logs; done. }
    destruct H2' as (Q & D & B & M). unfold pollShellOnce. destruct (negb _); [intros [= <-]; by apply Hsame |].
    destruct (m_shell s2) as [|w rest]; [intros [= <-]; by apply Hsame |].
    destruct (let? m := _ in _) as [[m t]|e|]; [| intros [= <-]; by apply Hsame | done].
    cbn [m_deferredShell set_shell]. rewrite bool_decide_eq_false_2 by (by rewrite D). cbn [andb]. intros [= <-]. logs.
    rewrite Q, D, B, M. repeat split; [exists [] | exists [m]]; by rewrite ?app_nil_r.
  - intros [= <-]. unfold answerBusyRequests. destruct (m_busyQueue s) as [|m rest] eqn:Hq; [by apply Hsame |].
    logs. repeat split; [exists [m] | exists []]; by rewrite ?app_nil_r.
Qed.

(** Behind a request that has to wait, everything waits: while messages are
    set aside and the main thread is busy (whatever arrives, whatever the
    watcher and the busy thread do), no shell request is handed to the busy
    thread, what was set aside stays first, and only what the busy thread
    already had is answered. *)
Theorem queued_behind cs s s' : m_deferredShell s <> [] -> Forall (fun c => c <> Abort) cs -> Calls cs s = Ok s' ->
  (exists answered, m_busyQueue s = answered ++ m_busyQueue s'
     /\ omap busy_shell (log s') = omap busy_shell (log s) ++ answered)
  /\ (exists more, m_deferredShell s' = m_deferredShell s ++ more)
  /\ omap main_shell (log s') = omap main_shell (log s).
Proof.
  revert s. induction cs as [|c cs IH]; intros s Hd Hall; cbn.
  - intros [= <-]. repeat split; [exists [] | exists []]; by rewrite ?app_nil_r.
  - apply Forall_cons in Hall as [Hc Hall]. destruct (CallStep c s) as [s1| |] eqn:H1; [| done | done]. intros H.
    destruct (queued_behind_step c s s1 Hd Hc H1) as ((a1 & Q1 & L1) & (m1 & D1) & M1).
    destruct (IH s1) as ((a2 & Q2 & L2) & (m2 & D2) & M2); [| done | done |].
    { rewrite D1. intros [? _]%app_eq_nil. done. }
    split; [| split; [| congruence]].
    + exists (a1 ++ a2). by rewrite Q1, Q2, L2, L1, <- !app_assoc.
    + exists (m1 ++ m2). by rewrite D2, D1, <- app_assoc.
Qed.

(** ** Waiting requests are served *)
Definition dispatched (e : Event) : option (Message * socket) := match e with Dispatched m c => Some (m, c) | _ => None end.
Definition received (w : frames) : option Message := match Receive w with Ok m => Some m | _ => None end.

(** What the main thread has to dispatch, in its order, and in how many polls. *)
Definition pending (s : Server) : list (Message * socket) :=
  ((fun m => (m, CONTROL)) <$> m_deferredControl s) ++ ((fun m => (m, SHELL)) <$> m_deferredShell s)
  ++ ((fun m => (m, CONTROL)) <$> omap received (m_controller s)) ++ ((fun m => (m, SHELL)) <$> omap received (m_shell s)).

Definition waits (s : Server) : nat :=
  length (m_deferredControl s) + length (m_deferredShell s) + length (m_controller s) + length (m_shell s).

Definition defined (s : Server) : Prop :=
  Forall (fun w => Receive w <> Undefined) (m_controller s) /\ Forall (fun w => Receive w <> Undefined) (m_shell s).

Lemma poll_serves s n : m_requestStop s = false -> defined s -> waits s = S n ->
  exists s1, Poll [] s = Ok (s1, true) /\ m_requestStop s1 = false /\ defined s1 /\ waits s1 = n
  /\ omap dispatched (log s1) ++ pending s1 = omap dispatched (log s) ++ pending s.
Proof.
  intros Hstop [Hc Hs] Hw. unfold pollOnceImpl, pollChannels. rewrite Hstop. unfold waits, pending in *.
  destruct s as [shell controller dshell dcontrol busy watching stop stopped lg ? ?]. cbn in *. subst stop.
  destruct dcontrol as [|m dcontrol]; [destruct dshell as [|m dshell]; [destruct controller as [|w controller];
    [destruct shell as [|w shell]; [done |] |] |] |]; cbn in *.
  3, 4: eexists; split; [reflexivity |]; cbn; repeat (split; try done; try lia); rewrite omap_app; cbn; by rewrite ?app_nil_r, <- ?app_assoc.
  - apply Forall_cons in Hs as [Hw1 Hs]. destruct (Receive w) as [m|e|] eqn:Hr; [| | done];
      pose proof (f_equal (fun r => match r with Ok m => Some m | _ => None end) Hr) as Hm; fold (received w) in Hm; cbn beta iota in Hm; fold (received w) in Hm;
      rewrite Hm; eexists; (split; [reflexivity |]); cbn; repeat (split; try done; try lia); rewrite omap_app; cbn; by rewrite ?app_nil_r, <- ?app_assoc.
  - apply Forall_cons in Hc as [Hw1 Hc]. destruct (Receive w) as [m|e|] eqn:Hr; [| | done];
      pose proof (f_equal (fun r => match r with Ok m => Some m | _ => None end) Hr) as Hm; fold (received w) in Hm; cbn beta iota in Hm; fold (received w) in Hm;
      rewrite Hm; eexists; (split; [reflexivity |]); cbn; repeat (split; try done; try lia); rewrite omap_app; cbn; by rewrite ?app_nil_r, <- ?app_assoc.
Qed.

(** C35: every waiting request is served.  When the server was not told to stop
    and nothing more arrives, as many polls as there are messages waiting
    dispatch them all: first the control messages, then the shell messages,
    that were set aside during an execution, then those in the control socket,
    then those in the shell socket, each in its order. *)
Theorem polls_drain s : m_requestStop s = false -> defined s ->
  exists s', Run (replicate (waits s) (PollOnce [])) s = Ok s'
  /\ omap dispatched (log s') = omap dispatched (log s) ++ pending s
  /\ m_shell s' = [] /\ m_controller s' = [] /\ m_deferredShell s' = [] /\ m_deferredControl s' = [].
Proof.
  remember (waits s) as n eqn:Hn. symmetry in Hn. revert s Hn. induction n as [|n IH]; intros s Hn Hstop Hd; cbn.
  - exists s. split; [done |]. unfold waits, pending in *.
    destruct (m_deferredControl s), (m_deferredShell s), (m_controller s), (m_shell s); cbn in *; try lia.
    by rewrite app_nil_r.
  - destruct (poll_serves s n Hstop Hd Hn) as (s1 & -> & Hstop1 & Hd1 & Hw1 & E).
    destruct (IH s1 Hw1 Hstop1 Hd1) as (s' & -> & E' & R). exists s'. split; [done |]. split; [by rewrite E', E | done].
Qed.

(** ** Stopping *)
Definition channel_stops (l : list Event) : nat := length (List.filter (fun e => match e with ChannelsStopped => true | _ => false end) l).

Record stopped_once (s : Server) : Prop := {
  once : channel_stops (log s) = if m_channelsStopped s then 1%nat else 0%nat;
  only_on_request : m_channelsStopped s = true -> m_requestStop s = true
}.

Record keeps_stop (s s' : Server) : Prop := {
  keeps_dispatched : omap dispatched (log s') = omap dispatched (log s);
  keeps_stops : channel_stops (log s') = channel_stops (log s);
  keeps_stopped : m_channelsStopped s' = m_channelsStopped s;
  keeps_request : m_requestStop s = true -> m_requestStop s' = true
}.

#[local] Instance keeps_stop_preorder : PreOrder keeps_stop.
Proof. split; [by intros s | intros s1 s2 s3 [A1 A2 A3 A4] [B1 B2 B3 B4]; split; [congruence.. | auto]]. Qed.

Lemma channel_stops_app a b : channel_stops (a ++ b) = (channel_stops a + channel_stops b)%nat.
Proof. unfold channel_stops. by rewrite List.filter_app, length_app. Qed.

Lemma keeps_event e s s' : dispatched e = None -> channel_stops [e] = 0%nat -> log s' = log s ++ [e] ->
  m_channelsStopped s' = m_channelsStopped s -> m_requestStop s' = m_requestStop s -> keeps_stop s s'.
Proof.
  intros H1 H2 Hl Hs Hr. split; rewrite ?Hl, ?omap_app, ?channel_stops_app, ?H2; cbn; rewrite ?H1, ?app_nil_r; try done; try lia.
  all: try by rewrite Hr. all: by rewrite Nat.add_0_r.
Qed.

Lemma keeps_pollControl s s' : pollControlOnce p_auth m_interruptHandler s = Ok s' -> keeps_stop s s'.
Proof.
  unfold pollControlOnce. destruct (m_controller s); [by intros [= <-] |].
  destruct (let? m := _ in _) as [[m t]|e|]; [| by intros [= <-] | done].
  destruct (answered_at_once _ t); intros [= <-]; [| done]. by eapply (keeps_event (Interrupted m)).
Qed.

Lemma keeps_pollShell s s' : pollShellOnce p_auth m_busyShellHandler m_busyShellFilter s = Ok s' -> keeps_stop s s'.
Proof.
  unfold pollShellOnce. destruct (negb _); [by intros [= <-] |]. destruct (m_shell s); [by intros [= <-] |].
  destruct (let? m := _ in _) as [[m t]|e|]; [| by intros [= <-] | done].
  destruct (_ && _); by intros [= <-].
Qed.

Lemma keeps_abort_deferred deferred : forall s, keeps_stop s (fst (abort_deferred abort_throws deferred s)).
Proof.
  induction deferred as [|m rest IH]; intros s; cbn; [done |].
  assert (H : keeps_stop s (record_event (Aborted m) (set_deferredShell rest s))) by by eapply (keeps_event (Aborted m)).
  destruct (abort_throws m); [exact H |]. etrans; [exact H | apply IH].
Qed.

Lemma keeps_abort_socket wires : forall s s', abort_socket p_auth wires s = Ok s' -> keeps_stop s s'.
Proof.
  induction wires as [|w rest IH]; intros s s'; cbn; [by intros [= <-] |].
  destruct (Receive w) as [m|e|]; [| | done]; intros H; (etrans; [| by apply IH]); [| done].
  by eapply (keeps_event (Aborted m)).
Qed.

Lemma keeps_call c s s' : CallStep c s = Ok s' -> keeps_stop s s'.
Proof.
  destruct c; cbn [call]; try by intros [= <-].
  - unfold watchControl. destruct (m_watching s); [| by intros [= <-]].
    destruct (pollControlOnce _ _ s) as [s1| |] eqn:H1; [| done | done]. intros H2.
    etrans; [by apply keeps_pollControl | by apply keeps_pollShell].
  - intros [= <-]. unfold answerBusyRequests. destruct (m_busyQueue s) as [|m rest]; [done |].
    by eapply (keeps_event (Answered m)).
  - unfold abortQueue. pose proof (keeps_abort_deferred (m_deferredShell s) s) as H.
    destruct (abort_deferred _ _ s) as [s1 [|]]; cbn in H; [| by intros [= <-]].
    intros H1. etrans; [exact H | by eapply keeps_abort_socket].
Qed.

Lemma keeps_calls cs : forall s s', Calls cs s = Ok s' -> keeps_stop s s'.
Proof.
  induction cs as [|c cs IH]; intros s s'; cbn; [by intros [= <-] |].
  destruct (CallStep c s) as [s1| |] eqn:H1; [| done | done]. intros H. etrans; [by eapply keeps_call | by apply IH].
Qed.

Lemma stopped_once_keeps s s' : keeps_stop s s' -> stopped_once s -> stopped_once s'.
Proof. intros [K1 K2 K3 K4] [H1 H2]. split; rewrite K3; [by rewrite K2 | auto]. Qed.

Lemma pollChannels_keeps s s' msg : pollChannels p_auth s = Ok (s', msg) ->
  log s' = log s /\ m_channelsStopped s' = m_channelsStopped s /\ m_requestStop s' = m_requestStop s.
Proof.
  unfold pollChannels. destruct (m_deferredControl s); [| by intros [= <- <-]].
  destruct (if m_requestStop s then [] else m_deferredShell s); [| by intros [= <- <-]].
  destruct (m_controller s); [| destruct (Receive _); [by intros [= <- <-].. | done]].
  destruct (if m_requestStop s then [] else m_shell s); [by intros [= <- <-] |].
  destruct (Receive _); [by intros [= <- <-].. | done].
Qed.

Lemma stopped_once_poll during s s' b : stopped_once s -> Poll during s = Ok (s', b) -> stopped_once s'.
Proof.
  apply poll_keeps.
  - intros s1 s2 msg Hs Hp. destruct (pollChannels_keeps _ _ _ Hp) as (L & C & R).
    assert (H2 : stopped_once s2) by (destruct Hs as [H1 H2]; split; rewrite ?L, ?C, ?R; done).
    assert (He : forall e, channel_stops [e] = 0%nat -> stopped_once (record_event e s2)).
    { intros e H0. destruct H2 as [A B]. split; cbn [record_event log m_channelsStopped m_requestStop]; [rewrite channel_stops_app, H0, A; lia | done]. }
    destruct msg as [[m c]|]; [| split]; auto.
  - intros s1 s2 H1 Hc. eapply stopped_once_keeps; [by eapply keeps_calls | done].
  - intros s1 Hr [H1 H2]. destruct (m_channelsStopped s1) eqn:Hc; split; cbn [stopChannels log m_channelsStopped m_requestStop];
      rewrite ?Hc, ?channel_stops_app, ?H1; done.
Qed.

(** Stopping is final and clean: once the server was asked to stop, no poll
    dispatches anything more, whatever waits or arrives, each returns false,
    and the publisher and heartbeat threads have been stopped exactly once. *)
Theorem stop_final steps1 during steps2 s s1 s' : fresh s -> m_channelsStopped s = false ->
  Run steps1 s = Ok s1 -> m_requestStop s1 = true -> Run (PollOnce during :: steps2) s1 = Ok s' ->
  (exists s2, Poll during s1 = Ok (s2, false))
  /\ omap dispatched (log s') = omap dispatched (log s1) /\ m_requestStop s' = true
  /\ channel_stops (log s') = 1%nat.
Proof.
  intros Hf Hc H1 Hr. assert (Honce : stopped_once s1).
  { eapply (run_keeps stopped_once); [| apply stopped_once_poll | | exact H1].
    - intros c x y Hx Hy. eapply stopped_once_keeps; [by eapply keeps_call | done].
    - destruct Hf as (_ & _ & _ & _ & _ & Hl & _). split; rewrite Hc; [by rewrite Hl | done]. }
  set (P x := omap dispatched (log x) = omap dispatched (log s1) /\ m_requestStop x = true
              /\ m_channelsStopped x = true /\ channel_stops (log x) = 1%nat).
  assert (Hpoll : forall d x, m_requestStop x = true ->
            Poll d x = Ok (if m_channelsStopped x then x else stopChannels x, false)).
  { intros d x Hx. unfold pollOnceImpl. by rewrite Hx, Hx. }
  assert (Hfirst : P (if m_channelsStopped s1 then s1 else stopChannels s1)).
  { destruct Honce as [A B]. unfold P. destruct (m_channelsStopped s1) eqn:E; [done |].
    cbn [stopChannels log m_channelsStopped m_requestStop]. rewrite omap_app, channel_stops_app, A. cbn. by rewrite app_nil_r. }
  cbn [run step]. rewrite Hpoll by done. intros H2. split; [by eexists |].
  cut (P s'); [by intros (? & ? & ? & ?) |]. eapply (run_keeps P); [| | exact Hfirst | exact H2].
  - intros c x y (A & B & C & D) Hy. destruct (keeps_call _ _ _ Hy) as [K1 K2 K3 K4].
    unfold P. rewrite K1, K2, K3. auto.
  - intros d x y b Hx Hy. pose proof Hx as (_ & B & C & _). rewrite Hpoll, C in Hy by done. by injection Hy as <- <-.
Qed.

Lemma calls_stop cs : forall s s', Calls cs s = Ok s' -> Stop ∈ cs -> m_requestStop s' = true.
Proof.
  induction cs as [|c cs IH]; intros x y; cbn; [by intros _ ?%elem_of_nil |].
  destruct (CallStep c x) as [x1| |] eqn:Hx; [| done | done]. intros Hy [<- | Hin]%elem_of_cons; [| by eapply IH].
  cbn in Hx. injection Hx as <-. eapply keeps_request; [by eapply keeps_calls | done].
Qed.

(** A poll returns false exactly when a stop was asked, and then has stopped
    the channels. *)
Lemma poll_result during s s1 b : Poll during s = Ok (s1, b) ->
  b = negb (m_requestStop s1) /\ (b = false -> m_channelsStopped s1 = true) /\ (Stop ∈ during -> b = false).
Proof.
  unfold pollOnceImpl.
  assert (Hend : forall x, (if m_requestStop x then Ok (if m_channelsStopped x then x else stopChannels x, false) else Ok (x, true))
                           = Ok (s1, b) -> (Stop ∈ during -> m_requestStop x = true) ->
    b = negb (m_requestStop s1) /\ (b = false -> m_channelsStopped s1 = true) /\ (Stop ∈ during -> b = false)).
  { intros x. destruct (m_requestStop x) eqn:Hr; intros [= <- <-] Hin.
    - destruct (m_channelsStopped x) eqn:Hx; cbn; by rewrite Hr.
    - rewrite Hr. split; [done |]. split; [done |]. intros H. specialize (Hin H). congruence. }
  destruct (m_requestStop s) eqn:Hr; [intros H; apply (Hend _ H); done |].
  destruct (pollChannels _ s) as [[s2 msg]| |] eqn:Hp; [| done | done]. pose proof (pollChannels_keeps _ _ _ Hp) as (_ & _ & R).
  destruct msg as [[m c]|]; [| rewrite R, Hr];
    (destruct (Calls during _) as [s3| |] eqn:Hc; [| done | done]); intros H; apply (Hend _ H); by eapply calls_stop.
Qed.

(** The main loop ends exactly when it is told to: when [stop] is called
    during some poll the loop does not poll for ever, and it ends only after a
    stop, with the channels' threads stopped. *)
Theorem serve_until_stopped durings s :
  (Exists (fun during => Stop ∈ during) durings ->
   serve p_auth m_interruptHandler m_busyShellHandler m_busyShellFilter abort_throws durings s <> Ok None)
  /\ (forall s', serve p_auth m_interruptHandler m_busyShellHandler m_busyShellFilter abort_throws durings s = Ok (Some s') ->
      m_requestStop s' = true /\ m_channelsStopped s' = true).
Proof.
  revert s. induction durings as [|during durings IH]; intros s; cbn [serve].
  - split; [by intros ?%Exists_nil | done].
  - destruct (Poll during s) as [[s1 b]| |] eqn:Hp; [| done | done].
    destruct (poll_result _ _ _ _ Hp) as (Hb & Hc & Hin). destruct b.
    + destruct (IH s1) as [IH1 IH2]. split; [| done]. intros [H | H]%Exists_cons; [by discriminate (Hin H) | by apply IH1].
    + split; [done |]. intros s' [= <-]. rewrite Hc by done. symmetry in Hb. apply negb_false_iff in Hb. auto.
Qed.

End Conservation.

(** ** The hypotheses can hold *)
Definition example_request (ty : str) : Message (J := Concrete.concrete) :=
  {| identities := ["c"%string : str]; base := makeMessageBase (mk_object [("msg_type"%string : str, mk_str ty)]) null null null [] |}.
Definition example_wire (ty : str) : frames :=
  match serialize (Ossl := Stub.stub) (example_request ty) NoAuthentication Strict with Ok w => w | _ => [] end.

Definition empty_server : Server (J := Concrete.concrete) :=
  {| m_shell := []; m_controller := []; m_deferredShell := []; m_deferredControl := []; m_busyQueue := [];
     m_watching := false; m_requestStop := false; m_channelsStopped := false; log := [];
     shell_arrived := []; control_arrived := [] |}.

Definition busy_complete : option (str -> bool) := Some (fun ty => str_eqb ty "complete_request"%string).

Abbreviation example_run := (run (J := Concrete.concrete) (Ossl := Stub.stub) NoAuthentication true true busy_complete (fun _ => false)).
Abbreviation example_calls := (calls (J := Concrete.concrete) (Ossl := Stub.stub) NoAuthentication true true busy_complete (fun _ => false)).

(** A cell runs; a completion, another cell and another completion arrive. *)
Definition example_steps : list Step :=
  [ Other (ArriveShell (example_wire "execute_request"%string));
    PollOnce [Begin; ArriveShell (example_wire "complete_request"%string); ArriveControl (example_wire "interrupt_request"%string);
              WatcherTurn; ArriveShell (example_wire "execute_request"%string); WatcherTurn;
              ArriveShell (example_wire "complete_request"%string); WatcherTurn; BusyTurn; End] ].

Definition of_result {A} (d : A) (r : result A) : A := match r with Ok a => a | _ => d end.
Definition example_after : Server (J := Concrete.concrete) := of_result empty_server (example_run example_steps empty_server).

Lemma example_after_run : example_run example_steps empty_server = Ok example_after.
Proof. vm_compute. reflexivity. Qed.

Lemma empty_server_fresh : fresh empty_server.
Proof. by repeat split. Qed.

Lemma requests_conserved_witness : exists aside main,
  conserved (Ossl := Stub.stub) NoAuthentication aside main (m_shell example_after) (shell_arrived example_after).
Proof.
  destruct (requests_conserved (Ossl := Stub.stub) NoAuthentication true true busy_complete (fun _ => false)
    example_steps empty_server example_after empty_server_fresh example_after_run) as [H _].
  do 2 eexists. exact H.
Defined.

(** The main thread is still busy with the first cell. *)
Definition example_set_aside : Server (J := Concrete.concrete) :=
  of_result empty_server (example_calls [Begin; ArriveShell (example_wire "execute_request"%string); WatcherTurn] empty_server).
Definition example_behind : list Call := [ArriveShell (example_wire "complete_request"%string); WatcherTurn; BusyTurn].

Lemma queued_behind_witness : exists s', example_calls example_behind example_set_aside = Ok s'
  /\ omap main_shell (log s') = omap main_shell (log example_set_aside).
Proof.
  exists (of_result empty_server (example_calls example_behind example_set_aside)).
  assert (H : example_calls example_behind example_set_aside
              = Ok (of_result empty_server (example_calls example_behind example_set_aside))) by (vm_compute; reflexivity).
  split; [exact H |].
  refine (proj2 (proj2 (queued_behind (Ossl := Stub.stub) NoAuthentication true true busy_complete (fun _ => false)
    example_behind example_set_aside _ _ _ H))).
  - intros E. apply (f_equal length) in E. vm_compute in E. discriminate.
  - repeat (apply Forall_cons; split; [discriminate |]). apply Forall_nil. exact I.
Defined.

Lemma polls_drain_witness : exists s', example_run (replicate (waits example_after) (PollOnce [])) example_after = Ok s'
  /\ m_deferredShell s' = [].
Proof.
  destruct (polls_drain (Ossl := Stub.stub) NoAuthentication true true busy_complete (fun _ => false) example_after)
    as (s' & H & _ & _ & _ & Hd & _).
  - vm_compute. reflexivity.
  - split.
    + assert (m_controller example_after = []) as -> by (vm_compute; reflexivity). apply Forall_nil. exact I.
    + assert (m_shell example_after = []) as -> by (vm_compute; reflexivity). apply Forall_nil. exact I.
  - exists s'. split; [exact H | exact Hd].
Defined.

Lemma stop_final_witness : exists s', example_run [PollOnce []] (setRequestStop true empty_server) = Ok s'
  /\ channel_stops (log s') = 1%nat.
Proof.
  exists (stopChannels (setRequestStop true empty_server)). split; [reflexivity |].
  refine (proj2 (proj2 (proj2 (stop_final (Ossl := Stub.stub) NoAuthentication true true busy_complete (fun _ => false)
    [Other Stop] [] [] empty_server (setRequestStop true empty_server) _ empty_server_fresh _ _ _ _)))); reflexivity.
Defined.

Lemma serve_until_stopped_witness :
  serve (J := Concrete.concrete) (Ossl := Stub.stub) NoAuthentication true true busy_complete (fun _ => false)
    [[]; [Stop]] empty_server <> Ok None.
Proof.
  apply (proj1 (serve_until_stopped (Ossl := Stub.stub) NoAuthentication true true busy_complete (fun _ => false)
    [[]; [Stop]] empty_server)).
  apply Exists_cons. right. apply Exists_cons. left. apply list_elem_of_here.
Defined.

(** What is not promised: the busy thread is not waited for at the end of an
    execution, so a request that arrived later can be answered first. *)
Example answered_out_of_order :
  match example_run [Other Begin; Other (ArriveShell (example_wire "complete_request"%string)); Other WatcherTurn; Other End;
                     Other (ArriveShell (example_wire "kernel_info_request"%string)); PollOnce []; Other BusyTurn] empty_server with
  | Ok s => match log s with
            | [Dispatched m1 SHELL; Answered m2] =>
                type_of_message m1 = Ok ("kernel_info_request"%string : str) /\ type_of_message m2 = Ok ("complete_request"%string : str)
            | _ => False
            end
  | _ => False
  end.
Proof. vm_compute. split; reflexivity. Qed.
