(* ===== verification/History.v ===== *)
(** * The history: core/history/history_manager.cpp and
    in_memory_history_manager.cpp

    The inputs a kernel ran, kept in memory, and the three ways to ask for them.
    A search turns the pattern into a [std::regex]: the regular expressions that
    a pattern without a backslash gives are modelled here, any other is the
    parameter [other_regex]. *)

From Stdlib Require Import Ascii ZArith Lia.
From S2P Require Import Prelude StataCode Json Wire Interpreter Comm Kernel.
Local Open Scope Z_scope.

Section History.
Context `{J : JsonLib}.

(** A [std::regex] of another syntax than below, which may be refused. *)
Context (other_regex : str -> result (str -> bool)).

Record entry := { session : Z; line_num : Z; input : str; output : str }.
Abbreviation history_type := (list entry).

#[export] Instance entry_eq_dec : EqDecision entry.
Proof. solve_decision. Defined.

Definition short_entry : Type := Z * Z * str.
Definition makeShortEntry (e : entry) : short_entry := (session e, line_num e, input e).

(** A tuple as nlohmann::json makes an array of it. *)
Definition json_of_entry (e : entry) : json :=
  mk_array [mk_int (session e); mk_int (line_num e); mk_array [mk_str (input e); mk_str (output e)]].
Definition json_of_short (e : short_entry) : json := mk_array [mk_int e.1.1; mk_int e.1.2; mk_str e.2].

Definition history_reply (history : list json) : json :=
  with_keys null [("history"%string : str, mk_array history); ("status"%string : str, mk_str "ok"%string)].

Definition storeInputsImpl (session line_num : Z) (input output : str) (h : history_type) : history_type :=
  h ++ [{| session := session; line_num := line_num; input := input; output := output |}].

(** [front_inserter]: each element before the last one. *)
Definition front_insert {A} (l : list A) : list A := fold_left (fun acc x => x :: acc) l [].

Definition getTailImpl (n : Z) (raw want_output : bool) (h : history_type) : result json :=
  let count := Z.min n (Z.of_nat (length h)) in
  if count <? 0 then Undefined
  else let last := take (Z.to_nat count) (reverse h) in
       Ok (history_reply (if want_output then json_of_entry <$> front_insert last
                          else json_of_short <$> front_insert (makeShortEntry <$> last))).

Definition getRangeImpl (session start stop : Z) (raw want_output : bool) (h : history_type) : result json :=
  let hist_size := Z.of_nat (length h) in
  if (stop <? start) || (hist_size <? start)
  then Ok (with_keys null [("status"%string : str, mk_str "error"%string); ("ename"%string : str, mk_str "history_request_error"%string);
                           ("evalue"%string : str, mk_str "get_range: start is too high given stop or current history"%string)])
  else if start <? 0 then Undefined
  else let count := Z.min stop hist_size - start in
       let range := take (Z.to_nat count) (drop (Z.to_nat start) h) in
       Ok (history_reply (if want_output then json_of_entry <$> range else json_of_short <$> (makeShortEntry <$> range))).

(** ** Patterns *)

(** [[-[\]{}()+.,\^$|#\s]] *)
Definition special_char (c : ascii) : bool :=
  existsb (char_eqb c) ("-[]{}()+.,^$|# "%string : str)
  || ((9 <=? Z.of_nat (nat_of_ascii c)) && (Z.of_nat (nat_of_ascii c) <=? 13)).

(** [regex_replace(pattern, special_chars, R"(\$&)")] *)
Definition sanitize (pattern : str) : str := pattern ≫= fun c => if special_char c then ["\"%char; c] else [c].

Definition replace_char (from : ascii) (to : str) (s : str) : str := s ≫= fun c => if char_eqb c from then to else [c].

Definition regex_of (pattern : str) : str :=
  replace_char "*"%char ".*"%string (replace_char "?"%char "."%string (sanitize pattern)).

(** The regular expressions made of characters (some escaped), [.] and [.*]. *)
Inductive atom := Lit (c : ascii) | AnyChar | AnyRun.

Definition alphanumeric (c : ascii) : bool :=
  let n := Z.of_nat (nat_of_ascii c) in
  ((48 <=? n) && (n <=? 57)) || ((65 <=? n) && (n <=? 90)) || ((97 <=? n) && (n <=? 122)) || (n =? 95).

Definition syntax_char (c : ascii) : bool := existsb (char_eqb c) ("^$\.*+?()[]{}|"%string : str).

Fixpoint parse_simple (re : str) : option (list atom) :=
  match re with
  | [] => Some []
  | c :: rest =>
      if char_eqb c "\"%char then
        match rest with
        | d :: rest => if alphanumeric d then None else (fun p => Lit d :: p) <$> parse_simple rest
        | [] => None
        end
      else if char_eqb c "."%char then
        match rest with
        | d :: rest' => if char_eqb d "*"%char then (fun p => AnyRun :: p) <$> parse_simple rest'
                        else (fun p => AnyChar :: p) <$> parse_simple rest
        | [] => Some [AnyChar]
        end
      else if syntax_char c then None
      else (fun p => Lit c :: p) <$> parse_simple rest
  end.

(** [.] matches any character but a line terminator. *)
Definition dot (c : ascii) : bool := negb (char_eqb c "010"%char) && negb (char_eqb c "013"%char).

Fixpoint match_here (p : list atom) : str -> bool :=
  match p with
  | [] => fun _ => true
  | Lit c :: p => fun t => match t with x :: t => char_eqb x c && match_here p t | [] => false end
  | AnyChar :: p => fun t => match t with x :: t => dot x && match_here p t | [] => false end
  | AnyRun :: p =>
      fix run t := match_here p t || match t with x :: t => dot x && run t | [] => false end
  end.

Fixpoint match_anywhere (p : list atom) (t : str) : bool :=
  match_here p t || match t with _ :: t => match_anywhere p t | [] => false end.

(** [std::regex regex(re)], and searching with it. *)
Definition regex_search (re : str) : result (str -> bool) :=
  match parse_simple re with
  | Some p => Ok (match_anywhere p)
  | None => other_regex re
  end.

(** [std::unique]: of equal neighbours, the first. *)
Fixpoint unique_list {A} `{EqDecision A} (l : list A) : list A :=
  match l with
  | x :: ((y :: _) as rest) => if decide (x = y) then unique_list rest else x :: unique_list rest
  | _ => l
  end.

Definition cleanHistory {A} `{EqDecision A} (history : list A) (n : Z) (unique : bool) : result (list A) :=
  let history := if unique then unique_list history else history in
  let nb_erase := Z.of_nat (length history) - n in
  if nb_erase <=? 0 then Ok history
  else if Z.of_nat (length history) <? nb_erase then Undefined
  else Ok (drop (Z.to_nat nb_erase) history).

Definition searchImpl (pattern : str) (raw want_output : bool) (n : Z) (unique : bool) (h : history_type) : result json :=
  let? regex := regex_search (regex_of pattern) in
  let found := List.filter (fun e => regex (c_str (input e))) h in
  if want_output
  then let? kept := cleanHistory found n unique in Ok (history_reply (json_of_entry <$> kept))
  else let? kept := cleanHistory (makeShortEntry <$> found) n unique in Ok (history_reply (json_of_short <$> kept)).

(** ** Requests *)
Definition processRequest (content : json) (h : history_type) : result json :=
  let? hist_access_type := value get_str content "hist_access_type"%string "tail"%string in
  if str_eqb hist_access_type "tail"%string then
    let? n := value get_int content "n"%string 10 in
    let? raw := value get_bool content "raw"%string true in
    let? output := value get_bool content "output"%string false in
    getTailImpl n raw output h
  else if str_eqb hist_access_type "search"%string then
    let? pattern := value get_str content "pattern"%string "*"%string in
    let? raw := value get_bool content "raw"%string true in
    let? output := value get_bool content "output"%string false in
    let? n := value get_int content "n"%string 10 in
    let? unique := value get_bool content "unique"%string false in
    searchImpl pattern raw output n unique h
  else if str_eqb hist_access_type "range"%string then
    let? session := value get_int content "session"%string 0 in
    let? start := value get_int content "start"%string 1 in
    let? stop := value get_int content "stop"%string 10 in
    let? raw := value get_bool content "raw"%string true in
    let? output := value get_bool content "output"%string false in
    getRangeImpl session start stop raw output h
  else Ok null.

(** The history manager of the kernel (its [output] is the default, empty). *)
#[export] Instance InMemoryHistoryManager : HistoryManager := {|
  hstate := history_type;
  Kernel.processRequest := processRequest;
  Kernel.storeInputs session line input h := storeInputsImpl session line input [] h
|}.

End History.

(** ** What a pattern matches *)

(** [?] is any character, [*] any text, both within a line; anything else is
    itself. *)
Inductive glob : str -> str -> Prop :=
| glob_nil : glob [] []
| glob_one c p t : dot c = true -> glob p t -> glob ("?"%char :: p) (c :: t)
| glob_none p t : glob p t -> glob ("*"%char :: p) t
| glob_more c p t : dot c = true -> glob ("*"%char :: p) t -> glob ("*"%char :: p) (c :: t)
| glob_self c p t : c <> "?"%char -> c <> "*"%char -> glob p t -> glob (c :: p) (c :: t).

Definition atom_of (c : ascii) : atom :=
  if char_eqb c "?"%char then AnyChar else if char_eqb c "*"%char then AnyRun else Lit c.

Definition piece_of (c : ascii) : str :=
  if char_eqb c "?"%char then ["."%char] else if char_eqb c "*"%char then [ "."%char; "*"%char ]
  else if special_char c then ["\"%char; c] else [c].

Lemma regex_of_cons c p : regex_of (c :: p) = piece_of c ++ regex_of p.
Proof.
  assert (H : forall b, str_eqb (regex_of [b]) (piece_of b) = true) by (apply forall_bytes; vm_compute; reflexivity).
  specialize (H c). apply str_eqb_eq in H. rewrite <- H. unfold regex_of, replace_char, sanitize.
  cbn [mbind list_bind]. rewrite !app_nil_r. by rewrite !bind_app.
Qed.

Lemma regex_of_head p : match regex_of p with c :: _ => char_eqb c "*"%char = false | [] => True end.
Proof.
  destruct p as [|c p]; [done |]. rewrite regex_of_cons.
  assert (H : forall b, match piece_of b with c :: _ => negb (char_eqb c "*"%char) | [] => false end = true)
    by (apply forall_bytes; vm_compute; reflexivity).
  specialize (H c). destruct (piece_of c); [done |]. cbn. by apply negb_true_iff.
Qed.

(** A character that is not escaped is ordinary, one that is escaped is not
    alphanumeric. *)
Lemma piece_parses c : c <> "\"%char -> c <> "?"%char -> c <> "*"%char ->
  if special_char c then alphanumeric c = false
  else char_eqb c "\"%char = false /\ char_eqb c "."%char = false /\ syntax_char c = false.
Proof.
  intros H1 H2 H3.
  assert (H : forall b, char_eqb b "\"%char || char_eqb b "?"%char || char_eqb b "*"%char
    || (if special_char b then negb (alphanumeric b)
        else negb (char_eqb b "\"%char) && negb (char_eqb b "."%char) && negb (syntax_char b)) = true)
    by (apply forall_bytes; vm_compute; reflexivity).
  specialize (H c). apply char_eqb_neq in H1, H2, H3. rewrite H1, H2, H3 in H. cbn [orb] in H.
  destruct (special_char c); [by apply negb_true_iff |].
  rewrite !andb_true_iff, !negb_true_iff in H. tauto.
Qed.

Lemma parse_regex_of p : "\"%char ∉ p -> parse_simple (regex_of p) = Some (atom_of <$> p).
Proof.
  induction p as [|c p IH]; [done |]. intros [Hc Hp]%not_elem_of_cons. specialize (IH Hp).
  rewrite regex_of_cons. unfold piece_of. cbn [fmap list_fmap]. unfold atom_of at 1.
  destruct (char_eqb c "?"%char) eqn:E1; [| destruct (char_eqb c "*"%char) eqn:E2].
  - cbn [app parse_simple]. change (char_eqb "."%char "\"%char) with false. change (char_eqb "."%char "."%char) with true.
    cbv iota. pose proof (regex_of_head p) as Hh. destruct (regex_of p) as [|d rest] eqn:Er; [by injection IH as <- |].
    rewrite Hh, IH. done.
  - cbn [app parse_simple]. change (char_eqb "."%char "\"%char) with false. change (char_eqb "."%char "."%char) with true.
    change (char_eqb "*"%char "*"%char) with true. cbv iota. by rewrite IH.
  - apply char_eqb_neq in E1, E2. pose proof (piece_parses c ltac:(congruence) E1 E2) as H. destruct (special_char c).
    + cbn [app parse_simple]. change (char_eqb "\"%char "\"%char) with true. cbv iota. by rewrite H, IH.
    + destruct H as (H1 & H2 & H3). cbn [app parse_simple]. by rewrite H1, H2, H3, IH.
Qed.

Lemma match_here_glob p : forall t, match_here (atom_of <$> p) t = true <-> exists mid after, t = mid ++ after /\ glob p mid.
Proof.
  induction p as [|c p IH]; intros t.
  - split; [| done]. intros _. exists [], t. split; [done | constructor].
  - cbn [fmap list_fmap]. unfold atom_of at 1.
    destruct (char_eqb c "?"%char) eqn:E1; [| destruct (char_eqb c "*"%char) eqn:E2].
    + apply char_eqb_eq in E1 as ->. destruct t as [|x t]; cbn [match_here].
      * split; [done |]. intros (mid & after & E & Hg). inversion Hg; subst; done.
      * rewrite andb_true_iff, IH. split.
        -- intros (Hx & mid & after & -> & Hg). exists (x :: mid), after. split; [done | by constructor].
        -- intros (mid & after & E & Hg). inversion Hg; subst; [| done]. injection E as -> ->. eauto.
    + apply char_eqb_eq in E2 as ->. induction t as [|x t IHt]; cbn [match_here] in *;
        rewrite orb_true_iff, IH.
      * split; [| intros (mid & after & E & Hg)].
        -- intros [(mid & after & E & Hg) | ?]; [| done]. exists mid, after. split; [done | by constructor].
        -- inversion Hg; subst; try done. left. eauto.
      * rewrite andb_true_iff, IHt. split.
        -- intros [(mid & after & -> & Hg) | (Hx & mid & after & -> & Hg)].
           ++ exists mid, after. split; [done | by constructor].
           ++ exists (x :: mid), after. split; [done | by constructor].
        -- intros (mid & after & E & Hg). inversion Hg; subst; try done.
           ++ left. eauto.
           ++ injection E as -> ->. right. eauto.
    + apply char_eqb_neq in E1, E2. destruct t as [|x t]; cbn [match_here].
      * split; [done |]. intros (mid & after & E & Hg). inversion Hg; subst; done.
      * rewrite andb_true_iff, IH, char_eqb_eq. split.
        -- intros (-> & mid & after & -> & Hg). exists (c :: mid), after. split; [done | by constructor].
        -- intros (mid & after & E & Hg). inversion Hg; subst; try done. injection E as -> ->. eauto.
Qed.

Lemma match_anywhere_glob p t : match_anywhere (atom_of <$> p) t = true <->
  exists before mid after, t = before ++ mid ++ after /\ glob p mid.
Proof.
  induction t as [|x t IH]; cbn [match_anywhere]; rewrite orb_true_iff, match_here_glob.
  - split.
    + intros [(mid & after & -> & Hg) | ?]; [| done]. exists [], mid, after. done.
    + intros (before & mid & after & E & Hg). symmetry in E. apply app_eq_nil in E as [-> E]. left. by exists mid, after.
  - rewrite IH. split.
    + intros [(mid & after & -> & Hg) | (before & mid & after & -> & Hg)]; [exists [] | exists (x :: before)]; eauto.
    + intros ([|y before] & mid & after & E & Hg); [left; exists mid, after; done |]. cbn in E. injection E as -> ->. right. eauto.
Qed.

(** ** What is returned *)
Section Replies.
Context `{JL : JsonLaws} (other_regex : str -> result (str -> bool)).

Definition shown (want_output : bool) (e : entry) : json :=
  if want_output then json_of_entry e else json_of_short (makeShortEntry e).

(** The last [n] of a list. *)
Definition last_of {A} (n : Z) (l : list A) : list A := drop (length l - Z.to_nat n) l.

Definition replies_with (r : result json) (entries : list json) : Prop :=
  exists reply, r = Ok reply /\ find reply "history"%string = Some (mk_array entries)
                /\ find reply "status"%string = Some (mk_str "ok"%string).

Lemma replies_history entries : replies_with (Ok (history_reply entries)) entries.
Proof. eexists. split; [reflexivity |]. unfold history_reply. split; by find_key. Qed.

Lemma front_insert_reverse {A} (l : list A) : front_insert l = reverse l.
Proof.
  unfold front_insert. enough (forall acc, fold_left (fun acc x => x :: acc) l acc = reverse l ++ acc) as ->
    by apply app_nil_r.
  induction l as [|x l IH]; intros acc; [done |].
  rewrite reverse_cons, <- app_assoc. exact (IH (x :: acc)).
Qed.

Lemma last_reverse {A} k (l : list A) : reverse (take k (reverse l)) = drop (length l - k) l.
Proof. by rewrite take_reverse, reverse_involutive. Qed.

Lemma shown_list b (l : list entry) :
  (if b : bool then json_of_entry <$> l else json_of_short <$> (makeShortEntry <$> l)) = (shown b <$> l : list json).
Proof. destruct b; unfold shown; [done | by rewrite <- list_fmap_compose]. Qed.

Lemma getTail_spec n raw b h : 0 <= n -> replies_with (getTailImpl n raw b h) (shown b <$> last_of n h).
Proof.
  intros Hn. unfold getTailImpl, last_of. destruct (Z.ltb_spec (Z.min n (Z.of_nat (length h))) 0); [lia |].
  rewrite !front_insert_reverse, <- fmap_reverse, last_reverse, shown_list.
  replace (length h - Z.to_nat (Z.min n (Z.of_nat (length h))))%nat with (length h - Z.to_nat n)%nat by lia.
  apply replies_history.
Qed.

Lemma getRange_spec session start stop raw b h : 0 <= start ->
  if decide (start <= stop /\ start <= Z.of_nat (length h))
  then replies_with (getRangeImpl session start stop raw b h)
         (shown b <$> take (Z.to_nat (stop - start)) (drop (Z.to_nat start) h))
  else exists reply, getRangeImpl session start stop raw b h = Ok reply
       /\ find reply "status"%string = Some (mk_str "error"%string) /\ find reply "history"%string = None.
Proof.
  intros Hs. unfold getRangeImpl. destruct (decide _) as [[H1 H2] | H].
  - destruct (Z.ltb_spec stop start), (Z.ltb_spec (Z.of_nat (length h)) start), (Z.ltb_spec start 0); try lia. cbn [orb].
    rewrite shown_list. set (r := drop _ h). assert (Hl : length r = (length h - Z.to_nat start)%nat) by apply length_drop.
    destruct (Z.le_ge_cases stop (Z.of_nat (length h))).
    + rewrite Z.min_l by lia. apply replies_history.
    + rewrite (take_ge r (Z.to_nat (stop - start))), take_ge by lia. apply replies_history.
  - assert ((stop <? start) || (Z.of_nat (length h) <? start) = true) as ->.
    { apply orb_true_iff. rewrite !Z.ltb_lt. lia. }
    eexists. split; [reflexivity |]. split; [by find_key |]. find_key. apply find_other. by rewrite type_null.
Qed.

Lemma unique_NoDup {A} `{EqDecision A} (l : list A) : NoDup l -> unique_list l = l.
Proof.
  intros H. induction H as [|x l Hx Hl IH]; [done |]. cbn [unique_list]. destruct l as [|y l]; [done |].
  rewrite decide_False by (intros ->; apply Hx; left). by rewrite IH.
Qed.

Lemma cleanHistory_spec {A} `{EqDecision A} (l : list A) n u : 0 <= n -> (u = true -> NoDup l) ->
  cleanHistory l n u = Ok (last_of n l).
Proof.
  intros Hn Hu. unfold cleanHistory, last_of.
  assert ((if u then unique_list l else l) = l) as -> by (destruct u; [by apply unique_NoDup, Hu | done]).
  destruct (Z.leb_spec (Z.of_nat (length l) - n) 0).
  - by replace (length l - Z.to_nat n)%nat with 0%nat by lia.
  - destruct (Z.ltb_spec (Z.of_nat (length l)) (Z.of_nat (length l) - n)); [lia |]. do 2 f_equal. lia.
Qed.

(** Whether the text of an entry, up to a NUL, has a part the pattern matches. *)
Definition matching (pattern : str) (e : entry) : Prop :=
  exists before mid after, c_str (input e) = before ++ mid ++ after /\ glob pattern mid.

Lemma short_injective e1 e2 : output e1 = output e2 -> makeShortEntry e1 = makeShortEntry e2 -> e1 = e2.
Proof. destruct e1, e2. cbn. by intros -> [= -> -> ->]. Qed.

Lemma last_of_fmap {A B} (f : A -> B) n l : last_of n (f <$> l) = f <$> last_of n l.
Proof. unfold last_of. by rewrite length_fmap, fmap_drop. Qed.

Lemma searchImpl_spec pattern raw b n u h : "\"%char ∉ pattern -> 0 <= n ->
  (u = true -> NoDup (makeShortEntry <$> h)) ->
  exists found, replies_with (searchImpl other_regex pattern raw b n u h) (shown b <$> last_of n found)
  /\ sublist found h /\ forall e, e ∈ found <-> e ∈ h /\ matching pattern e.
Proof.
  intros Hp Hn Hu. unfold searchImpl, regex_search. rewrite parse_regex_of by done.
  set (found := List.filter _ h). exists found.
  assert (Hsub : sublist found h).
  { unfold found. clear. induction h as [|e h IH]; cbn; [constructor |].
    destruct (match_anywhere _ _); by constructor. }
  split; [| split; [done |]].
  - assert (Hnd : u = true -> NoDup (makeShortEntry <$> found)).
    { intros Hu'. eapply sublist_NoDup; [by apply Hu | by apply fmap_sublist]. }
    destruct b.
    + rewrite cleanHistory_spec; [apply replies_history | done |].
      intros Hu'. eapply (NoDup_fmap_1 makeShortEntry). by apply Hnd.
    + rewrite cleanHistory_spec by done. rewrite last_of_fmap, <- list_fmap_compose. apply replies_history.
  - intros e. unfold found. rewrite !list_elem_of_In, List.filter_In. unfold matching. by rewrite match_anywhere_glob.
Qed.

(** What a tail or range request returns.  With [n >= 0], a tail is the
    last [n] entries (all when there are fewer), oldest first, and what was
    stored last comes last; a range with [start >= 0] is the entries at the
    positions from [start] up to [stop], or an error reply when it begins after
    [stop] or after the end.  Each entry is shown with its session, line and
    input (and output when asked). *)
Theorem history_slices content h raw b n session start stop : 0 <= n -> 0 <= start ->
  value get_bool content "raw"%string true = Ok raw -> value get_bool content "output"%string false = Ok b ->
  value get_int content "n"%string 10 = Ok n -> value get_int content "session"%string 0 = Ok session ->
  value get_int content "start"%string 1 = Ok start -> value get_int content "stop"%string 10 = Ok stop ->
  (value get_str content "hist_access_type"%string "tail"%string = Ok ("tail"%string : str) ->
   replies_with (processRequest other_regex content h) (shown b <$> last_of n h)
   /\ (0 < n -> forall s line code, last (last_of n (storeInputsImpl s line code [] h))
                                   = Some {| session := s; line_num := line; input := code; output := [] |}))
  /\ (value get_str content "hist_access_type"%string "tail"%string = Ok ("range"%string : str) ->
      if decide (start <= stop /\ start <= Z.of_nat (length h))
      then replies_with (processRequest other_regex content h)
             (shown b <$> take (Z.to_nat (stop - start)) (drop (Z.to_nat start) h))
      else exists reply, processRequest other_regex content h = Ok reply
           /\ find reply "status"%string = Some (mk_str "error"%string) /\ find reply "history"%string = None).
Proof.
  intros Hn Hs Hraw Hb Hvn Hse Hst Hsp. split; intros Ht; unfold processRequest; rewrite Ht.
  - rewrite str_eqb_refl, Hvn, Hraw, Hb. split; [by apply getTail_spec |]. intros Hpos s line code.
    unfold storeInputsImpl, last_of. rewrite length_app. cbn [length].
    rewrite drop_app_le by lia. by rewrite last_snoc.
  - change (str_eqb "range"%string "tail"%string) with false. change (str_eqb "range"%string "search"%string) with false.
    rewrite str_eqb_refl, Hse, Hst, Hsp, Hraw, Hb. by apply getRange_spec.
Qed.


End Replies.

(** ** The hypotheses can hold *)
Definition no_other (re : str) : result (str -> bool) := Throw "regex_error"%string.
Definition example_history : list entry :=
  [ {| session := 0; line_num := 1; input := "x <- c(1, 2)"%string; output := [] |};
    {| session := 0; line_num := 2; input := "mean(x)"%string; output := [] |} ].
Definition example_search : json (JsonLib := Concrete.concrete) :=
  mk_object [("hist_access_type"%string : str, mk_str "search"%string); ("pattern"%string : str, mk_str "(?)"%string);
             ("unique"%string : str, mk_bool true)].

Lemma history_slices_witness :
  replies_with (J := Concrete.concrete) (processRequest no_other empty_object example_history)
    (shown (J := Concrete.concrete) false <$> last_of 10 example_history).
Proof.
  refine (proj1 (proj1 (history_slices (JL := Concrete.concrete_laws) no_other empty_object example_history true false 10 0 1 10
    _ _ _ _ _ _ _ _) _)); first [lia | reflexivity].
Defined.


(** A pattern with a backslash is not taken literally: it becomes an escape of
    the regular expression, or no expression at all. *)
Example backslash_is_not_escaped : regex_of "\d"%string = ("\d"%string : str) /\ parse_simple (regex_of "\d"%string) = None
  /\ parse_simple (regex_of "a\"%string) = None.
Proof. repeat split. Qed.

(** A negative [n] goes before the beginning of the list. *)
Example negative_tail : getTailImpl (J := Concrete.concrete) (-1) true false example_history = Undefined
  /\ getRangeImpl (J := Concrete.concrete) 0 (-1) 1 true false example_history = Undefined.
Proof. split; reflexivity. Qed.

(** The default range starts at 1, a position: the first entry, line 1, is left
    out. *)
Example range_skips_the_first : getRangeImpl (J := Concrete.concrete) 0 1 10 true false example_history
  = Ok (history_reply [json_of_short (0, 2, "mean(x)"%string : str)]).
Proof. vm_compute. reflexivity. Qed.

(** [unique]: two runs of the same input are not equal entries, their lines
    differ. *)
Example unique_keeps_both :
  let e line := (0, line, "x"%string : str) in unique_list [e 1; e 2] = [e 1; e 2].
Proof. reflexivity. Qed.
