(* ===== verification/Session.v ===== *)
(** * The life of a session: the poll loop, the heartbeat and the stop
    (themisto/session_registry.cpp)

    A session's kernel process runs beside three threads of the supervisor: the
    poll thread, which relays what the kernel sends and notices that its process
    is gone; the heartbeat's, which notices that it does not answer; and the
    thread that stops it.  The poll thread is cut where another thread can come
    in between ([poll_step]); a run is any sequence of its steps, of the
    heartbeat's, and of what the kernel does. *)

From Stdlib Require Import Lia.
From S2P Require Import Prelude.

Inductive SessionStatus := Starting | Ready | Stopped | Crashed.

#[export] Instance SessionStatus_eq_dec : EqDecision SessionStatus.
Proof. solve_decision. Defined.

Definition toString (s : SessionStatus) : str :=
  match s with
  | Starting => "starting"%string
  | Ready => "ready"%string
  | Stopped => "stopped"%string
  | Crashed => "crashed"%string
  end.

(** A message of the kernel, as far as the poll loop looks at it: the channel,
    the type, and which one it is. *)
Inductive channel := Iopub | Shell | Control | Stdin.

#[export] Instance channel_eq_dec : EqDecision channel.
Proof. solve_decision. Defined.

Record Received := { on : channel; msg_type : str; number : nat }.

(** What the session's client is sent: the kernel's messages and its end. *)
Inductive Frame :=
| Relayed (m : Received)
| KernelExit (by_heartbeat : bool).

(** Where the poll thread is: at the head of its loop, past the test of
    [polling], with [exited] sampled, or at its end. *)
Inductive PollThread := AtHead | InBody | Sampled (exited : bool) | Ended.

Record Session := {
  status : SessionStatus;
  alive : bool;
  polling : bool;
  poller : PollThread;
  heartbeat : bool;
  expectingExit : bool;
  answeredShutdown : bool;
  (** received from the kernel, not yet read by the poll thread *)
  received : list Received;
  frames : list Frame;
  (** all the kernel ever sent *)
  kernel_sent : list Received;
  shutdown_requests : list bool
}.

Definition set_status x s := {| status := x; alive := alive s; polling := polling s; poller := poller s; heartbeat := heartbeat s;
  expectingExit := expectingExit s; answeredShutdown := answeredShutdown s; received := received s; frames := frames s;
  kernel_sent := kernel_sent s; shutdown_requests := shutdown_requests s |}.
Definition set_alive x s := {| status := status s; alive := x; polling := polling s; poller := poller s; heartbeat := heartbeat s;
  expectingExit := expectingExit s; answeredShutdown := answeredShutdown s; received := received s; frames := frames s;
  kernel_sent := kernel_sent s; shutdown_requests := shutdown_requests s |}.
Definition set_polling x s := {| status := status s; alive := alive s; polling := x; poller := poller s; heartbeat := heartbeat s;
  expectingExit := expectingExit s; answeredShutdown := answeredShutdown s; received := received s; frames := frames s;
  kernel_sent := kernel_sent s; shutdown_requests := shutdown_requests s |}.
Definition set_poller x s := {| status := status s; alive := alive s; polling := polling s; poller := x; heartbeat := heartbeat s;
  expectingExit := expectingExit s; answeredShutdown := answeredShutdown s; received := received s; frames := frames s;
  kernel_sent := kernel_sent s; shutdown_requests := shutdown_requests s |}.
Definition set_heartbeat x s := {| status := status s; alive := alive s; polling := polling s; poller := poller s; heartbeat := x;
  expectingExit := expectingExit s; answeredShutdown := answeredShutdown s; received := received s; frames := frames s;
  kernel_sent := kernel_sent s; shutdown_requests := shutdown_requests s |}.
Definition set_expecting x y s := {| status := status s; alive := alive s; polling := polling s; poller := poller s; heartbeat := heartbeat s;
  expectingExit := x; answeredShutdown := y; received := received s; frames := frames s;
  kernel_sent := kernel_sent s; shutdown_requests := shutdown_requests s |}.
Definition emitKernelExit x s := {| status := status s; alive := alive s; polling := polling s; poller := poller s; heartbeat := heartbeat s;
  expectingExit := expectingExit s; answeredShutdown := answeredShutdown s; received := received s;
  frames := frames s ++ [KernelExit x]; kernel_sent := kernel_sent s; shutdown_requests := shutdown_requests s |}.
Definition request_shutdown restart s := {| status := status s; alive := alive s; polling := polling s; poller := poller s;
  heartbeat := heartbeat s; expectingExit := expectingExit s; answeredShutdown := answeredShutdown s; received := received s;
  frames := frames s; kernel_sent := kernel_sent s; shutdown_requests := shutdown_requests s ++ [restart] |}.

Definition is_shutdown_reply (m : Received) : bool :=
  match on m with Iopub => false | _ => str_eqb (msg_type m) "shutdown_reply"%string end.

(** [drainIopub], then [drainReplyChannels]: each channel in its order. *)
Definition of_channel (c : channel) (m : Received) : bool :=
  match c, on m with Iopub, Iopub | Shell, Shell | Control, Control | Stdin, Stdin => true | _, _ => false end.

Definition drained (l : list Received) : list Received :=
  List.filter (of_channel Iopub) l ++ List.filter (of_channel Shell) l
  ++ List.filter (of_channel Control) l ++ List.filter (of_channel Stdin) l.

Definition drain (s : Session) : Session :=
  {| status := status s; alive := alive s; polling := polling s; poller := poller s; heartbeat := heartbeat s;
     expectingExit := expectingExit s; answeredShutdown := answeredShutdown s || existsb is_shutdown_reply (received s);
     received := []; frames := frames s ++ (Relayed <$> drained (received s)); kernel_sent := kernel_sent s;
     shutdown_requests := shutdown_requests s |}.

(** ** The poll thread *)
Definition poll_step (s : Session) : Session :=
  match poller s with
  | AtHead => if polling s then set_poller InBody s else set_poller Ended s
  | InBody => set_poller (Sampled (negb (alive s))) s
  | Sampled exited =>
      let s := drain s in
      if exited then
        let s := if expectingExit s then s else emitKernelExit false (set_status Crashed s) in
        set_poller Ended (set_polling false s)
      else set_poller AtHead s
  | Ended => s
  end.

(** The kernel status listener, called when the heartbeat gives up. *)
Definition heartbeat_dead (s : Session) : Session :=
  if negb (heartbeat s) then s
  else if bool_decide (status s = Crashed) || bool_decide (status s = Stopped) then s
  else emitKernelExit true (set_status Crashed s).

(** What can happen beside a stop. *)
Inductive Event :=
| KernelSends (m : Received)
| ProcessExits
| Poll
| HeartbeatGivesUp.

Definition kernel_sends (m : Received) (s : Session) : Session :=
  if alive s then
    {| status := status s; alive := alive s; polling := polling s; poller := poller s; heartbeat := heartbeat s;
       expectingExit := expectingExit s; answeredShutdown := answeredShutdown s; received := received s ++ [m];
       frames := frames s; kernel_sent := kernel_sent s ++ [m]; shutdown_requests := shutdown_requests s |}
  else s.

Definition event (e : Event) (s : Session) : Session :=
  match e with
  | KernelSends m => kernel_sends m s
  | ProcessExits => set_alive false s
  | Poll => poll_step s
  | HeartbeatGivesUp => heartbeat_dead s
  end.

Definition events (es : list Event) (s : Session) : Session := fold_left (fun s e => event e s) es s.

(** ** Starting and stopping *)

(** As createSessionWithId leaves it, with its client connected. *)
Definition startPolling (s : Session) : Session := set_poller AtHead (set_polling true s).

Definition new_session : Session :=
  startPolling {| status := Ready; alive := true; polling := false; poller := Ended; heartbeat := true; expectingExit := false;
                  answeredShutdown := false; received := []; frames := []; kernel_sent := []; shutdown_requests := [] |}.

(** The grace loop: [waits i] is what happens during its [i]-th sleep.  It
    counts up to 120 at most, so [fuel] of 120 is enough ([grace_bound]). *)
Definition waiting (i : nat) (s : Session) : bool :=
  alive s && ((i <? 20)%nat || (answeredShutdown s && (i <? 120)%nat)).

Fixpoint grace (fuel i : nat) (waits : nat -> list Event) (s : Session) : nat * Session :=
  match fuel with
  | O => (i, s)
  | S f => if waiting i s then grace f (S i) waits (events (waits i) s) else (i, s)
  end.

(** [pollThread.join()], once [polling] is false: the thread ends the turn it
    is in. *)
Definition join (s : Session) : Session := poll_step (poll_step (poll_step s)).

(** [stopSession] for a session that was found; [late] is what happens between
    the grace loop and the join. *)
Definition stopSession (restart : bool) (waits : nat -> list Event) (late : list Event) (s : Session) : Session :=
  let wasAlive := alive s in
  let s := if wasAlive then request_shutdown restart (set_expecting true false s) else s in
  let (_, s) := grace 120 0 waits s in
  let s := join (events late (set_polling false s)) in
  let s := set_heartbeat false s in
  let s := if alive s then set_alive false s else s in
  set_status Stopped s.

(** ** What is guaranteed *)
Definition relayed (f : Frame) : option Received := match f with Relayed m => Some m | _ => None end.

(** The messages of one channel. *)
Definition on_channel (c : channel) (l : list Received) : list Received := List.filter (of_channel c) l.
#[local] Arguments on_channel : simpl never.

(** The invariant of a session. *)
Record inv (s : Session) : Prop := {
  (** on each channel: nothing is relayed that was not sent, nothing is lost or
      overtaken on the way *)
  inv_relayed : forall c, on_channel c (omap relayed (frames s) ++ received s) = on_channel c (kernel_sent s);
  (** an exit is sampled only of a process that is gone *)
  inv_sampled : poller s = Sampled true -> alive s = false;
  (** an exit the poll loop reports is one nobody asked for, of a process that
      is gone, after all that it sent *)
  inv_exit : forall a b, frames s = a ++ KernelExit false :: b ->
             alive s = false /\ (forall c, on_channel c (omap relayed a) = on_channel c (kernel_sent s))
             /\ omap relayed b = [] /\ poller s = Ended;
  inv_ended : poller s = Ended -> polling s = false
}.

Lemma on_channel_app c a b : on_channel c (a ++ b) = on_channel c a ++ on_channel c b.
Proof. apply List.filter_app. Qed.

Lemma on_channel_twice c d l : on_channel c (on_channel d l) = if decide (c = d) then on_channel c l else [].
Proof.
  induction l as [|[o ty n] l IH]; [by destruct (decide _) |]. unfold on_channel in *.
  destruct c, d, o; cbn in *; rewrite IH; done.
Qed.

Lemma drained_channel c l : on_channel c (drained l) = on_channel c l.
Proof.
  unfold drained. change (List.filter (of_channel ?d) l) with (on_channel d l).
  rewrite !on_channel_app. fold (on_channel Iopub l) (on_channel Shell l) (on_channel Control l) (on_channel Stdin l).
  rewrite !on_channel_twice. by destruct c; rewrite ?app_nil_r.
Qed.

Lemma relayed_app (a b : list Frame) : omap relayed (a ++ b) = omap relayed a ++ omap relayed b.
Proof. apply omap_app. Qed.

Lemma relayed_all (l : list Received) : omap relayed (Relayed <$> l) = l.
Proof. induction l as [|m l IH]; cbn; [done | by f_equal]. Qed.

Lemma inv_new : inv new_session.
Proof. split; cbn; try done. intros [|? a] b; done. Qed.

Lemma app_snoc_inv {A} (l a b : list A) x y : l ++ [x] = a ++ y :: b ->
  (b = [] /\ l = a /\ x = y) \/ exists b', b = b' ++ [x] /\ l = a ++ y :: b'.
Proof.
  destruct b as [|z b _] using rev_ind.
  - intros [-> [= ->]]%app_inj_tail. by left.
  - rewrite app_comm_cons, app_assoc. intros [-> ->]%app_inj_tail. right. by exists b.
Qed.

Lemma no_exit s : poller s <> Ended -> inv s -> forall a b, frames s <> a ++ KernelExit false :: b.
Proof. intros Hp [_ _ H _] a b E. by destruct (H a b E) as (_ & _ & _ & ?). Qed.

Lemma no_exit_drained (l : list Received) (fs : list Frame) : (forall a b, fs <> a ++ KernelExit false :: b) ->
  forall a b, fs ++ (Relayed <$> l) <> a ++ KernelExit false :: b.
Proof.
  intros H. induction l as [|m l IH] using rev_ind; cbn; [by rewrite app_nil_r |].
  intros a b. rewrite fmap_app, app_assoc. cbn. intros [(-> & _ & [=]) | (b' & -> & E)]%app_snoc_inv. by apply IH in E.
Qed.

Lemma inv_drain s : inv s -> poller s <> Ended -> inv (drain s) /\ received (drain s) = [].
Proof.
  intros Hi Hp. pose proof (no_exit s Hp Hi) as Hn. destruct Hi as [I1 I2 I3 I4]. split; [| done].
  split; cbn; try done.
  - intros c. rewrite app_nil_r, relayed_app, relayed_all, <- I1, !on_channel_app. by rewrite drained_channel.
  - intros a b E. exfalso. by apply (no_exit_drained _ _ Hn a b) in E.
Qed.

Lemma inv_poll_step s : inv s -> inv (poll_step s).
Proof.
  intros Hi. unfold poll_step. destruct (poller s) as [| | exited |] eqn:Hp; [| | | done].
  - pose proof (no_exit s ltac:(by rewrite Hp) Hi) as Hn. destruct Hi as [I1 I2 I3 I4].
    destruct (polling s) eqn:Hpo; split; cbn; try done; by intros a b E%Hn.
  - pose proof (no_exit s ltac:(by rewrite Hp) Hi) as Hn. destruct Hi as [I1 I2 I3 I4].
    split; cbn; try done; [| by intros a b E%Hn]. intros [= H]. by apply negb_true_iff.
  - assert (Hne : poller s <> Ended) by by rewrite Hp. destruct (inv_drain s Hi Hne) as [Hd Hr].
    pose proof (no_exit (drain s) Hne Hd) as Hn. destruct Hd as [I1 I2 I3 I4].
    assert (I1' : forall c, on_channel c (omap relayed (frames (drain s))) = on_channel c (kernel_sent s))
      by (intros c; by rewrite <- I1, Hr, app_nil_r).
    destruct exited; [destruct (expectingExit _)|]; split; cbn; try done; try by intros a b E%Hn.
    + intros c. rewrite relayed_app. cbn. by rewrite !app_nil_r, I1'.
    + intros a b [(-> & <- & _) | (b' & -> & E)]%app_snoc_inv; [| by apply Hn in E].
      split; [by apply I2 | done].
Qed.

Lemma inv_event e s : inv s -> inv (event e s).
Proof.
  intros Hi. destruct e as [m | | |]; cbn [event].
  - unfold kernel_sends. destruct (alive s) eqn:Ha; [| done]. destruct Hi as [I1 I2 I3 I4]. split; cbn; try done.
    + intros c. by rewrite app_assoc, !on_channel_app, <- I1, on_channel_app.
    + intros H. by rewrite I2 in Ha.
    + intros a b E. destruct (I3 a b E) as (H & _). congruence.
  - destruct Hi as [I1 I2 I3 I4]. split; cbn; try done. intros a b E. by destruct (I3 a b E).
  - by apply inv_poll_step.
  - unfold heartbeat_dead. destruct (negb _); [done |]. destruct (_ || _); [done |].
    destruct Hi as [I1 I2 I3 I4]. split; cbn; try done.
    + intros c. rewrite relayed_app. cbn. by rewrite app_nil_r.
    + intros a b [(-> & <- & [=]) | (b' & -> & E)]%app_snoc_inv. destruct (I3 a b' E) as (H1 & H2 & H3 & H4).
      rewrite relayed_app, H3. done.
Qed.

Lemma inv_events es s : inv s -> inv (events es s).
Proof. revert s. induction es as [|e es IH]; intros s Hi; [done |]. apply (IH (event e s)), inv_event, Hi. Qed.

Lemma inv_grace waits fuel : forall i s, inv s -> inv (snd (grace fuel i waits s)).
Proof.
  induction fuel as [|fuel IH]; intros i s Hi; cbn; [done |]. destruct (waiting i s); [| done].
  apply IH, inv_events, Hi.
Qed.

Lemma inv_stop restart waits late s : inv s -> inv (stopSession restart waits late s).
Proof.
  intros Hi. unfold stopSession.
  set (s1 := if alive s then _ else s). assert (H1 : inv s1) by (unfold s1; destruct (alive s); [by destruct Hi | done]).
  pose proof (inv_grace waits 120 0 s1 H1) as H2. destruct (grace 120 0 waits s1) as [n s2]. cbn in H2.
  assert (H3 : inv (set_polling false s2)) by by destruct H2.
  assert (H4 : inv (join (events late (set_polling false s2)))) by (by apply inv_poll_step, inv_poll_step, inv_poll_step, inv_events).
  set (j := join _) in *. assert (H5 : inv (set_heartbeat false j)) by by destruct H4.
  assert (H6 : inv (if alive (set_heartbeat false j) then set_alive false (set_heartbeat false j) else set_heartbeat false j))
    by (destruct (alive (set_heartbeat false j)); [by apply (inv_event ProcessExits) | done]).
  by destruct H6.
Qed.


(** ** The stop *)
Definition unexpected (f : Frame) : option bool := match f with KernelExit false => Some true | _ => None end.

Lemma unexpected_drain s : omap unexpected (frames (drain s)) = omap unexpected (frames s).
Proof.
  cbn. rewrite omap_app. enough (forall l, omap unexpected (Relayed <$> l) = []) as -> by apply app_nil_r.
  intros l. by induction l.
Qed.

(** While an exit is expected, none is reported. *)
Lemma expected_event e s : expectingExit s = true ->
  expectingExit (event e s) = true /\ omap unexpected (frames (event e s)) = omap unexpected (frames s)
  /\ shutdown_requests (event e s) = shutdown_requests s.
Proof.
  intros He. destruct e as [m | | |]; cbn [event]; [| done | |].
  - unfold kernel_sends. by destruct (alive s).
  - unfold poll_step. destruct (poller s); [by destruct (polling s) | done | | done].
    change (expectingExit (drain s)) with (expectingExit s). rewrite He.
    destruct exited; cbn -[drain]; rewrite unexpected_drain; done.
  - unfold heartbeat_dead. destruct (negb _); [done |]. destruct (_ || _); [done |]. cbn. rewrite omap_app. cbn.
    by rewrite app_nil_r.
Qed.

Lemma expected_events es s : expectingExit s = true ->
  expectingExit (events es s) = true /\ omap unexpected (frames (events es s)) = omap unexpected (frames s)
  /\ shutdown_requests (events es s) = shutdown_requests s.
Proof.
  revert s. induction es as [|e es IH]; intros s He; [done |]. destruct (expected_event e s He) as (E1 & E2 & E3).
  destruct (IH (event e s) E1) as (F1 & F2 & F3). change (events (e :: es) s) with (events es (event e s)).
  by rewrite F2, F3, E2, E3.
Qed.

Lemma expected_grace waits fuel : forall i s, expectingExit s = true ->
  let s' := snd (grace fuel i waits s) in
  expectingExit s' = true /\ omap unexpected (frames s') = omap unexpected (frames s)
  /\ shutdown_requests s' = shutdown_requests s.
Proof.
  induction fuel as [|fuel IH]; intros i s He; cbn; [done |]. destruct (waiting i s); [| done].
  destruct (expected_events (waits i) s He) as (E1 & E2 & E3). destruct (IH (S i) _ E1) as (F1 & F2 & F3).
  cbn in *. by rewrite F2, F3, E2, E3.
Qed.

Lemma expected_join s : expectingExit s = true ->
  expectingExit (join s) = true /\ omap unexpected (frames (join s)) = omap unexpected (frames s)
  /\ shutdown_requests (join s) = shutdown_requests s.
Proof. apply (expected_events [Poll; Poll; Poll]). Qed.

Lemma join_ends s : polling s = false -> poller (join s) = Ended /\ polling (join s) = false.
Proof.
  intros Hp. unfold join, poll_step.
  destruct (poller s) as [| | [|] |] eqn:Hq; cbn; rewrite ?Hp, ?Hq; cbn; try done;
    destruct (alive s), (expectingExit s) eqn:He; cbn; rewrite ?He; cbn; rewrite ?Hp; done.
Qed.

(** The grace loop counts to 120 at most, and to 20 at most when the kernel
    does not answer. *)
Lemma grace_bound waits fuel : forall i s, (i <= 120)%nat -> (120 <= fuel + i)%nat ->
  let (n, s') := grace fuel i waits s in
  (n <= 120)%nat /\ waiting n s' = false /\ ((i <= 20)%nat -> answeredShutdown s' = false -> (n <= 20)%nat).
Proof.
  assert (Hkeep : forall es s, answeredShutdown s = true -> answeredShutdown (events es s) = true).
  { intros es. induction es as [|e es IH]; intros s Hs; [done |]. change (events (e :: es) s) with (events es (event e s)).
    apply IH. destruct e as [m | | |]; cbn [event]; [| done | |].
    - unfold kernel_sends. by destruct (alive s).
    - unfold poll_step. destruct (poller s) as [| | [|] |]; try done; [by destruct (polling s) | |]; cbn; rewrite ?Hs; try done.
      destruct (expectingExit s); cbn; by rewrite Hs.
    - unfold heartbeat_dead. destruct (negb _); [done |]. by destruct (_ || _). }
  assert (Hmono : forall f i s, answeredShutdown s = true -> answeredShutdown (snd (grace f i waits s)) = true).
  { intros f. induction f as [|f IHf]; intros i s Hs; cbn; [done |]. destruct (waiting i s); [| done]. apply IHf, Hkeep, Hs. }
  induction fuel as [|fuel IH]; intros i s Hi Hf; cbn [grace].
  - replace i with 120%nat by lia. split; [done |]. split; [| lia]. unfold waiting.
    by rewrite andb_false_r, andb_false_r.
  - destruct (waiting i s) eqn:Hw; [| done].
    assert (Hi' : (i < 120)%nat).
    { unfold waiting in Hw. apply andb_true_iff in Hw as [_ Hw]. apply orb_true_iff in Hw as [Hw%Nat.ltb_lt | Hw]; [lia |].
      apply andb_true_iff in Hw as [_ Hw%Nat.ltb_lt]. lia. }
    specialize (IH (S i) (events (waits i) s) ltac:(lia) ltac:(lia)).
    pose proof (Hmono fuel (S i) (events (waits i) s)) as Hm. pose proof (Hkeep (waits i) s) as Hk.
    destruct (grace fuel (S i) waits _) as [n s']. destruct IH as (A & B & C). cbn [snd] in Hm. split; [done |]. split; [done |].
    intros Hi20 Hno. apply C; [| done]. destruct (answeredShutdown s) eqn:Ha; [rewrite Hm in Hno by auto; done |].
    unfold waiting in Hw. rewrite Ha, orb_false_r, andb_true_iff, Nat.ltb_lt in Hw. lia.
Qed.

Lemma polling_events es s : polling s = false -> polling (events es s) = false.
Proof.
  revert s. induction es as [|e es IH]; intros s Hs; [done |]. apply (IH (event e s)).
  destruct e as [m | | |]; cbn [event]; [| done | |].
  - unfold kernel_sends. by destruct (alive s).
  - unfold poll_step. destruct (poller s) as [| | [|] |]; try done. by rewrite Hs.
  - unfold heartbeat_dead. destruct (negb _); [done |]. by destruct (_ || _).
Qed.

(** A session whose process, poll thread and heartbeat have ended. *)
Lemma stopped_silent later s : status s = Stopped -> alive s = false -> poller s = Ended -> heartbeat s = false ->
  status (events later s) = Stopped /\ frames (events later s) = frames s.
Proof.
  intros H1 H2 H3 H4. enough (events later s = s) as -> by done. induction later as [|e later IH]; [done |].
  change (events (e :: later) s) with (events later (event e s)). enough (event e s = s) as -> by done.
  destruct e; cbn [event]; unfold kernel_sends, poll_step, heartbeat_dead; rewrite ?H2, ?H3, ?H4; try done.
  destruct s; cbn in *. by subst.
Qed.

(** C8: an orderly stop.  Stopping a session whose kernel runs asks it exactly
    once to shut down (saying whether it is for a restart), reports no
    unexpected exit, waits at most 12 seconds (120 turns), and at most 2 when
    the kernel does not answer; and then, whatever happened meanwhile, the
    process is gone, the poll and heartbeat threads have ended, and the session
    is stopped: for ever, and silent. *)
Theorem stop_orderly es restart waits late : let s := events es new_session in
  alive s = true ->
  let s' := stopSession restart waits late s in
  status s' = Stopped /\ alive s' = false /\ poller s' = Ended /\ heartbeat s' = false
  /\ shutdown_requests s' = shutdown_requests s ++ [restart]
  /\ omap unexpected (frames s') = omap unexpected (frames s)
  /\ (let (n, g) := grace 120 0 waits (request_shutdown restart (set_expecting true false s)) in
      (n <= 120)%nat /\ waiting n g = false /\ (answeredShutdown g = false -> (n <= 20)%nat))
  /\ forall later, status (events later s') = Stopped /\ frames (events later s') = frames s'.
Proof.
  intros s Ha s'. unfold s', stopSession. rewrite Ha.
  set (s1 := request_shutdown restart (set_expecting true false s)).
  destruct (expected_grace waits 120 0 s1 eq_refl) as (E1 & E2 & E3).
  pose proof (grace_bound waits 120 0 s1 ltac:(lia) ltac:(lia)) as Hb. destruct (grace 120 0 waits s1) as [n g]. cbn [snd] in *.
  destruct (expected_events late (set_polling false g) E1) as (F1 & F2 & F3).
  destruct (expected_join (events late (set_polling false g)) F1) as (G1 & G2 & G3).
  assert (Hp : polling (events late (set_polling false g)) = false) by (apply polling_events; done).
  destruct (join_ends _ Hp) as [J1 J2].
  set (j := join _) in *.
  assert (Hj : forall t, t = (if alive (set_heartbeat false j) then set_alive false (set_heartbeat false j) else set_heartbeat false j) ->
    alive t = false /\ poller t = Ended /\ heartbeat t = false /\ shutdown_requests t = shutdown_requests s ++ [restart]
    /\ frames t = frames j /\ omap unexpected (frames t) = omap unexpected (frames s)).
  { intros t ->. destruct (alive (set_heartbeat false j)) eqn:Hal; cbn; rewrite G3, F3, G2, F2; cbn; rewrite E2, E3; done. }
  set (t := if alive (set_heartbeat false j) then _ else _) in *. destruct (Hj t eq_refl) as (T1 & T2 & T3 & T4 & T5 & T6).
  cbn [status alive poller heartbeat shutdown_requests frames set_status].
  repeat (split; [done |]). split; [destruct Hb as (B1 & B2 & B3); split; [done |]; split; [done |]; intros ?; apply B3; [lia | done] |].
  intros later. apply (stopped_silent later (set_status Stopped t)); done.
Qed.

(** ** The hypotheses can hold *)
Definition example_message (c : channel) (ty : str) (n : nat) : Received := {| on := c; msg_type := ty; number := n |}.

(** The kernel prints, and its process ends by itself. *)
Definition example_crash : list Event :=
  [Poll; KernelSends (example_message Iopub "stream"%string 1); ProcessExits; Poll; Poll].


(** The kernel answers the shutdown request and ends during the second wait. *)
Definition example_waits (i : nat) : list Event :=
  match i with
  | 1%nat => [KernelSends (example_message Control "shutdown_reply"%string 2); Poll; Poll; Poll; ProcessExits; Poll; Poll; Poll]
  | _ => []
  end.

Lemma stop_orderly_witness : status (stopSession false example_waits [] (events [] new_session)) = Stopped.
Proof.
  refine (proj1 (stop_orderly [] false example_waits [] _)). reflexivity.
Defined.

Example example_stop : frames (stopSession false example_waits [] new_session)
  = [Relayed (example_message Control "shutdown_reply"%string 2)].
Proof. vm_compute. reflexivity. Qed.

(** The end of a kernel is reported twice when its heartbeat gave up first: the
    poll loop does not look whether the session is crashed already. *)
Example reported_twice : frames (events [HeartbeatGivesUp; ProcessExits; Poll; Poll; Poll] new_session)
  = [KernelExit true; KernelExit false].
Proof. reflexivity. Qed.

(** A kernel that answers and ends just before the stopping thread looks: the
    poll thread, between two turns, finds [polling] false and ends without a
    last drain, and the answer is lost. *)
Example last_messages_lost :
  let s := stopSession false (fun i => match i with
             | O => [KernelSends (example_message Control "shutdown_reply"%string 2); ProcessExits]
             | _ => []
             end) [] new_session in
  frames s = [] /\ received s = [example_message Control "shutdown_reply"%string 2].
Proof. vm_compute. split; reflexivity. Qed.
