(* ===== verification/Registry.v ===== *)
(** * The supervisor: themisto/session_registry.cpp, http_api.cpp, ws_relay.cpp

    A client of the supervisor speaks HTTP, to start, list, stop and restart
    sessions, and a WebSocket per session, to send its kernel requests and to
    receive what it sends.  The sessions are objects shared by the registry and
    the connections: [store] holds them, the registry and a connection hold
    addresses in it, and a connection keeps the object it was opened on when
    the session is restarted.  What the operating system does (is there such a
    file, did the kernel start, what happened while it stopped) is an argument
    of the operation ([Env]). *)

From Stdlib Require Import Ascii ZArith Lia.
From stdpp Require Import gmap.
From S2P Require Import Prelude Crypto Access Json Wire Session.
Local Open Scope Z_scope.

Section Registry.
Context `{J : JsonLib} `{Ossl : OpenSSL}.

Record SessionOptions := {
  kernelType : str;
  rHome : str;
  rPath : str;
  rLibs : str;
  pandocPath : str;
  pythonHome : str;
  pythonPath : str;
  venvPath : str;
  stataHome : str;
  stataEdition : str;
  arkPath : str;
  kernelArgv : list str;
  kernelEnv : gmap str str;
  kernelInterruptMode : str;
  workingDirectory : str
}.

(** A session's object: its life (Session.v), and the connection whose
    callbacks it calls. *)
Record SessionObject := {
  id : str;
  options : SessionOptions;
  pid : Z;
  life : Session;
  callbackOwner : option nat
}.

(** A request sent to a kernel. *)
Record Sent := { to : nat; via : channel; header : json; body : json }.

(** A WebSocket connection that was accepted: the session it is bound to, the
    id it asked for, and whether it is counted. *)
Record Connection := { bound : option nat; sessionId : str; counted : bool }.

Record Registry := {
  m_kernelExePaths : gmap str str;
  store : list SessionObject;
  m_sessions : gmap str nat;
  connections : gmap nat Connection;
  openConnections : Z;
  sent : list Sent;
  (** frames given to the connections' outboxes *)
  pushed : list (nat * json);
  (** connections closed by the relay, with the code *)
  closed : list (nat * Z);
  shutdown_requested : bool
}.

Definition set_store x r := {| m_kernelExePaths := m_kernelExePaths r; store := x; m_sessions := m_sessions r; connections := connections r;
  openConnections := openConnections r; sent := sent r; pushed := pushed r; closed := closed r; shutdown_requested := shutdown_requested r |}.
Definition set_sessions x r := {| m_kernelExePaths := m_kernelExePaths r; store := store r; m_sessions := x; connections := connections r;
  openConnections := openConnections r; sent := sent r; pushed := pushed r; closed := closed r; shutdown_requested := shutdown_requested r |}.
Definition set_connections x n r := {| m_kernelExePaths := m_kernelExePaths r; store := store r; m_sessions := m_sessions r; connections := x;
  openConnections := n; sent := sent r; pushed := pushed r; closed := closed r; shutdown_requested := shutdown_requested r |}.
Definition send x r := {| m_kernelExePaths := m_kernelExePaths r; store := store r; m_sessions := m_sessions r; connections := connections r;
  openConnections := openConnections r; sent := sent r ++ [x]; pushed := pushed r; closed := closed r; shutdown_requested := shutdown_requested r |}.
Definition push c x r := {| m_kernelExePaths := m_kernelExePaths r; store := store r; m_sessions := m_sessions r; connections := connections r;
  openConnections := openConnections r; sent := sent r; pushed := pushed r ++ [(c, x)]; closed := closed r; shutdown_requested := shutdown_requested r |}.
Definition close_connection c code r := {| m_kernelExePaths := m_kernelExePaths r; store := store r; m_sessions := m_sessions r;
  connections := connections r; openConnections := openConnections r; sent := sent r; pushed := pushed r; closed := closed r ++ [(c, code)];
  shutdown_requested := shutdown_requested r |}.
Definition request_stop r := {| m_kernelExePaths := m_kernelExePaths r; store := store r; m_sessions := m_sessions r;
  connections := connections r; openConnections := openConnections r; sent := sent r; pushed := pushed r; closed := closed r;
  shutdown_requested := true |}.

Definition set_life x o := {| id := id o; options := options o; pid := pid o; life := x; callbackOwner := callbackOwner o |}.
Definition set_owner x o := {| id := id o; options := options o; pid := pid o; life := life o; callbackOwner := x |}.

(** What the operating system answers: the new session's id, which files there
    are, whether the kernel started and registered (its pid) or why not, and
    what happened while a session was stopped. *)
Record Env := {
  e_id : str;
  is_regular_file : str -> bool;
  launch : result Z;
  waits : nat -> list Event;
  late : list Event
}.

(** What a request's header is made with, and whether a kernel could be
    interrupted. *)
Record Draw := { d_guid : str; d_date : str; interrupted : bool }.

(** ** Sessions *)
Definition getSession (i : str) (r : Registry) : option (nat * SessionObject) :=
  match m_sessions r !! i with
  | Some a => (fun o => (a, o)) <$> store r !! a
  | None => None
  end.

Definition kernel_executable (o : SessionOptions) (r : Registry) : str :=
  if str_eqb (kernelType o) "jupyter"%string then match kernelArgv o with exe :: _ => exe | [] => [] end
  else if str_eqb (kernelType o) "ark"%string && negb (bool_decide (arkPath o = [])) then arkPath o
  else match m_kernelExePaths r !! kernelType o with Some exe => exe | None => [] end.

Definition no_executable (o : SessionOptions) : str :=
  if str_eqb (kernelType o) "jupyter"%string
  then "kernelType 'jupyter' needs kernelArgv: the kernel's command, from its kernel.json"%string
  else if str_eqb (kernelType o) "ark"%string
  then "kernelType 'ark' needs arkPath: the ark executable (Positron ships one)"%string
  else "no kernel executable is configured for kernelType '"%string ++ kernelType o
       ++ "' (this supervisor was started without one -- see main.cpp's kernel discovery)"%string.

(** The id, or the error. *)
Definition createSessionWithId (i : str) (o : SessionOptions) (e : Env) (r : Registry) : Registry * result str :=
  let exe := kernel_executable o r in
  if bool_decide (exe = []) then (r, Throw (no_executable o))
  else if negb (is_regular_file e exe) then (r, Throw ("kernel executable not found: "%string ++ exe))
  else match launch e with
       | Ok p =>
           let object := {| id := i; options := o; pid := p; life := new_session; callbackOwner := None |} in
           (set_sessions (<[i := length (store r)]> (m_sessions r)) (set_store (store r ++ [object]) r), Ok i)
       | Throw error => (r, Throw error)
       | Undefined => (r, Undefined)
       end.

Definition createSession (o : SessionOptions) (e : Env) (r : Registry) : Registry * result str :=
  createSessionWithId (e_id e) o e r.

Definition stop_session (i : str) (restart : bool) (e : Env) (r : Registry) : Registry * bool :=
  match getSession i r with
  | None => (r, false)
  | Some (a, o) =>
      let stopped := set_life (stopSession restart (waits e) (late e) (life o)) o in
      (set_sessions (delete i (m_sessions r)) (set_store (<[a := stopped]> (store r)) r), true)
  end.

Definition restartSession (i : str) (newOptions : option SessionOptions) (e : Env) (r : Registry) : Registry * result str :=
  match getSession i r with
  | None => (r, Throw "session not found"%string)
  | Some (_, o) =>
      let o := match newOptions with Some o' => o' | None => options o end in
      let (r, _) := stop_session i true e r in
      createSessionWithId i o e (set_sessions (delete i (m_sessions r)) r)
  end.

(** ** Requests to a kernel *)
Definition header_with_id (d : Draw) (msg_type msgId session : str) : json :=
  insert_key (makeHeader (d_guid d) (d_date d) msg_type "client_user"%string session) "msg_id"%string (mk_str msgId).

Definition sendExecute (d : Draw) (i msgId code : str) (opts : json) (r : Registry) : Registry * result bool :=
  match getSession i r with
  | None => (r, Ok false)
  | Some (a, _) =>
      match
        (let? silent := value get_bool opts "silent"%string false in
         let? store_history := value get_bool opts "storeHistory"%string true in
         let? allow_stdin := value get_bool opts "allowStdin"%string false in
         let? stop_on_error := value get_bool opts "stopOnError"%string false in
         Ok [("code"%string : str, mk_str code); ("silent"%string : str, mk_bool silent);
             ("store_history"%string : str, mk_bool store_history);
             ("user_expressions"%string : str,
               match find opts "userExpressions"%string with
               | Some u => if is_object u then u else empty_object
               | None => empty_object
               end);
             ("allow_stdin"%string : str, mk_bool allow_stdin); ("stop_on_error"%string : str, mk_bool stop_on_error)])
      with
      | Ok content => (send {| to := a; via := Shell; header := header_with_id d "execute_request"%string msgId i;
                               body := mk_object content |} r, Ok true)
      | Throw w => (r, Throw w)
      | Undefined => (r, Undefined)
      end
  end.

Definition kShellRequests : list str :=
  [ "complete_request"%string : str; "inspect_request"%string : str; "is_complete_request"%string : str;
    "kernel_info_request"%string : str; "history_request"%string : str; "comm_info_request"%string : str;
    "comm_open"%string : str; "comm_msg"%string : str; "comm_close"%string : str ].
Definition kControlRequests : list str := [ "interrupt_request"%string : str; "debug_request"%string : str ].

Definition emitMessage (o : SessionObject) (frame : json) (r : Registry) : Registry :=
  match callbackOwner o with Some c => push c frame r | None => r end.

Definition interrupt_reply (msgId : str) (interrupted : bool) : json :=
  mk_object [("type"%string : str, mk_str "message"%string); ("channel"%string : str, mk_str "control"%string);
             ("topic"%string : str, mk_str "interrupt_reply"%string); ("msg_type"%string : str, mk_str "interrupt_reply"%string);
             ("parent_msg_id"%string : str, mk_str msgId);
             ("content"%string : str,
               if interrupted then mk_object [("status"%string : str, mk_str "ok"%string)]
               else mk_object [("status"%string : str, mk_str "error"%string); ("ename"%string : str, mk_str "InterruptFailed"%string);
                               ("evalue"%string : str, mk_str "the kernel process could not be interrupted"%string)])].

(** [Throw] is [false] with its error. *)
Definition sendRequest (d : Draw) (i chan msgType msgId : str) (content : json) (r : Registry) : Registry * result unit :=
  let onShell := str_eqb chan "shell"%string in
  let onControl := str_eqb chan "control"%string in
  if (negb onShell && negb onControl) || (onShell && negb (bool_decide (msgType ∈ kShellRequests)))
     || (onControl && negb (bool_decide (msgType ∈ kControlRequests)))
  then (r, Throw ("'"%string ++ msgType ++ "' is not an allowed request on the '"%string ++ chan ++ "' channel"%string))
  else match getSession i r with
       | None => (r, Throw "session not found"%string)
       | Some (a, o) =>
           if str_eqb msgType "interrupt_request"%string && str_eqb (kernelType (options o)) "jupyter"%string
              && negb (str_eqb (kernelInterruptMode (options o)) "message"%string)
           then (emitMessage o (interrupt_reply msgId (interrupted d)) r, Ok tt)
           else (send {| to := a; via := if onControl then Control else Shell; header := header_with_id d msgType msgId i;
                         body := if is_object content then content else empty_object |} r, Ok tt)
       end.

Definition sendInterrupt (d : Draw) (i msgId : str) (r : Registry) : Registry * result unit :=
  sendRequest d i "control"%string "interrupt_request"%string msgId empty_object r.

Definition sendHistory (d : Draw) (i msgId : str) (opts : json) (r : Registry) : Registry * result unit :=
  match
    (let? hist_access_type := value get_str opts "histAccessType"%string "tail"%string in
     let? output := value get_bool opts "output"%string false in
     let? raw := value get_bool opts "raw"%string true in
     let? n := value get_int opts "n"%string 100 in
     Ok (fold_left (fun content key => match find opts key with Some v => insert_key content key v | None => content end)
           ["session"%string : str; "start"%string : str; "stop"%string : str; "pattern"%string : str; "unique"%string : str]
           (mk_object [("hist_access_type"%string : str, mk_str hist_access_type); ("output"%string : str, mk_bool output);
                       ("raw"%string : str, mk_bool raw); ("n"%string : str, mk_int n)])))
  with
  | Ok content => sendRequest d i "shell"%string "history_request"%string msgId content r
  | Throw w => (r, Throw w)
  | Undefined => (r, Undefined)
  end.

Definition sendInputReply (d : Draw) (i v : str) (r : Registry) : Registry * bool :=
  match getSession i r with
  | None => (r, false)
  | Some (a, _) =>
      (send {| to := a; via := Stdin; header := makeHeader (d_guid d) (d_date d) "input_reply"%string "client_user"%string i;
               body := mk_object [("value"%string : str, mk_str v)] |} r, true)
  end.

(** ** The HTTP API *)
Definition parseSessionOptions (j : json) : result SessionOptions :=
  let text k d := value get_str j k d in
  let? kernelType := text "kernelType"%string "r"%string in
  let? rHome := text "rHome"%string [] in
  let? rPath := text "rPath"%string [] in
  let? rLibs := text "rLibs"%string [] in
  let? pandocPath := text "pandocPath"%string [] in
  let? pythonHome := text "pythonHome"%string [] in
  let? pythonPath := text "pythonPath"%string [] in
  let? venvPath := text "venvPath"%string [] in
  let? stataHome := text "stataHome"%string [] in
  let? stataEdition := text "stataEdition"%string [] in
  let? arkPath := text "arkPath"%string [] in
  let kernelArgv := match find j "kernelArgv"%string with
                    | Some l => if is_array l then omap get_str (elements l) else []
                    | None => []
                    end in
  let? kernelInterruptMode := text "kernelInterruptMode"%string [] in
  let kernelEnv := match find j "kernelEnv"%string with
                   | Some l => if is_object l
                               then fold_left (fun env m => match get_str m.2 with Some v => <[m.1 := v]> env | None => env end)
                                      (members l) ∅
                               else ∅
                   | None => ∅
                   end in
  let? workingDirectory := text "workingDirectory"%string [] in
  Ok {| kernelType := kernelType; rHome := rHome; rPath := rPath; rLibs := rLibs; pandocPath := pandocPath;
        pythonHome := pythonHome; pythonPath := pythonPath; venvPath := venvPath; stataHome := stataHome;
        stataEdition := stataEdition; arkPath := arkPath; kernelArgv := kernelArgv; kernelEnv := kernelEnv;
        kernelInterruptMode := kernelInterruptMode; workingDirectory := workingDirectory |}.

(** [sessionToJson]; [observed] is what it asks of the session's client and
    process: the heartbeat, and the memory. *)
Definition sessionToJson (observed : SessionObject -> json * json) (o : SessionObject) : json :=
  let s := options o in
  mk_object
    [("heartbeat"%string : str, fst (observed o)); ("sessionId"%string : str, mk_str (id o));
     ("status"%string : str, mk_str (toString (status (life o)))); ("kernelType"%string : str, mk_str (kernelType s));
     ("workingDirectory"%string : str, mk_str (workingDirectory s)); ("pid"%string : str, mk_int (pid o));
     ("options"%string : str, mk_object
       [("kernelType"%string : str, mk_str (kernelType s)); ("rHome"%string : str, mk_str (rHome s));
        ("rPath"%string : str, mk_str (rPath s)); ("rLibs"%string : str, mk_str (rLibs s));
        ("pandocPath"%string : str, mk_str (pandocPath s)); ("pythonHome"%string : str, mk_str (pythonHome s));
        ("pythonPath"%string : str, mk_str (pythonPath s)); ("venvPath"%string : str, mk_str (venvPath s));
        ("stataHome"%string : str, mk_str (stataHome s)); ("stataEdition"%string : str, mk_str (stataEdition s));
        ("arkPath"%string : str, mk_str (arkPath s)); ("workingDirectory"%string : str, mk_str (workingDirectory s))]);
     ("memoryBytes"%string : str, snd (observed o))].

Definition listSessions (observed : SessionObject -> json * json) (r : Registry) : json :=
  mk_array (omap (fun p => sessionToJson observed <$> store r !! p.2) (map_to_list (m_sessions r))).

(** A request, as the HTTP library routes it. *)
Inductive Route :=
| PostSessions (text : str)
| PostShutdown
| GetSessions
| GetSession (i : str)
| DeleteSession (i : str)
| PostRestart (i text : str).

Record Response := { code : Z; content : json }.
Definition error_body (what : str) : json := mk_object [("error"%string : str, mk_str what)].
Definition error (c : Z) (what : str) : Response := {| code := c; content := error_body what |}.

(** An exception that leaves a handler is answered by the library, with 500. *)
Definition uncaught : Response := {| code := 500; content := null |}.

Definition answer_create (observed : SessionObject -> json * json) (o : SessionOptions) (res : Registry * result str) : Registry * Response :=
  match res with
  | (r, Ok i) =>
      (r, {| code := 200;
             content := match getSession i r with
                        | Some (_, s) => sessionToJson observed s
                        | None => mk_object [("sessionId"%string : str, mk_str i); ("status"%string : str, mk_str "ready"%string);
                                             ("kernelType"%string : str, mk_str (kernelType o))]
                        end |})
  | (r, Throw what) => (r, error 500 what)
  | (r, Undefined) => (r, uncaught)
  end.

Definition route (observed : SessionObject -> json * json) (e : Env) (q : Route) (r : Registry) : Registry * Response :=
  match q with
  | PostSessions text =>
      match (if bool_decide (text = []) then Ok empty_object else parse_strict text) with
      | Ok j =>
          match parseSessionOptions j with
          | Ok o => answer_create observed o (createSession o e r)
          | _ => (r, uncaught)
          end
      | _ => (r, error 400 "invalid JSON body"%string)
      end
  | PostShutdown => (request_stop r, {| code := 200; content := mk_object [("status"%string : str, mk_str "shutting down"%string)] |})
  | GetSessions => (r, {| code := 200; content := mk_object [("sessions"%string : str, listSessions observed r)] |})
  | GetSession i =>
      match getSession i r with
      | None => (r, error 404 "session not found"%string)
      | Some (_, o) => (r, {| code := 200; content := sessionToJson observed o |})
      end
  | DeleteSession i =>
      let (r, found) := stop_session i false e r in
      (r, if found : bool
          then {| code := 200; content := mk_object [("sessionId"%string : str, mk_str i); ("status"%string : str, mk_str "stopped"%string)] |}
          else error 404 "session not found"%string)
  | PostRestart i text =>
      match (if bool_decide (text = []) then Ok None
             else match parse_strict text with Ok j => Ok (Some j) | Throw w => Throw w | Undefined => Undefined end) with
      | Ok j =>
          match match j with Some j => let? o := parseSessionOptions j in Ok (Some o) | None => Ok None end with
          | Ok newOptions =>
              match restartSession i newOptions e r with
              | (r, Ok i) => (r, {| code := 200; content := mk_object [("sessionId"%string : str, mk_str i); ("status"%string : str, mk_str "ready"%string)] |})
              | (r, Throw what) => (r, error 500 what)
              | (r, Undefined) => (r, uncaught)
              end
          | _ => (r, uncaught)
          end
      | _ => (r, error 400 "invalid JSON body"%string)
      end
  end.

(** The pre-routing handler, then the route. *)
Definition http (token : str) (observed : SessionObject -> json * json) (origin authorization target : str) (e : Env) (q : Route)
    (r : Registry) : Registry * Response :=
  match check origin authorization target token with
  | Allowed => route observed e q r
  | FromBrowser => (r, error 403 "requests from web pages are not accepted"%string)
  | BadToken => (r, error 401 "missing or wrong access token"%string)
  end.

(** ** The WebSocket relay *)

(** [^/sessions/([^/]+)/messages/?$] on the path. *)
Definition extractSessionId (uri : str) : str :=
  let path := pathOf uri in
  let prefix : str := "/sessions/"%string in
  if starts_with prefix path then
    match split_at "/"%char (drop (length prefix) path) with
    | Some (i, rest) => if str_eqb rest "messages"%string || str_eqb rest "messages/"%string then i else []
    | None => []
    end
  else [].

Definition update_owner (a : nat) (c : option nat) (r : Registry) : Registry :=
  match store r !! a with Some o => set_store (<[a := set_owner c o]> (store r)) r | None => r end.

Definition ready : json := mk_object [("type"%string : str, mk_str "ready"%string)].

(** The Open event of the connection [c]. *)
Definition ws_open (token : str) (c : nat) (origin authorization uri : str) (r : Registry) : Registry :=
  match check origin authorization uri token with
  | FromBrowser => close_connection c 4403 r
  | BadToken => close_connection c 4401 r
  | Allowed =>
      let i := extractSessionId uri in
      let session := getSession i r in
      let r := set_connections (<[c := {| bound := fst <$> session; sessionId := i; counted := true |}]> (connections r))
                               (openConnections r + 1) r in
      match session with
      | None => close_connection c 1008 r
      | Some (a, _) => push c ready (update_owner a (Some c) r)
      end
  end.

Definition request_error (msgId what : str) : json :=
  mk_object [("type"%string : str, mk_str "requestError"%string); ("id"%string : str, mk_str msgId); ("error"%string : str, mk_str what)].

(** The Message event: a frame that is not well-formed is ignored. *)
Definition ws_message (d : Draw) (c : nat) (text : str) (r : Registry) : Registry :=
  match connections r !! c with
  | Some {| bound := Some _; sessionId := i |} =>
      let handled :=
        let? frame := parse_strict text in
        let? type := value get_str frame "type"%string [] in
        let? msgId := value get_str frame "id"%string [] in
        if str_eqb type "execute"%string then
          let? code := value get_str frame "code"%string [] in
          let? opts := value any frame "options"%string empty_object in
          Ok (fst (sendExecute d i msgId code opts r))
        else if str_eqb type "inputReply"%string then
          let? v := value get_str frame "value"%string [] in
          Ok (fst (sendInputReply d i v r))
        else if str_eqb type "request"%string then
          let? chan := value get_str frame "channel"%string "shell"%string in
          let? msgType := value get_str frame "msgType"%string [] in
          let? content := value any frame "content"%string empty_object in
          match sendRequest d i chan msgType msgId content r with
          | (r, Throw what) => Ok (push c (request_error msgId what) r)
          | (r, _) => Ok r
          end
        else Ok r in
      match handled with Ok r => r | _ => r end
  | _ => r
  end.

(** The Close event: the connection's count, and its callbacks, if they are
    still its own. *)
Definition ws_close (c : nat) (r : Registry) : Registry :=
  match connections r !! c with
  | None => r
  | Some k =>
      let r := if counted k
               then set_connections (<[c := {| bound := bound k; sessionId := sessionId k; counted := false |}]> (connections r))
                                    (openConnections r - 1) r
               else r in
      match bound k with
      | Some a => match store r !! a with
                  | Some o => if bool_decide (callbackOwner o = Some c) then update_owner a None r else r
                  | None => r
                  end
      | None => r
      end
  end.

(** What the session [a] lets out: to its owner. *)
Definition kernel_frame (a : nat) (frame : json) (r : Registry) : Registry :=
  match store r !! a with Some o => emitMessage o frame r | None => r end.

(** ** Runs *)
Inductive Action :=
| Http (origin authorization target : str) (e : Env) (q : Route)
| Open (c : nat) (origin authorization uri : str)
| Text (c : nat) (d : Draw) (text : str)
| Close (c : nat)
| KernelFrame (a : nat) (frame : json).

Context (token : str) (observed : SessionObject -> json * json).

Definition act (x : Action) (r : Registry) : Registry :=
  match x with
  | Http origin authorization target e q => fst (http token observed origin authorization target e q r)
  | Open c origin authorization uri => ws_open token c origin authorization uri r
  | Text c d text => ws_message d c text r
  | Close c => ws_close c r
  | KernelFrame a frame => kernel_frame a frame r
  end.

Definition acts (xs : list Action) (r : Registry) : Registry := fold_left (fun r x => act x r) xs r.

Definition new_registry (paths : gmap str str) : Registry :=
  {| m_kernelExePaths := paths; store := []; m_sessions := ∅; connections := ∅; openConnections := 0; sent := []; pushed := [];
     closed := []; shutdown_requested := false |}.

End Registry.

(** ** What is guaranteed *)
Section Guarantees.
Context `{JL : JsonLaws} `{Ossl : OpenSSL} (token : str) (observed : SessionObject -> json * json).
Abbreviation Acts := (acts token observed).
Abbreviation Act := (act token observed).

(** A request of a kind clients may send: its type, on its channel. *)
Definition allowed (s : Sent) : Prop :=
  exists ty, find (header s) "msg_type"%string = Some (mk_str ty)
  /\ match via s with
     | Shell => ty = ("execute_request"%string : str) \/ ty ∈ kShellRequests
     | Control => ty ∈ kControlRequests
     | Stdin => ty = ("input_reply"%string : str)
     | Iopub => False
     end.

Lemma header_type d ty msgId session : find (header_with_id d ty msgId session) "msg_type"%string = Some (mk_str ty).
Proof.
  unfold header_with_id, makeHeader. rewrite find_insert; [| left; apply type_with_keys; right; split; [apply type_null | done]].
  rewrite decide_False by discriminate. by find_key.
Qed.

(** At most one more request, an allowed one. *)
Definition sends_allowed (r r' : Registry) : Prop :=
  sent r' = sent r \/ exists s, sent r' = sent r ++ [s] /\ allowed s.

Lemma stop_session_sent i restart e r : sent (fst (stop_session i restart e r)) = sent r.
Proof. unfold stop_session. by destruct (getSession i r) as [[a o]|]. Qed.

Lemma create_sent i o e r : sent (fst (createSessionWithId i o e r)) = sent r.
Proof. unfold createSessionWithId. destruct (bool_decide _); [done |]. destruct (negb _); [done |]. by destruct (launch e). Qed.

Lemma restart_sent i o e r : sent (fst (restartSession i o e r)) = sent r.
Proof.
  unfold restartSession. destruct (getSession i r) as [[a s]|]; [| done].
  pose proof (stop_session_sent i true e r) as H. destruct (stop_session i true e r) as [r' b]. cbn in H.
  rewrite create_sent. done.
Qed.

Lemma route_sent e q r : sent (fst (route observed e q r)) = sent r.
Proof.
  destruct q as [text | | | i | i | i text]; cbn [route]; try done.
  - destruct (if bool_decide _ then _ else _) as [j| |]; [| done | done]. destruct (parseSessionOptions j) as [o| |]; [| done | done].
    pose proof (create_sent (e_id e) o e r) as H. unfold answer_create, createSession.
    by destruct (createSessionWithId (e_id e) o e r) as [r' [x| |]].
  - by destruct (getSession i r) as [[a o]|].
  - pose proof (stop_session_sent i false e r) as H. by destruct (stop_session i false e r).
  - destruct (if bool_decide _ then _ else _) as [j| |]; [| done | done].
    destruct (match j with Some j => _ | None => _ end) as [o| |]; [| done | done].
    pose proof (restart_sent i o e r) as H. by destruct (restartSession i o e r) as [r' [x| |]].
Qed.

Lemma update_owner_sent a c r : sent (update_owner a c r) = sent r.
Proof. unfold update_owner. by destruct (store r !! a). Qed.

Lemma emitMessage_sent o f r : sent (emitMessage o f r) = sent r.
Proof. unfold emitMessage. by destruct (callbackOwner o). Qed.

Lemma sends_execute d i msgId code opts r : sends_allowed r (fst (sendExecute d i msgId code opts r)).
Proof.
  unfold sendExecute. destruct (getSession i r) as [[a o]|]; [| by left].
  destruct (let? silent := _ in _) as [content| |]; [| by left..]. right. eexists. split; [reflexivity |].
  exists ("execute_request"%string : str). split; [apply header_type | by left].
Qed.

Lemma sends_input d i v r : sends_allowed r (fst (sendInputReply d i v r)).
Proof.
  unfold sendInputReply. destruct (getSession i r) as [[a o]|]; [| by left]. right. eexists. split; [reflexivity |].
  exists ("input_reply"%string : str). split; [| done]. cbn [header]. unfold makeHeader. by find_key.
Qed.

Lemma sends_request d i chan ty msgId content r : sends_allowed r (fst (sendRequest d i chan ty msgId content r)).
Proof.
  unfold sendRequest. destruct (_ || _) eqn:Hc; [by left |].
  apply orb_false_iff in Hc as [Hc Hcontrol]. apply orb_false_iff in Hc as [Hneither Hshell].
  destruct (getSession i r) as [[a o]|]; [| by left].
  destruct (_ && _ && _); [left; cbn; apply emitMessage_sent |].
  right. eexists. split; [reflexivity |]. exists ty. split; [apply header_type |]. cbn [via].
  destruct (str_eqb chan "control"%string).
  - cbn in Hcontrol. by apply negb_false_iff, bool_decide_eq_true in Hcontrol.
  - right. destruct (str_eqb chan "shell"%string); [| done]. cbn in Hshell. by apply negb_false_iff, bool_decide_eq_true in Hshell.
Qed.

Lemma sends_text d c text r : sends_allowed r (ws_message d c text r).
Proof.
  unfold ws_message. destruct (connections r !! c) as [[[a|] i k]|]; [| by left..].
  destruct (parse_strict text) as [frame| |]; [| by left..].
  destruct (value get_str frame "type"%string []) as [ty| |]; [| by left..].
  destruct (value get_str frame "id"%string []) as [msgId| |]; [| by left..].
  destruct (str_eqb ty "execute"%string).
  { destruct (value get_str frame "code"%string []) as [code_| |]; [| by left..].
    destruct (value any frame _ _) as [opts| |]; [apply sends_execute | by left..]. }
  destruct (str_eqb ty "inputReply"%string).
  { destruct (value get_str frame "value"%string []) as [v| |]; [apply sends_input | by left..]. }
  destruct (str_eqb ty "request"%string); [| by left].
  destruct (value get_str frame "channel"%string _) as [chan| |]; [| by left..].
  destruct (value get_str frame "msgType"%string []) as [msgType| |]; [| by left..].
  destruct (value any frame "content"%string _) as [content_| |]; [| by left..].
  pose proof (sends_request d i chan msgType msgId content_ r) as H.
  by destruct (sendRequest d i chan msgType msgId content_ r) as [r' [[]| |]].
Qed.

Lemma sends_act x r : sends_allowed r (Act x r).
Proof.
  destruct x as [origin authorization target e q | c origin authorization uri | c d text | c | a frame]; cbn [act].
  - left. unfold http. destruct (check _ _ _ _); [apply route_sent | done | done].
  - left. unfold ws_open. destruct (check _ _ _ _); [| done | done].
    destruct (getSession _ r) as [[a o]|]; [| done]. cbn. by rewrite update_owner_sent.
  - apply sends_text.
  - left. unfold ws_close. destruct (connections r !! c) as [k|]; [| done].
    set (r1 := if counted k then _ else r). assert (H : sent r1 = sent r) by (unfold r1; by destruct (counted k)).
    destruct (bound k) as [a|]; [| done]. destruct (store r1 !! a) as [o|]; [| done].
    destruct (bool_decide _); [| done]. by rewrite update_owner_sent.
  - left. unfold kernel_frame. destruct (store r !! a); [apply emitMessage_sent | done].
Qed.


(** ** Sessions and their connections *)

(** The registry's addresses are of objects with that id. *)
Definition wf (r : Registry) : Prop :=
  forall i a, m_sessions r !! i = Some a -> exists o, store r !! a = Some o /\ id o = i.

Lemma getSession_spec i r a o : getSession i r = Some (a, o) <-> m_sessions r !! i = Some a /\ store r !! a = Some o.
Proof.
  unfold getSession. destruct (m_sessions r !! i) as [b|]; [| naive_solver].
  rewrite fmap_Some. naive_solver.
Qed.

Lemma getSession_None i r : wf r -> getSession i r = None <-> m_sessions r !! i = None.
Proof.
  intros Hw. unfold getSession. destruct (m_sessions r !! i) as [b|] eqn:E; [| done].
  destruct (Hw i b E) as (o & -> & _). done.
Qed.

(** Objects keep their ids and owners; what changes is their life. *)
Definition same_objects (r r' : Registry) : Prop :=
  forall a o, store r !! a = Some o -> exists o', store r' !! a = Some o' /\ id o' = id o /\ callbackOwner o' = callbackOwner o.

Lemma same_objects_refl r : same_objects r r.
Proof. intros a o H. by exists o. Qed.

Lemma same_objects_trans r1 r2 r3 : same_objects r1 r2 -> same_objects r2 r3 -> same_objects r1 r3.
Proof.
  intros H1 H2 a o H. destruct (H1 a o H) as (o1 & E1 & I1 & C1). destruct (H2 a o1 E1) as (o2 & E2 & I2 & C2).
  exists o2. by rewrite I2, C2.
Qed.

Lemma set_store_objects l r : (forall a o, store r !! a = Some o -> exists o', l !! a = Some o' /\ id o' = id o /\ callbackOwner o' = callbackOwner o) ->
  same_objects r (set_store l r).
Proof. done. Qed.

Lemma stop_session_wf i restart e r : wf r ->
  let r' := fst (stop_session i restart e r) in wf r' /\ same_objects r r' /\ m_sessions r' = delete i (m_sessions r)
  /\ length (store r') = length (store r).
Proof.
  intros Hw. unfold stop_session. destruct (getSession i r) as [[a o]|] eqn:Hg.
  - apply getSession_spec in Hg as [Hm Ho]. cbn.
    assert (Hsame : forall b p, store r !! b = Some p -> exists p',
      <[a:=set_life (stopSession restart (waits e) (late e) (life o)) o]> (store r) !! b = Some p'
      /\ id p' = id p /\ callbackOwner p' = callbackOwner p).
    { intros b p Hb. destruct (decide (a = b)) as [<- | Hne].
      - rewrite list_lookup_insert_eq by (by eapply lookup_lt_Some). eexists. split; [done |]. rewrite Ho in Hb. by injection Hb as <-.
      - rewrite list_lookup_insert_ne by done. eauto. }
    split; [| split; [exact Hsame | split; [done | apply length_insert]]].
    intros j b. cbn. intros Hj. destruct (decide (i = j)) as [<- | Hne]; [by rewrite lookup_delete_eq in Hj |].
    rewrite lookup_delete_ne in Hj by done. destruct (Hw j b Hj) as (p & Hp & Hid). destruct (Hsame b p Hp) as (p' & ? & ? & ?).
    exists p'. split; [done | congruence].
  - cbn. split; [done |]. split; [apply same_objects_refl |]. split; [| done].
    symmetry. apply delete_id. by apply getSession_None.
Qed.

(** Creating a session: nothing on failure; on success, a new object at a new
    address. *)
Lemma create_spec i o e r : wf r ->
  match createSessionWithId i o e r with
  | (r', Ok j) => j = i /\ wf r' /\ same_objects r r' /\ m_sessions r' = <[i := length (store r)]> (m_sessions r)
                  /\ exists p, store r' = store r ++ [ {| id := i; options := o; pid := p; life := new_session; callbackOwner := None |} ]
  | (r', _) => r' = r
  end.
Proof.
  intros Hw. unfold createSessionWithId. destruct (bool_decide _); [done |]. destruct (negb _); [done |].
  destruct (launch e) as [p | |]; [| done | done]. split; [done |].
  assert (Hsame : same_objects r (set_sessions (<[i:=length (store r)]> (m_sessions r))
    (set_store (store r ++ [{| id := i; options := o; pid := p; life := new_session; callbackOwner := None |}]) r))).
  { intros a x Hx. exists x. split; [| done]. cbn. rewrite lookup_app_l; [done |]. by eapply lookup_lt_Some. }
  split; [| split; [exact Hsame | split; [done |]]].
  - intros j b. cbn. intros Hj. destruct (decide (i = j)) as [<- | Hne].
    + rewrite lookup_insert_eq in Hj. injection Hj as <-. eexists. split; [by apply list_lookup_middle | done].
    + rewrite lookup_insert_ne in Hj by done. destruct (Hw j b Hj) as (x & Hx & Hid).
      destruct (Hsame b x Hx) as (x' & ? & ? & ?). exists x'. split; [done | congruence].
  - by exists p.
Qed.

Lemma restart_wf i o e r : wf r -> let r' := fst (restartSession i o e r) in wf r' /\ same_objects r r'.
Proof.
  intros Hw. unfold restartSession. destruct (getSession i r) as [[a s]|]; [| split; [done | apply same_objects_refl]].
  destruct (stop_session_wf i true e r Hw) as (W1 & S1 & M1 & _). destruct (stop_session i true e r) as [r1 b]. cbn in W1, S1, M1.
  set (r2 := set_sessions (delete i (m_sessions r1)) r1).
  assert (W2 : wf r2).
  { intros j c Hj. cbn in Hj. apply lookup_delete_Some in Hj as [_ Hj]. exact (W1 j c Hj). }
  pose proof (create_spec i (match o with Some o' => o' | None => options s end) e r2 W2) as H.
  destruct (createSessionWithId i _ e r2) as [r3 [j| |]]; cbn.
  - destruct H as (_ & W3 & S3 & _). split; [done |]. eapply same_objects_trans; [exact S1 | exact S3].
  - subst r3. split; [done | exact S1].
  - subst r3. split; [done | exact S1].
Qed.

Lemma route_wf e q r : wf r -> let r' := fst (route observed e q r) in wf r' /\ same_objects r r'.
Proof.
  intros Hw. pose proof (same_objects_refl r) as Hrefl. destruct q as [text | | | i | i | i text]; cbn [route]; try done.
  - destruct (if bool_decide _ then _ else _) as [j| |]; [| done | done]. destruct (parseSessionOptions j) as [o| |]; [| done | done].
    pose proof (create_spec (e_id e) o e r Hw) as H. unfold answer_create, createSession.
    destruct (createSessionWithId (e_id e) o e r) as [r' [x| |]]; cbn; [| by subst | by subst].
    by destruct H as (_ & ? & ? & _).
  - by destruct (getSession i r) as [[a o]|].
  - destruct (stop_session_wf i false e r Hw) as (W & S & _). by destruct (stop_session i false e r).
  - destruct (if bool_decide _ then _ else _) as [j| |]; [| done | done].
    destruct (match j with Some j => _ | None => _ end) as [o| |]; [| done | done].
    pose proof (restart_wf i o e r Hw) as H. by destruct (restartSession i o e r) as [r' [x| |]].
Qed.

Lemma wf_same r r' : store r' = store r -> m_sessions r' = m_sessions r -> wf r -> wf r'.
Proof. intros Hs Hm Hw i a. rewrite Hs, Hm. apply Hw. Qed.

Lemma update_owner_spec a c r b o : store r !! b = Some o -> exists o', store (update_owner a c r) !! b = Some o' /\ id o' = id o
  /\ callbackOwner o' = if decide (a = b) then c else callbackOwner o.
Proof.
  intros Hb. unfold update_owner. destruct (store r !! a) as [p|] eqn:Ha; cbn.
  - destruct (decide (a = b)) as [<- | Hne].
    + rewrite list_lookup_insert_eq by (by eapply lookup_lt_Some). rewrite Ha in Hb. injection Hb as <-. by eexists.
    + rewrite list_lookup_insert_ne by done. eauto.
  - destruct (decide (a = b)) as [<- | Hne]; [congruence | eauto].
Qed.

Lemma update_owner_wf a c r : wf r -> wf (update_owner a c r).
Proof.
  intros Hw i b Hi. assert (Hm : m_sessions (update_owner a c r) = m_sessions r)
    by (unfold update_owner; by destruct (store r !! a)).
  rewrite Hm in Hi. destruct (Hw i b Hi) as (o & Ho & Hid). destruct (update_owner_spec a c r b o Ho) as (o' & ? & ? & _).
  exists o'. split; [done | congruence].
Qed.

Lemma text_store d c text r : store (ws_message d c text r) = store r /\ m_sessions (ws_message d c text r) = m_sessions r.
Proof.
  unfold ws_message. destruct (connections r !! c) as [[[a|] i k]|]; [| done..].
  destruct (let? frame := parse_strict text in _) as [r'| |] eqn:E; [| done | done]. revert E.
  destruct (parse_strict text) as [frame| |]; [| done..].
  destruct (value get_str frame "type"%string []) as [ty| |]; [| done..].
  destruct (value get_str frame "id"%string []) as [msgId| |]; [| done..].
  destruct (str_eqb ty "execute"%string).
  { destruct (value get_str frame "code"%string []) as [code_| |]; [| done..].
    destruct (value any frame _ _) as [opts| |]; [| done..]. intros [= <-]. unfold sendExecute.
    destruct (getSession i r) as [[b o]|]; [| done]. by destruct (let? silent := _ in _) as [content_| |]. }
  destruct (str_eqb ty "inputReply"%string).
  { destruct (value get_str frame "value"%string []) as [v| |]; [| done..]. intros [= <-]. unfold sendInputReply.
    by destruct (getSession i r) as [[b o]|]. }
  destruct (str_eqb ty "request"%string); [| by intros [= <-]].
  destruct (value get_str frame "channel"%string _) as [chan| |]; [| done..].
  destruct (value get_str frame "msgType"%string []) as [msgType| |]; [| done..].
  destruct (value any frame "content"%string _) as [content_| |]; [| done..].
  unfold sendRequest. destruct (_ || _ || _); [by intros [= <-] |]. destruct (getSession i r) as [[b o]|]; [| by intros [= <-]].
  destruct (_ && _ && _); intros [= <-]; [| done]. unfold emitMessage. by destruct (callbackOwner o).
Qed.

(** The object [a], of the session [i], is owned by [c]. *)
Definition owned (i : str) (a c : nat) (r : Registry) : Prop :=
  wf r /\ exists o, store r !! a = Some o /\ id o = i /\ callbackOwner o = Some c.

Lemma owned_same i a c r r' : wf r' -> same_objects r r' -> owned i a c r -> owned i a c r'.
Proof.
  intros Hw Hs [_ (o & Ho & Hid & Hc)]. split; [done |]. destruct (Hs a o Ho) as (o' & E & E1 & E2).
  exists o'. rewrite E1, E2. done.
Qed.

(** What takes a session away from the connection [c]: its end, and another
    connection to the same session. *)
Definition takes_away (i : str) (c : nat) (x : Action) : Prop :=
  match x with
  | Close c' => c' = c
  | Open c' _ _ uri => c' = c \/ extractSessionId uri = i
  | _ => False
  end.

Lemma owned_act i a c x r : owned i a c r -> ~ takes_away i c x -> owned i a c (Act x r).
Proof.
  intros [Hw (o & Ho & Hid & Hc)] Hx. pose proof (conj Hw (ex_intro _ o (conj Ho (conj Hid Hc))) : owned i a c r) as Hown.
  destruct x as [origin authorization target e q | c' origin authorization uri | c' d text | c' | b frame]; cbn [act takes_away] in *.
  - unfold http. destruct (check _ _ _ _); [| done | done]. destruct (route_wf e q r Hw) as [W S].
    by apply (owned_same i a c r).
  - unfold ws_open. destruct (check _ _ _ _); [| done | done].
    destruct (getSession _ r) as [[b p]|] eqn:Hg; [| done]. apply getSession_spec in Hg as [Hm Hp].
    set (r1 := set_connections _ _ r). assert (Hw1 : wf r1) by done.
    assert (Hne : b <> a).
    { intros ->. destruct (Hw _ _ Hm) as (p' & Hp' & Hid'). rewrite Ho in Hp'. injection Hp' as <-. apply Hx. right. congruence. }
    split; [by apply (update_owner_wf b (Some c') r1) |].
    destruct (update_owner_spec b (Some c') r1 a o Ho) as (o' & E1 & E2 & E3). rewrite decide_False in E3 by done.
    exists o'. split; [exact E1 | split; congruence].
  - destruct (text_store d c' text r) as [S M]. split; [by apply (wf_same r) |]. exists o. by rewrite S.
  - unfold ws_close. destruct (connections r !! c') as [k|]; [| done].
    set (r1 := if counted k then _ else r). assert (H1 : store r1 = store r /\ m_sessions r1 = m_sessions r) by (unfold r1; by destruct (counted k)).
    destruct H1 as [S1 M1]. assert (Hown1 : owned i a c r1) by (split; [by apply (wf_same r) | exists o; by rewrite S1]).
    destruct (bound k) as [b|]; [| done]. destruct (store r1 !! b) as [p|] eqn:Hp; [| done].
    destruct (bool_decide_reflect (callbackOwner p = Some c')) as [Hp'|]; [| done].
    assert (Hne : b <> a) by (intros ->; rewrite S1, Ho in Hp; injection Hp as <-; congruence).
    split; [apply update_owner_wf, Hown1 |].
    assert (Ho1 : store r1 !! a = Some o) by by rewrite S1.
    destruct (update_owner_spec b None r1 a o Ho1) as (o' & E1 & E2 & E3). rewrite decide_False in E3 by done.
    exists o'. split; [exact E1 | split; congruence].
  - unfold kernel_frame. destruct (store r !! b) as [p|]; [| done]. unfold emitMessage. by destruct (callbackOwner p).
Qed.


Lemma stopped_status restart w l s : status (stopSession restart w l s) = Stopped.
Proof. unfold stopSession. by destruct (grace _ _ _ _). Qed.

Lemma restart_spec i newOptions e r a o : wf r -> getSession i r = Some (a, o) ->
  let (r', res) := restartSession i newOptions e r in
  (exists o', store r' !! a = Some o' /\ status (life o') = Stopped)
  /\ match res with
     | Ok j => j = i /\ exists a' o', getSession i r' = Some (a', o') /\ a' <> a /\ status (life o') = Ready
               /\ options o' = match newOptions with Some n => n | None => options o end
     | _ => getSession i r' = None
     end.
Proof.
  intros Hw Hg. unfold restartSession. rewrite Hg. destruct (stop_session_wf i true e r Hw) as (W & S & M & L).
  unfold stop_session in *. rewrite Hg in *. cbn [fst] in W, S, M, L. apply getSession_spec in Hg as [_ Ho].
  set (r1 := set_sessions _ (set_store _ r)) in *. set (r2 := set_sessions (delete i (m_sessions r1)) r1).
  assert (W2 : wf r2) by (intros j b Hj; cbn in Hj; apply lookup_delete_Some in Hj as [_ Hj]; exact (W j b Hj)).
  assert (Hold : exists o', store r2 !! a = Some o' /\ status (life o') = Stopped).
  { eexists. split; [cbn; apply list_lookup_insert_eq; by eapply lookup_lt_Some | apply stopped_status]. }
  assert (Hnone : getSession i r2 = None) by (apply getSession_None; [done | apply lookup_delete_eq]).
  pose proof (create_spec i (match newOptions with Some n => n | None => options o end) e r2 W2) as H.
  destruct (createSessionWithId i _ e r2) as [r' [j| |]]; [| by subst | by subst].
  destruct H as (-> & _ & _ & M' & p & Hp). destruct Hold as (o' & Ho' & Hs'). split.
  - exists o'. rewrite Hp, lookup_app_l by (by eapply lookup_lt_Some). done.
  - split; [done |]. do 2 eexists. split; [apply getSession_spec; rewrite M', Hp, lookup_insert_eq; split; [done | by apply list_lookup_middle] |].
    split; [apply lookup_lt_Some in Ho'; lia | done].
Qed.

(** The sessions' HTTP API.  A request that is refused (401, or 403 from a
    web page) changes nothing.  An accepted [POST /sessions] that is not
    answered 200 changes nothing; answered 200, the session exists, ready, and
    the others are as they were.  [DELETE] is answered 404 for an unknown
    session and 200 for one that is stopped, asked once to shut down, and then
    unknown.  A restart keeps the id, with the new options if given, for a new
    object, after stopping the old one; when the new kernel does not start, the
    session is gone. *)
Theorem http_sessions origin authorization target e r : wf r ->
  (check origin authorization target token <> Allowed -> forall q,
     fst (http token observed origin authorization target e q r) = r
     /\ (code (snd (http token observed origin authorization target e q r)) = 401
         \/ code (snd (http token observed origin authorization target e q r)) = 403))
  /\ (check origin authorization target token = Allowed ->
     (forall text, let (r', answer) := http token observed origin authorization target e (PostSessions text) r in
        if decide (code answer = 200)
        then exists a o, getSession (e_id e) r' = Some (a, o) /\ status (life o) = Ready
             /\ forall j, j <> e_id e -> m_sessions r' !! j = m_sessions r !! j
        else r' = r)
     /\ (forall i, let (r', answer) := http token observed origin authorization target e (DeleteSession i) r in
        getSession i r' = None
        /\ match getSession i r with
           | None => code answer = 404 /\ r' = r
           | Some (a, o) => code answer = 200 /\ exists o', store r' !! a = Some o' /\ status (life o') = Stopped
           end)
     /\ (forall i newOptions a o, getSession i r = Some (a, o) ->
        let (r', res) := restartSession i newOptions e r in
        (exists o', store r' !! a = Some o' /\ status (life o') = Stopped)
        /\ match res with
           | Ok j => j = i /\ exists a' o', getSession i r' = Some (a', o') /\ a' <> a /\ status (life o') = Ready
                     /\ options o' = match newOptions with Some n => n | None => options o end
           | _ => getSession i r' = None
           end)).
Proof.
  intros Hw. split.
  - intros Hc q. unfold http. destruct (check _ _ _ _); [done | |]; cbn; auto.
  - intros Hc. unfold http. rewrite Hc. cbn [route]. split; [| split].
    + intros text. destruct (if bool_decide _ then _ else _) as [j| |]; [| by rewrite decide_False..].
      destruct (parseSessionOptions j) as [s| |]; [| by rewrite decide_False..].
      pose proof (create_spec (e_id e) s e r Hw) as H. unfold answer_create, createSession.
      destruct (createSessionWithId (e_id e) s e r) as [r' [x| |]]; cbn [code]; [| by rewrite decide_False..].
      destruct H as (-> & W & _ & M & p & Hp). rewrite decide_True by done. do 2 eexists.
      split; [apply getSession_spec; rewrite M, lookup_insert_eq; split; [done | rewrite Hp; by apply list_lookup_middle] |]. split; [done |].
      intros j' Hj. rewrite M. by rewrite lookup_insert_ne by done.
    + intros i. destruct (stop_session_wf i false e r Hw) as (W & _ & M & _).
      unfold stop_session in *. destruct (getSession i r) as [[a o]|] eqn:Hg; cbn [fst] in *.
      * split; [apply getSession_None; [done |]; rewrite M; apply lookup_delete_eq |]. split; [done |].
        apply getSession_spec in Hg as [_ Ho]. eexists. split.
        -- cbn. apply list_lookup_insert_eq. by eapply lookup_lt_Some.
        -- apply stopped_status.
      * done.
    + intros i newOptions a o Hg. by apply restart_spec.
Qed.
End Guarantees.

(** ** The hypotheses can hold *)
Definition example_env : Env :=
  {| e_id := "s1"%string; is_regular_file := fun _ => true; launch := Ok 7; waits := fun _ => []; late := [] |}.
Definition example_draw : Draw := {| d_guid := "g"%string; d_date := "d"%string; interrupted := true |}.
Definition example_observed (o : SessionObject) : json (JsonLib := Concrete.concrete) * json := (null, null).
Definition example_options : SessionOptions :=
  {| kernelType := "r"%string; rHome := []; rPath := []; rLibs := []; pandocPath := []; pythonHome := []; pythonPath := [];
     venvPath := []; stataHome := []; stataEdition := []; arkPath := []; kernelArgv := []; kernelEnv := ∅;
     kernelInterruptMode := []; workingDirectory := [] |}.

Definition no_sessions : Registry (J := Concrete.concrete) := new_registry {[ ("r"%string : str) := ("/elara"%string : str) ]}.
Definition one_session : Registry (J := Concrete.concrete) := fst (createSessionWithId "s1"%string example_options example_env no_sessions).

Definition example_frame (type : str) : str :=
  match dump Strict (mk_object [("type"%string : str, mk_str type); ("id"%string : str, mk_str "1"%string);
                                ("channel"%string : str, mk_str "control"%string);
                                ("msgType"%string : str, mk_str "shutdown_request"%string)] : json (JsonLib := Concrete.concrete))
  with Ok s => s | _ => [] end.

Definition example_uri : str := "/sessions/s1/messages"%string.
Definition example_acts : list (Action (J := Concrete.concrete)) :=
  [ Http [] [] "/sessions"%string example_env (PostSessions []); Open 1 [] [] example_uri;
    Text 1 example_draw (example_frame "execute"%string); Text 1 example_draw (example_frame "request"%string) ].

Abbreviation example_run_acts := (acts (J := Concrete.concrete) (Ossl := Stub.stub) [] example_observed).

Definition example_sent : Sent (J := Concrete.concrete) :=
  match sent (example_run_acts example_acts no_sessions) with s :: _ => s | [] => {| to := 0; via := Iopub; header := null; body := null |} end.


(** The frame that asks for a shutdown_request is refused, and its sender told. *)
Example shutdown_refused : length (sent (example_run_acts example_acts no_sessions)) = 1%nat
  /\ pushed (example_run_acts example_acts no_sessions)
     = [(1%nat, ready); (1%nat, request_error "1"%string ("'shutdown_request' is not an allowed request on the 'control' channel"%string))].
Proof. split; vm_compute; reflexivity. Qed.

Lemma no_sessions_wf : wf no_sessions.
Proof. intros i a. cbn. by rewrite lookup_empty. Qed.

Lemma one_session_wf : wf one_session.
Proof.
  pose proof (create_spec "s1"%string example_options example_env no_sessions no_sessions_wf) as H.
  unfold one_session. by destruct (createSessionWithId _ _ _ _) as [r [x| |]]; [destruct H as (_ & H & _) | subst ..].
Qed.

Definition one_object : SessionObject :=
  {| id := "s1"%string; options := example_options; pid := 7; life := new_session; callbackOwner := None |}.


Lemma http_sessions_witness :
  getSession "s1"%string (fst (http (Ossl := Stub.stub) [] example_observed [] [] [] example_env (DeleteSession "s1"%string) one_session)) = None.
Proof.
  pose proof (proj1 (proj2 (proj2 (http_sessions (J := Concrete.concrete) (Ossl := Stub.stub) [] example_observed [] [] []
    example_env one_session one_session_wf) eq_refl)) "s1"%string) as H.
  destruct (http _ _ _ _ _ _ _ _) as [r' answer]. exact (proj1 H).
Defined.

(** After a restart the connection is still bound to the session's old object:
    what the new kernel sends goes nowhere until a connection opens again. *)
Example restart_unbinds :
  let r := ws_open (Ossl := Stub.stub) [] 1 [] [] example_uri one_session in
  let (r', res) := restartSession "s1"%string None example_env r in
  match getSession "s1"%string r' with
  | Some (a, _) => pushed (kernel_frame a null r') = pushed r
  | None => False
  end.
Proof. vm_compute. reflexivity. Qed.
