(* ===== verification/Shutdown.v ===== *)
(** * The end of the supervisor: main of themisto/main.cpp, the destructor of
    the registry (themisto/session_registry.cpp)

    A supervisor that is asked to end, or has been idle, stops every session it
    lists; the HTTP server still runs meanwhile, so sessions can be created
    after the list was made.  The registry's destructor is for those.  A step of
    a run is what a client does ([Registry.act]) or what happens in a session's
    life ([Session.events]). *)

From Stdlib Require Import Ascii String ZArith Lia.
From stdpp Require Import gmap.
From S2P Require Import Prelude Crypto Access Json Wire Session Registry.
Local Open Scope Z_scope.

Section Shutdown.
Context `{J : JsonLib} `{Ossl : OpenSSL} (token : str) (observed : SessionObject -> json * json).

Inductive Step :=
| Client (x : Action)
| Lives (a : nat) (es : list Event).

Definition live (a : nat) (es : list Event) (r : Registry) : Registry :=
  set_store (alter (fun o => set_life (events es (life o)) o) a (store r)) r.

Definition step (s : Step) (r : Registry) : Registry :=
  match s with Client x => act token observed x r | Lives a es => live a es r end.

Definition steps (ss : list Step) (r : Registry) : Registry := fold_left (fun r s => step s r) ss r.

(** [newGuid()] gives an id that no session has. *)
Definition fresh_step (s : Step) (r : Registry) : Prop :=
  match s with Client (Http _ _ _ e (PostSessions _)) => m_sessions r !! e_id e = None | _ => True end.

Fixpoint fresh (ss : list Step) (r : Registry) : Prop :=
  match ss with [] => True | s :: ss => fresh_step s r /\ fresh ss (step s r) end.

(** *** The end of [main] *)

Definition session_id (session : json) : str :=
  match value get_str session "sessionId"%string [] with Ok i => i | _ => [] end.

Definition listed (r : Registry) : list str := session_id <$> elements (listSessions observed r).

(** Each listed session is stopped; [meanwhile] is what happens before it is,
    with [e] what its stop meets. *)
Fixpoint stop_each (ids : list str) (turns : list (list Step * Env)) (r : Registry) : Registry :=
  match ids, turns with
  | i :: ids, (meanwhile, e) :: turns => stop_each ids turns (fst (stop_session i false e (steps meanwhile r)))
  | _, _ => r
  end.

(** *** The destructor *)

(** [stopChannels], then [kill]; what was stopped already is left. *)
Definition destroy_session (o : SessionObject) : SessionObject :=
  if bool_decide (status (life o) = Stopped) then o else set_life (set_alive false (set_heartbeat false (life o))) o.

Definition destroy (r : Registry) : Registry :=
  set_store (foldr (fun p st => alter destroy_session p.2 st) (store r) (map_to_list (m_sessions r))) r.

(** The end: the sessions stopped, what still came in, the destructor. *)
Definition supervisor_end (turns : list (list Step * Env)) (last : list Step) (r : Registry) : Registry :=
  destroy (steps last (stop_each (listed r) turns r)).

Fixpoint fresh_turns (ids : list str) (turns : list (list Step * Env)) (r : Registry) : Prop :=
  match ids, turns with
  | i :: ids, (meanwhile, e) :: turns =>
      fresh meanwhile r /\ fresh_turns ids turns (fst (stop_session i false e (steps meanwhile r)))
  | _, _ => True
  end.

(** ** Every kernel that runs is of a session of the registry *)

Record kept (r : Registry) : Prop := {
  kept_wf : wf r;
  kept_alive a o : store r !! a = Some o -> alive (life o) = true -> m_sessions r !! id o = Some a /\ status (life o) <> Stopped
}.

Lemma event_life e s : (alive (event e s) = true -> alive s = true) /\ (status (event e s) = Stopped -> status s = Stopped).
Proof.
  destruct e; cbn [event]; try done.
  - unfold kernel_sends. destruct (alive s) eqn:E; cbn; [done | by rewrite E].
  - unfold poll_step. destruct (poller s) as [| | [|] |]; try done; [by destruct (polling s) |]. by destruct (expectingExit (drain s)).
  - unfold heartbeat_dead. destruct (negb _); [done |]. by destruct (_ || _).
Qed.

Lemma life_events es s : (alive (events es s) = true -> alive s = true) /\ (status (events es s) = Stopped -> status s = Stopped).
Proof.
  revert s. induction es as [| e es IH]; intros s; [done |]. destruct (IH (event e s)) as [A B], (event_life e s) as [C D].
  split; intros H; [apply C, A, H | apply D, B, H].
Qed.

Lemma stopSession_dead restart w l s : alive (stopSession restart w l s) = false.
Proof. unfold stopSession. destruct (grace _ _ _ _) as [n g]. cbn zeta. destruct (alive (set_heartbeat false (join (events l (set_polling false g))))) eqn:E; [done | exact E]. Qed.

(** What changes neither the sessions nor what [kept] says of an object. *)
Definition unchanged (r r' : Registry) : Prop :=
  m_sessions r' = m_sessions r /\ (fun o => (id o, life o)) <$> store r' = (fun o => (id o, life o)) <$> store r.

Lemma unchanged_refl r : unchanged r r.
Proof. done. Qed.

Lemma kept_unchanged r r' : unchanged r r' -> kept r -> kept r'.
Proof.
  intros [Hm Hs] [Hw Ha].
  assert (Hb : forall a, (fun o => (id o, life o)) <$> store r' !! a = (fun o => (id o, life o)) <$> store r !! a)
    by (intros a; by rewrite <- !list_lookup_fmap, Hs).
  constructor.
  - intros i a Hi. rewrite Hm in Hi. destruct (Hw i a Hi) as (o & Ho & Hid). specialize (Hb a). rewrite Ho in Hb.
    destruct (store r' !! a) as [o' |]; [| done]. injection Hb as E1 E2. exists o'. split; [done | congruence].
  - intros a o' Ho' Hal. specialize (Hb a). rewrite Ho' in Hb. destruct (store r !! a) as [o |] eqn:Ho; [| done].
    injection Hb as E1 E2. rewrite Hm, E1, E2. apply (Ha a o Ho). by rewrite <- E2.
Qed.

Lemma update_owner_unchanged a c r : unchanged r (update_owner a c r).
Proof.
  unfold update_owner. destruct (store r !! a) as [o |] eqn:Ho; [| done]. split; [done |]. cbn. rewrite list_fmap_insert. cbn.
  apply list_insert_id. by rewrite list_lookup_fmap, Ho.
Qed.

Lemma kept_stop i restart e r : kept r -> kept (fst (stop_session i restart e r)).
Proof.
  intros [Hw Ha]. destruct (stop_session_wf observed i restart e r Hw) as (W & _ & M & _). constructor; [exact W |].
  revert M. unfold stop_session. destruct (getSession i r) as [[a o] |] eqn:Hg; cbn [fst]; [| intros _; exact Ha].
  intros M b p Hp Hal. apply (getSession_spec observed) in Hg as [Hm Ho]. cbn in Hp |- *. destruct (decide (a = b)) as [<- | Hne].
  - rewrite list_lookup_insert_eq in Hp by (by eapply lookup_lt_Some). injection Hp as <-. cbn in Hal. by rewrite stopSession_dead in Hal.
  - rewrite list_lookup_insert_ne in Hp by done. destruct (Ha b p Hp Hal) as [Hb Hst]. split; [| done].
    rewrite lookup_delete_ne; [done |]. intros ->. congruence.
Qed.

Lemma kept_delete i r : m_sessions r !! i = None -> kept r -> kept (set_sessions (delete i (m_sessions r)) r).
Proof. intros Hi [Hw Ha]. rewrite (delete_id _ _ Hi). constructor; [exact Hw | exact Ha]. Qed.

Lemma kept_create i o e r : m_sessions r !! i = None -> kept r -> kept (fst (createSessionWithId i o e r)).
Proof.
  intros Hi [Hw Ha]. pose proof (create_spec i o e r Hw) as H. destruct (createSessionWithId i o e r) as [r' [j | |]]; cbn [fst];
    [| subst r'; by constructor ..].
  destruct H as (-> & W & _ & M & p & Hs). constructor; [exact W |]. intros a x Hx Hal. rewrite Hs in Hx.
  apply lookup_app_Some in Hx as [Hx | [Hl Hx]].
  - destruct (Ha a x Hx Hal) as [Hm Hst]. split; [| done]. rewrite M, lookup_insert_ne; [done |]. intros ->. congruence.
  - apply list_lookup_singleton_Some in Hx as [Hz <-]. cbn [id life]. rewrite M, lookup_insert_eq. split; [f_equal; lia | done].
Qed.

Lemma kept_restart i o e r : kept r -> kept (fst (restartSession i o e r)).
Proof.
  intros Hk. unfold restartSession. destruct (getSession i r) as [[a s] |] eqn:Hg; [| done].
  pose proof (kept_stop i true e r Hk) as H1. destruct (stop_session_wf observed i true e r (kept_wf r Hk)) as (_ & _ & M & _).
  destruct (stop_session i true e r) as [r1 b]. cbn [fst] in *.
  assert (Hi : m_sessions r1 !! i = None) by (rewrite M; apply lookup_delete_eq).
  apply kept_create; [cbn; apply lookup_delete_eq | by apply kept_delete].
Qed.

Lemma kept_route e q r : fresh_step (Client (Http [] [] [] e q)) r -> kept r -> kept (fst (route observed e q r)).
Proof.
  intros Hf Hk. destruct q as [text | | | i | i | i text]; cbn [route fresh_step] in *.
  - destruct (if bool_decide _ then _ else _) as [j | |]; [| done ..]. destruct (parseSessionOptions j) as [o | |]; [| done ..].
    unfold answer_create, createSession. pose proof (kept_create (e_id e) o e r Hf Hk) as H.
    by destruct (createSessionWithId _ _ _ _) as [r' [x | |]].
  - by apply (kept_unchanged r).
  - done.
  - by destruct (getSession i r) as [[a o] |].
  - pose proof (kept_stop i false e r Hk) as H. by destruct (stop_session i false e r).
  - destruct (if bool_decide _ then _ else _) as [j | |]; [| done ..].
    destruct (match j with Some j => _ | None => _ end) as [o | |]; [| done ..].
    pose proof (kept_restart i o e r Hk) as H. by destruct (restartSession i o e r) as [r' [x | |]].
Qed.

Lemma kept_lives a es r : kept r -> kept (live a es r).
Proof.
  intros [Hw Ha]. constructor.
  - intros i b Hi. destruct (Hw i b Hi) as (o & Ho & Hid). unfold live. cbn. destruct (decide (a = b)) as [<- | Hne].
    + rewrite list_lookup_alter_eq, Ho. by eexists.
    + rewrite list_lookup_alter_ne by done. eauto.
  - intros b o Ho Hal. unfold live in *. cbn in *. destruct (decide (a = b)) as [<- | Hne].
    + rewrite list_lookup_alter_eq in Ho. destruct (store r !! a) as [p |] eqn:Hp; [| done]. injection Ho as <-. cbn in *.
      destruct (life_events es (life p)) as [A B]. destruct (Ha a p Hp (A Hal)) as [Hm Hst]. split; [done | auto].
    + rewrite list_lookup_alter_ne in Ho by done. by apply (Ha b o).
Qed.

Lemma open_unchanged c origin authorization uri r : unchanged r (ws_open token c origin authorization uri r).
Proof.
  unfold ws_open. destruct (check _ _ _ _); [| done ..]. destruct (getSession _ r) as [[a o] |]; [| done].
  set (r1 := set_connections _ _ r). exact (update_owner_unchanged a (Some c) r1).
Qed.

Lemma close_unchanged c r : unchanged r (ws_close c r).
Proof.
  unfold ws_close. destruct (connections r !! c) as [k |]; [| done].
  set (r1 := if counted k then _ else r). assert (H : unchanged r r1) by (unfold r1; by destruct (counted k)).
  destruct (bound k) as [b |]; [| done]. destruct (store r1 !! b) as [p |]; [| done].
  destruct (bool_decide _); [| done]. destruct (update_owner_unchanged b None r1) as [H1 H2]. destruct H as [H3 H4]. split; congruence.
Qed.

Lemma kept_step s r : fresh_step s r -> kept r -> kept (step s r).
Proof.
  intros Hf Hk. destruct s as [x | a es]; [| by apply kept_lives]. cbn [step].
  destruct x as [origin authorization target e q | c origin authorization uri | c d text | c | a frame]; cbn [act].
  - unfold http. destruct (check _ _ _ _); [| done ..]. by apply kept_route.
  - apply (kept_unchanged r); [apply open_unchanged | done].
  - apply (kept_unchanged r); [| done]. destruct (text_store d c text r) as [S M]. split; [done | by rewrite S].
  - apply (kept_unchanged r); [apply close_unchanged | done].
  - apply (kept_unchanged r); [| done]. unfold kernel_frame, emitMessage. destruct (store r !! a) as [o |]; [| done].
    by destruct (callbackOwner o).
Qed.

Lemma kept_steps ss : forall r, fresh ss r -> kept r -> kept (steps ss r).
Proof.
  induction ss as [| s ss IH]; intros r Hf Hk; [done |]. destruct Hf as [Hs Hf]. by apply (IH (step s r)), kept_step.
Qed.

Lemma kept_stop_each ids : forall turns r, fresh_turns ids turns r -> kept r -> kept (stop_each ids turns r).
Proof.
  induction ids as [| i ids IH]; intros [| [meanwhile e] turns] r Hf Hk; [done .. |].
  destruct Hf as [Hm Hf]. apply (IH turns); [done |]. by apply kept_stop, kept_steps.
Qed.

Lemma new_registry_kept paths : kept (new_registry paths).
Proof. constructor; [intros i a; cbn; by rewrite lookup_empty | intros a o H; apply lookup_lt_Some in H; cbn in H; lia]. Qed.

Lemma destroy_session_alive o : status (life (destroy_session o)) = status (life o)
  /\ (alive (life (destroy_session o)) = true -> alive (life o) = true /\ status (life o) = Stopped).
Proof. unfold destroy_session. case_bool_decide; [done | by split]. Qed.

Lemma destroyed (l : list (str * nat)) (st : list SessionObject) a : forall o',
  foldr (fun p st => alter destroy_session p.2 st) st l !! a = Some o' -> alive (life o') = true ->
  exists o, st !! a = Some o /\ alive (life o) = true /\ status (life o') = status (life o) /\ (a ∈ l.*2 -> status (life o) = Stopped).
Proof.
  induction l as [| [i b] l IH]; intros o' Ho Hal; cbn in *.
  - exists o'. do 3 (split; [done |]). by intros ?%not_elem_of_nil.
  - destruct (decide (b = a)) as [-> | Hne].
    + rewrite list_lookup_alter_eq in Ho. destruct (foldr _ _ _ !! a) as [p |]; [| done]. injection Ho as <-.
      destruct (destroy_session_alive p) as [Hs Hd]. destruct (Hd Hal) as [Hal' Hst]. destruct (IH p eq_refl Hal') as (o & Ho & Hoa & Hos & _).
      exists o. split; [done |]. split; [done |]. split; congruence.
    + rewrite list_lookup_alter_ne in Ho by done. destruct (IH o' Ho Hal) as (o & H1 & H2 & H3 & H4). exists o.
      do 3 (split; [done |]). intros [-> | Hin]%elem_of_cons; [done | auto].
Qed.


End Shutdown.

(** ** The hypotheses can hold *)

(** A session is created by a client; another while the first is stopped. *)
Definition second_env : Env := {| e_id := "s2"%string; is_regular_file := fun _ => true; launch := Ok 8; waits := fun _ => []; late := [] |}.

Definition creates (e : Env) : Step (J := Concrete.concrete) := Client (Http [] [] "/sessions"%string e (PostSessions [])).

Definition example_paths : gmap str str := {[ ("r"%string : str) := ("/elara"%string : str) ]}.

Definition example_before : list (Step (J := Concrete.concrete)) := [creates example_env; Lives 0 [Poll]].
Definition example_turns : list (list (Step (J := Concrete.concrete)) * Env) := [([creates second_env], example_env)].

Abbreviation Steps := (steps (J := Concrete.concrete) (Ossl := Stub.stub) [] example_observed).
Abbreviation Turns := (stop_each (J := Concrete.concrete) (Ossl := Stub.stub) [] example_observed).

Definition at_end : Registry (J := Concrete.concrete) := Steps example_before (new_registry example_paths).

(** The second session is not stopped by [main]: the destructor ends it. *)
Example second_is_killed :
  listed (J := Concrete.concrete) example_observed at_end = ["s1"%string : str]
  /\ (fun o => (id o, alive (life o), status (life o))) <$> store (Turns ["s1"%string : str] example_turns at_end)
     = [("s1"%string : str, false, Stopped); ("s2"%string : str, true, Ready)].
Proof. split; vm_compute; reflexivity. Qed.

Definition ended : Registry (J := Concrete.concrete) :=
  supervisor_end (J := Concrete.concrete) (Ossl := Stub.stub) [] example_observed example_turns [] at_end.

Lemma ended_second : exists o, store ended !! 1%nat = Some o /\ id o = ("s2"%string : str).
Proof.
  assert (H : id <$> store ended !! 1%nat = Some ("s2"%string : str)) by (vm_compute; reflexivity).
  destruct (store ended !! 1%nat) as [o |]; [| discriminate H]. exists o. split; [reflexivity |]. by injection H.
Qed.

