(* ===== verification/Creation.v ===== *)
(** * The creation of a session: themisto/session_registry.cpp

    SessionRegistry::createSessionWithId from the options of the request to the
    session in the registry: the executable (Registry.v), the options of its
    process, the files written for kernels that are not the repository's own,
    the process (Process.v), its registration (Registration.v), the client that
    connects to it.  What is done to the world is a trace ([Action]), in order,
    the destructors that run on an error included; what the system does is an
    argument ([System]). *)

From Stdlib Require Import Ascii String ZArith Lia.
From stdpp Require Import base list gmap strings.
From S2P Require Import Prelude StataCode Crypto Json Wire Registration Process Launch Session Registry.

Local Open Scope Z_scope.

Definition backslashes (s : str) : str := (fun c => if char_eqb c "/"%char then "\"%char else c) <$> s.

(** R's directory before the others of PATH (on POSIX). *)
Definition ensureRBinOnPath (rHome rPath : str) (path : option str) : option str :=
  let rBinDir := if negb (bool_decide (rPath = [])) then rPath
                 else if negb (bool_decide (rHome = [])) then rHome ++ "/bin/x64"%string else [] in
  if bool_decide (rBinDir = []) then path
  else
    let rBinDir := backslashes rBinDir in
    let current := default [] path in
    if contains rBinDir current then path else Some (rBinDir ++ ":"%char :: current).

Section Creation.
Context `{J : JsonLib} `{Ossl : OpenSSL}.

Record Supervisor := {
  registry : Registry;
  m_registrationIp : str;
  m_registrationPort : str;
  m_registrationKey : str;
  path_variable : option str
}.

Definition set_registry x (s : Supervisor) : Supervisor :=
  {| registry := x; m_registrationIp := m_registrationIp s; m_registrationPort := m_registrationPort s;
     m_registrationKey := m_registrationKey s; path_variable := path_variable s |}.
Definition set_path x (s : Supervisor) : Supervisor :=
  {| registry := registry s; m_registrationIp := m_registrationIp s; m_registrationPort := m_registrationPort s;
     m_registrationKey := m_registrationKey s; path_variable := x |}.

(** One key for the supervisor's life, and the port the listener bound. *)
Definition startRegistrationListener (guid bound_port : str) (s : Supervisor) : Supervisor * result str :=
  let with_port p := {| registry := registry s; m_registrationIp := m_registrationIp s; m_registrationPort := p;
                        m_registrationKey := guid; path_variable := path_variable s |} in
  match makeAuthentication "hmac-sha256"%string guid with
  | Ok _ => (with_port bound_port, Ok bound_port)
  | Throw w => (with_port [], Throw w)
  | Undefined => (with_port [], Undefined)
  end.

(** What a creation does to the world. *)
Inductive Action :=
| WroteFile (path text : str)
| RemovedFile (path : str)
| Spawned (options : KernelProcessOptions) (pid : Z)
| Answered (e : Effect)
| Killed (pid : Z)
| Connected (config : KernelConfiguration)
| LoggedNoWelcome (id : str)
| Polls (id : str).

(** What the system does: the ids made, the ports found free, what the start of
    the process meets, what the registration's socket receives, whether the
    output channel's welcome comes. *)
Record System := {
  is_regular : str -> bool;
  temp_directory_path : str;
  absolute : str -> option str;
  guid : str;
  free_ports : list str;
  ld_path_variable : str;
  inherited : environment;
  starting : StartOutcome;
  reply_id : str;
  reply_date : str;
  started_at : Z;
  received : list Turn;
  welcomed : bool
}.

Section Create.
Context (sys : System) (i : str) (o : SessionOptions).

Definition of_type (name : string) : bool := str_eqb (kernelType o) name.

(** The fields that are the same for every kernel. *)
Definition process_options (exe : str) (s : Supervisor) : KernelProcessOptions := {|
  Process.kernelExePath := exe;
  Process.rHome := rHome o;
  Process.rPath := rPath o;
  Process.rLibs := rLibs o;
  Process.pandocPath := pandocPath o;
  Process.pythonHome := pythonHome o;
  Process.pythonPath := pythonPath o;
  Process.venvPath := venvPath o;
  Process.stataHome := stataHome o;
  Process.stataEdition := stataEdition o;
  Process.workingDirectory := workingDirectory o;
  Process.explicitArgs := [];
  Process.extraEnv := [];
  Process.interruptBySignal := false;
  Process.registrationIp := m_registrationIp s;
  Process.registrationPort := m_registrationPort s;
  Process.registrationId := [];
  Process.key := []
|}.

Definition with_launch (args : list str) (env : list (str * str)) (by_signal : bool) (registration key : str) (p : KernelProcessOptions) : KernelProcessOptions := {|
  Process.kernelExePath := Process.kernelExePath p;
  Process.rHome := Process.rHome p;
  Process.rPath := Process.rPath p;
  Process.rLibs := Process.rLibs p;
  Process.pandocPath := Process.pandocPath p;
  Process.pythonHome := Process.pythonHome p;
  Process.pythonPath := Process.pythonPath p;
  Process.venvPath := Process.venvPath p;
  Process.stataHome := Process.stataHome p;
  Process.stataEdition := Process.stataEdition p;
  Process.workingDirectory := Process.workingDirectory p;
  Process.explicitArgs := args;
  Process.extraEnv := env;
  Process.interruptBySignal := by_signal;
  Process.registrationIp := Process.registrationIp p;
  Process.registrationPort := Process.registrationPort p;
  Process.registrationId := registration;
  Process.key := key
|}.

(** The constructor of KernelProcess: the executable's path made absolute. *)
Definition with_absolute (p : KernelProcessOptions) : KernelProcessOptions :=
  let exe := Process.kernelExePath p in
  let full := if bool_decide (exe = []) then exe else default exe (absolute sys exe) in
  {| Process.kernelExePath := full; Process.rHome := Process.rHome p; Process.rPath := Process.rPath p; Process.rLibs := Process.rLibs p;
     Process.pandocPath := Process.pandocPath p; Process.pythonHome := Process.pythonHome p; Process.pythonPath := Process.pythonPath p;
     Process.venvPath := Process.venvPath p; Process.stataHome := Process.stataHome p; Process.stataEdition := Process.stataEdition p;
     Process.workingDirectory := Process.workingDirectory p; Process.explicitArgs := Process.explicitArgs p; Process.extraEnv := Process.extraEnv p;
     Process.interruptBySignal := Process.interruptBySignal p; Process.registrationIp := Process.registrationIp p;
     Process.registrationPort := Process.registrationPort p; Process.registrationId := Process.registrationId p; Process.key := Process.key p |}.

(** [session->process = make_unique<KernelProcess>(...); start()] *)
Definition spawn (p : KernelProcessOptions) : list Action * result Z :=
  let p := with_absolute p in
  let r := outcome (Process.start (ld_path_variable sys) p (inherited sys) (starting sys)) in
  (match r with Ok pid => [Spawned p pid] | _ => [] end, r).

(** What a launch did, the connection file of its session, and how it ended:
    [None] while it waits. *)
Record Launched := { did : list Action; connectionFile : option str; ended : option (result (Z * KernelConfiguration)) }.

Definition connection_path : str := temp_directory_path sys ++ "/jovian-kernel-"%string ++ i ++ ".json"%string.

Definition startJupyterKernel (p : KernelProcessOptions) : Launched :=
  match kernel_ports (free_ports sys) with
  | None => {| did := []; connectionFile := None; ended := None |}
  | Some ports =>
      let config := jupyter_configuration (guid sys) ports in
      let file := Some connection_path in
      match connection_file config with
      | Throw w => {| did := []; connectionFile := file; ended := Some (Throw w) |}
      | Undefined => {| did := []; connectionFile := file; ended := Some Undefined |}
      | Ok text =>
          let wrote := [WroteFile connection_path text] in
          match jupyter_arguments connection_path (kernelArgv o) with
          | Throw w => {| did := wrote; connectionFile := file; ended := Some (Throw w) |}
          | Undefined => {| did := wrote; connectionFile := file; ended := Some Undefined |}
          | Ok args =>
              let p := with_launch args (map_to_list (kernelEnv o)) (negb (str_eqb (kernelInterruptMode o) "message"%string)) []
                         (m_key (kernel_common config)) p in
              let (acts, r) := spawn p in
              {| did := wrote ++ acts; connectionFile := file; ended := Some (let? pid := r in Ok (pid, config)) |}
          end
      end
  end.

Definition ark_path : str := temp_directory_path sys ++ "/jovian-ark-"%string ++ i ++ ".json"%string.

Definition listener_authentication (s : Supervisor) : Authentication := OpensslAuthentication "SHA256"%string (m_registrationKey s).

(** The process, and the wait for the registration that names this launch. *)
Definition spawn_and_wait (expected : str) (p : KernelProcessOptions) (s : Supervisor) : list Action * option (result (Z * KernelConfiguration)) :=
  let (acts, r) := spawn p in
  match r with
  | Throw w => (acts, Some (Throw w))
  | Undefined => (acts, Some Undefined)
  | Ok pid =>
      let (effects, waited) := waitForConfiguration (listener_authentication s) (m_registrationKey s) expected (reply_id sys) (reply_date sys)
                                 (started_at sys) (received sys) in
      (acts ++ (Answered <$> effects),
       match waited with
       | Waiting => None
       | Failed w => Some (Throw w)
       | Registration.Crashed => Some Undefined
       | Configured config => Some (Ok (pid, config))
       end)
  end.

(** A kernel that registers: the repository's own by its flags, Ark by a file,
    which goes when the wait is over. *)
Definition start_registering (p : KernelProcessOptions) (s : Supervisor) : Launched :=
  if of_type "ark" then
    match ark_registration_file (m_registrationIp s) (m_registrationKey s) (m_registrationPort s) with
    | Throw w => {| did := []; connectionFile := None; ended := Some (Throw w) |}
    | Undefined => {| did := []; connectionFile := None; ended := Some Undefined |}
    | Ok text =>
        let env := if bool_decide (rHome o = []) then [] else [("R_HOME"%string : str, rHome o)] in
        let p := with_launch ["--connection_file"%string : str; ark_path; "--session-mode"%string : str; "notebook"%string : str] env false
                   (guid sys) (m_registrationKey s) p in
        let (acts, e) := spawn_and_wait [] p s in
        {| did := WroteFile ark_path text :: acts ++ match e with Some _ => [RemovedFile ark_path] | None => [] end;
           connectionFile := None; ended := e |}
    end
  else
    let p := with_launch [] [] false (guid sys) (m_registrationKey s) p in
    let (acts, e) := spawn_and_wait (guid sys) p s in {| did := acts; connectionFile := None; ended := e |}.

Definition launch_kernel (exe : str) (s : Supervisor) : Supervisor * Launched :=
  let p := process_options exe s in
  if of_type "jupyter" then (s, startJupyterKernel p)
  else
    let s := if of_type "r" || of_type "ark" then set_path (ensureRBinOnPath (rHome o) (rPath o) (path_variable s)) s else s in
    (s, start_registering p s).

Definition spawned_pid (a : Action) : option Z := match a with Spawned _ pid => Some pid | _ => None end.

(** A session that is not kept: its connection file goes, its process is killed. *)
Definition destroy_session (l : Launched) : list Action :=
  match connectionFile l with Some path => [RemovedFile path] | None => [] end ++ (Killed <$> omap spawned_pid (did l)).

(** What the registry's [createSessionWithId] is given for the launch. *)
Definition env_of (r : result Z) : Env :=
  {| e_id := i; is_regular_file := is_regular sys; launch := r; waits := fun _ => []; late := [] |}.

Definition createSessionWithId (s : Supervisor) : Supervisor * list Action * option (result str) :=
  let exe := kernel_executable o (registry s) in
  if bool_decide (exe = []) || negb (is_regular sys exe) then
    let (r, answer) := Registry.createSessionWithId i o (env_of Undefined) (registry s) in (set_registry r s, [], Some answer)
  else
    let (s, l) := launch_kernel exe s in
    match ended l with
    | None => (s, did l, None)
    | Some e =>
        let (r, answer) := Registry.createSessionWithId i o (env_of (let? (pid, _) := e in Ok pid)) (registry s) in
        (set_registry r s,
         did l ++ match e with
                  | Ok (_, config) => Connected config :: (if welcomed sys then [] else [LoggedNoWelcome i]) ++ [Polls i]
                  | _ => destroy_session l
                  end,
         Some answer)
    end.
End Create.

(** The processes and files an action leaves behind. *)
Definition left_processes (ps : list Z) (a : Action) : list Z :=
  match a with
  | Spawned _ pid => ps ++ [pid]
  | Killed pid => List.filter (fun p => negb (p =? pid)) ps
  | _ => ps
  end.

Definition left_files (fs : list str) (a : Action) : list str :=
  match a with
  | WroteFile path _ => fs ++ [path]
  | RemovedFile path => List.filter (fun f => negb (str_eqb f path)) fs
  | _ => fs
  end.

Definition processes (acts : list Action) : list Z := fold_left left_processes acts [].
Definition files (acts : list Action) : list str := fold_left left_files acts [].
End Creation.

(** ** What a creation leaves behind *)
Section Facts.
Context `{J : JsonLib} `{OL : OpenSSLLaws}.

(** What remains, of the processes and the files. *)
Definition left (acts : list Action) : list Z * list str := (processes acts, files acts).

Lemma left_inv acts ps fs : left acts = (ps, fs) -> processes acts = ps /\ files acts = fs.
Proof. intros H. split; [exact (f_equal fst H) | exact (f_equal snd H)]. Qed.

Lemma answered_neutral effects ps fs :
  fold_left left_processes (Answered <$> effects) ps = ps /\ fold_left left_files (Answered <$> effects) fs = fs.
Proof. induction effects as [|e effects [IH1 IH2]]; [done |]. cbn. by rewrite IH1, IH2. Qed.

Lemma answered_spawned effects : omap spawned_pid (Answered <$> effects) = [].
Proof. induction effects as [|e effects IH]; [done | exact IH]. Qed.

Lemma left_app acts acts' : left (acts ++ acts') = (fold_left left_processes acts' (processes acts), fold_left left_files acts' (files acts)).
Proof. unfold left, processes, files. by rewrite !fold_left_app. Qed.

Lemma left_answered acts effects : left (acts ++ (Answered <$> effects)) = left acts.
Proof. rewrite left_app. destruct (answered_neutral effects (processes acts) (files acts)) as [-> ->]. done. Qed.

Context (sys : System) (i : str) (o : SessionOptions).

Lemma spawn_spec p : let (acts, r) := spawn sys p in
  match r with Ok pid => acts = [Spawned (with_absolute sys p) pid] | _ => acts = [] end.
Proof. unfold spawn. by destruct (outcome _). Qed.

(** Where a configuration of the listener comes from. *)
Definition from_registration (key expected : str) (config : KernelConfiguration) : Prop :=
  exists t wire, t ∈ received sys /\ got t = Some wire /\ registered_by "SHA256"%string key expected wire config.

Lemma configured_from key expected effects config :
  waitForConfiguration (OpensslAuthentication "SHA256"%string key) key expected (reply_id sys) (reply_date sys) (started_at sys) (received sys)
    = (effects, Configured config) -> from_registration key expected config.
Proof.
  intros E. pose proof (wait_from_waits "SHA256"%string key expected (reply_id sys) (reply_date sys) (S (length (received sys)))
    (started_at sys) (received sys) ltac:(lia)) as H.
  unfold waitForConfiguration in E. unfold listener in H. rewrite E in H.
  destruct H as (before & after & deadline' & last & Hr & _ & _ & _ & Hl). destruct after as [|t after]; [by destruct Hl |].
  inversion Hl as [| | | | wire effects' config' Hg Hh Hb]; subst. exists t, wire. split; [| done].
  rewrite Hr. apply elem_of_app. right. by left.
Qed.

(** What a launch leaves: its process when it is configured, and otherwise what
    its destruction takes back. *)
Definition launch_left (l : Launched) (kept : list str) (origin : KernelProcessOptions -> KernelConfiguration -> Prop) : Prop :=
  match ended l with
  | None => True
  | Some (Ok (pid, config)) => left (did l) = ([pid], kept) /\ exists p, Spawned p pid ∈ did l /\ origin p config
  | Some _ => left (did l ++ destroy_session l) = ([], [])
  end.

Lemma jupyter_left p : launch_left (startJupyterKernel sys i o p) [connection_path sys i] (fun _ _ => True).
Proof.
  unfold startJupyterKernel, launch_left. destruct (kernel_ports (free_ports sys)) as [ports|]; [| done].
  destruct (connection_file (jupyter_configuration (guid sys) ports)) as [text | w |]; [| by cbn ..].
  assert (forall fs, List.filter (fun f => negb (str_eqb f (connection_path sys i))) (connection_path sys i :: fs)
    = List.filter (fun f => negb (str_eqb f (connection_path sys i))) fs) as Hf by (intros fs; cbn; by rewrite str_eqb_refl).
  destruct (jupyter_arguments (connection_path sys i) (kernelArgv o)) as [args | w |]; cbn [ended did connectionFile];
    [| unfold left, processes, files; cbn; by rewrite str_eqb_refl ..].
  match goal with |- context [spawn sys ?q] => pose proof (spawn_spec q) as H; destruct (spawn sys q) as [acts [pid | w |]] end; cbn in H |- *; subst acts.
  - split; [done |]. eexists. split; [right; by left | done].
  - unfold left, processes, files. cbn. by rewrite str_eqb_refl.
  - unfold left, processes, files. cbn. by rewrite str_eqb_refl.
Qed.

Lemma wait_shape s expected p : let (acts, e) := spawn_and_wait sys expected p s in
  (acts = [] /\ forall x, e <> Some (Ok x))
  \/ exists pid effects, acts = Spawned (with_absolute sys p) pid :: (Answered <$> effects)
     /\ forall x, e = Some (Ok x) -> fst x = pid /\ from_registration (m_registrationKey s) expected (snd x).
Proof.
  unfold spawn_and_wait. pose proof (spawn_spec p) as H. destruct (spawn sys p) as [acts [pid | w |]]; subst acts; [| by left ..].
  destruct (waitForConfiguration _ _ _ _ _ _ _) as [effects waited] eqn:E. right. exists pid, effects. split; [done |].
  intros [pid' config]. destruct waited; intros [= <- <-]. split; [done |]. by eapply configured_from.
Qed.

(** Whatever the listener answered, before and after the process. *)
Lemma left_spawned pre post p pid effects :
  left (pre ++ (Spawned p pid :: (Answered <$> effects)) ++ post)
  = (fold_left left_processes post (processes pre ++ [pid]), fold_left left_files post (files pre)).
Proof.
  rewrite app_assoc, left_app. f_equal; f_equal; unfold processes, files; rewrite fold_left_app; cbn [fold_left left_processes left_files].
  - apply (answered_neutral effects (processes pre ++ [pid]) []).
  - apply (answered_neutral effects [] (files pre)).
Qed.

(** A process, before it files that are gone after it. *)
Lemma shape_left pre post p pid effects e origin :
  processes pre = [] -> omap spawned_pid pre = [] -> omap spawned_pid post = [] -> (forall ps, fold_left left_processes post ps = ps) ->
  fold_left left_files post (files pre) = [] -> (forall x, e = Some (Ok x) -> fst x = pid /\ origin p (snd x)) ->
  launch_left {| did := pre ++ (Spawned p pid :: (Answered <$> effects)) ++ post; connectionFile := None; ended := e |} [] origin.
Proof.
  intros H1 H2 H3 H4 H5 He. set (acts := pre ++ _ ++ post).
  assert (omap spawned_pid acts = [pid]) as Hs by (unfold acts; rewrite !omap_app, H2, H3; cbn; by rewrite answered_spawned).
  assert (left acts = ([pid], [])) as Hl by (unfold acts; by rewrite left_spawned, H4, H5, H1).
  assert (Spawned p pid ∈ acts) as Hin by (unfold acts; rewrite elem_of_app; right; by left). clearbody acts.
  assert (left (acts ++ [Killed pid]) = ([], [])) as Hk.
  { rewrite left_app. apply left_inv in Hl as [-> ->]. cbn. by rewrite Z.eqb_refl. }
  unfold launch_left, destroy_session. cbn [ended did connectionFile app]. rewrite Hs.
  destruct e as [[[pid' config] | w |]|]; [| exact Hk | exact Hk | done].
  destruct (He _ eq_refl) as [Hpid Ho]. cbn in Hpid, Ho. subst pid'. split; [done |]. by exists p.
Qed.

Definition own (p : KernelProcessOptions) (s : Supervisor) (q : KernelProcessOptions) (config : KernelConfiguration) : Prop :=
  if of_type o "ark" then True
  else q = with_absolute sys (with_launch [] [] false (guid sys) (m_registrationKey s) p)
       /\ from_registration (m_registrationKey s) (guid sys) config.

Lemma registering_left p s : launch_left (start_registering sys i o p s) [] (own p s).
Proof.
  unfold start_registering, own. destruct (of_type o "ark").
  - destruct (ark_registration_file _ _ _) as [text | w |]; [| done | done].
    match goal with |- context [spawn_and_wait sys ?x ?q s] => pose proof (wait_shape s x q) as H; destruct (spawn_and_wait sys x q s) as [acts e] end.
    destruct H as [[-> He] | (pid & effects & -> & He)].
    + unfold launch_left, destroy_session, left, processes, files.
      destruct e as [[x | w |]|]; [by destruct (He x) | | | done]; cbn; by rewrite str_eqb_refl.
    + destruct e as [e|]; [| done].
      apply (shape_left [WroteFile (ark_path sys i) text] [RemovedFile (ark_path sys i)] _ pid effects (Some e)); try done.
      * cbn. by rewrite str_eqb_refl.
      * intros x Hx. split; [by apply He | done].
  - match goal with |- context [spawn_and_wait sys ?x ?q s] => pose proof (wait_shape s x q) as H; destruct (spawn_and_wait sys x q s) as [acts e] end.
    destruct H as [[-> He] | (pid & effects & -> & He)]; [destruct e as [[x | w |]|]; [by destruct (He x) | done | done | done] |].
    rewrite <- (app_nil_r (_ :: _)). apply (shape_left [] [] _ pid effects e); try done. intros x Hx. split; [by apply He |]. split; [done | by apply He].
Qed.

End Facts.

(** ** The hypotheses can hold *)
Module Toy.

Definition secret : str := "registration key"%string.

Definition registry : Registry (J := Concrete.concrete) :=
  {| m_kernelExePaths := {["python"%string : str := "/opt/carpo"%string : str]}; store := []; m_sessions := ∅; connections := ∅; openConnections := 0;
     sent := []; pushed := []; closed := []; shutdown_requested := false |}.

Definition supervisor : Supervisor :=
  {| Creation.registry := registry; m_registrationIp := "127.0.0.1"%string; m_registrationPort := "5555"%string;
     m_registrationKey := secret; path_variable := None |}.

Definition options_of (type : string) : SessionOptions :=
  {| kernelType := type; rHome := []; rPath := []; rLibs := []; pandocPath := []; pythonHome := "/usr"%string; pythonPath := []; venvPath := [];
     stataHome := []; stataEdition := []; arkPath := "/opt/ark"%string; kernelArgv := ["java"%string : str; "-f={connection_file}"%string : str];
     kernelEnv := ∅; kernelInterruptMode := []; workingDirectory := [] |}.

(** What a kernel sends to register. *)
Definition registration_message : Wire.frames :=
  match connectionInfo (J := Concrete.concrete) (Ossl := Stub.stub) example_kernel example_ports
          (OpensslAuthentication "SHA256"%string secret) Strict with
  | Ok wire => ("id"%string : str) :: wire
  | _ => []
  end.

(** A system on which programs run but for [exec]'s error, and a kernel
    registers when [registers]. *)
Definition system (launch_id : str) (exec : option Z) (registers : bool) : System :=
  {| is_regular _ := true; temp_directory_path := "/tmp"%string; absolute p := Some p; guid := launch_id;
     free_ports := (fun n => to_string n) <$> [50001; 50002; 50003; 50004; 50005]; ld_path_variable := "LD_LIBRARY_PATH"%string; inherited := ∅;
     starting := {| is_directory := true; output_pipe := true; status_pipe := true; forked := Some 77; chdir_errno := None; exec_errno := exec;
                    status_bytes := 4; strerror := fun _ => "No such file"%string |};
     reply_id := []; reply_date := []; started_at := 0;
     received := if registers then [{| got := Some registration_message; at_ms := 100; gone := false |}]
                 else [{| got := None; at_ms := 250; gone := true |}];
     welcomed := true |}.

Abbreviation create sys type := (createSessionWithId (J := Concrete.concrete) (Ossl := Stub.stub) sys "s1"%string (options_of type) supervisor).

Lemma python_created : snd (create (system "kernel-1"%string None true) "python") = Some (Ok ("s1"%string : str)).
Proof. vm_compute. reflexivity. Qed.


(** The whole of it, and ways it fails. *)
Definition kinds (a : Action) : str :=
  match a with
  | WroteFile path _ => "wrote "%string ++ path
  | RemovedFile path => "removed "%string ++ path
  | Spawned p _ => "spawned "%string ++ Process.kernelExePath p
  | Answered _ => "answered"%string
  | Killed _ => "killed"%string
  | Connected _ => "connected"%string
  | LoggedNoWelcome _ => "no welcome"%string
  | Polls _ => "polls"%string
  end.

Example creations :
  let did sys type := let '(_, acts, answer) := create sys type in (kinds <$> acts, answer) in
  did (system "kernel-1"%string None true) "python"
  = (["spawned /opt/carpo"%string : str; "answered"%string : str; "connected"%string : str; "polls"%string : str], Some (Ok ("s1"%string : str)))
  /\ did (system "kernel-1"%string None false) "ark"
     = (["wrote /tmp/jovian-ark-s1.json"%string : str; "spawned /opt/ark"%string : str; "removed /tmp/jovian-ark-s1.json"%string : str; "killed"%string : str],
        Some (Throw exited_text))
  /\ did (system "kernel-1"%string (Some 2) false) "ark"
     = (["wrote /tmp/jovian-ark-s1.json"%string : str; "removed /tmp/jovian-ark-s1.json"%string : str],
        Some (Throw "Failed to spawn elara process (execv failed: No such file)"%string)).
Proof. split; [| split]; vm_compute; reflexivity. Qed.

(** Ark's launch names no kernel: the registration of another one, started
    before, is taken for Ark's. *)
Example any_kernel_for_ark :
  snd (create (system "kernel-2"%string None true) "ark") = Some (Ok ("s1"%string : str))
  /\ snd (create (system "kernel-2"%string None true) "python") = None.
Proof. split; vm_compute; reflexivity. Qed.

(** On POSIX the slashes of R's directory become backslashes as well; and a
    directory counts as on PATH when another one's name begins with its. *)
Example path_of_r :
  ensureRBinOnPath "/opt/R"%string [] (Some ("/usr/bin"%string : str)) = Some ("\opt\R\bin\x64:/usr/bin"%string : str)
  /\ ensureRBinOnPath [] "C:\R\bin"%string (Some ("C:\R\bin\x64"%string : str)) = Some ("C:\R\bin\x64"%string : str).
Proof. split; vm_compute; reflexivity. Qed.
End Toy.
